(* ===== verification/_CoqProject ===== *)
-Q . S2P
Prelude.v
ModbusTypes.v
PollSpec.v
Commands.v
RequestQueues.v
Scheduler.v
ModbusContext.v
Config.v
Watchdog.v
Executor.v
ExecutorProps.v
ModbusThread.v
ConvTools.v
ConvArgs.v
Ieee.v
StdConv.v
MapConv.v
Converters.v
UnitTestsConv.v
MqttObject.v
MqttPayload.v
MqttClient.v
MqttClientProps.v
PublishedState.v
PollPath.v
Logging.v
YamlConfig.v
ObjectConfig.v
YamlProps.v
YamlTree.v
InitTermination.v
GatewayInit.v
InitProps.v
GatewayProps.v
System.v
MainLoop.v
Program.v
ExprConv.v
ContextInit.v
Mosquitto.v
Process.v
SpscQueue.v
SpscProps.v
SpscLife.v
BlockingQueue.v
BlockingProps.v
QueueMoves.v
ArghAccess.v
MockedModbus.v
UnitTestsModbus.v
MockedMqtt.v
CommandPath.v
Lifetime.v
