(* ===== verification/Prelude.v ===== *)
(** Verification of modmqttd, the gateway between Modbus networks and an MQTT
    broker.

    * The program

    One thread per Modbus network (ModbusThread) polls registers and executes
    commands; the main thread (ModMqtt, MqttClient) keeps MQTT objects up to date,
    publishes them, accepts commands and serves the RPC topic.  The two sides share
    nothing but two message queues per network: configuration, write and read
    requests go one way, register values, failures and network states the other
    way.  Converters, loaded from plugins and named in the configuration, translate
    registers to MQTT values and back.

    * Files, in dependency order

    - this file: outcomes of fallible code, machine integers, the ordered maps
      std::map stands for ([smap_find], [smap_alter], ...), tactics, and the lemmas
      on lists and integers the components share.

    Modbus side (libmodmqttsrv):
    - [ModbusTypes]: modbus_types.hpp/.cpp.  Address ranges and message headers.
    - [PollSpec]: MsgRegisterPoll and MsgRegisterPollSpecification of
      modbus_messages.hpp/.cpp.  Merging and grouping of what is to be polled.
    - [Commands]: register_poll.hpp/.cpp, the message classes of
      modbus_messages.hpp, modbusregisters.hpp.  Command objects are shared through
      pointers by scheduler, queues and executor, so they live in a [Store].
    - [RequestQueues]: modbus_request_queues.hpp/.cpp.  The two deques of a slave.
    - [Scheduler]: modbus_scheduler.hpp/.cpp.  Which polls are due, and how long the
      thread may sleep.
    - [ModbusContext]: imodbuscontext.hpp as the class [IModbusContext] with its laws,
      and modbus_context.hpp/.cpp as an instance over libmodbus.
    - [Config]: the records of config.hpp and modbus_slave.hpp.
    - [Watchdog]: modbus_watchdog.hpp/.cpp.
    - [Executor], [ExecutorProps]: modbus_executor.hpp/.cpp.  [executeNext] elects,
      delays, sends, retries and reports commands; its [World] is the store, the
      context and the messages sent so far.
    - [ModbusThread]: modbus_thread.hpp/.cpp.  One iteration of run is [loopStep].

    Conversion (libmodmqttconv, stdconv):
    - [ConvTools]: convtools.hpp and the number parsing and printing it uses.
    - [ConvArgs]: mqttvalue.hpp, convargs.hpp, argtools.hpp and the argument parser of
      conv_name_parser.cpp.
    - [Ieee]: the doubles of the program as IEEE 754 numbers, with strtod for decimal
      notation and the printing of mqttvalue.hpp.
    - [StdConv]: int8, int16, int32, uint32, bits, single_arg_ops, scale, float32 and
      string of stdconv, and the choice of a converter by name of plugin.cpp.
    - [MapConv]: map.hpp, map.cpp.
    - [Converters]: debug.hpp, converter objects, strutils.hpp, converter
      specifications and ModMqtt::createConverterFromString.

    MQTT side (libmodmqttsrv):
    - [MqttObject]: mqttobject.hpp/.cpp.  Trees of registers and availability.
    - [MqttPayload]: mqttpayload.cpp and default_command_converter.cpp.
    - [MqttClient], [MqttClientProps]: mqttclient.hpp/.cpp, mqttcommand.hpp,
      pending_rpc_request.hpp, imqttimpl.hpp, the sending methods of
      modbus_client.hpp, ModMqtt::processModbusMessages and
      ConfigTools::registerNumberFromString.
    - [PublishedState]: what the broker shows on the topics of an object, as a function
      of the log of calls of the client.
    - [PollPath]: a value from the device that answers a poll to the broker.
    - [Mosquitto]: mosquitto.hpp/.cpp, the implementation of imqttimpl.hpp the client
      is used with, and the callbacks.

    Configuration and start (libmodmqttsrv):
    - [Logging]: logging.hpp/.cpp: levels, and the calls that set spdlog up; the thread
      names of threadutils.hpp.
    - [YamlConfig]: the readers of config.hpp, config.cpp, yaml_converters.hpp and
      modbus_slave.cpp over the interface [Yaml] of a YAML node.
    - [ObjectConfig]: register names, data nodes, objects and commands, the parse
      methods and initObjects of modmqtt.cpp.
    - [YamlProps], [YamlTree]: what the readers accept and return; a tree of nodes as
      an instance of the interface, with a demonstration document.
    - [InitTermination]: reading the objects of a document ends.
    - [GatewayInit]: ModMqtt::init and what it calls, and ModbusClient::start: from the
      document to the queues of the modbus threads and the maps of the MQTT client.
    - [InitProps], [GatewayProps]: the invariants of reading, and what holds after
      init.
    - [ContextInit]: ModbusContext::init.

    The whole:
    - [System]: the client, the threads and the messages between them as one step
      relation that starts where init ends.
    - [MainLoop]: ModMqtt::start and stop, the signal handler, waiting and notifying
      with the condition variable, and ModbusClient::stop, as a program counter and
      the steps of the other threads.
    - [Program]: the main thread of [MainLoop] and the threads of [ModbusThread] with
      the two queues between them, as one step relation from init to the end.
    - [Lifetime]: plugin libraries, converters and the MQTT client from the constructor
      of ModMqtt to its destructor, with dll_import.hpp.
    - [CommandPath]: a command from the MQTT message through thread, queue and executor
      to the write on the network.
    - [Process]: main.cpp with the parser of argh.h, queue_item.hpp, debugtools.cpp.
    - [ArghAccess]: what argh.h offers to read the parsed arguments, its entry with the
      argv of main and its test for numbers.

    The queue between the threads (readerwriterqueue):
    - [SpscQueue]: readerwriterqueue.h, ReaderWriterQueue.  Blocks in a heap, the
      methods of the producer and of the consumer as program counters whose steps
      interleave, construction and destruction, and the list as a specification.
    - [SpscProps]: the invariant of the ring of blocks and the simulation of every step
      by the list.
    - [SpscLife]: from the constructor to the destructor; layout of a block in memory.
    - [BlockingQueue]: the semaphores of atomicops.h and BlockingReaderWriterQueue,
      over an inner queue that is an instance of [SpscObject].
    - [BlockingProps]: its invariant, proved with the list as inner queue and carried
      over to the blocks.
    - [QueueMoves]: move construction, assignment and swap of both queues.

    The environment of the tests (unittests):
    - [MockedModbus]: mockedmodbuscontext.hpp/.cpp.  The simulated network, an
      implementation of the interface of [ModbusContext].
    - [MockedMqtt]: mockedmqttimpl.hpp/.cpp and mockedserver.hpp.  The simulated broker,
      which the effects of [MqttClient] run on, and the thread of the server.

    The tests themselves (unittests), run on the model:
    - [UnitTestsConv]: converters, values and the parser of converter names.
    - [UnitTestsModbus]: poll specifications, request queues, scheduler and executor.

    The expression plugin (exprconv):
    - [ExprConv]: expr.hpp and plugin.cpp over an interface of exprtk.

    A record models a class, with the names of its members, and one definition each
    method; a method that changes its object takes it and returns it.  What a method
    can throw, assert or run into is a [Fault] of its [outcome]; no theorem treats a
    fault as success.  Reads of the clock are arguments, in the order of the calls.
    Logging is left out.

    * What the theorems show

    - C1, C3, [PollSpec]: merging ranges neither loses nor invents a register, keeps
      ranges apart, and serves every request at least as often as asked.
    - C4, C23, C30, C35, [SpscLife]: the queue between two threads refines a list in
      every interleaving and never fails; nothing is lost, doubled or reordered; no
      call waits for the other thread; and the destructor gives everything back.
    - C16, C20, C34, [BlockingProps]: the assertions of the blocking queue hold, a
      consumer sleeps only when there is nothing for it, and timeouts leave the
      counter exact.
    - C2, C11, [MainLoop]: no notification is lost while the main thread sleeps, and a
      stop request ends its loop.
    - C10, C33, [Program]: in the whole program, whatever the broker, the devices, the
      clocks and the scheduling of the threads do: from the state init leaves, for a
      document with positive counts, the assertion of processRegisterValues holds;
      from any state with its threads started, the reports of a thread, also of one
      that an exception ends, are handled once and in their order, and when start has
      returned every thread has ended and all of its reports have been handled.
    - C5, C8, C27, [GatewayProps]: for a document with positive counts, after init every
      range a thread polls has objects to update, every register of every object is
      polled by the thread of its network, objects have different topics and commands
      different ids.
    - C6, [PublishedState]: after every event the broker shows the current state of a
      retained object, not in publish mode once, on its topic, and its availability.
    - C7, [RequestQueues]: after how many turns a command is handed out at the latest;
      the deques do not starve each other, but commands that are put back in front
      delay the others.
    - C9, [Scheduler]: exactly the due polls are returned, in order, and the sleeping
      time never misses one.
    - C12, C31, [YamlProps]: the type a network configuration has that the parser
      returns, and that reading a register name is matching the regular expression of
      the source, group by group; C32, [InitTermination]: parsing the objects of a
      finite document ends.
    - C13-C15, C17-C19, [ExecutorProps]: the invariant of all reachable states, one
      command and one request at a time without loss or duplication, the delays, the
      number of attempts over any sequence of calls, and what the main thread is told.
    - C21, C22, C25, [ModbusThread]: network states are reported truthfully, the poll
      phase of an iteration ends well or with the exception of a refused write, and
      slave settings do not depend on the order of messages.
    - C24, [CommandPath]: a command arrives: one write of its registers to its slave,
      and one answer to the main thread; with the two ways in which the thread can fail
      on it.
    - C36, [PollPath]: a value arrives: what a device answers to a poll is in the
      registers of the objects, and in what the broker shows of those that are retained
      and not in publish mode once.
    - C26, [ExprConv]: what a write helper writes is what the function of the same name
      reads.
    - C28, C29: the round trips of the conversions, from converter specifications to
      what they configure and from values to register words and back, with the values
      that are refused.
    - C37-C38, [MqttObject]: a tree of nodes refines the list of its registers, and
      availability always is what they call for.
    - C39-C40, [MqttClientProps]: over every history of events no RPC request is
      answered twice, and none is forgotten but by a loss of the broker while the MQTT
      library accepts the replies; an object in publish mode once is published once.

    Theorems without a number say more about the same components: grouping
    ([group_polled], [groupRegs_maximal]), the order of writes
    ([write_queue_fifo]), round robin ([electNext_round_robin]), when
    a reconnect is asked for ([reconnect_iff_failing]), silence without a broker
    ([no_polling_without_mqtt]), floats and maps ([float32_roundtrip],
    [parsed_map_injective], [map_parse_printed], [map_command_roundtrip]), the end of
    a thread ([end_work_stops]) and of the main loop ([shutdown_complete]), the same
    assertion when messages may overtake each other ([polled_values_have_objects]),
    commands that are refused ([command_refused]), silence periods
    ([findForSilencePeriod_spec]), times and
    number lists ([as_millis_exact], [as_ranges_print]), the results of a context
    ([ctxRead_values]) and of an expression ([exprToModbus_exact]), the interface the
    MQTT wrapper implements ([perform_implements_interface]), the protocol RPC needs
    ([rpc_mode_protocol]), the command line ([command_line], [parsed_params_range],
    [dash_is_option], [documented_command_line]),
    sizes and addresses of the queue ([ceilToPow2_spec], [block_fits],
    [size_approx_exact]), its moves ([moveQueue_contents], [blocking_moves],
    [assignment_without_memory]), the digits that are published, those of the decimal
    nearest to the number ([published_digits_nearest]), libraries that outlive their
    converters ([libraries_outlive_converters]) and the end of the MQTT library
    ([cleanup_before_destroy]), the end of the loop after a timeout ([restore_ends]) and its
    deadline ([deadline_exact]).  The simulated network is a memory with errors
    ([mock_read_memory], [mock_write_memory], [mock_write_read]) that keeps the laws of
    the interface for words but not for bits ([mock_words_law], [mock_bits_departs]);
    the simulated broker counts what is published and confirms it in order
    ([publish_count_exact], [confirmations_in_order]).  The model passes the tests of
    the repository that are stated over it ([converter_tests_pass],
    [request_tests_pass], [executor_tests_pass]), but for three whose first line is
    undefined behaviour ([first_write_of_unknown_slave]).

    Beside them stand theorems about inputs on which the code does not do what its
    comments or documentation say; each has a comment that says so.

    * Interfaces

    Code that is not part of the repository is a class whose operations are
    parameters: [Libmodbus] with [LibmodbusLaws] (the manual pages: a call reports
    success with as many items as asked for, or failure), [LibmodbusSetup] with
    [LibmodbusSetupLaws] (which timeouts are accepted), [CDouble] with [CDoubleLaws]
    (IEEE 754: integers of up to 53 bits and floats are exact as doubles; [ieeeLaws]
    proves them of the numbers of [Ieee]), [Yaml] with
    [YamlLaws] (a call returns or throws, and numbers have their type's range),
    [Exprtk] and [Rapidjson] (their calls, without laws).  Whether a call of
    the MQTT library throws, and the time, are a [ClientEnv]; the factory of contexts
    and the existence of a device file are arguments of the thread; the codes of
    libmosquitto are arguments of its wrapper, the file system and the plugins an
    [InitEnv], the dynamic linker a [Linker].  [SpscObject] is what the blocking queue asks of its inner queue;
    [spscObject] (the blocks) and [fifoObject] (the list) are its instances.  [Device], [IntDouble], [DemoJson], [YNode] and [DemoExprtk] are
    concrete instances with which the witnesses compute.

    What a configuration document has to be like, beyond what init checks, is said by
    predicates of the document that the theorems that need them name: [nested] (it is
    finite, without an alias to a node around it) and [positiveCounts] (every count is
    at least 1 and no list of registers is empty).  The log of the MQTT client
    ([implCall]) holds the calls that the library has accepted.

    * Bounds and fuel

    Registers are 16 bit words ([is_u16]) and int, int32_t, int64_t values keep their
    width where it can be exceeded ([to_i32] and the like); durations and times are
    unbounded, except where an overflow is the point.  The search for the next queue
    runs with [Executor.searchFuel], enough for one turn over the map and the queues
    behind its start: [Diverges] is returned exactly when the loop of the source does
    not end, which takes all queues to be empty and the current one to be the first.
    [Numbers.digits] runs with [Numbers.digitFuel], at least the number of decimal
    digits ([digitFuel_enough]).  [parseObjectDataNode] recurses on nested lists of
    registers with a fuel; the depth of a finite document ([nested]) is enough
    ([initObjects_halts]).
    [mainRun] counts the steps of the main thread and is used in existential
    statements only.  The loops of the lock-free queue over its blocks run with the
    number of blocks as fuel, which the theorems show to be enough, and a call of it
    makes at most [opSteps] steps.  Blocks are numbered in an address space of 48 bits
    ([maxBlocks]); no width is exceeded within it.  The loop of a thread takes the environments of its
    iterations as a list; everything else is structurally recursive.

    * Not modelled

    The steps of the lock-free queue interleave with sequential consistency: the
    fences and memory orders of atomicops.h, which make weaker machines behave like
    that, and its semaphores for Windows and Mach are not modelled, nor elements whose
    copy constructors throw.  The other components see a queue as a list, which C4,
    C16 and C23 justify.  A queue is moved in [QueueMoves] while no thread uses it.  The
    text of log messages, and what spdlog does with them.  In [Program] callbacks of the
    MQTT library run between two steps of the main thread, although nothing in the code
    keeps them apart.  Numbers in hexadecimal notation, infinities and NaN as texts for
    strtod.  The test cases that start a server with its threads and wait for what it
    does; time spent sleeping in their environment. *)

From stdpp Require Import base gmap list strings sorting.
From Stdlib Require Import ZArith Lia.

#[global] Open Scope Z_scope.

(** * Outcomes

    C++ code either returns, throws, or runs into undefined behaviour (a failed
    [assert], a dereference of an end iterator or of a null pointer, a shift by a
    negative amount, the top of an empty stack).  Every
    fallible operation of the development returns an [outcome]. *)

Inductive fault : Type :=
| AssertionFailed
| EndDereferenced
| NullDereferenced
| UndefinedBehaviour
| Diverges
| ConvException (what : string)
| StdException (what : string)
| MosquittoException (what : string)
| PayloadException (what : string).

Inductive outcome (A : Type) : Type :=
| Ret (a : A)
| Fault (f : fault).
Arguments Ret {A} a.
Arguments Fault {A} f.

#[export] Instance fault_eq_dec : EqDecision fault.
Proof. solve_decision. Defined.

Definition obind {A B} (m : outcome A) (k : A -> outcome B) : outcome B :=
  match m with
  | Ret a => k a
  | Fault f => Fault f
  end.

Declare Scope outcome_scope.
Delimit Scope outcome_scope with outcome.
Notation "'let!' x ':=' m 'in' k" := (obind m (fun x => k))
  (at level 10, x pattern, m at level 100, k at level 200,
   format "'[v' 'let!'  x  ':='  m  'in' '/' k ']'") : outcome_scope.
#[global] Open Scope outcome_scope.

(** The outcome is a value, and the value satisfies [P]. *)
Definition returns {A} (m : outcome A) (P : A -> Prop) : Prop :=
  match m with
  | Ret a => P a
  | Fault _ => False
  end.

Definition is_ret {A} (m : outcome A) : bool :=
  match m with Ret _ => true | Fault _ => false end.

(** * Machine integers *)

Definition UINT16_MAX : Z := 65535.
Definition INT16_MIN : Z := -32768.
Definition INT16_MAX : Z := 32767.
Definition INT_MIN : Z := -2147483648.
Definition INT_MAX : Z := 2147483647.
Definition INT64_MIN : Z := - 2 ^ 63.
Definition INT64_MAX : Z := 2 ^ 63 - 1.

(** Conversions to an unsigned or signed type of the given width: modulo
    [2^width], then two's complement for the signed ones. *)
Definition to_u8 (x : Z) : Z := x mod 2 ^ 8.
Definition to_u16 (x : Z) : Z := x mod 2 ^ 16.
Definition to_u32 (x : Z) : Z := x mod 2 ^ 32.
Definition to_u64 (x : Z) : Z := x mod 2 ^ 64.
Definition to_signed (w : Z) (x : Z) : Z :=
  let m := x mod 2 ^ w in
  if m <? 2 ^ (w - 1) then m else m - 2 ^ w.
Definition to_i8 : Z -> Z := to_signed 8.
Definition to_i16 : Z -> Z := to_signed 16.
Definition to_i32 : Z -> Z := to_signed 32.
Definition to_i64 : Z -> Z := to_signed 64.

Definition is_u16 (x : Z) : Prop := 0 <= x < 2 ^ 16.
Definition is_i16 (x : Z) : Prop := - 2 ^ 15 <= x < 2 ^ 15.
Definition is_i32 (x : Z) : Prop := - 2 ^ 31 <= x < 2 ^ 31.
Definition is_u32 (x : Z) : Prop := 0 <= x < 2 ^ 32.

#[export] Instance is_u16_dec x : Decision (is_u16 x).
Proof. unfold is_u16. apply _. Defined.

#[export] Instance is_i16_dec x : Decision (is_i16 x).
Proof. unfold is_i16. apply _. Defined.

Ltac zdivmod := Z.div_mod_to_equations; nia.

Lemma to_u16_range x : is_u16 (to_u16 x).
Proof. unfold is_u16, to_u16. apply Z.mod_pos_bound. lia. Qed.

Lemma to_u16_small x : is_u16 x -> to_u16 x = x.
Proof. unfold is_u16, to_u16. intros. apply Z.mod_small. lia. Qed.

Lemma to_signed_range w x :
  0 < w -> - 2 ^ (w - 1) <= to_signed w x < 2 ^ (w - 1).
Proof.
  intros Hw. unfold to_signed.
  assert (2 ^ w = 2 * 2 ^ (w - 1)) as E
    by (rewrite <- Z.pow_succ_r by lia; f_equal; lia).
  pose proof (Z.mod_pos_bound x (2 ^ w)) as B.
  assert (0 < 2 ^ (w - 1)) by (apply Z.pow_pos_nonneg; lia).
  destruct (Z.ltb_spec (x mod 2 ^ w) (2 ^ (w - 1))); lia.
Qed.

Lemma to_signed_small w x :
  0 < w -> - 2 ^ (w - 1) <= x < 2 ^ (w - 1) -> to_signed w x = x.
Proof.
  intros Hw Hx. unfold to_signed.
  assert (2 ^ w = 2 * 2 ^ (w - 1)) as E
    by (rewrite <- Z.pow_succ_r by lia; f_equal; lia).
  destruct (Z_lt_le_dec x 0).
  - rewrite <- (Z.mod_add x 1 (2 ^ w)) by lia.
    rewrite Z.mod_small by lia.
    destruct (Z.ltb_spec (x + 1 * 2 ^ w) (2 ^ (w - 1))); lia.
  - rewrite Z.mod_small by lia.
    destruct (Z.ltb_spec x (2 ^ (w - 1))); lia.
Qed.

(** Signed reinterpretation only depends on the value modulo [2^w]. *)
Lemma to_signed_mod w x : 0 < w -> to_signed w (x mod 2 ^ w) = to_signed w x.
Proof.
  intros Hw. unfold to_signed. rewrite Z.mod_mod by (apply Z.pow_nonzero; lia). done.
Qed.

Lemma to_signed_unsigned w x :
  0 < w -> to_signed w x mod 2 ^ w = x mod 2 ^ w.
Proof.
  intros Hw. unfold to_signed.
  destruct (Z.ltb_spec (x mod 2 ^ w) (2 ^ (w - 1))).
  - apply Z.mod_mod, Z.pow_nonzero; lia.
  - rewrite <- (Z.mod_add _ 1 (2 ^ w)) by (apply Z.pow_nonzero; lia).
    replace (x mod 2 ^ w - 2 ^ w + 1 * 2 ^ w) with (x mod 2 ^ w) by lia.
    apply Z.mod_mod, Z.pow_nonzero; lia.
Qed.

(** * Ordered maps: std::map<int, V>

    A [std::map] keyed by integers is an association list kept in increasing key
    order, because the code iterates over it (and keeps iterators into it): an
    iterator is the key it points at, [None] is [end()]. *)

Section smap.
Context {V : Type}.
Implicit Types m : list (Z * V).

Fixpoint smap_find (k : Z) m : option V :=
  match m with
  | [] => None
  | (k', v) :: m' => if k =? k' then Some v else smap_find k m'
  end.

(** [f] applied to [m[k]], where [operator[]] first inserts [d] at a missing
    key. *)
Fixpoint smap_alter (d : V) (f : V -> V) (k : Z) m : list (Z * V) :=
  match m with
  | [] => [(k, f d)]
  | (k', v) :: m' =>
      if k <? k' then (k, f d) :: (k', v) :: m'
      else if k =? k' then (k', f v) :: m'
      else (k', v) :: smap_alter d f k m'
  end.

(** [m.insert({k, v})]: keeps the old value of an existing key. *)
Definition smap_insert (k : Z) (v : V) m : list (Z * V) := smap_alter v id k m.

(** [m[k] = v] *)
Definition smap_set (k : Z) (v : V) m : list (Z * V) := smap_alter v (fun _ => v) k m.

Definition smap_begin m : option Z := fst <$> head m.

(** The iterator after [k]; [None] is [end()]. *)
Fixpoint smap_next (k : Z) m : option Z :=
  match m with
  | [] => None
  | (k', _) :: m' => if k =? k' then smap_begin m' else smap_next k m'
  end.

Definition smap_keys m : list Z := fst <$> m.

Definition smap_wf m : Prop := StronglySorted Z.lt (smap_keys m).

Lemma smap_alter_keys d f k m j :
  j ∈ smap_keys (smap_alter d f k m) <-> j = k \/ j ∈ smap_keys m.
Proof.
  unfold smap_keys. induction m as [|[k' v] m IH]; simpl.
  - set_solver.
  - destruct (Z.ltb_spec k k'); [set_solver|].
    destruct (Z.eqb_spec k k') as [->|]; csimpl; [set_solver|].
    rewrite !elem_of_cons, IH. naive_solver.
Qed.

Lemma smap_alter_wf d f k m : smap_wf m -> smap_wf (smap_alter d f k m).
Proof.
  unfold smap_wf. induction m as [|[k' v] m IH]; csimpl; intros H.
  - repeat constructor.
  - apply StronglySorted_inv in H as [Hs Hf].
    destruct (Z.ltb_spec k k'); csimpl.
    + repeat constructor; try done.
      eapply Forall_impl; [exact Hf|]. simpl. lia.
    + destruct (Z.eqb_spec k k') as [->|]; csimpl; constructor; auto.
      apply Forall_forall. intros j Hj.
      apply smap_alter_keys in Hj as [->|Hj]; [lia|].
      rewrite Forall_forall in Hf. auto.
Qed.

Lemma smap_wf_head_notin k v m j :
  smap_wf ((k, v) :: m) -> j < k -> smap_find j m = None.
Proof.
  unfold smap_wf. csimpl. intros H Hj. apply StronglySorted_inv in H as [_ H].
  induction m as [|[k' v'] m IH]; simpl; [done|].
  csimpl in H. apply Forall_cons in H as [? ?].
  destruct (Z.eqb_spec j k'); [lia|]. auto.
Qed.

Lemma smap_find_alter d f k m j :
  smap_wf m ->
  smap_find j (smap_alter d f k m)
  = if decide (j = k) then Some (f (default d (smap_find k m))) else smap_find j m.
Proof.
  induction m as [|[k' v] m IH]; intros W; simpl.
  - destruct (Z.eqb_spec j k), (decide (j = k)); congruence.
  - pose proof W as W'. apply StronglySorted_inv in W' as [W' _].
    destruct (Z.ltb_spec k k'); simpl.
    + destruct (Z.eqb_spec j k) as [->|].
      * rewrite decide_True by done. destruct (Z.eqb_spec k k'); [lia|].
        by rewrite (smap_wf_head_notin _ _ _ _ W).
      * by rewrite decide_False.
    + destruct (Z.eqb_spec k k') as [->|]; simpl.
      * destruct (Z.eqb_spec j k'), (decide (j = k')); congruence.
      * rewrite IH by done. destruct (Z.eqb_spec j k') as [->|]; [|done].
        by rewrite decide_False.
Qed.

Lemma smap_find_set k v m j :
  smap_wf m ->
  smap_find j (smap_set k v m) = if decide (j = k) then Some v else smap_find j m.
Proof. apply smap_find_alter. Qed.

Lemma smap_find_insert k v m j :
  smap_wf m ->
  smap_find j (smap_insert k v m)
  = if decide (j = k) then Some (default v (smap_find k m)) else smap_find j m.
Proof. apply smap_find_alter. Qed.

Lemma smap_find_elem k v m : smap_find k m = Some v -> (k, v) ∈ m.
Proof.
  induction m as [|[k' v'] m IH]; simpl; [done|].
  destruct (Z.eqb_spec k k') as [->|]; [intros [= ->]; left|]. right; auto.
Qed.

Lemma smap_elem_find k v m : smap_wf m -> (k, v) ∈ m -> smap_find k m = Some v.
Proof.
  induction m as [|[k' v'] m IH]; intros W H; [by apply elem_of_nil in H|]. simpl.
  pose proof W as W'. apply StronglySorted_inv in W' as [W1 W2].
  apply elem_of_cons in H as [[= -> ->]|H]; [by rewrite Z.eqb_refl|].
  destruct (Z.eqb_spec k k') as [->|]; [|by apply IH].
  rewrite Forall_forall in W2.
  assert (k' < k') by (apply W2; apply list_elem_of_fmap; by exists (k', v)). lia.
Qed.

Lemma smap_find_keys k m : is_Some (smap_find k m) <-> k ∈ smap_keys m.
Proof.
  unfold smap_keys. induction m as [|[k' v] m IH]; csimpl.
  - split; [by intros [? ?] | by intros ?%elem_of_nil].
  - rewrite elem_of_cons, <- IH. destruct (Z.eqb_spec k k'); naive_solver.
Qed.

(** [m.erase(it)] *)
Definition smap_erase (k : Z) m : list (Z * V) := filter (fun kv => kv.1 <> k) m.

Lemma smap_alter_app d f k m1 m2 :
  Forall (fun kv => kv.1 < k) m1 -> smap_alter d f k (m1 ++ m2) = m1 ++ smap_alter d f k m2.
Proof.
  induction m1 as [|[k' v] m1 IH]; intros H; simpl; [done|].
  apply Forall_cons in H as [H1 H2]. simpl in H1.
  destruct (Z.ltb_spec k k'); [lia|]. destruct (Z.eqb_spec k k'); [lia|].
  by rewrite IH.
Qed.

Lemma smap_find_app_lt k m1 m2 :
  Forall (fun kv => kv.1 < k) m1 -> smap_find k (m1 ++ m2) = smap_find k m2.
Proof.
  induction m1 as [|[k' v] m1 IH]; intros H; simpl; [done|].
  apply Forall_cons in H as [H1 H2]. simpl in H1.
  destruct (Z.eqb_spec k k'); [lia|]. auto.
Qed.

(** What [f] adds to a value is added to the union over all values. *)
Lemma smap_alter_perm {A} (g : V -> list A) d f k m (x : list A) :
  g d = [] -> (forall v, g (f v) ≡ₚ g v ++ x) ->
  concat (g ∘ snd <$> smap_alter d f k m) ≡ₚ concat (g ∘ snd <$> m) ++ x.
Proof.
  intros Hd Hf. induction m as [|[k' v] m IH]; csimpl.
  - by rewrite Hf, Hd, app_nil_r.
  - destruct (k <? k'); csimpl.
    + rewrite Hf, Hd. simpl. solve_Permutation.
    + destruct (k =? k'); csimpl.
      * rewrite Hf. solve_Permutation.
      * rewrite IH. solve_Permutation.
Qed.

Lemma smap_alter_Forall (P : Z -> V -> Prop) d f k m :
  (P k (f d)) -> (forall v, P k v -> P k (f v)) ->
  Forall (fun kv => P kv.1 kv.2) m -> Forall (fun kv => P kv.1 kv.2) (smap_alter d f k m).
Proof.
  intros Hd Hf. induction m as [|[k' v] m IH]; simpl; intros H; [by repeat constructor|].
  apply Forall_cons in H as [H1 H2]. simpl in H1.
  destruct (Z.ltb_spec k k'); [by repeat constructor|].
  destruct (Z.eqb_spec k k') as [->|]; constructor; simpl; auto.
Qed.

(** A key splits a map into what is before it, its value, and what is after. *)
Lemma smap_split k v m :
  smap_wf m -> smap_find k m = Some v ->
  exists m1 m2, m = m1 ++ (k, v) :: m2
    /\ Forall (fun kv => kv.1 < k) m1 /\ Forall (fun kv => k < kv.1) m2.
Proof.
  induction m as [|[k' v'] m IH]; intros W F; [done|]. simpl in F.
  apply StronglySorted_inv in W as [W1 W2].
  change (Forall (Z.lt k') (fst <$> m)) in W2. rewrite Forall_fmap in W2.
  destruct (Z.eqb_spec k k') as [->|].
  - injection F as ->. exists [], m. split; [done|]. split; [by apply Forall_nil|exact W2].
  - destruct (IH W1 F) as (m1 & m2 & -> & H1 & H2).
    exists ((k', v') :: m1), m2. split; [done|]. split; [|done].
    apply Forall_app in W2 as [_ W2]. apply Forall_cons in W2 as [W2 _].
    apply Forall_cons. split; [exact W2|done].
Qed.

Lemma smap_next_app k v m1 m2 :
  Forall (fun kv => kv.1 < k) m1 -> smap_next k (m1 ++ (k, v) :: m2) = smap_begin m2.
Proof.
  induction m1 as [|[k' v'] m1 IH]; intros H; simpl; [by rewrite Z.eqb_refl|].
  apply Forall_cons in H as [H1 H2]. simpl in H1.
  destruct (Z.eqb_spec k k'); [lia|]. auto.
Qed.

Lemma smap_set_app k v v' m1 m2 :
  Forall (fun kv => kv.1 < k) m1 ->
  smap_set k v' (m1 ++ (k, v) :: m2) = m1 ++ (k, v') :: m2.
Proof.
  intros H. unfold smap_set. rewrite smap_alter_app by done. simpl.
  by rewrite Z.ltb_irrefl, Z.eqb_refl.
Qed.

(** Replacing a value replaces its part of the union over all values. *)
Lemma smap_set_perm {A} (g : V -> list A) k v v' m (x : list A) :
  smap_wf m -> smap_find k m = Some v -> g v ≡ₚ x ++ g v' ->
  concat (g ∘ snd <$> m) ≡ₚ x ++ concat (g ∘ snd <$> smap_set k v' m).
Proof.
  intros W F Hg. destruct (smap_split _ _ _ W F) as (m1 & m2 & -> & H1 & _).
  rewrite smap_set_app by done. rewrite !fmap_app, !concat_app. csimpl.
  rewrite Hg. solve_Permutation.
Qed.

End smap.

Lemma forallb_Forall {A} (f : A -> bool) l : forallb f l = true <-> Forall (fun x => f x = true) l.
Proof.
  rewrite forallb_forall, Forall_forall. by split; intros H x Hx; apply H, list_elem_of_In.
Qed.

Lemma forallb_Exists {A} (f : A -> bool) l : forallb f l = false -> Exists (fun x => f x = false) l.
Proof.
  induction l as [|x l IH]; [done|]. cbn [forallb]. destruct (f x) eqn:E; [|by left].
  intros H. right. by apply IH.
Qed.

Lemma existsb_ext {A} (f g : A -> bool) l : (forall x, f x = g x) -> existsb f l = existsb g l.
Proof. intros E. induction l as [|x l IH]; cbn [existsb]; [done|]. by rewrite E, IH. Qed.

(** * Loops that may throw *)

Fixpoint foldM {A B} (f : B -> A -> outcome B) (l : list A) (b : B) : outcome B :=
  match l with
  | [] => Ret b
  | a :: l' => let! b' := f b a in foldM f l' b'
  end.

(** An invariant of the rounds of a loop holds at its end. *)
Lemma foldM_inv {A B} (I : B -> Prop) (f : B -> A -> outcome B) l b b' :
  (forall x y y', x ∈ l -> I y -> f y x = Ret y' -> I y') ->
  I b -> foldM f l b = Ret b' -> I b'.
Proof.
  revert b. induction l as [|a l IH]; intros b P Ib E; [by injection E as <-|].
  cbn [foldM] in E. destruct (f b a) as [b1|] eqn:F; cbn [obind] in E; [|done].
  apply (IH b1); [|eapply P; [by left| |]; done|done].
  intros x y y' Hx. apply P. by right.
Qed.

(** What one round of a loop achieves and the others keep, under an invariant, holds
    at its end. *)
Lemma foldM_reach {A B} (I J : B -> Prop) (f : B -> A -> outcome B) l x b b' :
  x ∈ l -> (forall z y y', z ∈ l -> I y -> f y z = Ret y' -> I y' /\ (J y -> J y')) ->
  (forall y y', I y -> f y x = Ret y' -> J y') -> I b -> foldM f l b = Ret b' -> J b'.
Proof.
  intros Hx K R. revert b. induction l as [|a l IH]; intros b Ib E; [by apply elem_of_nil in Hx|].
  cbn [foldM] in E. destruct (f b a) as [b1|] eqn:F; cbn [obind] in E; [|done].
  destruct (K a b b1) as [I1 _]; [by left|done|done|].
  apply elem_of_cons in Hx as [->|Hx].
  - apply (foldM_inv (fun y => I y /\ J y) f l b1 b'); [|split; [done|exact (R b b1 Ib F)]|done].
    intros z y y' Hz [Iy Jy] Fz. destruct (K z y y'); [by right|done|done|]. auto.
  - apply (IH Hx) with (b := b1); [|done|done]. intros z y y' Hz. apply K. by right.
Qed.

(** A loop whose rounds return returns. *)
Lemma foldM_total {A B} (I : B -> Prop) (f : B -> A -> outcome B) l b :
  (forall x y, x ∈ l -> I y -> exists y', f y x = Ret y' /\ I y') -> I b ->
  exists b', foldM f l b = Ret b' /\ I b'.
Proof.
  revert b. induction l as [|a l IH]; intros b T Ib; [by exists b|]. cbn [foldM].
  destruct (T a b) as (b1 & -> & I1); [by left|done|]. cbn [obind].
  apply IH; [|done]. intros x y Hx. apply T. by right.
Qed.

Lemma foldM_app {A B} (f : B -> A -> outcome B) l1 l2 b :
  foldM f (l1 ++ l2) b = (let! b' := foldM f l1 b in foldM f l2 b').
Proof.
  revert b. induction l1 as [|a l1 IH]; intros b; [done|]. cbn [foldM app].
  destruct (f b a); cbn [obind]; [apply IH|done].
Qed.

(** The value of a computation that returned. *)
Lemma obind_Ret {A B} (m : outcome A) (k : A -> outcome B) b :
  obind m k = Ret b -> exists a, m = Ret a /\ k a = Ret b.
Proof. destruct m; cbn; [eauto|done]. Qed.

(** Takes apart a computation that returned. *)
Ltac bind_inv H :=
  let x := fresh "x" in let E := fresh "E" in
  apply obind_Ret in H as (x & E & H).

(** * Computations that end

    A computation that returns or throws, or runs into a signed overflow or another
    operation the language leaves undefined.  It fails no assertion, dereferences no
    end iterator and no null pointer, and does not go on for ever: the fault [Diverges]
    stands for running out of fuel. *)
Definition ending (f : fault) : bool :=
  match f with
  | AssertionFailed | EndDereferenced | NullDereferenced | Diverges => false
  | _ => true
  end.
Definition halts {A} (m : outcome A) : Prop :=
  match m with Ret _ => True | Fault f => ending f = true end.

Lemma halts_bind {A B} (m : outcome A) (k : A -> outcome B) :
  halts m -> (forall a, m = Ret a -> halts (k a)) -> halts (obind m k).
Proof. destruct m as [a|f]; cbn; auto. Qed.

Lemma halts_foldM {A B} (f : B -> A -> outcome B) l b :
  (forall x y, x ∈ l -> halts (f y x)) -> halts (foldM f l b).
Proof.
  revert b. induction l as [|x l IH]; intros b Hf; cbn [foldM]; [done|].
  apply halts_bind; [apply Hf; left|]. intros b' _. apply IH. intros y z Hy. apply Hf. by right.
Qed.

Create HintDb halts.

(** Takes a computation apart: binds, loops, conditions; the rest is for the hints. *)
Ltac halts_step :=
  match goal with
  | |- halts (Ret _) => exact I
  | |- halts (Fault _) => reflexivity
  | |- halts (obind _ _) => apply halts_bind; [|intros ? ?]
  | |- halts (foldM _ _ _) => apply halts_foldM; intros; cbn beta
  | |- halts (match ?x with _ => _ end) => destruct x eqn:?
  | |- halts _ => solve [eauto with halts]
  end.
Ltac halts_tac := repeat halts_step.

(** * The order of std::string *)

Lemma string_compare_trans a b c :
  String.compare a b = Lt -> String.compare b c = Lt -> String.compare a c = Lt.
Proof.
  revert b c. induction a as [|x a IH]; intros [|y b] [|z c]; cbn; try done.
  unfold Ascii.compare.
  destruct (N.compare_spec (Ascii.N_of_ascii x) (Ascii.N_of_ascii y)), (N.compare_spec (Ascii.N_of_ascii y) (Ascii.N_of_ascii z)),
    (N.compare_spec (Ascii.N_of_ascii x) (Ascii.N_of_ascii z)); try done; try lia. apply IH.
Qed.

Lemma string_ltb_lt a b : String.ltb a b = true <-> String.compare a b = Lt.
Proof. unfold String.ltb. by destruct (String.compare a b). Qed.

Lemma string_ltb_irrefl a : String.ltb a a = false.
Proof. unfold String.ltb. pose proof (String.compare_antisym a a) as E. by destruct (String.compare a a). Qed.

Lemma string_total a b : String.ltb a b = false -> String.ltb b a = false -> a = b.
Proof.
  unfold String.ltb. rewrite (String.compare_antisym b a). destruct (String.compare a b) eqn:E; try done.
  intros _ _. by apply String.compare_eq_iff.
Qed.
