(* ===== verification/ModbusTypes.v ===== *)
(** Modbus address ranges and message headers: libmodmqttsrv/modbus_types.hpp
    and modbus_types.cpp, plus the enums of common.hpp.

    A range is a first register, a count and a register type.  The theorems
    relate the interval arithmetic of the code to the set of register addresses
    a range stands for ([covers]). *)

From stdpp Require Import base list.
From Stdlib Require Import ZArith Lia.
From S2P Require Import Prelude.

(** enum RegisterType *)
Inductive RegisterType : Type := COIL | BIT | HOLDING | INPUT.

(** enum ModbusWriteMode *)
Inductive ModbusWriteMode : Type := AUTO | FORCE_MULTIPLE_REGISTERS.

(** typedef enum PublishMode (common.hpp) *)
Inductive PublishMode : Type := ON_CHANGE | EVERY_POLL | ONCE.

#[export] Instance RegisterType_eq_dec : EqDecision RegisterType.
Proof. solve_decision. Defined.
#[export] Instance ModbusWriteMode_eq_dec : EqDecision ModbusWriteMode.
Proof. solve_decision. Defined.
#[export] Instance PublishMode_eq_dec : EqDecision PublishMode.
Proof. solve_decision. Defined.

(** The integer values of the enumerators: keys of the [std::map] in
    MsgRegisterPollSpecification::group. *)
Definition RegisterType_int (t : RegisterType) : Z :=
  match t with COIL => 1 | BIT => 2 | HOLDING => 3 | INPUT => 4 end.

#[export] Instance RegisterType_int_inj : Inj (=) (=) RegisterType_int.
Proof. intros [] []; done. Qed.

Record ModbusAddressRange : Type := mkRange {
  mRegister : Z;
  mCount : Z;
  mRegisterType : RegisterType
}.

#[export] Instance ModbusAddressRange_eq_dec : EqDecision ModbusAddressRange.
Proof. solve_decision. Defined.

Module ModbusRange.

Definition firstRegister (r : ModbusAddressRange) : Z := mRegister r.
Definition lastRegister (r : ModbusAddressRange) : Z := (mRegister r + mCount r) - 1.

Definition overlaps (self poll : ModbusAddressRange) : bool :=
  if decide (mRegisterType self = mRegisterType poll)
  then (firstRegister self <=? lastRegister poll)
       && (firstRegister poll <=? lastRegister self)
  else false.

Definition merge (self other : ModbusAddressRange) : ModbusAddressRange :=
  let first := if firstRegister self <=? firstRegister other
               then firstRegister self else firstRegister other in
  let last := if lastRegister other <=? lastRegister self
              then lastRegister self else lastRegister other in
  mkRange first (last - first + 1) (mRegisterType self).

Definition isConsecutiveOf (self other : ModbusAddressRange) : bool :=
  (lastRegister self + 1 =? firstRegister other)
  || (lastRegister other + 1 =? firstRegister self).

Definition isSameAs (self other : ModbusAddressRange) : bool :=
  if decide (mRegisterType self = mRegisterType other)
  then (mRegister self =? mRegister other) && (mCount self =? mCount other)
  else false.

Definition contains (self other : ModbusAddressRange) : bool :=
  if decide (mRegisterType self = mRegisterType other)
  then (firstRegister self <=? firstRegister other)
       && (lastRegister other <=? lastRegister self)
  else false.

(** * The addresses a range stands for *)

Definition covers (r : ModbusAddressRange) (t : RegisterType) (a : Z) : Prop :=
  mRegisterType r = t /\ firstRegister r <= a <= lastRegister r.

Definition nonempty (r : ModbusAddressRange) : Prop := 0 < mCount r.

(** Registers of a Modbus device are addressed by 16 bits. *)
Definition in_device (r : ModbusAddressRange) : Prop :=
  0 <= mRegister r /\ 0 < mCount r /\ lastRegister r <= UINT16_MAX.

#[export] Instance covers_dec r t a : Decision (covers r t a).
Proof. unfold covers. apply _. Defined.
#[export] Instance in_device_dec r : Decision (in_device r).
Proof. unfold in_device. apply _. Defined.

Create HintDb modbus_range.

Ltac range_unfold :=
  unfold covers, nonempty, in_device, firstRegister, lastRegister in *; simpl in *.

Lemma overlaps_type_eq a b :
  overlaps a b = true -> mRegisterType a = mRegisterType b.
Proof. unfold overlaps. by case_decide. Qed.

(** [overlaps] is the existence of a common register. *)
Lemma overlaps_spec a b :
  nonempty a -> nonempty b ->
  overlaps a b = true <-> exists t r, covers a t r /\ covers b t r.
Proof.
  intros Ha Hb. split.
  - intros H. pose proof (overlaps_type_eq _ _ H) as T. unfold overlaps in H.
    case_decide; [|done]. apply andb_prop in H as [H1 H2].
    rewrite Z.leb_le in H1, H2. range_unfold.
    exists (mRegisterType a), (Z.max (mRegister a) (mRegister b)).
    repeat split; congruence || lia.
  - intros (t & r & [T1 R1] & [T2 R2]). unfold overlaps.
    rewrite decide_True by congruence.
    rewrite !andb_true_iff, !Z.leb_le. range_unfold. lia.
Qed.

Lemma overlaps_false a b :
  nonempty a -> nonempty b ->
  overlaps a b = false <-> (forall t r, covers a t r -> covers b t r -> False).
Proof.
  intros Ha Hb. rewrite <- not_true_iff_false, overlaps_spec by done. naive_solver.
Qed.

Lemma overlaps_sym a b : overlaps a b = overlaps b a.
Proof.
  unfold overlaps. do 2 case_decide; try congruence.
  by rewrite andb_comm.
Qed.

Lemma merge_first a b : firstRegister (merge a b) = Z.min (firstRegister a) (firstRegister b).
Proof.
  unfold merge, firstRegister; simpl.
  destruct (Z.leb_spec (mRegister a) (mRegister b)); lia.
Qed.

Lemma merge_last a b : lastRegister (merge a b) = Z.max (lastRegister a) (lastRegister b).
Proof.
  unfold merge. set (l := if _ <=? _ then lastRegister a else _).
  unfold lastRegister at 1; simpl. subst l.
  destruct (Z.leb_spec (lastRegister b) (lastRegister a)); lia.
Qed.

Lemma merge_type a b : mRegisterType (merge a b) = mRegisterType a.
Proof. done. Qed.

Lemma merge_count a b :
  mCount (merge a b) = Z.max (lastRegister a) (lastRegister b)
                       - Z.min (firstRegister a) (firstRegister b) + 1.
Proof.
  pose proof (merge_first a b). pose proof (merge_last a b).
  unfold firstRegister, lastRegister in *. lia.
Qed.

Lemma merge_nonempty a b : nonempty a -> nonempty (merge a b).
Proof.
  unfold nonempty. rewrite merge_count. unfold firstRegister, lastRegister. lia.
Qed.

Lemma merge_in_device a b : in_device a -> in_device b -> in_device (merge a b).
Proof.
  intros (?&?&?) (?&?&?). unfold in_device.
  change (mRegister (merge a b)) with (firstRegister (merge a b)).
  rewrite merge_first, merge_last, merge_count.
  unfold firstRegister, lastRegister in *. lia.
Qed.

(** Two ranges touch when they have a register in common or follow each
    other directly. *)
Definition touches (a b : ModbusAddressRange) : Prop :=
  firstRegister a <= lastRegister b + 1 /\ firstRegister b <= lastRegister a + 1.

Lemma overlaps_touches a b : overlaps a b = true -> touches a b.
Proof.
  unfold overlaps, touches. case_decide; [|done].
  rewrite andb_true_iff, !Z.leb_le. lia.
Qed.

Lemma consecutive_touches a b :
  nonempty a -> nonempty b -> isConsecutiveOf a b = true -> touches a b.
Proof.
  unfold isConsecutiveOf, touches. rewrite orb_true_iff, !Z.eqb_eq.
  range_unfold. lia.
Qed.

(** Merging two ranges of one type that touch gives their union exactly. *)
Lemma merge_covers a b t r :
  nonempty a -> nonempty b ->
  mRegisterType a = mRegisterType b -> touches a b ->
  covers (merge a b) t r <-> covers a t r \/ covers b t r.
Proof.
  intros Ha Hb T [T1 T2]. unfold covers. rewrite merge_type, merge_first, merge_last.
  rewrite <- T. destruct (decide (mRegisterType a = t)); [|tauto].
  assert (Z.min (firstRegister a) (firstRegister b) <= r
            <= Z.max (lastRegister a) (lastRegister b) <->
          firstRegister a <= r <= lastRegister a
          \/ firstRegister b <= r <= lastRegister b) as E by lia.
  tauto.
Qed.

(** In general merging gives the smallest range that contains both. *)
Lemma merge_hull a b c :
  mRegisterType a = mRegisterType b ->
  contains c a = true -> contains c b = true -> contains c (merge a b) = true.
Proof.
  unfold contains. rewrite merge_type, merge_first, merge_last.
  repeat case_decide; try done; rewrite !andb_true_iff, !Z.leb_le; lia.
Qed.

Lemma contains_spec a b :
  nonempty b ->
  contains a b = true <-> (forall t r, covers b t r -> covers a t r).
Proof.
  intros Hb. unfold contains. split.
  - case_decide as D; [|done].
    rewrite andb_true_iff, !Z.leb_le. unfold covers. intros ? t r [? ?].
    split; [congruence|]. lia.
  - intros H. assert (covers a (mRegisterType b) (firstRegister b)) as [T F]
      by (apply H; range_unfold; split; [done|lia]).
    assert (covers a (mRegisterType b) (lastRegister b)) as [_ L]
      by (apply H; range_unfold; split; [done|lia]).
    rewrite decide_True by done.
    rewrite andb_true_iff, !Z.leb_le. lia.
Qed.

Lemma isSameAs_spec a b : isSameAs a b = true <-> a = b.
Proof.
  unfold isSameAs. destruct a as [ra ca ta], b as [rb cb tb]; simpl.
  case_decide as D.
  - rewrite andb_true_iff, !Z.eqb_eq.
    split; [by intros [-> ->]; subst | by intros [= -> -> ->]].
  - split; [done|]. by intros [= -> -> ->].
Qed.

End ModbusRange.

#[export] Hint Resolve ModbusRange.merge_nonempty ModbusRange.merge_in_device
  ModbusRange.overlaps_touches ModbusRange.overlaps_type_eq : modbus_range.

(** class ModbusMessageBase: a range on a slave, with the id of the command that
    caused it (0: a scheduled poll, positive: a configured MQTT command,
    negative: an RPC request). *)
Record ModbusMessageBase : Type := mkBase {
  mRange : ModbusAddressRange;
  mSlaveId : Z;
  mCommandId : Z
}.

#[export] Instance ModbusMessageBase_eq_dec : EqDecision ModbusMessageBase.
Proof. solve_decision. Defined.

Definition hasCommandId (m : ModbusMessageBase) : bool := negb (mCommandId m =? 0).
Definition isRpc (m : ModbusMessageBase) : bool := mCommandId m <? 0.

Lemma isRpc_hasCommandId m : isRpc m = true -> hasCommandId m = true.
Proof.
  unfold isRpc, hasCommandId. rewrite Z.ltb_lt, negb_true_iff, Z.eqb_neq. lia.
Qed.
