(* ===== verification/PollSpec.v ===== *)
(** Poll specifications: MsgRegisterPoll and MsgRegisterPollSpecification of
    libmodmqttsrv/modbus_messages.hpp and modbus_messages.cpp.

    A specification is the list of register ranges a network has to poll.
    [merge] folds one more range into it (config parsing, ModMqtt::init);
    [group] joins ranges that follow each other.  The theorems show what
    happens to the set of polled registers, to the refresh periods and to the
    absence of overlaps. *)

From stdpp Require Import base list sets sorting strings.
From Stdlib Require Import ZArith Lia.
From S2P Require Import Prelude ModbusTypes.

(** class MsgRegisterPoll *)
Record MsgRegisterPoll : Type := mkMsgPoll {
  pollBase : ModbusMessageBase;
  mRefreshMsec : Z;
  mPublishMode : PublishMode
}.

#[export] Instance MsgRegisterPoll_eq_dec : EqDecision MsgRegisterPoll.
Proof. solve_decision. Defined.

Module PollSpec.
Import ModbusRange.

Definition INVALID_REFRESH : Z := -1.

Definition pollRange (p : MsgRegisterPoll) : ModbusAddressRange := mRange (pollBase p).
Definition pollSlave (p : MsgRegisterPoll) : Z := mSlaveId (pollBase p).

(** The constructor of MsgRegisterPoll, release build: no command id, no
    refresh period yet, publish on change. *)
Definition newMsgRegisterPoll (slave reg : Z) (ty : RegisterType) (count : Z) : MsgRegisterPoll :=
  mkMsgPoll (mkBase (mkRange reg count ty) slave 0) INVALID_REFRESH ON_CHANGE.

Definition mergeRefresh (self other : Z) : Z :=
  if self =? INVALID_REFRESH then other
  else if negb (other =? INVALID_REFRESH) && (other <? self) then other
  else self.

Definition mergePublishMode (self other : PublishMode) : PublishMode :=
  match self with
  | EVERY_POLL => EVERY_POLL
  | ON_CHANGE => if decide (other = EVERY_POLL) then other else self
  | ONCE => other
  end.

(** MsgRegisterPoll::merge *)
Definition mergePoll (self other : MsgRegisterPoll) : MsgRegisterPoll :=
  mkMsgPoll
    (mkBase (ModbusRange.merge (pollRange self) (pollRange other))
            (pollSlave self) (mCommandId (pollBase self)))
    (mergeRefresh (mRefreshMsec self) (mRefreshMsec other))
    (mergePublishMode (mPublishMode self) (mPublishMode other)).

(** MsgRegisterPoll::isSameAs *)
Definition isSameAsPoll (self other : MsgRegisterPoll) : bool :=
  if ModbusRange.isSameAs (pollRange self) (pollRange other)
  then if pollSlave self =? pollSlave other
       then (mRegister (pollRange self) =? mRegister (pollRange other))
            && (mCount (pollRange self) =? mCount (pollRange other))
       else false
  else false.

(** class MsgRegisterPollSpecification *)
Record MsgRegisterPollSpecification : Type := mkSpec {
  mNetworkName : string;
  mRegisters : list MsgRegisterPoll
}.

Definition newSpec (networkName : string) : MsgRegisterPollSpecification :=
  mkSpec networkName [].

Definition overlapsPoll (poll reg : MsgRegisterPoll) : bool :=
  (pollSlave poll =? pollSlave reg) && overlaps (pollRange poll) (pollRange reg).

(** The erase loop of [merge]: the registers that stay, and the ones taken
    out, in order. *)
Fixpoint splitOverlaping (poll : MsgRegisterPoll) (regs : list MsgRegisterPoll)
  : list MsgRegisterPoll * list MsgRegisterPoll :=
  match regs with
  | [] => ([], [])
  | reg :: regs' =>
      let '(kept, overlaped) := splitOverlaping poll regs' in
      if overlapsPoll poll reg then (kept, reg :: overlaped)
      else (reg :: kept, overlaped)
  end.

(** MsgRegisterPollSpecification::merge(const MsgRegisterPoll&) *)
Definition merge (spec : MsgRegisterPollSpecification) (poll : MsgRegisterPoll)
  : MsgRegisterPollSpecification :=
  let '(kept, overlaped) := splitOverlaping poll (mRegisters spec) in
  match overlaped with
  | [] => mkSpec (mNetworkName spec) (kept ++ [poll])
  | _ => mkSpec (mNetworkName spec) (kept ++ [foldl mergePoll poll overlaped])
  end.

(** MsgRegisterPollSpecification::merge(const std::vector<MsgRegisterPoll>&) *)
Definition mergeList (spec : MsgRegisterPollSpecification) (lst : list MsgRegisterPoll)
  : MsgRegisterPollSpecification :=
  foldl merge spec lst.

(** * What a specification polls *)

(** Register [a] of type [t] on slave [s] is read by [p]. *)
Definition polls (p : MsgRegisterPoll) (s : Z) (t : RegisterType) (a : Z) : Prop :=
  pollSlave p = s /\ covers (pollRange p) t a.

Definition polled (regs : list MsgRegisterPoll) (s : Z) (t : RegisterType) (a : Z) : Prop :=
  Exists (fun p => polls p s t a) regs.

Definition wf (regs : list MsgRegisterPoll) : Prop :=
  Forall (fun p => nonempty (pollRange p)) regs.

(** No register is read by two entries of the list. *)
Definition disjoint (regs : list MsgRegisterPoll) : Prop :=
  ForallOrdPairs (fun p q => overlapsPoll p q = false) regs.

Definition refreshValid (p : MsgRegisterPoll) : Prop := mRefreshMsec p <> INVALID_REFRESH.

#[local] Hint Resolve merge_nonempty : core.

Lemma overlapsPoll_spec p q :
  nonempty (pollRange p) -> nonempty (pollRange q) ->
  overlapsPoll p q = true <-> exists s t a, polls p s t a /\ polls q s t a.
Proof.
  intros Hp Hq. unfold overlapsPoll, polls.
  rewrite andb_true_iff, Z.eqb_eq, overlaps_spec by done. naive_solver.
Qed.

Lemma overlapsPoll_sym p q : overlapsPoll p q = overlapsPoll q p.
Proof. unfold overlapsPoll. by rewrite overlaps_sym, Z.eqb_sym. Qed.

Lemma splitOverlaping_spec poll regs :
  splitOverlaping poll regs
  = (filter (fun r => overlapsPoll poll r = false) regs,
     filter (fun r => overlapsPoll poll r = true) regs).
Proof.
  induction regs as [|r regs IH]; [done|]. simpl. rewrite IH.
  rewrite !filter_cons. destruct (overlapsPoll poll r); simpl; by repeat case_decide.
Qed.

(** [merge] without the case split on an empty overlap. *)
Lemma merge_unfold spec poll :
  merge spec poll
  = mkSpec (mNetworkName spec)
      (filter (fun r => overlapsPoll poll r = false) (mRegisters spec)
       ++ [foldl mergePoll poll (filter (fun r => overlapsPoll poll r = true) (mRegisters spec))]).
Proof.
  unfold merge. rewrite splitOverlaping_spec.
  by destruct (filter (fun r => overlapsPoll poll r = true) (mRegisters spec)).
Qed.

Lemma pollRange_mergePoll p q :
  pollRange (mergePoll p q) = ModbusRange.merge (pollRange p) (pollRange q).
Proof. done. Qed.

Lemma pollSlave_mergePoll p q : pollSlave (mergePoll p q) = pollSlave p.
Proof. done. Qed.

(** Merging entries of one slave that touch reads exactly what both read. *)
Lemma mergePoll_polls p q s t a :
  nonempty (pollRange p) -> nonempty (pollRange q) ->
  pollSlave p = pollSlave q ->
  mRegisterType (pollRange p) = mRegisterType (pollRange q) ->
  touches (pollRange p) (pollRange q) ->
  polls (mergePoll p q) s t a <-> polls p s t a \/ polls q s t a.
Proof.
  intros Hp Hq S T H. unfold polls. rewrite pollRange_mergePoll, pollSlave_mergePoll.
  rewrite merge_covers by done. rewrite S. tauto.
Qed.

Lemma mergePoll_nonempty p q :
  nonempty (pollRange p) -> nonempty (pollRange (mergePoll p q)).
Proof. intros. by apply merge_nonempty. Qed.

(** An entry that overlaps the first argument also overlaps the merged one. *)
Lemma overlapsPoll_mergePoll p q r :
  nonempty (pollRange p) -> nonempty (pollRange r) ->
  overlapsPoll p q = true -> nonempty (pollRange q) ->
  overlapsPoll p r = true -> overlapsPoll (mergePoll p q) r = true.
Proof.
  intros Hp Hr Hq Nq H. pose proof H as H'. apply overlapsPoll_spec in H; [|done..].
  apply overlapsPoll_spec; [by apply mergePoll_nonempty|done|].
  unfold overlapsPoll in Hq. apply andb_true_iff in Hq as [S O]. apply Z.eqb_eq in S.
  destruct H as (s & t & a & H1 & H2). exists s, t, a. split; [|done].
  apply mergePoll_polls; eauto using overlaps_touches, overlaps_type_eq.
Qed.

Lemma foldl_mergePoll_polls l p s t a :
  nonempty (pollRange p) -> wf l -> Forall (fun q => overlapsPoll p q = true) l ->
  nonempty (pollRange (foldl mergePoll p l)) /\
  (polls (foldl mergePoll p l) s t a <-> polls p s t a \/ polled l s t a).
Proof.
  revert p. induction l as [|q l IH]; intros p Hp Hl Ho; simpl.
  { split; [done|]. unfold polled. rewrite Exists_nil. tauto. }
  apply Forall_cons in Hl as [Nq Hl]. apply Forall_cons in Ho as [Oq Ho].
  destruct (IH (mergePoll p q)) as [N E].
  - by apply mergePoll_nonempty.
  - done.
  - apply Forall_forall. intros r Hr. rewrite Forall_forall in Hl, Ho.
    apply overlapsPoll_mergePoll; auto.
  - split; [done|]. rewrite E. unfold polled. rewrite Exists_cons.
    unfold overlapsPoll in Oq. apply andb_true_iff in Oq as [S O]. apply Z.eqb_eq in S.
    rewrite mergePoll_polls; eauto using overlaps_touches, overlaps_type_eq. tauto.
Qed.

Lemma polled_app l1 l2 s t a : polled (l1 ++ l2) s t a <-> polled l1 s t a \/ polled l2 s t a.
Proof. unfold polled. apply Exists_app. Qed.

Lemma polled_filter_split (f : MsgRegisterPoll -> bool) l s t a :
  polled l s t a <->
  polled (filter (fun r => f r = false) l) s t a \/ polled (filter (fun r => f r = true) l) s t a.
Proof.
  unfold polled. rewrite !Exists_exists. setoid_rewrite list_elem_of_filter.
  split.
  - intros (p & Hp & H). destruct (f p) eqn:E; naive_solver.
  - naive_solver.
Qed.

Lemma wf_filter (P : MsgRegisterPoll -> Prop) `{!forall x, Decision (P x)} l :
  wf l -> wf (filter P l).
Proof. unfold wf. rewrite !Forall_forall. setoid_rewrite list_elem_of_filter. naive_solver. Qed.

(** After [merge] exactly the registers polled before and those of the new range are
    polled, and no range is empty. *)
Lemma merge_union spec poll s t a :
  wf (mRegisters spec) -> nonempty (pollRange poll) ->
  wf (mRegisters (merge spec poll)) /\
  (polled (mRegisters (merge spec poll)) s t a
   <-> polled (mRegisters spec) s t a \/ polls poll s t a).
Proof.
  intros W N. rewrite merge_unfold; simpl.
  destruct (foldl_mergePoll_polls
    (filter (fun r => overlapsPoll poll r = true) (mRegisters spec)) poll s t a) as [N' E].
  - done.
  - by apply wf_filter.
  - apply Forall_forall. intros r Hr%list_elem_of_filter. tauto.
  - split.
    + apply Forall_app. split; [by apply wf_filter|]. by apply Forall_singleton.
    + rewrite polled_app, (polled_filter_split (overlapsPoll poll) (mRegisters spec)).
      unfold polled at 2. rewrite Exists_cons, Exists_nil, E. tauto.
Qed.

(** * Overlaps stay away *)

Lemma disjoint_filter (P : MsgRegisterPoll -> Prop) `{!forall x, Decision (P x)} l :
  disjoint l -> disjoint (filter P l).
Proof.
  unfold disjoint. induction 1 as [|p l Hp Hl IH]; [constructor|].
  rewrite filter_cons. case_decide; [|done]. constructor; [|done].
  rewrite Forall_forall in Hp |- *. intros q Hq%list_elem_of_filter. naive_solver.
Qed.

Lemma disjoint_snoc l p :
  disjoint l -> Forall (fun q => overlapsPoll q p = false) l -> disjoint (l ++ [p]).
Proof.
  unfold disjoint. induction 1 as [|q l Hq Hl IH]; intros Hp; simpl.
  - repeat constructor.
  - apply Forall_cons in Hp as [? ?]. constructor; [|by apply IH].
    apply Forall_app. split; [done|]. by apply Forall_singleton.
Qed.

Lemma disjoint_elem l p q :
  disjoint l -> p ∈ l -> q ∈ l -> p = q \/ overlapsPoll p q = false.
Proof.
  intros D Hp Hq. apply list_elem_of_In in Hp, Hq.
  destruct (ForallOrdPairs_In D p q Hp Hq) as [|[|H]]; auto.
  right. by rewrite overlapsPoll_sym.
Qed.

Lemma disjoint_perm l1 l2 : l2 ≡ₚ l1 -> disjoint l1 -> disjoint l2.
Proof.
  unfold disjoint. intros P. induction P as [|p l2 l1 P IH|p q l|l3 l2 l1 P1 IH1 P2 IH2].
  - done.
  - inversion_clear 1. constructor; [by rewrite P|auto].
  - inversion_clear 1 as [|? ? Hq D]. inversion_clear D as [|? ? Hp D'].
    apply Forall_cons in Hq as [Hqp Hq].
    repeat constructor; try done. by rewrite overlapsPoll_sym.
  - auto.
Qed.

(** A specification without overlaps stays without overlaps: [merge] takes out every
    entry the new range overlaps, and the merged entry overlaps none of those that
    stay. *)
Lemma merge_disjoint spec poll :
  wf (mRegisters spec) -> nonempty (pollRange poll) ->
  disjoint (mRegisters spec) -> disjoint (mRegisters (merge spec poll)).
Proof.
  intros W N D. rewrite merge_unfold; simpl.
  apply disjoint_snoc; [by apply disjoint_filter|].
  apply Forall_forall. intros k [Hk Ek]%list_elem_of_filter.
  apply not_true_iff_false. intros O.
  set (l := filter (fun r => overlapsPoll poll r = true) (mRegisters spec)) in *.
  assert (Forall (fun q => overlapsPoll poll q = true) l)
    by (apply Forall_forall; intros r Hr%list_elem_of_filter; tauto).
  assert (Nk : nonempty (pollRange k)) by (unfold wf in W; rewrite Forall_forall in W; auto).
  destruct (foldl_mergePoll_polls l poll 0 COIL 0) as [NF _]; [done|by apply wf_filter|done|].
  apply overlapsPoll_spec in O as (s & t & a & H1 & H2); [|done..].
  destruct (foldl_mergePoll_polls l poll s t a) as [_ E]; [done|by apply wf_filter|done|].
  apply E in H2 as [H2|H2].
  - apply not_true_iff_false in Hk. apply Hk, overlapsPoll_spec; naive_solver.
  - apply Exists_exists in H2 as (q & [Oq Hq]%list_elem_of_filter & H2).
    assert (Nq : nonempty (pollRange q)) by (unfold wf in W; rewrite Forall_forall in W; auto).
    destruct (disjoint_elem _ k q D Ek Hq) as [->|F]; [congruence|].
    apply not_true_iff_false in F. apply F, overlapsPoll_spec; naive_solver.
Qed.

(** C1: on a specification whose ranges are not empty and do not overlap, [merge]
    keeps both properties, and afterwards exactly the registers polled before and
    those of the new range are polled. *)
Theorem merge_exact spec poll :
  wf (mRegisters spec) -> disjoint (mRegisters spec) -> nonempty (pollRange poll) ->
  wf (mRegisters (merge spec poll)) /\ disjoint (mRegisters (merge spec poll))
  /\ (forall s t a, polled (mRegisters (merge spec poll)) s t a
                    <-> polled (mRegisters spec) s t a \/ polls poll s t a).
Proof.
  intros W D N. split; [|split].
  - by apply (merge_union spec poll 0 COIL 0).
  - by apply merge_disjoint.
  - intros s t a. by apply merge_union.
Qed.

Lemma merge_exact_witness :
  polled (mRegisters (merge (mkSpec "net" [newMsgRegisterPoll 1 10 HOLDING 5; newMsgRegisterPoll 1 18 HOLDING 2])
                            (newMsgRegisterPoll 1 14 HOLDING 4))) 1 HOLDING 16.
Proof.
  apply (merge_exact (mkSpec "net" [newMsgRegisterPoll 1 10 HOLDING 5; newMsgRegisterPoll 1 18 HOLDING 2])
           (newMsgRegisterPoll 1 14 HOLDING 4)).
  - repeat constructor.
  - repeat constructor.
  - reflexivity.
  - right. repeat split; vm_compute; congruence.
Defined.

(** * Properties of the entries *)

(** An entry that overlaps has the slave and the type of the range it overlaps. *)
Lemma overlapsPoll_same p q :
  overlapsPoll p q = true ->
  pollSlave p = pollSlave q /\ mRegisterType (pollRange p) = mRegisterType (pollRange q).
Proof.
  unfold overlapsPoll. intros [S O]%andb_true_iff. apply Z.eqb_eq in S.
  split; [done|by apply overlaps_type_eq].
Qed.

(** Merging never loses a register of either entry. *)
Lemma polls_mergePoll_l p q s t a : polls p s t a -> polls (mergePoll p q) s t a.
Proof.
  unfold polls, covers. rewrite pollRange_mergePoll, pollSlave_mergePoll, merge_type, merge_first, merge_last.
  intros (? & ? & ?). split; [done|]. split; [done|]. lia.
Qed.

Lemma polls_mergePoll_r p q s t a :
  pollSlave p = pollSlave q -> mRegisterType (pollRange p) = mRegisterType (pollRange q) ->
  polls q s t a -> polls (mergePoll p q) s t a.
Proof.
  unfold polls, covers. rewrite pollRange_mergePoll, pollSlave_mergePoll, merge_type, merge_first, merge_last.
  intros -> -> (? & ? & ?). split; [done|]. split; [done|]. lia.
Qed.

Section entries.
Variable P : MsgRegisterPoll -> Prop.

Lemma foldl_mergePoll_ind poll l (Q : MsgRegisterPoll -> Prop) :
  (forall p q, P p -> Q q -> pollSlave p = pollSlave q ->
               mRegisterType (pollRange p) = mRegisterType (pollRange q) -> P (mergePoll p q)) ->
  Forall (fun q => overlapsPoll poll q = true /\ Q q) l -> P poll -> P (foldl mergePoll poll l).
Proof.
  intros St F Pp.
  assert (G : forall p, pollSlave p = pollSlave poll -> mRegisterType (pollRange p) = mRegisterType (pollRange poll) ->
                        P p -> P (foldl mergePoll p l)); [|by apply G].
  induction F as [|q l [O Qq] F IH]; intros p S T Pp'; [done|]. cbn [foldl].
  destruct (overlapsPoll_same _ _ O) as [S' T'].
  apply IH; [done|done|]. apply St; congruence.
Qed.

(** What holds of every entry and of the new range, and survives merging, holds of
    every entry afterwards. *)
Lemma merge_Forall spec poll :
  (forall p q, P p -> P q -> pollSlave p = pollSlave q ->
               mRegisterType (pollRange p) = mRegisterType (pollRange q) -> P (mergePoll p q)) ->
  Forall P (mRegisters spec) -> P poll -> Forall P (mRegisters (merge spec poll)).
Proof.
  intros St F Pp. rewrite merge_unfold. cbn [mRegisters]. rewrite Forall_forall in F.
  apply Forall_app. split.
  - apply Forall_forall. intros r [_ Hr]%list_elem_of_filter. by apply F.
  - apply Forall_singleton. apply foldl_mergePoll_ind with (Q := P); [done| |done].
    apply Forall_forall. intros r [Or Hr]%list_elem_of_filter. auto.
Qed.

(** What some entry or the new range has, and merging on either side keeps, some
    entry has afterwards. *)
Lemma merge_Exists spec poll :
  (forall p q, P p -> P (mergePoll p q)) ->
  (forall p q, P q -> pollSlave p = pollSlave q ->
               mRegisterType (pollRange p) = mRegisterType (pollRange q) -> P (mergePoll p q)) ->
  Exists P (mRegisters spec) \/ P poll -> Exists P (mRegisters (merge spec poll)).
Proof.
  intros Sl Sr H. rewrite merge_unfold. cbn [mRegisters]. apply Exists_app.
  assert (G : forall p l, P p -> P (foldl mergePoll p l)) by (intros p l; revert p; induction l; cbn; auto).
  destruct H as [H|H]; [|right; apply Exists_cons_hd; auto].
  apply Exists_exists in H as (p & Hp & Pp).
  destruct (overlapsPoll poll p) eqn:O; [right|left; apply Exists_exists; exists p; by rewrite list_elem_of_filter].
  apply Exists_cons_hd.
  assert (E : p ∈ filter (fun r => overlapsPoll poll r = true) (mRegisters spec)) by (by apply list_elem_of_filter).
  apply list_elem_of_split in E as (l1 & l2 & E).
  assert (F : Forall (fun q => overlapsPoll poll q = true) (filter (fun r => overlapsPoll poll r = true) (mRegisters spec)))
    by (apply Forall_forall; intros r Hr%list_elem_of_filter; tauto).
  rewrite E in F |- *. apply Forall_app in F as [F1 F2]. rewrite foldl_app. cbn [foldl]. apply G.
  destruct (overlapsPoll_same _ _ O) as [S T].
  apply Sr; [done| |].
  - rewrite <- S. clear -l1. revert poll. induction l1; intros poll; [done|]. cbn [foldl]. by rewrite IHl1.
  - rewrite <- T. clear -l1. revert poll. induction l1; intros poll; [done|]. cbn [foldl]. by rewrite IHl1.
Qed.

End entries.

Lemma mergeList_name spec l : mNetworkName (mergeList spec l) = mNetworkName spec.
Proof.
  revert spec. induction l as [|p l IH]; intros spec; [done|]. cbn [mergeList foldl]. fold (mergeList (merge spec p) l).
  rewrite IH. unfold merge. by destruct (splitOverlaping p (mRegisters spec)) as [? []].
Qed.

(** * Refresh period and publish mode of the merged entry *)

Definition modeRank (m : PublishMode) : Z :=
  match m with ONCE => 0 | ON_CHANGE => 1 | EVERY_POLL => 2 end.

Lemma mergePublishMode_rank m n :
  modeRank (mergePublishMode m n) = Z.max (modeRank m) (modeRank n).
Proof. by destruct m, n. Qed.

(** [p] asks for registers at most as often and as eagerly published as [e]
    provides them. *)
Definition served (p e : MsgRegisterPoll) : Prop :=
  (refreshValid p -> refreshValid e /\ mRefreshMsec e <= mRefreshMsec p)
  /\ modeRank (mPublishMode p) <= modeRank (mPublishMode e).

Lemma served_refl p : served p p.
Proof. split; [intros; split; [done|lia]|lia]. Qed.

Lemma served_trans p q r : served p q -> served q r -> served p r.
Proof.
  intros [H1 M1] [H2 M2]. split; [intros V|lia].
  destruct (H1 V) as [V2 ?]. destruct (H2 V2). split; [done|lia].
Qed.

Lemma served_mergePoll_l p q : served p (mergePoll p q).
Proof.
  unfold served, refreshValid, mergePoll, mergeRefresh; simpl.
  rewrite mergePublishMode_rank. split; [|lia]. intros V.
  destruct (Z.eqb_spec (mRefreshMsec p) INVALID_REFRESH); [done|].
  destruct (Z.eqb_spec (mRefreshMsec q) INVALID_REFRESH); simpl; [lia|].
  destruct (Z.ltb_spec (mRefreshMsec q) (mRefreshMsec p)); lia.
Qed.

Lemma served_mergePoll_r p q : served q (mergePoll p q).
Proof.
  unfold served, refreshValid, mergePoll, mergeRefresh; simpl.
  rewrite mergePublishMode_rank. split; [|lia]. intros V.
  destruct (Z.eqb_spec (mRefreshMsec p) INVALID_REFRESH); [lia|].
  destruct (Z.eqb_spec (mRefreshMsec q) INVALID_REFRESH); simpl; [lia|].
  destruct (Z.ltb_spec (mRefreshMsec q) (mRefreshMsec p)); lia.
Qed.

Lemma served_foldl l p q : q = p \/ q ∈ l -> served q (foldl mergePoll p l).
Proof.
  revert p q. induction l as [|r l IH]; intros p q H; simpl.
  - destruct H as [->|H]; [apply served_refl|by apply elem_of_nil in H].
  - rewrite elem_of_cons in H. destruct H as [->|[->|H]].
    + eapply served_trans; [apply served_mergePoll_l|]. apply IH. by left.
    + eapply served_trans; [apply served_mergePoll_r|]. apply IH. by left.
    + apply IH. by right.
Qed.

(** C3: whoever asked for a register is served after [merge]: every register
    of the new range or of an old entry is read by an entry whose refresh period is
    at most the requested one and whose publish mode is at least as eager. *)
Theorem merge_served spec poll p s t a :
  wf (mRegisters spec) -> nonempty (pollRange poll) ->
  p = poll \/ p ∈ mRegisters spec -> polls p s t a ->
  Exists (fun e => polls e s t a /\ served p e) (mRegisters (merge spec poll)).
Proof.
  intros W N Hp Ha. rewrite merge_unfold; simpl.
  set (l := filter (fun r => overlapsPoll poll r = true) (mRegisters spec)).
  assert (Hl : Forall (fun q => overlapsPoll poll q = true) l)
    by (apply Forall_forall; intros r Hr%list_elem_of_filter; tauto).
  assert (Hin : p = poll \/ p ∈ l -> Exists (fun e => polls e s t a /\ served p e)
                  [foldl mergePoll poll l]).
  { intros Hpl. apply Exists_cons_hd. split; [|by apply served_foldl].
    destruct (foldl_mergePoll_polls l poll s t a) as [_ ->]; [done|by apply wf_filter|done|].
    destruct Hpl as [->|Hpl]; [by left|right]. unfold polled. rewrite Exists_exists. eauto. }
  apply Exists_app. destruct Hp as [->|Hp]; [right; apply Hin; by left|].
  destruct (overlapsPoll poll p) eqn:O.
  - right. apply Hin. right. by apply list_elem_of_filter.
  - left. apply Exists_exists. exists p. split; [by apply list_elem_of_filter|].
    split; [done|apply served_refl].
Qed.

Lemma merge_served_witness :
  Exists (fun e => polls e 1 HOLDING 12 /\
                   served (mkMsgPoll (mkBase (mkRange 12 1 HOLDING) 1 0) 500 EVERY_POLL) e)
    (mRegisters (merge (mkSpec "net" [newMsgRegisterPoll 1 10 HOLDING 5])
                       (mkMsgPoll (mkBase (mkRange 12 1 HOLDING) 1 0) 500 EVERY_POLL))).
Proof.
  apply merge_served; [repeat constructor|done|by left|].
  repeat split; vm_compute; congruence.
Defined.

(** * group: joining consecutive ranges *)

Section group.

(** [std::sort] with the comparator registerNumberCompare: any function that
    permutes its input into an order without a strict descent (the order of
    equal elements is unspecified). *)
Definition registerNumberCompare (a b : MsgRegisterPoll) : bool :=
  mRegister (pollRange a) <? mRegister (pollRange b).

Definition inRegisterOrder (a b : MsgRegisterPoll) : Prop :=
  registerNumberCompare b a = false.

Variable std_sort : list MsgRegisterPoll -> list MsgRegisterPoll.
Hypothesis std_sort_perm : forall l, std_sort l ≡ₚ l.
Hypothesis std_sort_sorted : forall l, StronglySorted inRegisterOrder (std_sort l).

(** The loop over one sorted deque; [g] is [*group_it], the last group built. *)
Fixpoint groupLoop (g : MsgRegisterPoll) (regs : list MsgRegisterPoll)
  : list MsgRegisterPoll :=
  match regs with
  | [] => [g]
  | r :: regs' =>
      if isConsecutiveOf (pollRange g) (pollRange r)
      then groupLoop (mergePoll g r) regs'
      else g :: groupLoop r regs'
  end.

(** One deque of the map; an entry is created by its first push_back, so the
    deque is never empty in the code. *)
Definition groupRegs (regs : list MsgRegisterPoll) : list MsgRegisterPoll :=
  match std_sort regs with
  | [] => []
  | r :: regs' => groupLoop r regs'
  end.

(** [map[reg.mSlaveId][reg.mRegisterType].push_back(reg)] *)
Definition addToSlaveMap (map : list (Z * list (Z * list MsgRegisterPoll)))
    (reg : MsgRegisterPoll) : list (Z * list (Z * list MsgRegisterPoll)) :=
  smap_alter [] (smap_alter [] (fun d => d ++ [reg]) (RegisterType_int (mRegisterType (pollRange reg))))
    (pollSlave reg) map.

Definition slaveMap (regs : list MsgRegisterPoll) : list (Z * list (Z * list MsgRegisterPoll)) :=
  foldl addToSlaveMap [] regs.

(** MsgRegisterPollSpecification::group *)
Definition group (spec : MsgRegisterPollSpecification) : MsgRegisterPollSpecification :=
  mkSpec (mNetworkName spec)
    (concat ((fun slave => concat ((fun regtype => groupRegs regtype.2) <$> slave.2))
       <$> slaveMap (mRegisters spec))).

(** Everything in a deque belongs to the slave and the type it is filed under. *)
Definition filed (m : list (Z * list (Z * list MsgRegisterPoll))) : Prop :=
  Forall (fun sl => Forall (fun rt => Forall (fun p =>
    pollSlave p = sl.1 /\ RegisterType_int (mRegisterType (pollRange p)) = rt.1) rt.2) sl.2) m.

Lemma addToSlaveMap_filed m reg : filed m -> filed (addToSlaveMap m reg).
Proof.
  intros F. unfold addToSlaveMap, filed.
  apply (smap_alter_Forall (fun s v => Forall (fun rt => Forall (fun p =>
    pollSlave p = s /\ RegisterType_int (mRegisterType (pollRange p)) = rt.1) rt.2) v)).
  - by repeat constructor.
  - intros v Hv.
    apply (smap_alter_Forall (fun t v => Forall (fun p =>
      pollSlave p = pollSlave reg /\ RegisterType_int (mRegisterType (pollRange p)) = t) v)).
    + by repeat constructor.
    + intros w Hw. apply Forall_app. by repeat constructor.
    + done.
  - done.
Qed.

Lemma slaveMap_filed regs : filed (slaveMap regs).
Proof.
  unfold slaveMap. assert (F : filed []) by constructor. revert F.
  generalize (@nil (Z * list (Z * list MsgRegisterPoll))).
  induction regs as [|r regs IH]; intros m F; simpl; [done|].
  by apply IH, addToSlaveMap_filed.
Qed.

Definition slaveMapRegs (m : list (Z * list (Z * list MsgRegisterPoll))) : list MsgRegisterPoll :=
  concat ((fun slave => concat (snd <$> slave.2)) <$> m).

Lemma slaveMap_perm regs : slaveMapRegs (slaveMap regs) ≡ₚ regs.
Proof.
  unfold slaveMap. change regs with (slaveMapRegs [] ++ regs) at 2.
  generalize (@nil (Z * list (Z * list MsgRegisterPoll))).
  induction regs as [|r regs IH]; intros m; simpl; [by rewrite app_nil_r|].
  rewrite IH. rewrite (cons_middle r), (assoc (++)). f_equiv.
  unfold slaveMapRegs, addToSlaveMap.
  apply (smap_alter_perm (fun v => concat (snd <$> v))); [done|].
  intros v. by apply (smap_alter_perm id).
Qed.

(** Members of one deque can be merged when they follow each other. *)
Definition sameBucket (p q : MsgRegisterPoll) : Prop :=
  pollSlave p = pollSlave q /\ mRegisterType (pollRange p) = mRegisterType (pollRange q).

Lemma groupLoop_polled g regs s t a :
  nonempty (pollRange g) -> wf regs -> Forall (sameBucket g) regs ->
  wf (groupLoop g regs) /\
  (polled (groupLoop g regs) s t a <-> polls g s t a \/ polled regs s t a).
Proof.
  revert g. induction regs as [|r regs IH]; intros g Ng W B; simpl.
  { unfold polled. rewrite Exists_cons, Exists_nil.
    split; [by apply Forall_singleton|tauto]. }
  apply Forall_cons in W as [Nr W]. apply Forall_cons in B as [[Bs Bt] B].
  assert (B' : Forall (sameBucket r) regs)
    by (eapply Forall_impl; [exact B|]; unfold sameBucket; intros q [? ?]; split; congruence).
  unfold polled at 2. rewrite Exists_cons. fold (polled regs s t a).
  destruct (isConsecutiveOf (pollRange g) (pollRange r)) eqn:C.
  - destruct (IH (mergePoll g r)) as [W' E]; [by apply mergePoll_nonempty|done|done|].
    split; [done|]. rewrite E, mergePoll_polls; auto using consecutive_touches. tauto.
  - destruct (IH r) as [W' E]; [done..|].
    split; [by constructor|]. unfold polled at 1. rewrite Exists_cons.
    fold (polled (groupLoop r regs) s t a). rewrite E. tauto.
Qed.

Lemma polled_perm l1 l2 s t a : l1 ≡ₚ l2 -> polled l1 s t a <-> polled l2 s t a.
Proof.
  intros P. unfold polled. rewrite !Exists_exists.
  split; intros (p & Hp & H); exists p; (split; [|done]); by rewrite P in * || rewrite <- P.
Qed.

Lemma groupRegs_polled regs s t a :
  wf regs -> (forall p q, p ∈ regs -> q ∈ regs -> sameBucket p q) ->
  wf (groupRegs regs) /\ (polled (groupRegs regs) s t a <-> polled regs s t a).
Proof.
  intros W B. rewrite <- (polled_perm _ _ s t a (std_sort_perm regs)).
  assert (W' : wf (std_sort regs)) by (unfold wf; by rewrite std_sort_perm).
  unfold groupRegs. pose proof (std_sort_perm regs) as P.
  destruct (std_sort regs) as [|r l]; [split; [constructor|done]|].
  apply Forall_cons in W' as [Nr Wl].
  destruct (groupLoop_polled r l s t a) as [W1 E]; [done..| |].
  - apply Forall_forall. intros q Hq. apply B; rewrite <- P; set_solver.
  - split; [done|]. rewrite E. unfold polled. by rewrite Exists_cons.
Qed.

(** [group] reads exactly the registers the specification read. *)
Theorem group_polled spec s t a :
  wf (mRegisters spec) ->
  polled (mRegisters (group spec)) s t a <-> polled (mRegisters spec) s t a.
Proof.
  intros W. rewrite <- (polled_perm _ _ s t a (slaveMap_perm (mRegisters spec))).
  assert (W' : wf (slaveMapRegs (slaveMap (mRegisters spec))))
    by (unfold wf; by rewrite slaveMap_perm).
  pose proof (slaveMap_filed (mRegisters spec)) as F.
  unfold group, slaveMapRegs in *; simpl.
  induction F as [|[s0 sl] m Fs F IH]; csimpl in *; [done|].
  unfold wf in W'. rewrite Forall_app in W'. destruct W' as [W1 W2].
  rewrite !polled_app, IH by done. f_equiv.
  clear IH F W2. induction Fs as [|[t0 regs] sl Ft Fs IH]; csimpl in *; [done|].
  rewrite Forall_app in W1. destruct W1 as [Wr W1].
  rewrite !polled_app, IH by done. f_equiv. apply groupRegs_polled; [done|].
  rewrite Forall_forall in Ft. intros p q Hp Hq.
  destruct (Ft p Hp) as [? Tp], (Ft q Hq) as [? Tq]. split; [congruence|].
  apply (inj RegisterType_int). congruence.
Qed.

(** [p] ends before [q] starts; with a hole in between. *)
Definition before (p q : MsgRegisterPoll) : Prop :=
  lastRegister (pollRange p) < firstRegister (pollRange q).
Definition gap (p q : MsgRegisterPoll) : Prop :=
  lastRegister (pollRange p) + 1 < firstRegister (pollRange q).

Lemma sorted_disjoint_before l :
  StronglySorted inRegisterOrder l -> wf l -> disjoint l ->
  (forall p q, p ∈ l -> q ∈ l -> sameBucket p q) -> StronglySorted before l.
Proof.
  induction 1 as [|p l S IH Hp]; intros W D B; [constructor|].
  apply Forall_cons in W as [Np W]. unfold disjoint in D. inversion_clear D as [|? ? Dp D'].
  constructor; [apply IH; try done; set_solver|].
  unfold wf in W. rewrite Forall_forall in Hp, W, Dp |- *. intros q Hq.
  destruct (B p q) as [Bs Bt]; [set_solver..|].
  specialize (Hp q Hq). specialize (Dp q Hq). specialize (W q Hq).
  unfold inRegisterOrder, registerNumberCompare in Hp. apply Z.ltb_ge in Hp.
  unfold overlapsPoll in Dp. rewrite Bs, Z.eqb_refl in Dp. simpl in Dp.
  unfold overlaps in Dp. rewrite decide_True in Dp by done.
  unfold before, nonempty, firstRegister, lastRegister in *.
  rewrite andb_false_iff, !Z.leb_gt in Dp. lia.
Qed.

Lemma groupLoop_gap g regs :
  wf (g :: regs) -> StronglySorted before (g :: regs) ->
  Forall (fun r => firstRegister (pollRange g) <= firstRegister (pollRange r)) (groupLoop g regs)
  /\ StronglySorted gap (groupLoop g regs).
Proof.
  revert g. induction regs as [|r regs IH]; intros g W S; simpl; [by repeat constructor|].
  apply Forall_cons in W as [Ng W]. pose proof W as W'. apply Forall_cons in W' as [Nr W'].
  apply StronglySorted_inv in S as [S Hg]. apply Forall_cons in Hg as [Hg _].
  pose proof S as S'. apply StronglySorted_inv in S' as [S' Hr].
  unfold before, nonempty, firstRegister, lastRegister in Hg, Ng, Nr.
  destruct (isConsecutiveOf (pollRange g) (pollRange r)) eqn:C.
  - assert (EF : firstRegister (pollRange (mergePoll g r)) = firstRegister (pollRange g))
      by (rewrite pollRange_mergePoll, merge_first; unfold firstRegister; lia).
    assert (EL : lastRegister (pollRange (mergePoll g r)) = lastRegister (pollRange r))
      by (rewrite pollRange_mergePoll, merge_last; unfold lastRegister; lia).
    rewrite <- EF. apply IH.
    + constructor; [by apply mergePoll_nonempty|done].
    + constructor; [done|]. eapply Forall_impl; [exact Hr|].
      unfold before. intros q. by rewrite EL.
  - destruct (IH r) as [F G]; [done..|]. apply orb_false_iff in C as [C _].
    apply Z.eqb_neq in C. unfold firstRegister, lastRegister in C, F.
    split; (constructor; [|]); try done; unfold gap, firstRegister, lastRegister in *; try lia.
    + eapply Forall_impl; [exact F|]. simpl. lia.
    + eapply Forall_impl; [exact F|]. simpl. lia.
Qed.

(** In one slave and type, the ranges [group] produces from ranges without
    overlaps are in increasing order with at least one register that is not polled
    between two of them: everything that follows each other has been joined. *)
Lemma groupRegs_maximal regs :
  wf regs -> disjoint regs -> (forall p q, p ∈ regs -> q ∈ regs -> sameBucket p q) ->
  StronglySorted gap (groupRegs regs).
Proof.
  intros W D B. unfold groupRegs. pose proof (std_sort_perm regs) as P.
  pose proof (std_sort_sorted regs) as S.
  assert (StronglySorted before (std_sort regs)) as SB.
  { apply sorted_disjoint_before; [done| | |].
    - unfold wf. by rewrite P.
    - by eapply disjoint_perm.
    - intros p q Hp Hq. apply B; by rewrite <- P. }
  assert (wf (std_sort regs)) as W' by (unfold wf; by rewrite P).
  destruct (std_sort regs) as [|r l]; [constructor|]. by apply groupLoop_gap.
Qed.

End group.

(** A sorting function that meets the contract of [std::sort]. *)
#[export] Instance inRegisterOrder_dec : RelDecision inRegisterOrder.
Proof. intros a b. unfold inRegisterOrder. apply _. Defined.
#[export] Instance inRegisterOrder_total : Total inRegisterOrder.
Proof.
  intros a b. unfold inRegisterOrder, registerNumberCompare. rewrite !Z.ltb_ge. lia.
Qed.
#[export] Instance inRegisterOrder_trans : Transitive inRegisterOrder.
Proof.
  intros a b c. unfold inRegisterOrder, registerNumberCompare. rewrite !Z.ltb_ge. lia.
Qed.

Definition mergeSort : list MsgRegisterPoll -> list MsgRegisterPoll :=
  merge_sort inRegisterOrder.

Lemma mergeSort_perm l : mergeSort l ≡ₚ l.
Proof. apply merge_sort_Permutation. Qed.

Lemma mergeSort_sorted l : StronglySorted inRegisterOrder (mergeSort l).
Proof. unfold mergeSort. eapply StronglySorted_merge_sort; apply _. Qed.

Example group_joins :
  mRegisters (group mergeSort (mkSpec "net"
    [newMsgRegisterPoll 1 12 HOLDING 2; newMsgRegisterPoll 2 5 COIL 1;
     newMsgRegisterPoll 1 10 HOLDING 2; newMsgRegisterPoll 1 20 HOLDING 1]))
  = [newMsgRegisterPoll 1 10 HOLDING 4; newMsgRegisterPoll 1 20 HOLDING 1;
     newMsgRegisterPoll 2 5 COIL 1].
Proof. vm_compute. reflexivity. Qed.

Lemma group_polled_witness :
  polled (mRegisters (group mergeSort (mkSpec "net"
    [newMsgRegisterPoll 1 12 HOLDING 2; newMsgRegisterPoll 1 10 HOLDING 2]))) 1 HOLDING 13.
Proof.
  apply (proj2 (group_polled mergeSort mergeSort_perm mergeSort_sorted
    (mkSpec "net" [newMsgRegisterPoll 1 12 HOLDING 2; newMsgRegisterPoll 1 10 HOLDING 2])
    1 HOLDING 13 ltac:(by repeat constructor))).
  apply Exists_cons_hd. repeat split; vm_compute; congruence.
Defined.

Lemma groupRegs_maximal_witness :
  StronglySorted gap (groupRegs mergeSort
    [newMsgRegisterPoll 1 12 HOLDING 2; newMsgRegisterPoll 1 10 HOLDING 2;
     newMsgRegisterPoll 1 20 HOLDING 1]).
Proof.
  apply (groupRegs_maximal mergeSort mergeSort_perm mergeSort_sorted).
  - repeat constructor.
  - repeat constructor.
  - intros p q Hp Hq. repeat (apply elem_of_cons in Hp as [->|Hp]; [|]);
      repeat (apply elem_of_cons in Hq as [->|Hq]; [|]); try done;
      try (by apply elem_of_nil in Hp); by apply elem_of_nil in Hq.
Defined.

End PollSpec.
