(* ===== verification/Commands.v ===== *)
(** Modbus commands and the messages exchanged between threads:
    libmodmqttsrv/register_poll.hpp and register_poll.cpp, the message classes of
    modbus_messages.hpp, queue_item.hpp, and libmodmqttconv/modbusregisters.hpp.

    Commands are long-lived objects reached through shared pointers: the scheduler,
    the queues and the executor hold the same RegisterPoll and see each other's
    updates.  A pointer is an address in a [Store] of commands. *)

From stdpp Require Import base list strings.
From Stdlib Require Import ZArith Lia.
From S2P Require Import Prelude ModbusTypes PollSpec.

(** class ModbusRegisters: a vector of uint16_t. *)
Module ModbusRegisters.

Abbreviation t := (list Z).
Definition getCount (r : t) : Z := Z.of_nat (length r).

(** [mRegisters[idx]]; out of range is undefined behaviour. *)
Definition getValue (r : t) (idx : Z) : outcome Z :=
  if idx <? 0 then Fault EndDereferenced
  else match r !! Z.to_nat idx with
       | Some v => Ret v
       | None => Fault EndDereferenced
       end.

Definition setValue (r : t) (idx val : Z) : outcome t :=
  if idx <? getCount r then Ret (<[Z.to_nat idx := val]> r) else Fault AssertionFailed.

Definition appendValue (r : t) (val : Z) : t := r ++ [val].
Definition prependValue (r : t) (val : Z) : t := val :: r.

Definition valid (r : t) : Prop := Forall is_u16 r.

Lemma getValue_in_range r i :
  0 <= i < getCount r -> exists v, getValue r i = Ret v /\ r !! Z.to_nat i = Some v.
Proof.
  unfold getValue, getCount. intros H.
  destruct (Z.ltb_spec i 0); [lia|].
  destruct (lookup_lt_is_Some_2 r (Z.to_nat i)) as [v Hv]; [lia|].
  rewrite Hv. eauto.
Qed.

Lemma getValue_out_of_range r i :
  i < 0 \/ getCount r <= i -> getValue r i = Fault EndDereferenced.
Proof.
  unfold getValue, getCount. intros H. destruct (Z.ltb_spec i 0); [done|].
  rewrite lookup_ge_None_2 by lia. done.
Qed.

End ModbusRegisters.

(** * Messages (modbus_messages.hpp) *)

(** class MsgRegisterValues *)
Record MsgRegisterValues : Type := mkMsgValues {
  msgBase : ModbusMessageBase;
  msgRegisters : ModbusRegisters.t;
  msgWriteMode : ModbusWriteMode;
  msgCreationTime : Z
}.

(** Constructor for MQTT and RPC writes; [now] is the steady_clock reading. *)
Definition newMsgRegisterValues (slaveId : Z) (regType : RegisterType) (registerNumber : Z)
    (registers : ModbusRegisters.t) (commandId : Z) (writeMode : ModbusWriteMode) (now : Z)
  : MsgRegisterValues :=
  mkMsgValues
    (mkBase (mkRange registerNumber (ModbusRegisters.getCount registers) regType) slaveId commandId)
    registers writeMode now.

(** What travels from a modbus thread to the main thread. *)
Inductive FromModbus : Type :=
| RegisterValues (m : MsgRegisterValues)
| RegisterReadFailed (m : ModbusMessageBase)
| RegisterWriteFailed (m : ModbusMessageBase)
| ModbusNetworkState (networkName : string) (isUp : bool).

Definition newMsgFailed (slaveId : Z) (regType : RegisterType) (registerNumber count commandId : Z)
  : ModbusMessageBase :=
  mkBase (mkRange registerNumber count regType) slaveId commandId.

(** * Commands (register_poll.hpp) *)

(** class RegisterCommand; durations and time points are nanosecond counts of
    std::chrono::steady_clock. *)
Record RegisterCommand : Type := mkCommand {
  cmdBase : ModbusMessageBase;
  mMaxReadRetryCount : Z;
  mMaxWriteRetryCount : Z;
  mDelayBeforeFirstCommand : Z;
  mDelayBeforeCommand : Z
}.

(** The constructor leaves the retry counts uninitialised; the modbus thread sets
    them before it hands the command on. *)
Definition newCommand (slaveId reg : Z) (ty : RegisterType) (count commandId : Z)
  : RegisterCommand :=
  mkCommand (mkBase (mkRange reg count ty) slaveId commandId) 0 0 0 0.

Definition hasDelayBeforeFirstCommand (c : RegisterCommand) : bool :=
  negb (mDelayBeforeFirstCommand c =? 0).
Definition hasDelayBeforeCommand (c : RegisterCommand) : bool :=
  negb (mDelayBeforeCommand c =? 0).
Definition hasDelay (c : RegisterCommand) : bool :=
  hasDelayBeforeCommand c || hasDelayBeforeFirstCommand c.

Definition setDelayBeforeFirstCommand (d : Z) (c : RegisterCommand) : RegisterCommand :=
  mkCommand (cmdBase c) (mMaxReadRetryCount c) (mMaxWriteRetryCount c) d (mDelayBeforeCommand c).
Definition setDelayBeforeCommand (d : Z) (c : RegisterCommand) : RegisterCommand :=
  mkCommand (cmdBase c) (mMaxReadRetryCount c) (mMaxWriteRetryCount c) (mDelayBeforeFirstCommand c) d.

(** RegisterCommand::setMaxRetryCounts: the parameters are [short]. *)
Definition setMaxRetryCounts (maxRead maxWrite : Z) (force : bool) (c : RegisterCommand)
  : RegisterCommand :=
  let maxRead := to_i16 maxRead in
  let maxWrite := to_i16 maxWrite in
  mkCommand (cmdBase c)
    (if negb (maxRead =? 0) || force then maxRead else mMaxReadRetryCount c)
    (if negb (maxWrite =? 0) || force then maxWrite else mMaxWriteRetryCount c)
    (mDelayBeforeFirstCommand c) (mDelayBeforeCommand c).

(** class RegisterPoll *)
Record RegisterPoll : Type := mkPoll {
  pollCmd : RegisterCommand;
  mRefresh : Z;
  mLastReadOk : bool;
  mLastReadStartTime : Z;
  mLastReadFinishTime : Z;
  mReadErrors : Z;
  mFirstErrorTime : Z;
  pollPublishMode : PublishMode;
  mLastValues : list Z
}.

(** class RegisterWrite *)
Record RegisterWrite : Type := mkWrite {
  writeCmd : RegisterCommand;
  mValues : ModbusRegisters.t;
  mWriteMode : ModbusWriteMode;
  mLastWriteOk : bool;
  mCreationTime : Z;
  mReturnMessage : option MsgRegisterValues
}.

Definition MSEC : Z := 1000000.
Definition SEC : Z := 1000 * MSEC.
Definition HOUR : Z := 3600 * SEC.

(** Limits of RegisterPoll: errors are logged every five minutes, and reported
    to the main thread from the fourth one on. *)
Definition DurationBetweenLogError : Z := 300 * SEC.
Definition DefaultReadErrorCount : Z := 3.

(** RegisterPoll::RegisterPoll; [now1] and [now2] are its two clock readings, the
    refresh period comes in milliseconds, a time point that is not set is the
    epoch. *)
Definition newRegisterPoll (slaveId regNum : Z) (regType : RegisterType) (regCount refreshMsec : Z)
    (mode : PublishMode) (commandId now1 now2 : Z) : RegisterPoll :=
  mkPoll (newCommand slaveId regNum regType regCount commandId)
    (refreshMsec * MSEC) false 0 (now1 - 24 * HOUR) 0 now2 mode
    (replicate (Z.to_nat regCount) 0).

(** RegisterWrite::RegisterWrite(const MsgRegisterValues&) *)
Definition newRegisterWrite (msg : MsgRegisterValues) : RegisterWrite :=
  let b := msgBase msg in
  mkWrite
    (newCommand (mSlaveId b) (mRegister (mRange b)) (mRegisterType (mRange b))
       (ModbusRegisters.getCount (msgRegisters msg)) (mCommandId b))
    (msgRegisters msg) (msgWriteMode msg) false (msgCreationTime msg) None.

(** RegisterPoll::update *)
Definition updateValues (newValues : list Z) (p : RegisterPoll) : RegisterPoll :=
  let c := pollCmd p in
  let b := cmdBase c in
  mkPoll
    (mkCommand (mkBase (mkRange (mRegister (mRange b)) (Z.of_nat (length newValues))
                          (mRegisterType (mRange b))) (mSlaveId b) (mCommandId b))
       (mMaxReadRetryCount c) (mMaxWriteRetryCount c)
       (mDelayBeforeFirstCommand c) (mDelayBeforeCommand c))
    (mRefresh p) (mLastReadOk p) (mLastReadStartTime p) (mLastReadFinishTime p)
    (mReadErrors p) (mFirstErrorTime p) (pollPublishMode p) newValues.

(** RegisterPoll::getCount is the size of the last value vector. *)
Definition pollGetCount (p : RegisterPoll) : Z := Z.of_nat (length (mLastValues p)).

Definition setPollCmd (c : RegisterCommand) (p : RegisterPoll) : RegisterPoll :=
  mkPoll c (mRefresh p) (mLastReadOk p) (mLastReadStartTime p) (mLastReadFinishTime p)
    (mReadErrors p) (mFirstErrorTime p) (pollPublishMode p) (mLastValues p).
Definition setWriteCmd (c : RegisterCommand) (w : RegisterWrite) : RegisterWrite :=
  mkWrite c (mValues w) (mWriteMode w) (mLastWriteOk w) (mCreationTime w) (mReturnMessage w).
Definition setLastReadOk (b : bool) (p : RegisterPoll) : RegisterPoll :=
  mkPoll (pollCmd p) (mRefresh p) b (mLastReadStartTime p) (mLastReadFinishTime p)
    (mReadErrors p) (mFirstErrorTime p) (pollPublishMode p) (mLastValues p).
Definition setReadTimes (start finish : Z) (p : RegisterPoll) : RegisterPoll :=
  mkPoll (pollCmd p) (mRefresh p) (mLastReadOk p) start finish
    (mReadErrors p) (mFirstErrorTime p) (pollPublishMode p) (mLastValues p).
Definition setReadErrors (errors firstErrorTime : Z) (p : RegisterPoll) : RegisterPoll :=
  mkPoll (pollCmd p) (mRefresh p) (mLastReadOk p) (mLastReadStartTime p) (mLastReadFinishTime p)
    errors firstErrorTime (pollPublishMode p) (mLastValues p).
Definition setLastWriteOk (b : bool) (w : RegisterWrite) : RegisterWrite :=
  mkWrite (writeCmd w) (mValues w) (mWriteMode w) b (mCreationTime w) (mReturnMessage w).
Definition setReturnMessage (m : option MsgRegisterValues) (w : RegisterWrite) : RegisterWrite :=
  mkWrite (writeCmd w) (mValues w) (mWriteMode w) (mLastWriteOk w) (mCreationTime w) m.
Definition setWriteMode (m : ModbusWriteMode) (w : RegisterWrite) : RegisterWrite :=
  mkWrite (writeCmd w) (mValues w) m (mLastWriteOk w) (mCreationTime w) (mReturnMessage w).

(** A shared_ptr<RegisterCommand>: an address and the dynamic type, which
    [typeid] reads. *)
Definition ptr : Type := Z.

Inductive CmdRef : Type :=
| PollRef (p : ptr)
| WriteRef (p : ptr).

#[export] Instance CmdRef_eq_dec : EqDecision CmdRef.
Proof. unfold ptr. solve_decision. Defined.

(** The objects the shared pointers refer to.  A shared_ptr keeps its object
    alive and the code stores no null pointer in a queue or map, so the store is
    total; [nextPtr] is the next free address. *)
Record Store : Type := mkStore {
  polls : ptr -> RegisterPoll;
  writes : ptr -> RegisterWrite;
  nextPtr : ptr
}.

Definition setPoll (s : Store) (p : ptr) (r : RegisterPoll) : Store :=
  mkStore (fun q => if decide (q = p) then r else polls s q) (writes s) (nextPtr s).
Definition setWrite (s : Store) (p : ptr) (w : RegisterWrite) : Store :=
  mkStore (polls s) (fun q => if decide (q = p) then w else writes s q) (nextPtr s).
Definition allocPoll (s : Store) (r : RegisterPoll) : ptr * Store :=
  (nextPtr s, mkStore (fun q => if decide (q = nextPtr s) then r else polls s q)
                (writes s) (nextPtr s + 1)).
Definition allocWrite (s : Store) (w : RegisterWrite) : ptr * Store :=
  (nextPtr s, mkStore (polls s)
                (fun q => if decide (q = nextPtr s) then w else writes s q) (nextPtr s + 1)).

Definition commandOf (s : Store) (c : CmdRef) : RegisterCommand :=
  match c with PollRef p => pollCmd (polls s p) | WriteRef p => writeCmd (writes s p) end.
Definition isPollRef (c : CmdRef) : bool :=
  match c with PollRef _ => true | WriteRef _ => false end.
Definition executedOk (s : Store) (c : CmdRef) : bool :=
  match c with PollRef p => mLastReadOk (polls s p) | WriteRef p => mLastWriteOk (writes s p) end.
Definition cmdSlave (s : Store) (c : CmdRef) : Z := mSlaveId (cmdBase (commandOf s c)).
Definition cmdIsRpc (s : Store) (c : CmdRef) : bool := isRpc (cmdBase (commandOf s c)).

Lemma polls_setPoll s p r q :
  polls (setPoll s p r) q = if decide (q = p) then r else polls s q.
Proof. done. Qed.

Lemma polls_setPoll_eq s p r : polls (setPoll s p r) p = r.
Proof. simpl. by rewrite decide_True. Qed.

Lemma polls_setPoll_ne s p r q : q <> p -> polls (setPoll s p r) q = polls s q.
Proof. intros. simpl. by rewrite decide_False. Qed.

Lemma setMaxRetryCounts_force r w c :
  is_i16 r -> is_i16 w ->
  mMaxReadRetryCount (setMaxRetryCounts r w true c) = r /\
  mMaxWriteRetryCount (setMaxRetryCounts r w true c) = w.
Proof.
  intros Hr Hw. unfold setMaxRetryCounts; simpl. rewrite !orb_true_r.
  split; by apply to_signed_small.
Qed.
