(* ===== verification/RequestQueues.v ===== *)
(** Per-slave command queues: libmodmqttsrv/modbus_request_queues.hpp and
    modbus_request_queues.cpp.

    Polls and writes wait in two deques; popNext alternates between them while
    both have work.  The theorems show that no command is lost or duplicated and
    how long a command can wait for its turn. *)

From stdpp Require Import base list sets.
From Stdlib Require Import ZArith Lia.
From S2P Require Import Prelude ModbusTypes Commands.

(** std::chrono::steady_clock::duration::max() *)
Definition DURATION_MAX : Z := INT64_MAX.

Module RequestQueues.

(** class ModbusRequestsQueues.  The cached iterator [mLastPollFound] is an index
    into [mPollQueue]; [None] is an iterator that was never set or that a later
    modification of the deque invalidated. *)
Record Queues : Type := mkQueues {
  mPollQueue : list ptr;
  mWriteQueue : list ptr;
  mLastPollFound : option nat;
  mPopFromPoll : bool
}.

(** The state the default constructor leaves. *)
Definition newQueues : Queues := mkQueues [] [] None true.

Definition empty (q : Queues) : bool :=
  match mPollQueue q, mWriteQueue q with [], [] => true | _, _ => false end.

Definition pollEmpty (q : Queues) : bool :=
  match mPollQueue q with [] => true | _ => false end.

(** One iteration of addPollList: push_back unless the pointer is queued. *)
Definition addPoll (queue : list ptr) (p : ptr) : list ptr :=
  if decide (p ∈ queue) then queue else queue ++ [p].

(** addPollList *)
Definition addPollList (q : Queues) (pollList : list ptr) : Queues :=
  mkQueues (foldl addPoll (mPollQueue q) pollList) (mWriteQueue q) None (mPopFromPoll q).

(** addWriteCommand *)
Definition addWriteCommand (q : Queues) (p : ptr) : Queues :=
  mkQueues (mPollQueue q) (mWriteQueue q ++ [p]) (mLastPollFound q) (mPopFromPoll q).

(** readdCommand *)
Definition readdCommand (q : Queues) (c : CmdRef) : Queues :=
  match c with
  | PollRef p => mkQueues (p :: mPollQueue q) (mWriteQueue q) None true
  | WriteRef p => mkQueues (mPollQueue q) (p :: mWriteQueue q) (mLastPollFound q) false
  end.

(** popNext(T&) on each deque: [assert(!queue.empty())]. *)
Definition popFromPoll (q : Queues) (flag : bool) : outcome (CmdRef * Queues) :=
  match mPollQueue q with
  | [] => Fault AssertionFailed
  | p :: ps => Ret (PollRef p, mkQueues ps (mWriteQueue q) None flag)
  end.

Definition popFromWrite (q : Queues) (flag : bool) : outcome (CmdRef * Queues) :=
  match mWriteQueue q with
  | [] => Fault AssertionFailed
  | w :: ws => Ret (WriteRef w, mkQueues (mPollQueue q) ws (mLastPollFound q) flag)
  end.

(** popNext *)
Definition popNext (q : Queues) : outcome (CmdRef * Queues) :=
  if mPopFromPoll q then
    match mPollQueue q with
    | [] => popFromWrite q (mPopFromPoll q)
    | _ => popFromPoll q false
    end
  else
    match mWriteQueue q with
    | [] => popFromPoll q (mPopFromPoll q)
    | _ => popFromWrite q true
    end.

(** The delay a poll asks for, as findForSilencePeriod computes it. *)
Definition silenceDelay (ignore_first_read : bool) (c : RegisterCommand) : Z :=
  if ignore_first_read || negb (hasDelayBeforeFirstCommand c)
  then mDelayBeforeCommand c
  else mDelayBeforeFirstCommand c.

(** The loop of findForSilencePeriod over the rest of the deque, from index [i];
    [ret] and [found] are the result so far and mLastPollFound. *)
Fixpoint findLoop (s : Store) (period : Z) (ignore_first_read : bool)
    (ps : list ptr) (i : nat) (ret : Z) (found : option nat) : Z * option nat :=
  match ps with
  | [] => (ret, found)
  | p :: ps' =>
      let delay := silenceDelay ignore_first_read (pollCmd (polls s p)) in
      if delay =? 0 then findLoop s period ignore_first_read ps' (S i) ret found
      else
        let diff := Z.abs (delay - period) in
        if diff =? 0 then (delay, Some i)
        else if diff <? ret
             then findLoop s period ignore_first_read ps' (S i) delay (Some i)
             else findLoop s period ignore_first_read ps' (S i) ret found
  end.

(** findForSilencePeriod *)
Definition findForSilencePeriod (s : Store) (period : Z) (ignore_first_read : bool) (q : Queues)
  : Z * Queues :=
  let '(ret, found) :=
    findLoop s period ignore_first_read (mPollQueue q) 0 DURATION_MAX (mLastPollFound q) in
  (ret, mkQueues (mPollQueue q) (mWriteQueue q) found (mPopFromPoll q)).

(** Erases index [i] of the poll deque and returns what was there. *)
Definition erasePoll (q : Queues) (i : nat) : outcome (CmdRef * Queues) :=
  match mPollQueue q !! i with
  | Some p => Ret (PollRef p, mkQueues (delete i (mPollQueue q)) (mWriteQueue q) None (mPopFromPoll q))
  | None => Fault EndDereferenced
  end.

(** popFirstWithDelay: with an iterator that is not end() the loop exits at once;
    otherwise the deque is searched, and searched again for ever when no poll asks
    for a delay. *)
Definition popFirstWithDelay (s : Store) (period : Z) (ignore_first_read : bool) (q : Queues)
  : outcome (CmdRef * Queues) :=
  match mLastPollFound q with
  | None => Fault EndDereferenced
  | Some i =>
      if (i <? length (mPollQueue q))%nat then erasePoll q i
      else
        let '(_, q') := findForSilencePeriod s period ignore_first_read q in
        match mLastPollFound q' with
        | Some j => if (j <? length (mPollQueue q'))%nat then erasePoll q' j else Fault Diverges
        | None => Fault EndDereferenced
        end
  end.

(** * Contents *)

(** All commands that wait in the queues. *)
Definition contents (q : Queues) : list CmdRef :=
  (PollRef <$> mPollQueue q) ++ (WriteRef <$> mWriteQueue q).

(** No poll waits twice. *)
Definition wf (q : Queues) : Prop := NoDup (mPollQueue q).

Lemma empty_contents q : empty q = true <-> contents q = [].
Proof. unfold empty, contents. destruct q as [[] [] ? ?]; simpl; naive_solver. Qed.

Lemma addPoll_elem queue p x : x ∈ addPoll queue p <-> x ∈ queue \/ x = p.
Proof. unfold addPoll. case_decide; set_solver. Qed.

Lemma foldl_addPoll_elem l queue x : x ∈ foldl addPoll queue l <-> x ∈ queue \/ x ∈ l.
Proof.
  revert queue. induction l as [|p l IH]; intros queue; simpl; [set_solver|].
  rewrite IH, addPoll_elem. set_solver.
Qed.

Lemma foldl_addPoll_NoDup l queue : NoDup queue -> NoDup (foldl addPoll queue l).
Proof.
  revert queue. induction l as [|p l IH]; intros queue H; simpl; [done|].
  apply IH. unfold addPoll. case_decide; [done|].
  apply NoDup_app. repeat split; [done|set_solver|apply NoDup_singleton].
Qed.

(** The queue before is a prefix of the queue after: order is kept. *)
Lemma foldl_addPoll_prefix l queue : queue `prefix_of` foldl addPoll queue l.
Proof.
  revert queue. induction l as [|p l IH]; intros queue; simpl; [done|].
  etrans; [|apply IH]. unfold addPoll. case_decide; [done|]. by apply prefix_app_r.
Qed.

(** popNext takes one command out and leaves the others. *)
Lemma popNext_contents q c q' :
  popNext q = Ret (c, q') -> contents q ≡ₚ c :: contents q'.
Proof.
  destruct q as [ps ws found flag]. unfold popNext, popFromPoll, popFromWrite, contents; simpl.
  destruct flag, ps as [|p ps], ws as [|w ws]; simpl; intros [= <- <-]; simpl;
    by rewrite ?app_nil_r || solve_Permutation.
Qed.

Lemma popNext_ret q : empty q = false -> exists c q', popNext q = Ret (c, q').
Proof.
  destruct q as [ps ws found flag]. unfold popNext, popFromPoll, popFromWrite, empty; simpl.
  destruct flag, ps, ws; simpl; naive_solver.
Qed.

Lemma popNext_fault q : popNext q = Fault AssertionFailed <-> empty q = true.
Proof.
  destruct q as [ps ws found flag]. unfold popNext, popFromPoll, popFromWrite, empty; simpl.
  destruct flag, ps, ws; simpl; naive_solver.
Qed.

Lemma popNext_wf q c q' : wf q -> popNext q = Ret (c, q') -> wf q'.
Proof.
  destruct q as [ps ws found flag]. unfold wf, popNext, popFromPoll, popFromWrite; simpl.
  destruct flag, ps as [|p ps], ws as [|w ws]; simpl; intros H [= <- <-]; simpl; try done;
    by apply NoDup_cons in H as [? ?].
Qed.

(** * Sequences of operations *)

Inductive qop : Type :=
| OPop
| OPopDelay (s : Store) (period : Z) (ignore_first_read : bool)
| OFind (s : Store) (period : Z) (ignore_first_read : bool)
| OAddPolls (l : list ptr)
| OAddWrite (w : ptr)
| OReadd (c : CmdRef).

(** What a pop took out of the queues; a pop that fails leaves them as they are. *)
Definition popped (q : Queues) (r : outcome (CmdRef * Queues)) : option CmdRef * Queues :=
  match r with Ret (c, q') => (Some c, q') | Fault _ => (None, q) end.

(** One operation of the class, with the command it hands out. *)
Definition qstep (q : Queues) (o : qop) : option CmdRef * Queues :=
  match o with
  | OPop => popped q (popNext q)
  | OPopDelay s period ign => popped q (popFirstWithDelay s period ign q)
  | OFind s period ign => (None, (findForSilencePeriod s period ign q).2)
  | OAddPolls l => (None, addPollList q l)
  | OAddWrite w => (None, addWriteCommand q w)
  | OReadd c => (None, readdCommand q c)
  end.

(** The commands popped by a sequence of operations, and the final queues. *)
Fixpoint qrun (q : Queues) (ops : list qop) : list CmdRef * Queues :=
  match ops with
  | [] => ([], q)
  | o :: ops' =>
      let '(c, q') := qstep q o in
      let '(out, q'') := qrun q' ops' in
      (option_list c ++ out, q'')
  end.

(** The calls of popNext, and the commands put back in front of their deque. *)
Definition pops (o : qop) : nat := match o with OPop => 1 | _ => 0 end.
Fixpoint popsIn (ops : list qop) : nat :=
  match ops with [] => 0 | o :: ops' => pops o + popsIn ops' end.
Definition readds (o : qop) : nat := match o with OReadd _ => 1 | _ => 0 end.
Fixpoint readdsIn (ops : list qop) : nat :=
  match ops with [] => 0 | o :: ops' => readds o + readdsIn ops' end.

Definition writesOf (l : list CmdRef) : list ptr :=
  omap (fun c => match c with WriteRef w => Some w | PollRef _ => None end) l.
Definition pollsOf (l : list CmdRef) : list ptr :=
  omap (fun c => match c with PollRef p => Some p | WriteRef _ => None end) l.
Definition addedWrites (ops : list qop) : list ptr :=
  omap (fun o => match o with OAddWrite w => Some w | _ => None end) ops.
(** An operation that puts no write back in front. *)
Definition noWriteBack (o : qop) : Prop := match o with OReadd (WriteRef _) => False | _ => True end.

(** The search changes the cached iterator only. *)
Lemma findForSilencePeriod_deques s period ign q :
  let q' := (findForSilencePeriod s period ign q).2 in
  mPollQueue q' = mPollQueue q /\ mWriteQueue q' = mWriteQueue q /\ mPopFromPoll q' = mPopFromPoll q.
Proof. unfold findForSilencePeriod. by destruct (findLoop _ _ _ _ _ _ _). Qed.

(** popFirstWithDelay takes one poll out of the deque, from any place, and leaves
    the writes and the turn alone. *)
Lemma popFirstWithDelay_takes s period ign q c q' :
  popFirstWithDelay s period ign q = Ret (c, q') ->
  exists i p, c = PollRef p /\ mPollQueue q !! i = Some p /\ mPollQueue q' = delete i (mPollQueue q)
    /\ mWriteQueue q' = mWriteQueue q /\ mPopFromPoll q' = mPopFromPoll q.
Proof.
  assert (Er : forall q0 i, erasePoll q0 i = Ret (c, q') ->
    exists i p, c = PollRef p /\ mPollQueue q0 !! i = Some p /\ mPollQueue q' = delete i (mPollQueue q0)
      /\ mWriteQueue q' = mWriteQueue q0 /\ mPopFromPoll q' = mPopFromPoll q0).
  { intros q0 i. unfold erasePoll. destruct (mPollQueue q0 !! i) as [p|] eqn:L; [|done].
    intros [= <- <-]. by exists i, p. }
  unfold popFirstWithDelay. destruct (mLastPollFound q) as [i|]; [|done].
  destruct (i <? _)%nat; [apply Er|].
  pose proof (findForSilencePeriod_deques s period ign q) as D. cbn zeta in D.
  destruct (findForSilencePeriod s period ign q) as [ret qf]. cbn in D. destruct D as (<- & <- & <-).
  destruct (mLastPollFound qf) as [j|]; [|done]. destruct (j <? _)%nat; [apply Er|done].
Qed.

(** The write deque is a FIFO queue: what is popped, followed by what still
    waits, is what waited at the start followed by what was added, whatever polls
    are added, taken out or put back in between. *)
Theorem write_queue_fifo ops q :
  Forall noWriteBack ops ->
  writesOf (qrun q ops).1 ++ mWriteQueue (qrun q ops).2
  = mWriteQueue q ++ addedWrites ops.
Proof.
  intros F. revert q. induction F as [|o ops Fo F IH]; intros q; simpl; [by rewrite app_nil_r|].
  destruct (qstep q o) as [c q'] eqn:E. specialize (IH q').
  destruct (qrun q' ops) as [out q'']; simpl in *.
  assert (S : (exists w, o = OAddWrite w) \/
              (addedWrites [o] = [] /\ writesOf (option_list c) ++ mWriteQueue q' = mWriteQueue q)).
  { destruct o as [|s period ign|s period ign|l|w|r]; simpl in E; [right|right|right|right|left; by exists w|right];
      (split; [done|]).
    - destruct q as [ps ws found flag]. revert E. unfold popped, popNext, popFromPoll, popFromWrite; simpl.
      destruct flag, ps, ws; simpl; intros [= <- <-]; done.
    - unfold popped in E. destruct (popFirstWithDelay s period ign q) as [[x q1]|] eqn:P; injection E as <- <-; [|done].
      apply popFirstWithDelay_takes in P as (i & p & -> & _ & _ & -> & _). done.
    - injection E as <- <-. apply findForSilencePeriod_deques.
    - by injection E as <- <-.
    - destruct r; [|done]. by injection E as <- <-. }
  destruct S as [[w ->]|[A S]].
  - injection E as <- <-. simpl. rewrite IH; simpl. by rewrite <- (assoc_L (++)).
  - change (writesOf (option_list c ++ out) ++ mWriteQueue q'' = mWriteQueue q ++ addedWrites (o :: ops)).
    replace (addedWrites (o :: ops)) with (addedWrites ops) by (by destruct o).
    unfold writesOf in *. by rewrite omap_app, <- S, <- !(assoc_L (++)), IH.
Qed.

(** Pops needed until the [k]-th command of a deque is reached: two for each
    command before it, one more when it is the other deque's turn. *)
Definition popBound (k : nat) (myTurn : bool) : nat := 2 * k + if myTurn then 1 else 2.

Lemma popNext_write k w q :
  mWriteQueue q !! k = Some w ->
  let '(c, q') := popped q (popNext q) in
  c = Some (WriteRef w)
  \/ exists k', mWriteQueue q' !! k' = Some w
       /\ (popBound k' (negb (mPopFromPoll q')) + 1 <= popBound k (negb (mPopFromPoll q)))%nat.
Proof.
  destruct q as [[|p ps] [|w0 ws] found flag]; unfold popped, popNext, popFromPoll, popFromWrite;
    destruct flag, k as [|k]; simpl; intros H;
    first [discriminate H | injection H as ->; by left
          | by left | right; exists k; (split; [exact H|]); unfold popBound; simpl; lia
          | right; exists (S k); (split; [exact H|]); unfold popBound; simpl; lia
          | right; exists 0%nat; (split; [exact H|]); unfold popBound; simpl; lia].
Qed.

Lemma popNext_poll k p q :
  mPollQueue q !! k = Some p ->
  let '(c, q') := popped q (popNext q) in
  c = Some (PollRef p)
  \/ exists k', mPollQueue q' !! k' = Some p
       /\ (popBound k' (mPopFromPoll q') + 1 <= popBound k (mPopFromPoll q))%nat.
Proof.
  destruct q as [[|p0 ps] [|w ws] found flag]; unfold popped, popNext, popFromPoll, popFromWrite;
    destruct flag, k as [|k]; simpl; intros H;
    first [discriminate H | injection H as ->; by left
          | by left | right; exists k; (split; [exact H|]); unfold popBound; simpl; lia
          | right; exists (S k); (split; [exact H|]); unfold popBound; simpl; lia
          | right; exists 0%nat; (split; [exact H|]); unfold popBound; simpl; lia].
Qed.

Lemma write_step k w o q :
  mWriteQueue q !! k = Some w ->
  let '(c, q') := qstep q o in
  c = Some (WriteRef w)
  \/ exists k', mWriteQueue q' !! k' = Some w
       /\ (popBound k' (negb (mPopFromPoll q'))
            + pops o <= popBound k (negb (mPopFromPoll q)) + 2 * readds o)%nat.
Proof.
  intros H. destruct o as [|s period ign|s period ign|l|v|[p|v]]; simpl.
  - pose proof (popNext_write k w q H) as S. destruct (popped q (popNext q)).
    destruct S as [->|(k' & ? & ?)]; [by left|right]. exists k'. split; [done|]. lia.
  - unfold popped. destruct (popFirstWithDelay s period ign q) as [[x q1]|] eqn:P; cbn; right; exists k; [|split; [done|lia]].
    apply popFirstWithDelay_takes in P as (i & p & _ & _ & _ & -> & ->). split; [done|lia].
  - right. exists k. destruct (findForSilencePeriod_deques s period ign q) as (_ & -> & ->). split; [done|lia].
  - right. exists k. split; [done|]. simpl. lia.
  - right. exists k. split; [by apply lookup_app_l_Some|]. simpl. lia.
  - right. exists k. split; [done|]. unfold popBound. destruct (mPopFromPoll q); simpl; lia.
  - right. exists (S k). split; [done|]. unfold popBound. destruct (mPopFromPoll q); simpl; lia.
Qed.

Lemma poll_step k p o q :
  mPollQueue q !! k = Some p ->
  let '(c, q') := qstep q o in
  c = Some (PollRef p)
  \/ exists k', mPollQueue q' !! k' = Some p
       /\ (popBound k' (mPopFromPoll q')
            + pops o <= popBound k (mPopFromPoll q) + 2 * readds o)%nat.
Proof.
  intros H. destruct o as [|s period ign|s period ign|l|v|[x|v]]; simpl.
  - pose proof (popNext_poll k p q H) as S. destruct (popped q (popNext q)).
    destruct S as [->|(k' & ? & ?)]; [by left|right]. exists k'. split; [done|]. lia.
  - unfold popped. destruct (popFirstWithDelay s period ign q) as [[x q1]|] eqn:P; cbn; [|right; exists k; split; [done|lia]].
    apply popFirstWithDelay_takes in P as (i & p' & -> & Hi & Ed & _ & ->).
    destruct (lt_eq_lt_dec i k) as [[L| ->]|L]; [|left; congruence|].
    + right. exists (k - 1)%nat. rewrite Ed, list_lookup_delete_ge by lia. replace (S (k - 1)) with k by lia.
      split; [done|]. unfold popBound. lia.
    + right. exists k. rewrite Ed, list_lookup_delete_lt by lia. split; [done|lia].
  - right. exists k. destruct (findForSilencePeriod_deques s period ign q) as (-> & _ & ->). split; [done|lia].
  - right. exists k. split; [|simpl; lia]. simpl.
    eapply prefix_lookup_Some; [done|]. apply foldl_addPoll_prefix.
  - right. exists k. split; [done|]. simpl. lia.
  - right. exists (S k). split; [done|]. unfold popBound. destruct (mPopFromPoll q); simpl; lia.
  - right. exists k. split; [done|]. unfold popBound. destruct (mPopFromPoll q); simpl; lia.
Qed.

(** A command whose bound drops with every pop, and grows by at most two with
    every command put back, is popped in time. *)
Lemma bounded_pop (here : Queues -> nat -> Prop) (bound : Queues -> nat -> nat) c :
  (forall q k, 1 <= bound q k)%nat ->
  (forall q k o, here q k -> let '(c', q') := qstep q o in
     c' = Some c \/ exists k', here q' k' /\ (bound q' k' + pops o <= bound q k + 2 * readds o)%nat) ->
  forall ops q k, here q k -> (bound q k + 2 * readdsIn ops <= popsIn ops)%nat -> c ∈ (qrun q ops).1.
Proof.
  intros Hpos Hstep ops. induction ops as [|o ops IH]; intros q k H B.
  { specialize (Hpos q k). simpl in B. lia. }
  pose proof (Hstep q k o H) as S. simpl. destruct (qstep q o) as [c' q'].
  destruct (qrun q' ops) as [out q''] eqn:R. simpl.
  destruct S as [->|(k' & H' & B')]; [set_solver|].
  apply elem_of_app. right. change out with (out, q'').1. rewrite <- R.
  eapply IH; [exact H'|]. simpl in B. lia.
Qed.

(** C7: how long a command of a slave can wait: one that has [k] commands of its own
    kind before it is handed out at the latest by the [2k + 2 + 2r]-th call of
    popNext, where [r] is the number of commands that readdCommand puts back in
    front meanwhile, whatever addPollList and addWriteCommand add and
    popFirstWithDelay takes out in between (only the calls of popNext are counted:
    what popFirstWithDelay hands out does not bring a later command nearer).  So
    without readdCommand neither deque starves the other; each command put back can
    cost the others two turns, which is the starvation that the comment in
    ModbusExecutor::addWriteCommand warns of (readd_starves). *)
Theorem popNext_no_starvation ops q k p :
  (2 * k + 2 + 2 * readdsIn ops <= popsIn ops)%nat ->
  (mWriteQueue q !! k = Some p -> WriteRef p ∈ (qrun q ops).1) /\
  (mPollQueue q !! k = Some p -> PollRef p ∈ (qrun q ops).1).
Proof.
  intros N. split; intros H.
  - apply (bounded_pop (fun q k => mWriteQueue q !! k = Some p)
      (fun q k => popBound k (negb (mPopFromPoll q))) (WriteRef p)) with (k := k); try done.
    + intros q' k'. unfold popBound. destruct (mPopFromPoll q'); simpl; lia.
    + intros q' k' o. apply write_step.
    + unfold popBound. destruct (mPopFromPoll q); simpl; lia.
  - apply (bounded_pop (fun q k => mPollQueue q !! k = Some p)
      (fun q k => popBound k (mPopFromPoll q)) (PollRef p)) with (k := k); try done.
    + intros q' k'. unfold popBound. destruct (mPopFromPoll q'); simpl; lia.
    + intros q' k' o. apply poll_step.
    + unfold popBound. destruct (mPopFromPoll q); simpl; lia.
Qed.

(** Two polls and two writes wait; poll 3 is put back in front meanwhile. *)
Lemma popNext_no_starvation_witness :
  WriteRef 9 ∈ (qrun (mkQueues [1; 2] [8; 9] None true)
                  [OPop; OAddPolls [4; 5]; OReadd (PollRef 3); OPop; OPop; OPop; OPop; OPop]).1.
Proof.
  apply (popNext_no_starvation _ _ 1 9); [vm_compute; lia|done].
Defined.

(** A poll that is put back after every pop keeps the others waiting for ever. *)
Lemma readd_starves n ws found flag :
  (qrun (mkQueues [1; 2] ws found true) (mjoin (replicate n [OPop; OReadd (PollRef 1)]))).1
  = replicate n (PollRef 1) /\
  (qrun (mkQueues [2] (8 :: ws) found flag) (mjoin (replicate n [OReadd (PollRef 1); OPop]))).1
  = replicate n (PollRef 1).
Proof.
  split.
  - revert found. induction n as [|n IH]; intros found; [done|]. simpl. specialize (IH None). unfold mjoin in IH.
    by destruct (qrun _ _) as [out q']; simpl in *; subst.
  - revert found flag. induction n as [|n IH]; intros found flag; [done|]. simpl. specialize (IH None false). unfold mjoin in IH.
    by destruct (qrun _ _) as [out q']; simpl in *; subst.
Qed.

(** * The search for a poll that fits a silence period *)

Section silence.
Context (s : Store) (period : Z) (ignore_first_read : bool).

Definition delayOf (p : ptr) : Z := silenceDelay ignore_first_read (pollCmd (polls s p)).

(** Delays are not negative, and no difference to the silence period reaches
    duration::max(). *)
Definition reasonable (p : ptr) : Prop :=
  0 <= delayOf p /\ Z.abs (delayOf p - period) < DURATION_MAX.

(** The result so far is the delay at an index of the scanned prefix. *)
Definition found_at (queue : list ptr) (ret : Z) (found : option nat) : Prop :=
  exists i p, found = Some i /\ queue !! i = Some p /\ delayOf p = ret /\ ret <> 0.

Lemma findLoop_spec queue ps done ret found :
  queue = done ++ ps ->
  Forall reasonable ps ->
  (ret = DURATION_MAX /\ Forall (fun p => delayOf p = 0) done \/ found_at queue ret found) ->
  let '(ret', found') := findLoop s period ignore_first_read ps (length done) ret found in
  (ret' = DURATION_MAX /\ Forall (fun p => delayOf p = 0) queue \/ found_at queue ret' found').
Proof.
  revert done ret found. induction ps as [|p ps IH]; intros done ret found Q R H; simpl.
  { rewrite Q, app_nil_r. destruct H as [H|H]; [by left|right]. by rewrite Q, app_nil_r in H. }
  apply Forall_cons in R as [[R1 R2] R]. fold (delayOf p).
  assert (Q' : queue = (done ++ [p]) ++ ps) by (rewrite Q, <- (assoc_L (++)); done).
  assert (L : S (length done) = length (done ++ [p])) by (rewrite length_app; simpl; lia).
  assert (At : delayOf p <> 0 -> found_at queue (delayOf p) (Some (length done))).
  { intros. exists (length done), p. split; [done|]. split; [|done].
    rewrite Q, lookup_app_r, Nat.sub_diag by lia. done. }
  rewrite !L. destruct (Z.eqb_spec (delayOf p) 0) as [Z|NZ].
  { apply IH; [done..|]. destruct H as [[-> H]|H]; [left|by right].
    split; [done|]. apply Forall_app. by repeat constructor. }
  destruct (Z.eqb_spec (Z.abs (delayOf p - period)) 0); [right; auto|].
  destruct (Z.ltb_spec (Z.abs (delayOf p - period)) ret); [apply IH; auto|].
  apply IH; [done..|]. destruct H as [[-> H]|H]; [lia|by right].
Qed.

Lemma findLoop_exact queue ps done ret found p :
  queue = done ++ ps -> p ∈ ps -> delayOf p = period -> period <> 0 ->
  exists i, findLoop s period ignore_first_read ps (length done) ret found = (period, Some i)
            /\ delayOf <$> queue !! i = Some period.
Proof.
  revert done ret found. induction ps as [|p0 ps IH]; intros done ret found Q Hp D NZ.
  { by apply elem_of_nil in Hp. }
  simpl. fold (delayOf p0).
  assert (Q' : queue = (done ++ [p0]) ++ ps) by (rewrite Q, <- (assoc_L (++)); done).
  assert (L : S (length done) = length (done ++ [p0])) by (rewrite length_app; simpl; lia).
  rewrite !L. apply elem_of_cons in Hp as [<-|Hp].
  - rewrite (proj2 (Z.eqb_neq _ _)) by congruence.
    rewrite (proj2 (Z.eqb_eq _ _)) by lia. exists (length done). split; [by rewrite D|].
    rewrite Q, lookup_app_r, Nat.sub_diag by lia. simpl. by rewrite D.
  - destruct (Z.eqb_spec (delayOf p0) 0); [by apply IH|].
    destruct (Z.eqb_spec (Z.abs (delayOf p0 - period)) 0).
    + assert (E : delayOf p0 = period) by lia.
      exists (length done). split; [by rewrite E|].
      rewrite Q, lookup_app_r, Nat.sub_diag by lia. simpl. by rewrite E.
    + destruct (Z.ltb_spec (Z.abs (delayOf p0 - period)) ret); by apply IH.
Qed.

(** The search leaves the deques alone, and popFirstWithDelay takes out the poll
    it found. *)
Lemma findForSilencePeriod_pop q :
  Forall reasonable (mPollQueue q) ->
  let '(ret, q') := findForSilencePeriod s period ignore_first_read q in
  mPollQueue q' = mPollQueue q /\ mWriteQueue q' = mWriteQueue q
  /\ ((ret = DURATION_MAX /\ Forall (fun p => delayOf p = 0) (mPollQueue q))
      \/ (exists p q'', delayOf p = ret /\ ret <> 0
            /\ popFirstWithDelay s period ignore_first_read q' = Ret (PollRef p, q'')
            /\ mPollQueue q ≡ₚ p :: mPollQueue q'' /\ mWriteQueue q'' = mWriteQueue q)).
Proof.
  intros R. unfold findForSilencePeriod.
  pose proof (findLoop_spec (mPollQueue q) (mPollQueue q) [] DURATION_MAX (mLastPollFound q)
    eq_refl R) as H. simpl in H.
  destruct (findLoop _ _ _ _ _ _ _) as [ret found]. split; [done|]. split; [done|].
  destruct H as [H|(i & p & -> & Hi & D & NZ)]; [by left; constructor|by left|right].
  exists p, (mkQueues (delete i (mPollQueue q)) (mWriteQueue q) None (mPopFromPoll q)).
  repeat split; try done.
  - unfold popFirstWithDelay; simpl. pose proof (lookup_lt_Some _ _ _ Hi) as Li.
    apply Nat.ltb_lt in Li. rewrite Li. unfold erasePoll; simpl. by rewrite Hi.
  - simpl. by apply delete_Permutation.
Qed.

(** FindForSilencePeriod returns duration::max() exactly when no queued poll
    asks for a delay; otherwise it returns the delay of a queued poll, the silence
    period itself when one asks for exactly that, and popFirstWithDelay then takes
    such a poll out of the queue. *)
Theorem findForSilencePeriod_spec q :
  Forall reasonable (mPollQueue q) ->
  let '(ret, q') := findForSilencePeriod s period ignore_first_read q in
  (ret = DURATION_MAX /\ Forall (fun p => delayOf p = 0) (mPollQueue q))
  \/ (exists p q'', delayOf p = ret /\ ret <> 0
        /\ (period ∈ delayOf <$> mPollQueue q -> period <> 0 -> ret = period)
        /\ popFirstWithDelay s period ignore_first_read q' = Ret (PollRef p, q'')
        /\ mPollQueue q ≡ₚ p :: mPollQueue q'').
Proof.
  intros R. pose proof (findForSilencePeriod_pop q R) as P.
  assert (X : period ∈ delayOf <$> mPollQueue q -> period <> 0 ->
    (findForSilencePeriod s period ignore_first_read q).1 = period).
  { intros (p & E & Hp)%list_elem_of_fmap NZ. unfold findForSilencePeriod.
    destruct (findLoop_exact (mPollQueue q) (mPollQueue q) [] DURATION_MAX (mLastPollFound q) p)
      as (i & Hi & _); [done..|]. simpl in Hi. by rewrite Hi. }
  destruct (findForSilencePeriod _ _ _ q) as [ret q']. destruct P as (_ & _ & [P|P]); [by left|].
  right. destruct P as (p & q'' & P1 & P2 & P3 & P4 & _). by exists p, q''.
Qed.

End silence.

(** A store in which poll [p] asks for a delay of [delay p]. *)
Definition delayStore (delay : ptr -> Z) : Store :=
  mkStore (fun p => setPollCmd (setDelayBeforeCommand (delay p) (newCommand 1 p HOLDING 1 0))
                      (newRegisterPoll 1 p HOLDING 1 1000 ON_CHANGE 0 0 0))
    (fun _ => newRegisterWrite (newMsgRegisterValues 1 HOLDING 0 [] 0 AUTO 0)) 100.

Lemma findForSilencePeriod_spec_witness :
  let s := delayStore (fun p => 10 * p) in
  let '(ret, q') := findForSilencePeriod s 20 true (mkQueues [1; 2; 3] [] None true) in
  (ret = DURATION_MAX /\ Forall (fun p => delayOf s true p = 0) [1; 2; 3])
  \/ (exists p q'', delayOf s true p = ret /\ ret <> 0
        /\ (20 ∈ delayOf s true <$> [1; 2; 3] -> 20 <> 0 -> ret = 20)
        /\ popFirstWithDelay s 20 true q' = Ret (PollRef p, q'')
        /\ [1; 2; 3] ≡ₚ p :: mPollQueue q'').
Proof.
  apply (findForSilencePeriod_spec (delayStore (fun p => 10 * p)) 20 true
    (mkQueues [1; 2; 3] [] None true)).
  repeat constructor; vm_compute; congruence.
Defined.

(** The declaration asks for the smallest difference between the silence period
    and a delay; the loop compares each difference with the delay found last
    instead, so that here it settles on a delay 99 away although one is 50 away. *)
Theorem findForSilencePeriod_not_closest :
  let s := delayStore (fun p => if p =? 1 then 1 else 50) in
  fst (findForSilencePeriod s 100 true (mkQueues [1; 2] [] None true)) = 1
  /\ Z.abs (delayOf s true 2 - 100) < Z.abs (delayOf s true 1 - 100).
Proof. vm_compute. done. Qed.

End RequestQueues.
