(* ===== verification/Scheduler.v ===== *)
(** The poll scheduler: libmodmqttsrv/modbus_scheduler.hpp and modbus_scheduler.cpp.

    The scheduler keeps the poll specification of a network (slave to polls) and
    tells which polls are due and how long the thread may sleep.  It is compared
    with a declarative reading of "due" and shown never to oversleep. *)

From stdpp Require Import base list sets sorting.
From Stdlib Require Import ZArith Lia.
From S2P Require Import Prelude ModbusTypes Commands RequestQueues.

Module Scheduler.

(** class ModbusScheduler: mRegisterMap *)
Abbreviation RegisterMap := (list (Z * list ptr)).

(** The value of [mRegisterMap] after setPollSpecification. *)
Definition setPollSpecification (pRegisterMap : RegisterMap) : RegisterMap := pRegisterMap.

(** Body of the inner loop of getRegistersToPoll, for the poll [p] of slave
    [slave]; the accumulator is the result map and outDuration. *)
Definition scanPoll (s : Store) (timePoint slave : Z) (acc : RegisterMap * Z) (p : ptr)
  : RegisterMap * Z :=
  let '(ret, outDuration) := acc in
  let reg := polls s p in
  if bool_decide (pollPublishMode reg = ONCE) && mLastReadOk reg then acc
  else
    let time_passed := timePoint - mLastReadStartTime reg in
    let '(ret', time_to_poll) :=
      if mRefresh reg <=? time_passed
      then (smap_alter [] (fun v => v ++ [p]) slave ret, mRefresh reg)
      else (ret, mRefresh reg - time_passed) in
    (ret', if time_to_poll <? outDuration then time_to_poll else outDuration).

Definition scanSlave (s : Store) (timePoint : Z) (acc : RegisterMap * Z) (slave : Z * list ptr)
  : RegisterMap * Z :=
  foldl (scanPoll s timePoint slave.1) acc slave.2.

(** getRegistersToPoll *)
Definition getRegistersToPoll (s : Store) (m : RegisterMap) (timePoint : Z) : RegisterMap * Z :=
  foldl (scanSlave s timePoint) ([], DURATION_MAX) m.

(** getMinPollTime *)
Definition getMinPollTime (s : Store) (m : RegisterMap) : Z :=
  foldl (fun ret slave =>
    foldl (fun ret p => if mRefresh (polls s p) <? ret then mRefresh (polls s p) else ret)
      ret slave.2) DURATION_MAX m.

(** Erases the first poll of the list that [f] accepts. *)
Fixpoint eraseFirst (f : ptr -> bool) (l : list ptr) : option (list ptr) :=
  match l with
  | [] => None
  | p :: l' => if f p then Some l' else (fun r => p :: r) <$> eraseFirst f l'
  end.

(** remove *)
Definition remove (s : Store) (m : RegisterMap) (slaveId registerNumber : Z)
    (registerType : RegisterType) : RegisterMap :=
  let matches p :=
    let r := mRange (cmdBase (pollCmd (polls s p))) in
    (mRegister r =? registerNumber) && bool_decide (mRegisterType r = registerType) in
  match smap_find slaveId m with
  | None => m
  | Some l =>
      match eraseFirst matches l with
      | None => m
      | Some [] => smap_erase slaveId m
      | Some l' => smap_set slaveId l' m
      end
  end.

(** The loop body of notifyRpcRead for one scheduled poll. *)
Definition deferPoll (completed : RegisterPoll) (s : Store) (p : ptr) : Store :=
  let poll := polls s p in
  if ModbusRange.contains (mRange (cmdBase (pollCmd completed))) (mRange (cmdBase (pollCmd poll)))
  then setPoll s p (setReadTimes (mLastReadStartTime completed) (mLastReadFinishTime completed) poll)
  else s.

(** notifyRpcRead *)
Definition notifyRpcRead (s : Store) (m : RegisterMap) (completed : RegisterPoll) : Store :=
  match smap_find (mSlaveId (cmdBase (pollCmd completed))) m with
  | None => s
  | Some l => foldl (deferPoll completed) s l
  end.

(** * The declarative reading *)

(** A poll that is read again and again: not a [once] poll already read. *)
Definition active (s : Store) (p : ptr) : Prop :=
  ~ (pollPublishMode (polls s p) = ONCE /\ mLastReadOk (polls s p) = true).

(** The refresh period has passed since the last read was started. *)
Definition due (s : Store) (timePoint : Z) (p : ptr) : Prop :=
  active s p /\ mLastReadStartTime (polls s p) + mRefresh (polls s p) <= timePoint.

#[export] Instance active_dec s p : Decision (active s p).
Proof. unfold active. apply _. Defined.
#[export] Instance due_dec s t p : Decision (due s t p).
Proof. unfold due. apply _. Defined.

(** The slaves with something due, in order, each with its due polls in order. *)
Definition dueMap (s : Store) (timePoint : Z) (m : RegisterMap) : RegisterMap :=
  omap (fun kv => match filter (due s timePoint) kv.2 with
                  | [] => None
                  | l => Some (kv.1, l)
                  end) m.

(** Time from [timePoint] until the poll has to be looked at again. *)
Definition timeToPoll (s : Store) (timePoint : Z) (p : ptr) : Z :=
  if decide (due s timePoint p) then mRefresh (polls s p)
  else mLastReadStartTime (polls s p) + mRefresh (polls s p) - timePoint.

Definition minTime (s : Store) (timePoint : Z) (l : list ptr) (out : Z) : Z :=
  foldr (fun p out => if decide (active s p) then Z.min (timeToPoll s timePoint p) out else out)
    out l.

Lemma minTime_app s t l1 l2 out : minTime s t (l1 ++ l2) out = minTime s t l1 (minTime s t l2 out).
Proof. apply foldr_app. Qed.

Lemma minTime_min s t l a b : minTime s t l (Z.min a b) = Z.min a (minTime s t l b).
Proof. induction l as [|p l IH]; simpl; [done|]. case_decide; rewrite IH; lia. Qed.

Lemma minTime_le s t l out p :
  p ∈ l -> active s p -> minTime s t l out <= timeToPoll s t p.
Proof.
  induction l as [|q l IH]; simpl; [by intros ?%elem_of_nil|].
  intros [->|Hp]%elem_of_cons A; [rewrite decide_True by done; lia|].
  specialize (IH Hp A). case_decide; lia.
Qed.

Lemma minTime_attained s t l out :
  minTime s t l out = out
  \/ exists p, p ∈ l /\ active s p /\ minTime s t l out = timeToPoll s t p.
Proof.
  induction l as [|q l IH]; simpl; [by left|].
  destruct (decide (active s q)).
  - destruct (Z.min_spec (timeToPoll s t q) (minTime s t l out)) as [[_ ->]|[_ ->]].
    + right. exists q. split; [left|done].
    + destruct IH as [IH|(p & Hp & IH)]; [by left|]. right. exists p. split; [by right|done].
  - destruct IH as [IH|(p & Hp & IH)]; [by left|]. right. exists p. split; [by right|done].
Qed.

(** One scanned poll, in declarative terms. *)
Lemma scanPoll_due s t k ret out p :
  scanPoll s t k (ret, out) p
  = (if decide (due s t p) then smap_alter [] (fun v => v ++ [p]) k ret else ret,
     minTime s t [p] out).
Proof.
  unfold scanPoll, minTime, timeToPoll, due; simpl.
  destruct (decide (active s p)) as [A|A]; unfold active in A.
  - assert (bool_decide (pollPublishMode (polls s p) = ONCE) && mLastReadOk (polls s p) = false)
      as -> by (apply not_true_iff_false; by rewrite andb_true_iff, bool_decide_eq_true).
    destruct (Z.leb_spec (mRefresh (polls s p)) (t - mLastReadStartTime (polls s p)));
      [rewrite !decide_True by (split; [done|lia])
      |rewrite !decide_False by (intros [_ ?]; lia)];
      f_equal; case_match eqn:L; rewrite ?Z.ltb_lt, ?Z.ltb_ge in L; lia.
  - apply dec_stable in A as [O R].
    rewrite bool_decide_true by done. rewrite R. simpl.
    by rewrite decide_False by (intros [[] _]; done).
Qed.

Lemma minTime_cons s t p l out : minTime s t l (minTime s t [p] out) = minTime s t (p :: l) out.
Proof. simpl. case_decide; [|done]. apply minTime_min. Qed.

Lemma minTime_comm s t l1 l2 out :
  minTime s t l1 (minTime s t l2 out) = minTime s t l2 (minTime s t l1 out).
Proof.
  induction l1 as [|p l1 IH]; simpl; [done|]. case_decide; [|done].
  by rewrite minTime_min, IH.
Qed.

(** The entry of slave [k]; no entry when nothing is due. *)
Definition bucket (k : Z) (l : list ptr) : RegisterMap :=
  match l with [] => [] | _ => [(k, l)] end.

Lemma bucket_snoc k l p : smap_alter [] (fun v => v ++ [p]) k (bucket k l) = bucket k (l ++ [p]).
Proof. destruct l; simpl; [done|]. by rewrite Z.ltb_irrefl, Z.eqb_refl. Qed.

Lemma foldl_scanPoll s t k l ret pre out :
  Forall (fun kv => kv.1 < k) ret ->
  foldl (scanPoll s t k) (ret ++ bucket k pre, out) l
  = (ret ++ bucket k (pre ++ filter (due s t) l), minTime s t l out).
Proof.
  intros H. revert pre out. induction l as [|p l IH]; intros pre out; cbn [foldl].
  { by rewrite app_nil_r. }
  rewrite scanPoll_due, filter_cons. case_decide.
  - rewrite smap_alter_app, bucket_snoc, IH, minTime_cons by done.
    by rewrite <- (assoc_L (++)).
  - by rewrite IH, minTime_cons.
Qed.

Lemma foldl_scanSlave s t m ret out :
  smap_wf m -> Forall (fun k => Forall (fun kv => kv.1 < k) ret) (smap_keys m) ->
  foldl (scanSlave s t) (ret, out) m
  = (ret ++ dueMap s t m, minTime s t (concat (snd <$> m)) out).
Proof.
  revert ret out. induction m as [|[k l] m IH]; intros ret out W H; csimpl.
  { by rewrite app_nil_r. }
  apply StronglySorted_inv in W as [W K]. apply Forall_cons in H as [Hk H].
  unfold scanSlave at 2; simpl.
  rewrite <- (app_nil_r ret) at 1. change [] with (bucket k []) at 1.
  rewrite foldl_scanPoll by done. simpl. rewrite IH.
  - rewrite minTime_app. unfold dueMap; simpl. f_equal; [|].
    + rewrite <- (assoc_L (++)). f_equal. by destruct (filter (due s t) l).
    + apply minTime_comm.
  - done.
  - rewrite Forall_forall in H, K |- *. intros j Hj. apply Forall_app. split; [by apply H|].
    specialize (K j Hj). unfold bucket. destruct (filter (due s t) l); by repeat constructor.
Qed.

(** getRegistersToPoll in declarative terms. *)
Lemma getRegistersToPoll_eq s m t :
  smap_wf m ->
  getRegistersToPoll s m t = (dueMap s t m, minTime s t (concat (snd <$> m)) DURATION_MAX).
Proof.
  intros W. unfold getRegistersToPoll. rewrite foldl_scanSlave by (try done; by apply Forall_true).
  done.
Qed.

(** GetRegistersToPoll returns, slave by slave and in the order of the
    specification, exactly the polls whose refresh period has passed since their
    last read was started, leaving out [once] polls already read; a slave with
    nothing due has no entry. *)
Theorem getRegistersToPoll_due s m t :
  smap_wf m -> (getRegistersToPoll s m t).1 = dueMap s t m.
Proof. intros W. by rewrite getRegistersToPoll_eq. Qed.

Lemma dueMap_elem s t m k p :
  smap_wf m ->
  (exists l, (k, l) ∈ dueMap s t m /\ p ∈ l)
  <-> (exists l, smap_find k m = Some l /\ p ∈ l /\ due s t p).
Proof.
  intros W. unfold dueMap. split.
  - intros (l & H & Hp). apply list_elem_of_omap in H as ([k' l'] & Hm & E); simpl in E.
    destruct (filter (due s t) l') as [|q r] eqn:F; [done|]. injection E as -> <-.
    rewrite <- F in Hp. apply list_elem_of_filter in Hp as [D Hp].
    exists l'. split; [by apply smap_elem_find|done].
  - intros (l & H & Hp & D). exists (filter (due s t) l).
    split; [|by apply list_elem_of_filter].
    apply list_elem_of_omap. exists (k, l). split; [by apply smap_find_elem|]. simpl.
    destruct (filter (due s t) l) eqn:F; [|done].
    assert (Hp' : p ∈ filter (due s t) l) by by apply list_elem_of_filter.
    rewrite F in Hp'. by apply elem_of_nil in Hp'.
Qed.

(** The returned duration never lets the thread oversleep: no active poll
    that is not due yet becomes due before [t + duration], a poll that is due now
    is waited for at most its refresh period, and when any poll is active the
    duration is exactly the time of one of them. *)
Theorem getRegistersToPoll_duration s m t :
  smap_wf m ->
  let out := (getRegistersToPoll s m t).2 in
  (forall k l p, smap_find k m = Some l -> p ∈ l -> active s p ->
     (~ due s t p -> t + out <= mLastReadStartTime (polls s p) + mRefresh (polls s p))
     /\ (due s t p -> out <= mRefresh (polls s p)))
  /\ (out = DURATION_MAX
      \/ exists k l p, (k, l) ∈ m /\ p ∈ l /\ active s p /\ out = timeToPoll s t p).
Proof.
  intros W. rewrite getRegistersToPoll_eq by done. simpl. split.
  - intros k l p F Hp A.
    assert (Hm : p ∈ concat (snd <$> m)).
    { apply list_elem_of_In, in_concat. exists l. split; [|by apply list_elem_of_In].
      apply list_elem_of_In, list_elem_of_fmap. exists (k, l). split; [done|].
      by apply smap_find_elem. }
    pose proof (minTime_le s t _ DURATION_MAX p Hm A) as B. unfold timeToPoll in B.
    split; intros D; case_decide; try done; lia.
  - destruct (minTime_attained s t (concat (snd <$> m)) DURATION_MAX) as [E|(p & Hp & A & E)].
    + by left.
    + right. apply list_elem_of_In, in_concat in Hp as (l & Hl & Hp).
      apply list_elem_of_In, list_elem_of_fmap in Hl as ([k l'] & -> & Hl).
      exists k, l', p. split; [done|]. split; [by apply list_elem_of_In|done].
Qed.

(** C9: getRegistersToPoll returns, slave by slave and in the order of the
    specification, exactly the polls whose refresh period has passed since their
    last read was started, leaving out [once] polls already read; a slave with
    nothing due has no entry. The duration it returns never lets the thread
    oversleep: no active poll that is not due yet becomes due before [t + duration],
    and a poll that is due now is waited for at most its refresh period. *)
Theorem getRegistersToPoll_schedule s m t :
  smap_wf m ->
  let '(ret, out) := getRegistersToPoll s m t in
  ret = dueMap s t m
  /\ forall k l p, smap_find k m = Some l -> p ∈ l -> active s p ->
     (~ due s t p -> t + out <= mLastReadStartTime (polls s p) + mRefresh (polls s p))
     /\ (due s t p -> out <= mRefresh (polls s p)).
Proof.
  intros W. pose proof (getRegistersToPoll_due s m t W) as E.
  pose proof (getRegistersToPoll_duration s m t W) as [H _].
  destruct (getRegistersToPoll s m t) as [ret out]. done.
Qed.

(** * RPC reads defer scheduled polls *)

Definition rpcCovers (completed : RegisterPoll) (r : RegisterPoll) : bool :=
  ModbusRange.contains (mRange (cmdBase (pollCmd completed))) (mRange (cmdBase (pollCmd r))).

Definition deferred (completed : RegisterPoll) (r : RegisterPoll) : RegisterPoll :=
  setReadTimes (mLastReadStartTime completed) (mLastReadFinishTime completed) r.

Lemma foldl_deferPoll c l s q :
  polls (foldl (deferPoll c) s l) q
  = if decide (q ∈ l /\ rpcCovers c (polls s q) = true) then deferred c (polls s q) else polls s q.
Proof.
  revert s. induction l as [|p l IH]; intros s; cbn [foldl].
  { rewrite decide_False; [done|]. by intros [?%elem_of_nil _]. }
  rewrite IH. unfold deferPoll. fold (rpcCovers c (polls s p)).
  destruct (rpcCovers c (polls s p)) eqn:C.
  - rewrite polls_setPoll. destruct (decide (q = p)) as [->|N].
    + rewrite (decide_True (deferred c (polls s p)) (polls s p)) by (split; [left|done]).
      destruct (decide (p ∈ l /\ _)); reflexivity.
    + apply decide_ext. rewrite elem_of_cons. tauto.
  - apply decide_ext. rewrite elem_of_cons. destruct (decide (q = p)) as [->|]; [|tauto].
    rewrite C. naive_solver.
Qed.

(** What notifyRpcRead does to every poll object. *)
Lemma notifyRpcRead_polls s m c q :
  polls (notifyRpcRead s m c) q
  = if decide (q ∈ default [] (smap_find (mSlaveId (cmdBase (pollCmd c))) m)
               /\ rpcCovers c (polls s q) = true)
    then deferred c (polls s q) else polls s q.
Proof.
  unfold notifyRpcRead. destruct (smap_find _ m) as [l|]; cbn [default]; [apply foldl_deferPoll|].
  rewrite decide_False; [done|]. by intros [?%elem_of_nil _].
Qed.

(** After a successful RPC read every poll of the same slave whose range the
    read covers counts as read at the time of the RPC read, so that it is not due
    before its refresh period has passed since then; every other poll object is
    left as it was. *)
Theorem notifyRpcRead_defers s m c :
  let slavePolls := default [] (smap_find (mSlaveId (cmdBase (pollCmd c))) m) in
  let s' := notifyRpcRead s m c in
  (forall p t, p ∈ slavePolls -> rpcCovers c (polls s p) = true ->
     t < mLastReadStartTime c + mRefresh (polls s p) -> ~ due s' t p)
  /\ (forall p, p ∉ slavePolls \/ rpcCovers c (polls s p) = false -> polls s' p = polls s p).
Proof.
  simpl. split.
  - intros p t Hp C T [_ D]. rewrite notifyRpcRead_polls, decide_True in D by done.
    simpl in D. lia.
  - intros p H. rewrite notifyRpcRead_polls, decide_False; [done|].
    intros [? ?]. destruct H as [|]; [done|congruence].
Qed.

(** * The other operations *)

Lemma getMinPollTime_le s m k l p :
  (k, l) ∈ m -> p ∈ l -> getMinPollTime s m <= mRefresh (polls s p).
Proof.
  set (inner := fun ret (slave : Z * list ptr) =>
    foldl (fun ret p => if mRefresh (polls s p) <? ret then mRefresh (polls s p) else ret)
      ret slave.2).
  assert (I1 : forall l a, foldl (fun ret p => if mRefresh (polls s p) <? ret
      then mRefresh (polls s p) else ret) a l <= a).
  { induction l0 as [|x l0 IH]; intros a; simpl; [lia|].
    etrans; [apply IH|]. destruct (Z.ltb_spec (mRefresh (polls s x)) a); lia. }
  assert (I2 : forall m a, foldl inner a m <= a).
  { induction m0 as [|x m0 IH]; intros a; simpl; [lia|].
    etrans; [apply IH|]. apply I1. }
  unfold getMinPollTime. fold inner. intros Hm Hp. generalize DURATION_MAX.
  induction m as [|x m IH]; intros a; [by apply elem_of_nil in Hm|]. simpl.
  apply elem_of_cons in Hm as [<-|Hm]; [|by apply IH].
  etrans; [apply I2|]. unfold inner; simpl. clear -Hp I1. revert a.
  induction l as [|y l IH]; intros a; [by apply elem_of_nil in Hp|]. simpl.
  apply elem_of_cons in Hp as [<-|Hp]; [|by apply IH].
  etrans; [apply I1|]. destruct (Z.ltb_spec (mRefresh (polls s p)) a); lia.
Qed.

Lemma eraseFirst_spec f l :
  match eraseFirst f l with
  | None => Forall (fun p => f p = false) l
  | Some l' => exists l1 p l2, l = l1 ++ p :: l2 /\ l' = l1 ++ l2 /\ f p = true
                 /\ Forall (fun p => f p = false) l1
  end.
Proof.
  induction l as [|p l IH]; simpl; [constructor|].
  destruct (f p) eqn:E.
  - exists [], p, l. repeat split; done || constructor.
  - destruct (eraseFirst f l) as [l'|]; simpl.
    + destruct IH as (l1 & q & l2 & -> & -> & Hq & F). exists (p :: l1), q, l2.
      repeat split; try done. by constructor.
    + by constructor.
Qed.

(** * Witnesses *)

(** Two polls of slave 1 and one of slave 2, refreshed every second, read at time
    0 (poll 1), 500ms (poll 2) and 0 (poll 3, [once], read). *)
Definition demoStore : Store :=
  mkStore (fun p =>
      mkPoll (newCommand (if p =? 3 then 2 else 1) (10 * p) HOLDING 2 0) SEC (p =? 3)
        (if p =? 2 then 500 * MSEC else 0) 0 0 0 (if p =? 3 then ONCE else ON_CHANGE) [0; 0])
    (fun _ => newRegisterWrite (newMsgRegisterValues 1 HOLDING 0 [] 0 AUTO 0)) 10.
Definition demoMap : RegisterMap := [(1, [1; 2]); (2, [3])].

Lemma demoMap_wf : smap_wf demoMap.
Proof. unfold smap_wf, demoMap. csimpl. repeat constructor. Qed.

Example getRegistersToPoll_demo :
  getRegistersToPoll demoStore demoMap SEC = ([(1, [1])], 500 * MSEC).
Proof. vm_compute. reflexivity. Qed.

Lemma getRegistersToPoll_schedule_witness :
  (getRegistersToPoll demoStore demoMap SEC).1 = dueMap demoStore SEC demoMap
  /\ SEC + (getRegistersToPoll demoStore demoMap SEC).2 <= 500 * MSEC + SEC.
Proof.
  pose proof (getRegistersToPoll_schedule demoStore demoMap SEC demoMap_wf) as H.
  destruct (getRegistersToPoll demoStore demoMap SEC) as [ret out] eqn:E.
  destruct H as [H1 H2]. split; [exact H1|].
  apply (H2 1 [1; 2] 2); [done|set_solver| |]; by vm_compute; intros [].
Defined.

End Scheduler.
