(* ===== verification/ModbusContext.v ===== *)
(** Access to a Modbus network: the interface IModbusContext of
    libmodmqttsrv/imodbuscontext.hpp and its implementation over libmodbus,
    modbus_context.hpp and modbus_context.cpp.

    [IModbusContext] is what the executor and the thread use; [ModbusContextLaws]
    is what they rely on.  [ModbusContext] implements it with the functions of
    libmodbus, which are operations of the class [Libmodbus]; what its manual pages
    promise is [LibmodbusLaws]. *)

From stdpp Require Import base list strings.
From Stdlib Require Import ZArith Lia.
From S2P Require Import Prelude ModbusTypes Commands.

(** How readModbusRegisters ends: a value, a ModbusReadException, or another
    ModbusContextException. *)
Inductive ReadResult : Type :=
| ReadOk (values : list Z)
| ReadException
| ReadContextException.

(** How writeModbusRegisters ends. *)
Inductive WriteResult : Type :=
| WriteOk
| WriteException
| WriteContextException.

(** class IModbusContext, without init; [C] is the state of the context and of the
    network behind it. *)
Class IModbusContext (C : Type) : Type := {
  connect : C -> C;
  isConnected : C -> bool;
  disconnect : C -> C;
  readModbusRegisters : C -> Z -> RegisterPoll -> C * ReadResult;
  writeModbusRegisters : C -> Z -> RegisterWrite -> C * WriteResult
}.

(** What the users of a context rely on. *)
Class ModbusContextLaws (C : Type) `{IModbusContext C} : Prop := {
  disconnect_disconnects : forall c, isConnected (disconnect c) = false;
  read_keeps_connection : forall c s r, isConnected (readModbusRegisters c s r).1 = isConnected c;
  write_keeps_connection : forall c s w, isConnected (writeModbusRegisters c s w).1 = isConnected c;
  read_count : forall c s r values,
    (readModbusRegisters c s r).2 = ReadOk values ->
    length values = length (mLastValues r) /\ Forall is_u16 values;
  read_no_context_error : forall c s r, (readModbusRegisters c s r).2 <> ReadContextException
}.

(** The functions of libmodbus the code calls.  Reads get the destination buffer
    and return its new contents with the return code; [malloc_u16] stands for the
    contents of a buffer that has not been initialised. *)
Class Libmodbus (L : Type) : Type := {
  modbus_connect : L -> L * Z;
  modbus_close : L -> L;
  modbus_set_slave : L -> Z -> L;
  modbus_read_bits : L -> Z -> Z -> list Z -> L * Z * list Z;
  modbus_read_input_bits : L -> Z -> Z -> list Z -> L * Z * list Z;
  modbus_read_registers : L -> Z -> Z -> list Z -> L * Z * list Z;
  modbus_read_input_registers : L -> Z -> Z -> list Z -> L * Z * list Z;
  modbus_write_bit : L -> Z -> bool -> L * Z;
  modbus_write_bits : L -> Z -> Z -> list Z -> L * Z;
  modbus_write_register : L -> Z -> Z -> L * Z;
  modbus_write_registers : L -> Z -> Z -> list Z -> L * Z;
  malloc_u16 : L -> nat -> list Z
}.

Definition is_u8 (x : Z) : Prop := 0 <= x < 2 ^ 8.

(** Documented behaviour: a read fills a buffer of the given size, bits as bytes
    and registers as 16 bit words. *)
Class LibmodbusLaws (L : Type) `{Libmodbus L} : Prop := {
  malloc_u16_length : forall l n, length (malloc_u16 l n) = n;
  read_bits_buffer : forall l a n buf, let '(_, rc, buf') := modbus_read_bits l a n buf in
    length buf' = length buf /\ (rc <> -1 -> Forall is_u8 buf');
  read_input_bits_buffer : forall l a n buf, let '(_, rc, buf') := modbus_read_input_bits l a n buf in
    length buf' = length buf /\ (rc <> -1 -> Forall is_u8 buf');
  read_registers_buffer : forall l a n buf, let '(_, rc, buf') := modbus_read_registers l a n buf in
    length buf' = length buf /\ (rc <> -1 -> Forall is_u16 buf');
  read_input_registers_buffer : forall l a n buf,
    let '(_, rc, buf') := modbus_read_input_registers l a n buf in
    length buf' = length buf /\ (rc <> -1 -> Forall is_u16 buf')
}.

Definition MODBUS_TCP_SLAVE : Z := 255.

Section context.
Context {L : Type} `{LibmodbusLaws L}.

(** class ModbusContext *)
Record ModbusContext : Type := mkContext {
  mIsConnected : bool;
  mCtx : L
}.

Definition selectSlave (l : L) (slaveId : Z) : L :=
  if negb (slaveId =? -1) then modbus_set_slave l slaveId
  else modbus_set_slave l MODBUS_TCP_SLAVE.

(** ModbusContext::connect; mCtx is never null after a successful init. *)
Definition ctxConnect (c : ModbusContext) : ModbusContext :=
  let l := modbus_close (mCtx c) in
  let '(l', rc) := modbus_connect l in
  if rc =? -1 then mkContext false l' else mkContext true l'.

(** ModbusContext::disconnect *)
Definition ctxDisconnect (c : ModbusContext) : ModbusContext :=
  mkContext false (modbus_close (mCtx c)).

(** ModbusContext::readModbusRegisters; the default branch of the switch needs a
    register type outside the enum. *)
Definition ctxRead (c : ModbusContext) (slaveId : Z) (regData : RegisterPoll)
  : ModbusContext * ReadResult :=
  let l := selectSlave (mCtx c) slaveId in
  let range := mRange (cmdBase (pollCmd regData)) in
  let n := pollGetCount regData in
  let '(l', retCode, values) :=
    match mRegisterType range with
    | COIL => modbus_read_bits l (mRegister range) n (replicate (Z.to_nat n) 0)
    | BIT => modbus_read_input_bits l (mRegister range) n (replicate (Z.to_nat n) 0)
    | HOLDING => modbus_read_registers l (mRegister range) n (malloc_u16 l (Z.to_nat n))
    | INPUT => modbus_read_input_registers l (mRegister range) n (malloc_u16 l (Z.to_nat n))
    end in
  (mkContext (mIsConnected c) l', if retCode =? -1 then ReadException else ReadOk values).

Definition TRUE_FALSE (value : Z) : Z := if value =? 1 then 1 else 0.

(** ModbusContext::writeModbusRegisters *)
Definition ctxWrite (c : ModbusContext) (slaveId : Z) (msg : RegisterWrite)
  : ModbusContext * WriteResult :=
  let l := selectSlave (mCtx c) slaveId in
  let range := mRange (cmdBase (writeCmd msg)) in
  let values := mValues msg in
  let count := ModbusRegisters.getCount values in
  let single := (count =? 1) && bool_decide (mWriteMode msg = AUTO) in
  let finish (r : L * Z) : ModbusContext * WriteResult :=
    (mkContext (mIsConnected c) r.1, if r.2 =? -1 then WriteException else WriteOk) in
  match mRegisterType range with
  | COIL =>
      finish (if single
              then modbus_write_bit l (mRegister range) (default 0 (head values) =? 1)
              else modbus_write_bits l (mRegister range) count (TRUE_FALSE <$> values))
  | HOLDING =>
      finish (if single
              then modbus_write_register l (mRegister range) (default 0 (head values))
              else modbus_write_registers l (mRegister range) count values)
  | BIT | INPUT => (mkContext (mIsConnected c) l, WriteContextException)
  end.

#[export] Instance ModbusContext_IModbusContext : IModbusContext ModbusContext := {
  connect := ctxConnect;
  isConnected := mIsConnected;
  disconnect := ctxDisconnect;
  readModbusRegisters := ctxRead;
  writeModbusRegisters := ctxWrite
}.

Lemma is_u8_u16 l : Forall is_u8 l -> Forall is_u16 l.
Proof. intros Hl. eapply Forall_impl; [exact Hl|]. unfold is_u8, is_u16. simpl. lia. Qed.

(** What a read of [n] registers into a buffer of that size gives. *)
Definition good_read (n : nat) (r : L * Z * list Z) : Prop :=
  let '(_, rc, buf) := r in length buf = n /\ (rc <> -1 -> Forall is_u16 buf).

Lemma read_bits_good l a n k : good_read k (modbus_read_bits l a n (replicate k 0)).
Proof.
  pose proof (read_bits_buffer l a n (replicate k 0)) as B. unfold good_read.
  destruct (modbus_read_bits _ _ _ _) as [[? ?] ?]. rewrite length_replicate in B.
  naive_solver auto using is_u8_u16.
Qed.

Lemma read_input_bits_good l a n k : good_read k (modbus_read_input_bits l a n (replicate k 0)).
Proof.
  pose proof (read_input_bits_buffer l a n (replicate k 0)) as B. unfold good_read.
  destruct (modbus_read_input_bits _ _ _ _) as [[? ?] ?]. rewrite length_replicate in B.
  naive_solver auto using is_u8_u16.
Qed.

Lemma read_registers_good l a n k : good_read k (modbus_read_registers l a n (malloc_u16 l k)).
Proof.
  pose proof (read_registers_buffer l a n (malloc_u16 l k)) as B. unfold good_read.
  destruct (modbus_read_registers _ _ _ _) as [[? ?] ?]. by rewrite malloc_u16_length in B.
Qed.

Lemma read_input_registers_good l a n k :
  good_read k (modbus_read_input_registers l a n (malloc_u16 l k)).
Proof.
  pose proof (read_input_registers_buffer l a n (malloc_u16 l k)) as B. unfold good_read.
  destruct (modbus_read_input_registers _ _ _ _) as [[? ?] ?]. by rewrite malloc_u16_length in B.
Qed.

Lemma ctxRead_result c slaveId regData :
  match (ctxRead c slaveId regData).2 with
  | ReadOk values => length values = length (mLastValues regData) /\ Forall is_u16 values
  | ReadException => True
  | ReadContextException => False
  end.
Proof.
  unfold ctxRead, pollGetCount. rewrite Nat2Z.id.
  match goal with |- context [match ?m with COIL => ?a | BIT => ?b | HOLDING => ?c | INPUT => ?d end] =>
    assert (G : good_read (length (mLastValues regData)) (match m with COIL => a | BIT => b | HOLDING => c | INPUT => d end))
      by (destruct m; auto using read_bits_good, read_input_bits_good, read_registers_good,
                        read_input_registers_good);
    destruct (match m with COIL => a | BIT => b | HOLDING => c | INPUT => d end) as [[l' rc] buf]
  end.
  destruct G as [G1 G2]. simpl. destruct (Z.eqb_spec rc (-1)); auto.
Qed.

#[export] Instance ModbusContext_laws : ModbusContextLaws ModbusContext.
Proof.
  split.
  - done.
  - intros c s r. simpl. unfold ctxRead. by destruct (match mRegisterType _ with COIL => _ | _ => _ end)
      as [[? ?] ?].
  - intros c s w. simpl. unfold ctxWrite. by destruct (mRegisterType _).
  - intros c s r values E. pose proof (ctxRead_result c s r) as R. simpl in E. by rewrite E in R.
  - intros c s r E. pose proof (ctxRead_result c s r) as R. simpl in E. by rewrite E in R.
Qed.

(** A successful read returns exactly as many values as the poll has
    registers, each a 16 bit word, whatever the register type; every failed read is
    a ModbusReadException, which the executor handles. *)
Theorem ctxRead_values c slaveId regData :
  match (ctxRead c slaveId regData).2 with
  | ReadOk values => Z.of_nat (length values) = pollGetCount regData /\ Forall is_u16 values
  | ReadException => True
  | ReadContextException => False
  end.
Proof.
  pose proof (ctxRead_result c slaveId regData) as R. unfold pollGetCount.
  destruct (ctxRead c slaveId regData).2; try done. destruct R. split; [lia|done].
Qed.

End context.
Arguments ModbusContext L : clear implicits.

(** * A simulated device

    One memory of 16 bit words, shared by all register types; every call
    succeeds. *)
Module Device.

Definition state : Type := Z -> Z.

Definition readWords (d : state) (a : Z) (buf : list Z) : list Z :=
  imap (fun i _ => to_u16 (d (a + Z.of_nat i))) buf.
Definition readBits (d : state) (a : Z) (buf : list Z) : list Z :=
  imap (fun i _ => if to_u16 (d (a + Z.of_nat i)) =? 0 then 0 else 1) buf.
Fixpoint writeWords (d : state) (a : Z) (values : list Z) : state :=
  match values with
  | [] => d
  | v :: vs => writeWords (fun x => if x =? a then v else d x) (a + 1) vs
  end.

#[global] Instance lib : Libmodbus state := {
  modbus_connect d := (d, 0);
  modbus_close d := d;
  modbus_set_slave d _ := d;
  modbus_read_bits d a n buf := (d, n, readBits d a buf);
  modbus_read_input_bits d a n buf := (d, n, readBits d a buf);
  modbus_read_registers d a n buf := (d, n, readWords d a buf);
  modbus_read_input_registers d a n buf := (d, n, readWords d a buf);
  modbus_write_bit d a b := (writeWords d a [if b then 1 else 0], 1);
  modbus_write_bits d a n vs := (writeWords d a vs, n);
  modbus_write_register d a v := (writeWords d a [v], 1);
  modbus_write_registers d a n vs := (writeWords d a vs, n);
  malloc_u16 _ n := replicate n 0
}.

Lemma readWords_u16 d a buf : Forall is_u16 (readWords d a buf).
Proof.
  apply Forall_lookup. intros i x. unfold readWords. rewrite list_lookup_imap.
  destruct (buf !! i); [|done]. intros [= <-]. apply to_u16_range.
Qed.

Lemma readBits_u8 d a buf : Forall is_u8 (readBits d a buf).
Proof.
  apply Forall_lookup. intros i x. unfold readBits. rewrite list_lookup_imap.
  destruct (buf !! i); [|done]. intros [= <-]. unfold is_u8. by destruct (_ =? 0).
Qed.

#[global] Instance laws : LibmodbusLaws state.
Proof.
  split; intros; simpl; [apply length_replicate|..]; (split; [apply length_imap|intros _]);
    apply readWords_u16 || apply readBits_u8.
Qed.

(** A connected context; the register at address [a] holds [65536 + a], read as
    [a]. *)
Definition ctx : ModbusContext state := mkContext true (fun a => 65536 + a).

End Device.

Lemma ctxRead_values_witness :
  match (ctxRead Device.ctx 1
           (newRegisterPoll 1 7 HOLDING 2 1000 ON_CHANGE 0 0 0)).2 with
  | ReadOk values => Z.of_nat (length values) = 2 /\ Forall is_u16 values
  | ReadException => True
  | ReadContextException => False
  end.
Proof.
  apply (ctxRead_values Device.ctx 1
           (newRegisterPoll 1 7 HOLDING 2 1000 ON_CHANGE 0 0 0)).
Defined.
