(* ===== verification/Config.v ===== *)
(** Configuration data: libmodmqttsrv/config.hpp and modbus_slave.hpp.

    The values the other components receive; durations given in milliseconds in
    the source keep that unit here. *)

From stdpp Require Import base strings.
From Stdlib Require Import ZArith Lia.
From S2P Require Import Prelude ModbusTypes Commands.

(** enum class RpcMode *)
Inductive RpcMode : Type := DISABLED | READ | READ_WRITE.

#[export] Instance RpcMode_eq_dec : EqDecision RpcMode.
Proof. solve_decision. Defined.

(** class ModbusWatchdogConfig; [mWatchPeriod] is a steady_clock duration. *)
Record ModbusWatchdogConfig : Type := mkWatchdogConfig {
  mAutoWatchPeriod : bool;
  mWatchPeriod : Z;
  mDevicePath : string
}.

Definition defaultWatchdogConfig : ModbusWatchdogConfig := mkWatchdogConfig true (10 * SEC) "".

(** The enums of class ModbusNetworkConfig. *)
Inductive NetworkType : Type := RTU | TCPIP.
Inductive RtuRtsMode : Type := RtsNONE | RtsUP | RtsDOWN.
Inductive RtuSerialMode : Type := UNSPECIFIED | RS232 | RS485.

(** class ModbusNetworkConfig; a shared_ptr to a delay is an option. *)
Record ModbusNetworkConfig : Type := mkNetworkConfig {
  netType : NetworkType;
  netName : string;
  mResponseTimeout : Z;
  mResponseDataTimeout : Z;
  netDelayBeforeCommand : option Z;
  netDelayBeforeFirstCommand : option Z;
  netMaxWriteRetryCount : Z;
  netMaxReadRetryCount : Z;
  mDevice : string;
  mBaud : Z;
  mParity : Z;
  mDataBit : Z;
  mStopBit : Z;
  mRtuSerialMode : RtuSerialMode;
  mRtsMode : RtuRtsMode;
  mRtsDelayUs : Z;
  netAddress : string;
  netPort : Z;
  mWatchdogConfig : ModbusWatchdogConfig
}.

(** The values a default-constructed ModbusNetworkConfig has (the type field is
    not initialised there). *)
Definition defaultNetworkConfig (ty : NetworkType) : ModbusNetworkConfig :=
  mkNetworkConfig ty "" 500 0 None None 2 1 "" 0 0 0 0 UNSPECIFIED RtsNONE 0 "" 0
    defaultWatchdogConfig.

(** class ModbusSlaveConfig *)
Record ModbusSlaveConfig : Type := mkSlaveConfig {
  slaveAddress : Z;
  mSlaveName : string;
  slaveWriteMode : ModbusWriteMode;
  slaveDelayBeforeCommand : option Z;
  slaveDelayBeforeFirstCommand : option Z;
  slaveMaxWriteRetryCount : Z;
  slaveMaxReadRetryCount : Z
}.

(** class MqttBrokerConfig *)
Record MqttBrokerConfig : Type := mkBrokerConfig {
  mHost : string;
  brokerPort : Z;
  mKeepalive : Z;
  mUsername : string;
  mPassword : string;
  mTLS : bool;
  mCafile : string;
  mProtocolV5 : bool
}.

Definition defaultBrokerConfig : MqttBrokerConfig :=
  mkBrokerConfig "" 1883 60 "" "" false "" false.

(** MqttBrokerConfig::isSameAs *)
Definition brokerIsSameAs (self other : MqttBrokerConfig) : bool :=
  bool_decide (mHost self = mHost other)
  && (brokerPort self =? brokerPort other)
  && (mKeepalive self =? mKeepalive other)
  && bool_decide (mUsername self = mUsername other)
  && bool_decide (mPassword self = mPassword other)
  && bool_decide (mTLS self = mTLS other)
  && bool_decide (mCafile self = mCafile other).
