(* ===== verification/Watchdog.v ===== *)
(** The connection watchdog of a modbus thread: libmodmqttsrv/modbus_watchdog.hpp
    and modbus_watchdog.cpp.

    It looks at every executed command; a thread whose commands have failed for
    longer than the watch period, or whose serial device has disappeared, is to
    reconnect. *)

From stdpp Require Import base list strings.
From Stdlib Require Import ZArith Lia.
From S2P Require Import Prelude Commands Config.

Module Watchdog.

(** class ModbusWatchdog *)
Record Watchdog : Type := mkWatchdog {
  mConfig : ModbusWatchdogConfig;
  mLastSuccessfulCommandTime : Z;
  mLastDeviceCheckTime : Z;
  mLastCommandOk : bool;
  mDeviceRemoved : bool
}.

(** Time points are not initialised by the constructor: the epoch. *)
Definition newWatchdog : Watchdog := mkWatchdog defaultWatchdogConfig 0 0 true false.

Definition sDeviceCheckPeriod : Z := 300 * MSEC.

(** reset *)
Definition reset (now : Z) (w : Watchdog) : Watchdog :=
  mkWatchdog (mConfig w) now (mLastDeviceCheckTime w) true false.

(** init *)
Definition init (conf : ModbusWatchdogConfig) (now : Z) (w : Watchdog) : Watchdog :=
  reset now (mkWatchdog conf (mLastSuccessfulCommandTime w) (mLastDeviceCheckTime w)
               (mLastCommandOk w) (mDeviceRemoved w)).

(** setWatchPeriod *)
Definition setWatchPeriod (pWatchPeriod : Z) (w : Watchdog) : Watchdog :=
  mkWatchdog
    (mkWatchdogConfig (mAutoWatchPeriod (mConfig w)) pWatchPeriod (mDevicePath (mConfig w)))
    (mLastSuccessfulCommandTime w) (mLastDeviceCheckTime w) (mLastCommandOk w) (mDeviceRemoved w).

Definition getCurrentErrorPeriod (now : Z) (w : Watchdog) : Z :=
  now - mLastSuccessfulCommandTime w.

(** inspectCommand: [ok] is command.executedOk(), [exists_path] is
    std::filesystem::exists. *)
Definition inspectCommand (exists_path : string -> bool) (now : Z) (ok : bool) (w : Watchdog)
  : Watchdog :=
  let w' :=
    if ok then reset now w
    else if negb (bool_decide (mDevicePath (mConfig w) = ""%string)) then
      if negb (mDeviceRemoved w)
         && (mLastCommandOk w || (sDeviceCheckPeriod <? now - mLastDeviceCheckTime w))
      then mkWatchdog (mConfig w) (mLastSuccessfulCommandTime w) now (mLastCommandOk w)
             (negb (exists_path (mDevicePath (mConfig w))))
      else w
    else w in
  mkWatchdog (mConfig w') (mLastSuccessfulCommandTime w') (mLastDeviceCheckTime w') ok
    (mDeviceRemoved w').

(** isReconnectRequired *)
Definition isReconnectRequired (now : Z) (w : Watchdog) : bool :=
  if mDeviceRemoved w then true
  else mWatchPeriod (mConfig w) <? getCurrentErrorPeriod now w.

(** * Histories of commands *)

(** One inspected command: when, whether it succeeded, and the file system. *)
Record inspection : Type := mkInspection {
  insTime : Z;
  insOk : bool;
  insExists : string -> bool
}.

Definition inspectAll (l : list inspection) (w : Watchdog) : Watchdog :=
  foldl (fun w i => inspectCommand (insExists i) (insTime i) (insOk i) w) w l.

(** When the last command of [l] that succeeded ended; [t0] if none did. *)
Definition lastOkTime (t0 : Z) (l : list inspection) : Z :=
  foldl (fun t i => if insOk i then insTime i else t) t0 l.

Lemma inspectCommand_config e now ok w : mConfig (inspectCommand e now ok w) = mConfig w.
Proof. unfold inspectCommand. destruct ok; [done|]. by repeat case_match. Qed.

Lemma inspectCommand_time e now ok w :
  mLastSuccessfulCommandTime (inspectCommand e now ok w)
  = if ok then now else mLastSuccessfulCommandTime w.
Proof. unfold inspectCommand. destruct ok; [done|]. by repeat case_match. Qed.

Lemma inspectAll_state l w :
  mConfig (inspectAll l w) = mConfig w
  /\ mLastSuccessfulCommandTime (inspectAll l w)
     = lastOkTime (mLastSuccessfulCommandTime w) l.
Proof.
  unfold inspectAll, lastOkTime. revert w. induction l as [|i l IH]; intros w; simpl; [done|].
  destruct (IH (inspectCommand (insExists i) (insTime i) (insOk i) w)) as [-> ->].
  by rewrite inspectCommand_config, inspectCommand_time.
Qed.

Lemma inspectAll_removed l w :
  mDeviceRemoved (inspectAll l w) = true ->
  mDeviceRemoved w = true
  \/ exists i, i ∈ l /\ insOk i = false /\ mDevicePath (mConfig w) <> ""%string
               /\ insExists i (mDevicePath (mConfig w)) = false.
Proof.
  unfold inspectAll. revert w. induction l as [|i l IH]; intros w H; simpl in H; [by left|].
  apply IH in H. rewrite inspectCommand_config in H.
  destruct H as [H|(j & J & R)]; [|right; exists j; split; [by right|done]].
  revert H. unfold inspectCommand. destruct (insOk i) eqn:Ok; simpl; [done|].
  case_bool_decide as P; simpl; [intros; by left|]. destruct (mDeviceRemoved w) eqn:D; simpl; [intros; by left|].
  destruct (mLastCommandOk w || _); simpl; [|congruence].
  rewrite negb_true_iff. intros X. right. exists i. split; [by left|done].
Qed.

(** A reconnect is asked for exactly when the device is marked as removed or
    every command of more than the last watch period has failed; and the device is
    marked as removed only after a failed command found its path missing, never
    for a network without a device path. *)
Theorem reconnect_iff_failing conf l now0 now :
  let w := inspectAll l (init conf now0 newWatchdog) in
  (isReconnectRequired now w = true
   <-> mDeviceRemoved w = true \/ mWatchPeriod conf < now - lastOkTime now0 l)
  /\ (mDeviceRemoved w = true ->
      exists i, i ∈ l /\ insOk i = false /\ mDevicePath conf <> ""%string
                /\ insExists i (mDevicePath conf) = false).
Proof.
  intros w. destruct (inspectAll_state l (init conf now0 newWatchdog)) as [Ec Et].
  fold w in Ec, Et. simpl in Ec, Et. split.
  - unfold isReconnectRequired, getCurrentErrorPeriod. rewrite Ec, Et.
    destruct (mDeviceRemoved w); [naive_solver|]. rewrite Z.ltb_lt. naive_solver.
  - intros H. apply inspectAll_removed in H as [H|H]; done.
Qed.

(** A success clears the watchdog whatever came before. *)
Lemma inspect_ok_clears e now w t :
  0 <= mWatchPeriod (mConfig w) -> t <= now + mWatchPeriod (mConfig w) ->
  isReconnectRequired t (inspectCommand e now true w) = false.
Proof.
  intros P T. unfold isReconnectRequired, inspectCommand, getCurrentErrorPeriod. simpl.
  apply Z.ltb_ge. lia.
Qed.

End Watchdog.
