(* ===== verification/Executor.v ===== *)
(** The command executor of a modbus thread: libmodmqttsrv/modbus_executor.hpp and
    modbus_executor.cpp.

    The executor owns one pair of queues per slave, elects the next command,
    respects the silence a command asks for, sends it through an [IModbusContext],
    retries it, and reports results to the main thread.  The store of command
    objects, the context and the queue to the main thread are its [World]; the
    clock readings of one call are an [ExecEnv]. *)

From stdpp Require Import base list sets sorting strings.
From Stdlib Require Import ZArith Lia.
From S2P Require Import Prelude ModbusTypes Commands RequestQueues ModbusContext.

Import RequestQueues.

Definition WRITE_BATCH_SIZE : Z := 10.

(** class ModbusExecutor.  [mCurrentSlaveQueue] is an iterator into
    [mSlaveQueues]: a key, or [None] for end(). *)
Record Executor : Type := mkExecutor {
  mSlaveQueues : list (Z * Queues);
  mCurrentSlaveQueue : option Z;
  mCommandsLeft : Z;
  mWriteCommandsQueued : Z;
  exMaxReadRetryCount : Z;
  exMaxWriteRetryCount : Z;
  mWriteRetryCount : Z;
  mReadRetryCount : Z;
  mLastCommandTime : Z;
  mWaitingCommand : option CmdRef;
  mLastCommand : option CmdRef;
  mInitialPoll : bool;
  mInitialPollStart : Z
}.

(** Clock readings of one executeNext call: the delay check, the start of a
    read, the creation of the result message, the two readings of the error
    handler, and the end of the command. *)
Record ExecEnv : Type := mkEnv {
  clkDelay : Z;
  clkStart : Z;
  clkSend : Z;
  clkError : Z;
  clkErrorSet : Z;
  clkEnd : Z
}.

(** What the executor acts on besides its own fields. *)
Record World (C : Type) : Type := mkWorld {
  wStore : Store;
  wCtx : C;
  wOut : list FromModbus
}.
Arguments mkWorld {C} _ _ _.
Arguments wStore {C} _.
Arguments wCtx {C} _.
Arguments wOut {C} _.

Definition withQueues (v : list (Z * Queues)) (e : Executor) : Executor :=
  mkExecutor v (mCurrentSlaveQueue e) (mCommandsLeft e) (mWriteCommandsQueued e)
    (exMaxReadRetryCount e) (exMaxWriteRetryCount e) (mWriteRetryCount e) (mReadRetryCount e)
    (mLastCommandTime e) (mWaitingCommand e) (mLastCommand e) (mInitialPoll e) (mInitialPollStart
    e).

Definition withCurrent (v : option Z) (e : Executor) : Executor :=
  mkExecutor (mSlaveQueues e) v (mCommandsLeft e) (mWriteCommandsQueued e) (exMaxReadRetryCount e)
    (exMaxWriteRetryCount e) (mWriteRetryCount e) (mReadRetryCount e) (mLastCommandTime e)
    (mWaitingCommand e) (mLastCommand e) (mInitialPoll e) (mInitialPollStart e).

Definition withCommandsLeft (v : Z) (e : Executor) : Executor :=
  mkExecutor (mSlaveQueues e) (mCurrentSlaveQueue e) v (mWriteCommandsQueued e)
    (exMaxReadRetryCount e) (exMaxWriteRetryCount e) (mWriteRetryCount e) (mReadRetryCount e)
    (mLastCommandTime e) (mWaitingCommand e) (mLastCommand e) (mInitialPoll e) (mInitialPollStart
    e).

Definition withWritesQueued (v : Z) (e : Executor) : Executor :=
  mkExecutor (mSlaveQueues e) (mCurrentSlaveQueue e) (mCommandsLeft e) v (exMaxReadRetryCount e)
    (exMaxWriteRetryCount e) (mWriteRetryCount e) (mReadRetryCount e) (mLastCommandTime e)
    (mWaitingCommand e) (mLastCommand e) (mInitialPoll e) (mInitialPollStart e).

Definition withWaiting (v : option CmdRef) (e : Executor) : Executor :=
  mkExecutor (mSlaveQueues e) (mCurrentSlaveQueue e) (mCommandsLeft e) (mWriteCommandsQueued e)
    (exMaxReadRetryCount e) (exMaxWriteRetryCount e) (mWriteRetryCount e) (mReadRetryCount e)
    (mLastCommandTime e) v (mLastCommand e) (mInitialPoll e) (mInitialPollStart e).

Definition withLastCommand (v : option CmdRef) (e : Executor) : Executor :=
  mkExecutor (mSlaveQueues e) (mCurrentSlaveQueue e) (mCommandsLeft e) (mWriteCommandsQueued e)
    (exMaxReadRetryCount e) (exMaxWriteRetryCount e) (mWriteRetryCount e) (mReadRetryCount e)
    (mLastCommandTime e) (mWaitingCommand e) v (mInitialPoll e) (mInitialPollStart e).

Definition withLastCommandTime (v : Z) (e : Executor) : Executor :=
  mkExecutor (mSlaveQueues e) (mCurrentSlaveQueue e) (mCommandsLeft e) (mWriteCommandsQueued e)
    (exMaxReadRetryCount e) (exMaxWriteRetryCount e) (mWriteRetryCount e) (mReadRetryCount e) v
    (mWaitingCommand e) (mLastCommand e) (mInitialPoll e) (mInitialPollStart e).

Definition withInitialPoll (v : bool) (e : Executor) : Executor :=
  mkExecutor (mSlaveQueues e) (mCurrentSlaveQueue e) (mCommandsLeft e) (mWriteCommandsQueued e)
    (exMaxReadRetryCount e) (exMaxWriteRetryCount e) (mWriteRetryCount e) (mReadRetryCount e)
    (mLastCommandTime e) (mWaitingCommand e) (mLastCommand e) v (mInitialPollStart e).

Definition withInitialPollStart (v : Z) (e : Executor) : Executor :=
  mkExecutor (mSlaveQueues e) (mCurrentSlaveQueue e) (mCommandsLeft e) (mWriteCommandsQueued e)
    (exMaxReadRetryCount e) (exMaxWriteRetryCount e) (mWriteRetryCount e) (mReadRetryCount e)
    (mLastCommandTime e) (mWaitingCommand e) (mLastCommand e) (mInitialPoll e) v.

Definition withReadRetry (v : Z) (e : Executor) : Executor :=
  mkExecutor (mSlaveQueues e) (mCurrentSlaveQueue e) (mCommandsLeft e) (mWriteCommandsQueued e)
    (exMaxReadRetryCount e) (exMaxWriteRetryCount e) (mWriteRetryCount e) v (mLastCommandTime e)
    (mWaitingCommand e) (mLastCommand e) (mInitialPoll e) (mInitialPollStart e).

Definition withWriteRetry (v : Z) (e : Executor) : Executor :=
  mkExecutor (mSlaveQueues e) (mCurrentSlaveQueue e) (mCommandsLeft e) (mWriteCommandsQueued e)
    (exMaxReadRetryCount e) (exMaxWriteRetryCount e) v (mReadRetryCount e) (mLastCommandTime e)
    (mWaitingCommand e) (mLastCommand e) (mInitialPoll e) (mInitialPollStart e).

Definition setMaxReadRetryCount (v : Z) (e : Executor) : Executor :=
  mkExecutor (mSlaveQueues e) (mCurrentSlaveQueue e) (mCommandsLeft e) (mWriteCommandsQueued e) v
    (exMaxWriteRetryCount e) (mWriteRetryCount e) v (mLastCommandTime e) (mWaitingCommand e)
    (mLastCommand e) (mInitialPoll e) (mInitialPollStart e).

Definition setMaxWriteRetryCount (v : Z) (e : Executor) : Executor :=
  mkExecutor (mSlaveQueues e) (mCurrentSlaveQueue e) (mCommandsLeft e) (mWriteCommandsQueued e)
    (exMaxReadRetryCount e) v v (mReadRetryCount e) (mLastCommandTime e) (mWaitingCommand e)
    (mLastCommand e) (mInitialPoll e) (mInitialPollStart e).

Module Executor.

(** The constructor; [now] is its clock reading. *)
Definition newExecutor (now : Z) : Executor :=
  mkExecutor [] None 0 0 0 0 0 0 (now - 100000 * HOUR) None None false 0.

Definition allDone (e : Executor) : bool :=
  match mWaitingCommand e with
  | Some _ => false
  | None => forallb (fun kq => empty kq.2) (mSlaveQueues e)
  end.

Definition pollDone (e : Executor) : bool :=
  match mWaitingCommand e with
  | Some (PollRef _) => false
  | _ => forallb (fun kq => pollEmpty kq.2) (mSlaveQueues e)
  end.

(** The queues mCurrentSlaveQueue points at. *)
Definition currentQueue (e : Executor) : outcome Queues :=
  match mCurrentSlaveQueue e with
  | None => Fault EndDereferenced
  | Some k => match smap_find k (mSlaveQueues e) with
              | Some q => Ret q
              | None => Fault EndDereferenced
              end
  end.

(** resetCommandsCounter *)
Definition resetCommandsCounter (e : Executor) : outcome Executor :=
  let! q := currentQueue e in
  if pollEmpty q then Ret (withCommandsLeft WRITE_BATCH_SIZE e)
  else Ret (withCommandsLeft (Z.of_nat (length (mPollQueue q)) * 2) e).

(** [mSlaveQueues.find(k)] as an iterator. *)
Definition findQueue (e : Executor) (k : Z) : option Z :=
  match smap_find k (mSlaveQueues e) with Some _ => Some k | None => None end.

(** [m[k].f()] *)
Definition onQueue (k : Z) (f : Queues -> Queues) (e : Executor) : Executor :=
  withQueues (smap_alter newQueues f k (mSlaveQueues e)) e.

(** popNext on the current queue, stored back. *)
Definition popCurrent (e : Executor) : outcome (CmdRef * Executor) :=
  match mCurrentSlaveQueue e with
  | None => Fault EndDereferenced
  | Some k =>
      let! q := currentQueue e in
      let! (c, q') := popNext q in
      Ret (c, withQueues (smap_set k q' (mSlaveQueues e)) e)
  end.

(** The first loop of addPollList: queues the polls slave by slave; the result
    has first_added. *)
Fixpoint queuePolls (regs : list (Z * list ptr)) (first_added : option Z) (e : Executor)
  : option Z * Executor :=
  match regs with
  | [] => (first_added, e)
  | (slave, ps) :: regs' =>
      let e' := onQueue slave (fun q => RequestQueues.addPollList q ps) e in
      let first_added' :=
        match ps, first_added with
        | _ :: _, None => Some slave
        | _, _ => first_added
        end in
      queuePolls regs' first_added' e'
  end.

(** The election loop of addPollList over the slaves [ks] still to visit. *)
Fixpoint elect (s : Store) (period : Z) (ks : list Z) (currentDiff : Z) (e : Executor)
  : outcome Executor :=
  match ks with
  | [] => Ret e
  | k :: ks' =>
      let ignore_first_read := bool_decide (mCurrentSlaveQueue e = Some k) in
      if currentDiff =? 0 then elect s period ks' currentDiff e
      else
        match smap_find k (mSlaveQueues e) with
        | None => Fault EndDereferenced
        | Some q =>
            let '(reg_delay, q') := findForSilencePeriod s period ignore_first_read q in
            if reg_delay <? currentDiff then
              let! (reg, q'') := popFirstWithDelay s period ignore_first_read q' in
              let e' := withCurrent (Some k) (withWaiting (Some reg)
                          (withQueues (smap_set k q'' (mSlaveQueues e)) e)) in
              if reg_delay =? 0 then Ret e' else elect s period ks' reg_delay e'
            else elect s period ks' currentDiff (withQueues (smap_set k q' (mSlaveQueues e)) e)
        end
  end.

(** The part of addPollList from the assertion on, with the current queue set. *)
Definition startElection (s : Store) (last_silence_period : Z) (e : Executor) : outcome Executor :=
  match mWaitingCommand e with
  | Some _ => Fault AssertionFailed
  | None =>
      let! e4 := resetCommandsCounter e in
      let! e5 := elect s last_silence_period (smap_keys (mSlaveQueues e4)) DURATION_MAX e4 in
      match mWaitingCommand e5 with
      | Some _ => Ret e5
      | None => let! (c, e6) := popCurrent e5 in Ret (withWaiting (Some c) e6)
      end
  end.

(** addPollList; [now1] is read for the start of an initial poll, [now2] for the
    silence period. *)
Definition addPollList (s : Store) (regs : list (Z * list ptr)) (initialPoll : bool)
    (now1 now2 : Z) (e : Executor) : outcome Executor :=
  let setupQueues := allDone e in
  if mInitialPoll e && negb (pollDone e) then Ret e
  else
    let e1 := if initialPoll then withInitialPollStart now1 (withInitialPoll true e) else e in
    let '(first_added, e2) := queuePolls regs None e1 in
    match setupQueues, first_added with
    | true, Some first =>
        let e3 := withCurrent (Some first) e2 in
        startElection s (now2 - mLastCommandTime e3) e3
    | _, _ => Ret e2
    end.

(** setupInitialPoll *)
Definition setupInitialPoll (s : Store) (regs : list (Z * list ptr)) (now1 now2 : Z)
    (e : Executor) : outcome Executor :=
  addPollList s regs true now1 now2 e.

(** addReadCommand *)
Definition addReadCommand (s : Store) (p : ptr) (e : Executor) : outcome Executor :=
  let slave := cmdSlave s (PollRef p) in
  let e1 := onQueue slave (fun q => RequestQueues.addPollList q [p]) e in
  match mCurrentSlaveQueue e1 with
  | None => resetCommandsCounter (withCurrent (findQueue e1 slave) e1)
  | Some _ => Ret e1
  end.

(** addWriteCommand *)
Definition addWriteCommand (s : Store) (w : ptr) (e : Executor) : outcome Executor :=
  let slave := cmdSlave s (WriteRef w) in
  let! e' :=
    (if mWriteCommandsQueued e =? 0 then
       let e1 := match mWaitingCommand e with
                 | Some c => onQueue slave (fun q => readdCommand q c) e
                 | None => e
                 end in
       let e2 := withWaiting (Some (WriteRef w)) e1 in
       resetCommandsCounter (withCurrent (findQueue e2 slave) e2)
     else
       let e1 := onQueue slave (fun q => RequestQueues.addWriteCommand q w) e in
       match mCurrentSlaveQueue e1 with
       | None => resetCommandsCounter (withCurrent (findQueue e1 slave) e1)
       | Some _ => Ret e1
       end) in
  Ret (withWritesQueued (mWriteCommandsQueued e' + 1) e').

(** * Sending commands *)

Section execution.
Context {C : Type} `{IModbusContext C}.

(** sendMessage: enqueue for the main thread. *)
Definition sendMessage (m : FromModbus) (w : World C) : World C :=
  mkWorld (wStore w) (wCtx w) (wOut w ++ [m]).

Definition putPoll (p : ptr) (r : RegisterPoll) (w : World C) : World C :=
  mkWorld (setPoll (wStore w) p r) (wCtx w) (wOut w).
Definition putWrite (p : ptr) (r : RegisterWrite) (w : World C) : World C :=
  mkWorld (setWrite (wStore w) p r) (wCtx w) (wOut w).
Definition putCtx (c : C) (w : World C) : World C := mkWorld (wStore w) c (wOut w).

(** The failure message of a command: its range, with [count] registers. *)
Definition failedMessage (b : ModbusMessageBase) (count commandId : Z) : ModbusMessageBase :=
  newMsgFailed (mSlaveId b) (mRegisterType (mRange b)) (mRegister (mRange b)) count commandId.

(** handleRegisterReadError *)
Definition handleRegisterReadError (env : ExecEnv) (p : ptr) (w : World C) : World C :=
  let r0 := polls (wStore w) p in
  let r := setLastReadOk false (setReadErrors (mReadErrors r0 + 1) (mFirstErrorTime r0) r0) in
  let b := cmdBase (pollCmd r) in
  if isRpc b then putPoll p r w
  else
    let r' :=
      if (mReadErrors r =? 1) || (DurationBetweenLogError <? clkError env - mFirstErrorTime r)
      then setReadErrors (if negb (mReadErrors r =? 1) then 0 else mReadErrors r) (clkErrorSet env) r
      else r in
    let w' := putPoll p r' w in
    if DefaultReadErrorCount <? mReadErrors r'
    then sendMessage (RegisterReadFailed (failedMessage b (pollGetCount r') 0)) w'
    else w'.

(** The body of the try block of pollRegisters once the read succeeded. *)
Definition pollSucceeded (env : ExecEnv) (p : ptr) (forceSend : bool) (newValues : list Z)
    (w : World C) : World C :=
  let r := setLastReadOk true (polls (wStore w) p) in
  let b := cmdBase (pollCmd r) in
  let forceSend := forceSend || bool_decide (pollPublishMode r = EVERY_POLL) in
  let w1 := putPoll p r w in
  if negb (bool_decide (mLastValues r = newValues)) || forceSend || negb (mReadErrors r =? 0) then
    let m := newMsgRegisterValues (mSlaveId b) (mRegisterType (mRange b)) (mRegister (mRange b))
               newValues (mCommandId b) AUTO (clkSend env) in
    putPoll p (setReadErrors 0 (mFirstErrorTime r) (updateValues newValues r))
      (sendMessage (RegisterValues m) w1)
  else w1.

(** pollRegisters: a ModbusReadException is handled, any other context exception
    leaves the function. *)
Definition pollRegisters (env : ExecEnv) (p : ptr) (forceSend : bool) (e : Executor) (w : World C)
  : outcome (Executor * World C) :=
  let r0 := polls (wStore w) p in
  let r := setReadTimes (clkStart env) (mLastReadFinishTime r0) r0 in
  let w0 := putPoll p r w in
  let '(c, res) := readModbusRegisters (wCtx w0) (mSlaveId (cmdBase (pollCmd r))) r in
  let w1 := putCtx c w0 in
  let! w2 := match res with
             | ReadOk newValues => Ret (pollSucceeded env p forceSend newValues w1)
             | ReadException => Ret (handleRegisterReadError env p w1)
             | ReadContextException => Fault (StdException "ModbusContextException")
             end in
  let r2 := polls (wStore w2) p in
  Ret (withLastCommandTime (clkEnd env) e,
       putPoll p (setReadTimes (mLastReadStartTime r2) (clkEnd env) r2) w2).

(** The return message of a write, with the written values. *)
Definition fillReturn (values : ModbusRegisters.t) (m : MsgRegisterValues) : MsgRegisterValues :=
  mkMsgValues (msgBase m) values (msgWriteMode m) (msgCreationTime m).

(** writeRegisters *)
Definition writeRegisters (env : ExecEnv) (p : ptr) (e : Executor) (w : World C)
  : outcome (Executor * World C) :=
  let cmd := writes (wStore w) p in
  let b := cmdBase (writeCmd cmd) in
  let '(c, res) := writeModbusRegisters (wCtx w) (mSlaveId b) cmd in
  let w1 := putCtx c w in
  let! w2 :=
    match res with
    | WriteOk =>
        let cmd1 := setLastWriteOk true cmd in
        match mReturnMessage cmd1 with
        | Some m =>
            let m' := fillReturn (mValues cmd1) m in
            Ret (sendMessage (RegisterValues m') (putWrite p (setReturnMessage (Some m') cmd1) w1))
        | None => Ret (putWrite p cmd1 w1)
        end
    | WriteException =>
        Ret (sendMessage
               (RegisterWriteFailed
                  (failedMessage b (ModbusRegisters.getCount (mValues cmd)) (mCommandId b)))
               (putWrite p (setLastWriteOk false cmd) w1))
    | WriteContextException => Fault (StdException "ModbusContextException")
    end in
  Ret (withLastCommandTime (clkEnd env) e, w2).

(** sendCommand on the waiting command. *)
Definition sendCommand (env : ExecEnv) (e : Executor) (w : World C)
  : outcome (Executor * World C) :=
  match mWaitingCommand e with
  | None => Fault NullDereferenced
  | Some cmd =>
      let rc := commandOf (wStore w) cmd in
      let e0 := if decide (mWaitingCommand e = mLastCommand e) then e
                else setMaxWriteRetryCount (mMaxWriteRetryCount rc)
                       (setMaxReadRetryCount (mMaxReadRetryCount rc) e) in
      let! (retry, e2, w2) :=
        match cmd with
        | PollRef p =>
            let! (e1, w1) :=
              pollRegisters env p (mInitialPoll e0 || cmdIsRpc (wStore w) cmd) e0 w in
            let r := polls (wStore w1) p in
            if negb (mLastReadOk r) then
              if negb (mReadRetryCount e1 =? 0) then
                Ret (true, withReadRetry (mReadRetryCount e1 - 1) e1, w1)
              else if isRpc (cmdBase (pollCmd r)) then
                let b := cmdBase (pollCmd r) in
                Ret (false, e1, sendMessage (RegisterReadFailed
                                  (failedMessage b (pollGetCount r) (mCommandId b))) w1)
              else Ret (false, e1, w1)
            else Ret (false, withReadRetry (exMaxReadRetryCount e1) e1, w1)
        | WriteRef p =>
            let! (e1, w1) := writeRegisters env p e0 w in
            if negb (mLastWriteOk (writes (wStore w1) p)) then
              if negb (mWriteRetryCount e1 =? 0) then
                Ret (true, withWriteRetry (mWriteRetryCount e1 - 1) e1, w1)
              else Ret (false, e1, w1)
            else
              let e1' := withWritesQueued (mWriteCommandsQueued e1 - 1)
                           (withWriteRetry (exMaxWriteRetryCount e1) e1) in
              if 0 <=? mWriteCommandsQueued e1' then Ret (false, e1', w1)
              else Fault AssertionFailed
        end in
      let e3 := withLastCommand (mWaitingCommand e2) e2 in
      if retry : bool then Ret (e3, w2)
      else
        let e4 := withWaiting None e3 in
        Ret (if 0 <? mCommandsLeft e4 then withCommandsLeft (mCommandsLeft e4 - 1) e4 else e4, w2)
  end.

(** The search of executeNext for the next queue: [next] is the iterator of the
    loop.  A round visits every queue once and passes end() once, so that
    [searchFuel] rounds off every search that ends. *)
Fixpoint findNext (fuel : nat) (m : list (Z * Queues)) (cur next : option Z) : outcome (option Z) :=
  match fuel with
  | O => Fault Diverges
  | S fuel' =>
      if decide (next = cur) then Ret next
      else
        let next := match next with None => smap_begin m | Some k => Some k end in
        match next with
        | None => Fault EndDereferenced
        | Some k =>
            match smap_find k m with
            | None => Fault EndDereferenced
            | Some q => if negb (empty q) then Ret (Some k) else findNext fuel' m cur (smap_next k m)
            end
        end
  end.

Definition searchFuel (m : list (Z * Queues)) : nat := 2 * length m + 2.

(** The first half of executeNext: elect the waiting command.  [false] is the
    early return of duration::max(). *)
Definition electNext (e : Executor) : outcome (bool * Executor) :=
  match mWaitingCommand e, mCurrentSlaveQueue e with
  | None, Some k =>
      let! q := currentQueue e in
      if (mCommandsLeft e =? 0) || empty q then
        let! next := findNext (searchFuel (mSlaveQueues e)) (mSlaveQueues e) (Some k)
                       (smap_next k (mSlaveQueues e)) in
        if negb (bool_decide (Some k = next)) || negb (empty q) then
          let! (c, e') := popCurrent (withCurrent next e) in
          let! e'' := resetCommandsCounter (withWaiting (Some c) e') in
          Ret (true, e'')
        else Ret (false, e)
      else
        let! (c, e') := popCurrent e in
        Ret (true, withWaiting (Some c) e')
  | _, _ => Ret (true, e)
  end.

(** The delay the waiting command [c] asks for. *)
Definition commandDelay (s : Store) (e : Executor) (c : CmdRef) : Z :=
  let slave_change := match mLastCommand e with
                      | Some l => negb (cmdSlave s c =? cmdSlave s l)
                      | None => false
                      end in
  let rc := commandOf s c in
  if hasDelayBeforeFirstCommand rc && slave_change
  then mDelayBeforeFirstCommand rc else mDelayBeforeCommand rc.

(** The end of executeNext: the initial poll is over. *)
Definition finishInitialPoll (e : Executor) : Executor :=
  if mInitialPoll e && pollDone e then
    match mCurrentSlaveQueue e with
    | None => e
    | Some _ => withInitialPoll false e
    end
  else e.

(** executeNext *)
Definition executeNext (env : ExecEnv) (e : Executor) (w : World C)
  : outcome (Z * Executor * World C) :=
  let! (go, e1) := electNext e in
  if negb go then Ret (DURATION_MAX, e1, w)
  else
    match mWaitingCommand e1 with
    | None => Ret (0, finishInitialPoll e1, w)
    | Some c =>
        let delay := commandDelay (wStore w) e1 c in
        let delay_left := delay - (clkDelay env - mLastCommandTime e1) in
        if negb (delay =? 0) && (0 <? delay_left) then
          match mCurrentSlaveQueue e1 with
          | None => Fault EndDereferenced
          | Some _ => Ret (delay_left, e1, w)
          end
        else
          let! (e2, w2) := sendCommand env e1 w in
          Ret (0, finishInitialPoll e2, w2)
    end.

End execution.

End Executor.
