(* ===== verification/ExecutorProps.v ===== *)
(** Theorems about the executor of [Executor]: the search for the next queue,
    the invariant of its queues and counters, what executeNext does to the pending
    commands, and what it sends. *)

From stdpp Require Import base list sets sorting strings relations.
From Stdlib Require Import ZArith Lia.
From S2P Require Import Prelude ModbusTypes Commands RequestQueues ModbusContext Executor.

Import RequestQueues Executor.

(** * The search for the next queue *)

(** The first queue of [l] that has a command. *)
Fixpoint firstNonEmpty (l : list (Z * Queues)) : option Z :=
  match l with
  | [] => None
  | (k, q) :: l' => if negb (empty q) then Some k else firstNonEmpty l'
  end.

(** The queues after and before slave [k]. *)
Definition afterKey (k : Z) (m : list (Z * Queues)) : list (Z * Queues) :=
  filter (fun kv => k < kv.1) m.
Definition beforeKey (k : Z) (m : list (Z * Queues)) : list (Z * Queues) :=
  filter (fun kv => kv.1 < k) m.

Lemma filter_all {A} (P : A -> Prop) `{forall x, Decision (P x)} l :
  Forall P l -> filter P l = l.
Proof. induction 1; simpl; [done|]. by rewrite filter_cons_True, IHForall. Qed.

Lemma filter_none {A} (P : A -> Prop) `{forall x, Decision (P x)} l :
  Forall (fun x => ~ P x) l -> filter P l = [].
Proof. induction 1; simpl; [done|]. by rewrite filter_cons_False. Qed.

Lemma split_keys k q m1 m2 :
  Forall (fun kv : Z * Queues => kv.1 < k) m1 -> Forall (fun kv : Z * Queues => k < kv.1) m2 ->
  afterKey k (m1 ++ (k, q) :: m2) = m2 /\ beforeKey k (m1 ++ (k, q) :: m2) = m1.
Proof.
  intros H1 H2. unfold afterKey, beforeKey. rewrite !filter_app.
  rewrite !filter_cons_False by (simpl; lia).
  rewrite (filter_all (fun kv => kv.1 < k) m1), (filter_all (fun kv => k < kv.1) m2) by done.
  rewrite (filter_none (fun kv => k < kv.1) m1), (filter_none (fun kv => kv.1 < k) m2);
    [by rewrite app_nil_r| |]; eapply Forall_impl; eauto; simpl; lia.
Qed.

(** The loop walks over a stretch [l] of the map that does not hold the start. *)
Lemma findNext_walk pre l suf k n :
  let m := pre ++ l ++ suf in
  smap_wf m -> k ∉ smap_keys l ->
  findNext (length l + n) m (Some k) (smap_begin (l ++ suf))
  = match firstNonEmpty l with
    | Some k' => Ret (Some k')
    | None => findNext n m (Some k) (smap_begin suf)
    end.
Proof.
  revert pre. induction l as [|[k' q] l IH]; intros pre m W N; [done|].
  assert (Hk : k' <> k) by (intros ->; apply N; by left).
  assert (N' : k ∉ smap_keys l) by (intros ?; apply N; by right).
  assert (Em : m = (pre ++ [(k', q)]) ++ l ++ suf) by (subst m; by rewrite <- (assoc_L (++))).
  assert (Hpre : Forall (fun kv => kv.1 < k') pre).
  { unfold smap_wf, smap_keys in W. unfold m in W. rewrite fmap_app in W.
    apply Forall_forall. intros [k0 q0] H0. simpl.
    eapply (StronglySorted_app_1_elem_of _ _ _ _ _ W); [apply list_elem_of_fmap; by eexists (_, _)|].
    csimpl. by left. }
  assert (F : smap_find k' m = Some q).
  { unfold m. rewrite smap_find_app_lt by done. simpl. by rewrite Z.eqb_refl. }
  assert (X : smap_next k' m = smap_begin (l ++ suf)) by (by apply smap_next_app).
  change (smap_begin (((k', q) :: l) ++ suf)) with (Some k').
  simpl. rewrite decide_False by congruence. rewrite F. destruct (empty q); simpl; [|done].
  rewrite X, Em. apply IH; [by rewrite <- Em|done].
Qed.

Lemma findNext_fuel m k next n n' r :
  findNext n m (Some k) next = Ret r -> (n <= n')%nat -> findNext n' m (Some k) next = Ret r.
Proof.
  revert n' next. induction n as [|n IH]; intros n' next E L; [done|].
  destruct n' as [|n']; [lia|]. simpl in *.
  destruct (decide (next = Some k)); [done|].
  destruct (match next with Some _ => _ | None => _ end) as [j|]; [|done].
  destruct (smap_find j m) as [q|]; [|done]. destruct (negb (empty q)); [done|].
  apply IH; [done|lia].
Qed.

Section search.
Context (k : Z) (q : Queues) (m1 m2 : list (Z * Queues)).
Let m := m1 ++ (k, q) :: m2.
Context (W : smap_wf m) (H1 : Forall (fun kv => kv.1 < k) m1) (H2 : Forall (fun kv => k < kv.1) m2).

Lemma notin_after : k ∉ smap_keys m2.
Proof.
  intros (kv & E & I)%list_elem_of_fmap. rewrite Forall_forall in H2.
  specialize (H2 _ I). lia.
Qed.

Lemma notin_before : k ∉ smap_keys m1.
Proof.
  intros (kv & E & I)%list_elem_of_fmap. rewrite Forall_forall in H1.
  specialize (H1 _ I). lia.
Qed.

(** From the queue after the start to end(). *)
Lemma findNext_after n :
  findNext (length m2 + n) m (Some k) (smap_next k m)
  = match firstNonEmpty m2 with
    | Some k' => Ret (Some k')
    | None => findNext n m (Some k) None
    end.
Proof.
  unfold m. rewrite smap_next_app by done.
  pose proof (findNext_walk (m1 ++ [(k, q)]) m2 [] k n) as L. simpl in L.
  rewrite app_nil_r, <- (assoc_L (++)) in L. apply L; [done|apply notin_after].
Qed.

(** From end() to the first queue and on to the start, when there is a queue
    before the start. *)
Lemma findNext_before n :
  m1 <> [] ->
  findNext (length m1 + S n) m (Some k) None
  = match firstNonEmpty m1 with
    | Some k' => Ret (Some k')
    | None => Ret (Some k)
    end.
Proof.
  intros N. pose proof (findNext_walk [] m1 ((k, q) :: m2) k (S n)) as L. simpl in L.
  change (match firstNonEmpty m1 with Some k' => Ret (Some k') | None => Ret (Some k) end)
    with (match firstNonEmpty m1 with
          | Some k' => Ret (Some k')
          | None => Ret (smap_begin ((k, q) :: m2))
          end).
  rewrite decide_True in L by done. rewrite <- L; [|done|apply notin_before].
  destruct m1 as [|[k0 q0] m1'] eqn:E1; [done|].
  assert (k0 <> k) by (apply Forall_cons in H1 as [? ?]; simpl in *; lia).
  change (smap_begin (((k0, q0) :: m1') ++ (k, q) :: m2)) with (Some k0).
  simpl. rewrite decide_False by congruence. 
  done.
Qed.

End search.

Lemma firstNonEmpty_app l1 l2 :
  firstNonEmpty (l1 ++ l2)
  = match firstNonEmpty l1 with Some k => Some k | None => firstNonEmpty l2 end.
Proof. induction l1 as [|[k q] l1 IH]; simpl; [done|]. by destruct (empty q). Qed.

Lemma firstNonEmpty_None l : firstNonEmpty l = None <-> Forall (fun kq => empty kq.2 = true) l.
Proof.
  induction l as [|[k q] l IH]; simpl; [by split; [constructor|]|].
  rewrite Forall_cons, <- IH. simpl. destruct (empty q); naive_solver.
Qed.

Lemma smap_next_keys {V} j i (m : list (Z * V)) : smap_next j m = Some i -> i ∈ smap_keys m.
Proof.
  induction m as [|[k v] m IH]; simpl; [done|]. unfold smap_keys; csimpl.
  destruct (j =? k); [|right; by apply IH].
  destruct m as [|[k' v'] m]; [done|]. intros [= <-]. right. left.
Qed.

(** With no command anywhere and the first queue as the current one, no amount of
    iterations ends the search. *)
Lemma findNext_diverges k q m2 n :
  let m := (k, q) :: m2 in
  smap_wf m -> Forall (fun kq => empty kq.2 = true) m ->
  findNext n m (Some k) (smap_next k m) = Fault Diverges.
Proof.
  intros m W A.
  assert (D : forall next, next = None \/ (exists j, next = Some j /\ j ∈ smap_keys m2) ->
                findNext n m (Some k) next = Fault Diverges).
  { induction n as [|n IH]; [done|]. intros next P.
    assert (N : next <> Some k).
    { destruct P as [->|(j & -> & J)]; [done|]. intros [= ->].
      apply StronglySorted_inv in W as [_ W]. rewrite Forall_forall in W.
      specialize (W _ J). simpl in W. lia. }
    assert (X : forall j, j ∈ smap_keys m ->
              exists q', smap_find j m = Some q' /\ empty q' = true
                /\ (smap_next j m = None \/ exists i, smap_next j m = Some i /\ i ∈ smap_keys m2)).
    { intros j J. apply smap_find_keys in J as [q' F]. exists q'. split; [done|].
      split; [rewrite Forall_forall in A; apply (A (j, q')); by apply smap_find_elem|].
      destruct (smap_next j m) as [i|] eqn:E; [right|by left]. exists i. split; [done|].
      unfold m in E; simpl in E. destruct (j =? k); [|by eapply smap_next_keys].
      destruct m2 as [|[k' v'] m2']; [done|]. injection E as <-. left. }
    cbn [findNext]. rewrite decide_False by done.
    destruct P as [->|(j & -> & J)].
    - change (smap_begin m) with (Some k). destruct (X k) as (q' & F & E & P); [by left|].
      rewrite F, E. simpl. by apply IH.
    - destruct (X j) as (q' & F & E & P); [by right|].
      rewrite F, E. simpl. by apply IH. }
  apply D. simpl. rewrite Z.eqb_refl. destruct m2 as [|[k' v'] m2]; [by left|].
  right. eexists. split; [done|]. left.
Qed.

(** The search takes the first queue with a command in cyclic order after the
    current one, and comes back to the current one when there is none; with the
    first queue of the map as the current one, and no command anywhere, it
    never ends. *)
Lemma findNext_cyclic m k q :
  smap_wf m -> smap_find k m = Some q ->
  findNext (searchFuel m) m (Some k) (smap_next k m)
  = match firstNonEmpty (afterKey k m ++ beforeKey k m) with
    | Some k' => Ret (Some k')
    | None => if bool_decide (smap_begin m = Some k) && empty q then Fault Diverges else Ret (Some k)
    end.
Proof.
  intros W F. destruct (smap_split _ _ _ W F) as (m1 & m2 & -> & H1 & H2).
  destruct (split_keys k q m1 m2 H1 H2) as [-> ->]. rewrite firstNonEmpty_app.
  set (m := m1 ++ (k, q) :: m2) in *.
  replace (searchFuel m) with (length m2 + (length m1 + S (S (S (S (length m1 + length m2))))))%nat
    by (unfold searchFuel, m; rewrite length_app; simpl; lia).
  rewrite (findNext_after k q m1 m2 W H1 H2).
  destruct (firstNonEmpty m2) as [k'|] eqn:E2; [done|].
  destruct m1 as [|[k0 q0] m1'].
  - simpl. rewrite Z.eqb_refl. destruct (empty q) eqn:Eq; simpl; [|by rewrite andb_false_r].
    rewrite bool_decide_true by done. simpl.
    pose proof (findNext_diverges k q m2 (S (S (S (length m2)))) W) as D. simpl in D.
    rewrite Z.eqb_refl in D. apply D. constructor; [done|]. by apply firstNonEmpty_None.
  - rewrite (findNext_before k q _ m2 W H1) by done.
    rewrite bool_decide_false; [done|]. intros [= ->].
    apply Forall_cons in H1 as [H1 _]. simpl in H1. lia.
Qed.

(** * Pending commands and the invariant *)

(** All commands the executor still has to send. *)
Definition queued (e : Executor) : list CmdRef :=
  concat (contents ∘ snd <$> mSlaveQueues e).
Definition pending (e : Executor) : list CmdRef :=
  option_list (mWaitingCommand e) ++ queued e.

Record Inv (e : Executor) : Prop := {
  inv_wf : smap_wf (mSlaveQueues e);
  inv_cur : match mCurrentSlaveQueue e with
            | Some k => is_Some (smap_find k (mSlaveQueues e))
            | None => pending e = []
            end;
  inv_writes : Z.of_nat (length (writesOf (pending e))) <= mWriteCommandsQueued e;
  inv_left : 0 <= mCommandsLeft e
}.

Lemma writesOf_perm l l' : l ≡ₚ l' -> length (writesOf l) = length (writesOf l').
Proof. intros P. unfold writesOf. by rewrite P. Qed.

Lemma queued_empty e :
  queued e = [] <-> Forall (fun kq => empty kq.2 = true) (mSlaveQueues e).
Proof.
  unfold queued. induction (mSlaveQueues e) as [|[k q] m IH]; csimpl; [by split; [constructor|]|].
  rewrite Forall_cons, <- IH, empty_contents. simpl. split.
  - intros H. by apply app_eq_nil.
  - by intros [-> ->].
Qed.

(** [allDone] is the absence of pending commands. *)
Lemma allDone_pending e : allDone e = true <-> pending e = [].
Proof.
  unfold allDone, pending. destruct (mWaitingCommand e); simpl; [done|].
  rewrite queued_empty, forallb_forall, Forall_forall. by setoid_rewrite list_elem_of_In.
Qed.

Lemma Inv_new now : Inv (newExecutor now).
Proof. split; simpl; try done. constructor. Qed.

(** Popping from a queue with commands. *)
Lemma popCurrent_spec e k q :
  smap_wf (mSlaveQueues e) -> mCurrentSlaveQueue e = Some k ->
  smap_find k (mSlaveQueues e) = Some q -> empty q = false ->
  exists c q', popCurrent e = Ret (c, withQueues (smap_set k q' (mSlaveQueues e)) e)
    /\ queued e ≡ₚ c :: queued (withQueues (smap_set k q' (mSlaveQueues e)) e).
Proof.
  intros W K F E. destruct (popNext_ret q E) as (c & q' & P). exists c, q'.
  unfold popCurrent, currentQueue. rewrite K, F. simpl. rewrite P. split; [done|].
  unfold queued. simpl. apply (smap_set_perm contents k q q' _ [c] W F).
  simpl. by apply popNext_contents.
Qed.

Lemma smap_set_find {V} k (v : V) m : smap_wf m -> smap_find k (smap_set k v m) = Some v.
Proof. intros. by rewrite smap_find_set, decide_True. Qed.

Lemma smap_set_wf {V} k (v : V) m : smap_wf m -> smap_wf (smap_set k v m).
Proof. apply smap_alter_wf. Qed.

Lemma resetCommandsCounter_spec e k :
  mCurrentSlaveQueue e = Some k -> is_Some (smap_find k (mSlaveQueues e)) ->
  exists n, 0 <= n /\ resetCommandsCounter e = Ret (withCommandsLeft n e).
Proof.
  intros K [q F]. unfold resetCommandsCounter, currentQueue. rewrite K, F. simpl.
  destruct (pollEmpty q); eexists; (split; [|done]); [done|lia].
Qed.

(** The fields the election leaves alone. *)
Definition sameHistory (e e' : Executor) : Prop :=
  mLastCommandTime e' = mLastCommandTime e /\ mLastCommand e' = mLastCommand e
  /\ mWriteCommandsQueued e' = mWriteCommandsQueued e /\ mInitialPoll e' = mInitialPoll e.

(** A queue of the map chosen as the next one, and a command popped from it. *)
Lemma pop_from e k q :
  Inv e -> mWaitingCommand e = None ->
  smap_find k (mSlaveQueues e) = Some q -> empty q = false ->
  exists c e1, popCurrent (withCurrent (Some k) e) = Ret (c, e1)
    /\ mCurrentSlaveQueue e1 = Some k
    /\ mCommandsLeft e1 = mCommandsLeft e
    /\ is_Some (smap_find k (mSlaveQueues e1))
    /\ forall n, 0 <= n ->
         let e' := withCommandsLeft n (withWaiting (Some c) e1) in
         Inv e' /\ pending e' ≡ₚ pending e /\ sameHistory e e'.
Proof.
  intros I N F E. destruct I as [W Cur Wr L].
  destruct (popCurrent_spec (withCurrent (Some k) e) k q) as (c & q' & P & Q); try done.
  eexists c, _. split; [exact P|]. simpl. split; [done|]. split; [done|].
  split; [by rewrite smap_set_find|]. intros n Hn.
  assert (PP : pending (withCommandsLeft n (withWaiting (Some c)
             (withQueues (smap_set k q' (mSlaveQueues e)) (withCurrent (Some k) e)))) ≡ₚ pending e).
  { unfold pending. rewrite N. simpl. symmetry. exact Q. }
  split; [|by split]. split; simpl.
  - by apply smap_set_wf.
  - by rewrite smap_set_find.
  - rewrite <- (writesOf_perm _ _ PP) in Wr. exact Wr.
  - done.
Qed.

Lemma firstNonEmpty_Some l k :
  firstNonEmpty l = Some k -> exists q, (k, q) ∈ l /\ empty q = false.
Proof.
  induction l as [|[k' q] l IH]; simpl; [done|]. destruct (empty q) eqn:E; simpl.
  - intros H. destruct (IH H) as (q' & ? & ?). exists q'. split; [by right|done].
  - intros [= ->]. exists q. split; [by left|done].
Qed.

Lemma search_none_done e k q :
  smap_wf (mSlaveQueues e) -> smap_find k (mSlaveQueues e) = Some q ->
  mWaitingCommand e = None ->
  firstNonEmpty (afterKey k (mSlaveQueues e) ++ beforeKey k (mSlaveQueues e)) = None ->
  empty q = true -> allDone e = true.
Proof.
  intros W F N S E. apply allDone_pending. unfold pending. rewrite N. simpl.
  apply queued_empty. destruct (smap_split _ _ _ W F) as (m1 & m2 & Em & H1 & H2).
  rewrite Em in *. destruct (split_keys k q m1 m2 H1 H2) as [Ea Eb]. rewrite Ea, Eb in S.
  apply firstNonEmpty_None in S. apply Forall_app in S as [? ?].
  apply Forall_app. split; [done|]. by constructor.
Qed.

(** Switching to a queue with commands. *)
Lemma elect_from e k q :
  Inv e -> mWaitingCommand e = None ->
  smap_find k (mSlaveQueues e) = Some q -> empty q = false ->
  match (let! (c, e') := popCurrent (withCurrent (Some k) e) in
         let! e'' := resetCommandsCounter (withWaiting (Some c) e') in
         Ret (true, e'')) with
  | Ret (b, e') =>
      Inv e' /\ pending e' ≡ₚ pending e /\ sameHistory e e'
      /\ (allDone e = false -> b = true /\ is_Some (mWaitingCommand e'))
      /\ (b = false -> allDone e = true)
  | Fault f => f = Diverges /\ allDone e = true
  end.
Proof.
  intros I N F E. destruct (pop_from e k q I N F E) as (c & e1 & P & K1 & L1 & F1 & X).
  rewrite P. simpl.
  destruct (resetCommandsCounter_spec (withWaiting (Some c) e1) k K1 F1) as (n & Hn & R).
  rewrite R. simpl. destruct (X n Hn) as (X1 & X2 & X3).
  split; [done|]. split; [done|]. split; [done|]. split; [by eauto|done].
Qed.

(** The first half of executeNext moves at most one command from a queue to the
    waiting place; it elects one whenever one is pending. *)
Lemma electNext_spec e :
  Inv e ->
  match electNext e with
  | Ret (b, e') =>
      Inv e' /\ pending e' ≡ₚ pending e /\ sameHistory e e'
      /\ (allDone e = false -> b = true /\ is_Some (mWaitingCommand e'))
      /\ (b = false -> allDone e = true)
  | Fault f => f = Diverges /\ allDone e = true
  end.
Proof.
  intros I. pose proof I as [W Cur Wr L]. unfold electNext.
  destruct (mWaitingCommand e) as [c|] eqn:Wait.
  { rewrite Wait. split; [done|]. split; [done|]. split; [by split|]. done. }
  destruct (mCurrentSlaveQueue e) as [k|] eqn:K; last first.
  { split; [done|]. split; [done|]. split; [by split|]. split; [|done].
    intros D. apply allDone_pending in Cur. congruence. }
  destruct Cur as [q F]. unfold currentQueue. rewrite K, F. cbn [obind].
  destruct ((mCommandsLeft e =? 0) || empty q) eqn:B; last first.
  { apply orb_false_iff in B as [_ E].
    destruct (pop_from e k q I Wait F E) as (c & e1 & P & K1 & L1 & F1 & X).
    replace (withCurrent (Some k) e) with e in P by (rewrite <- K; by destruct e).
    rewrite P. simpl. rewrite <- L1 in L. destruct (X _ L) as (X1 & X2 & X3).
    replace (withCommandsLeft (mCommandsLeft e1) (withWaiting (Some c) e1))
      with (withWaiting (Some c) e1) in * by (by destruct e1).
    split; [done|]. split; [done|]. split; [done|]. split; [by eauto|done]. }
  rewrite (findNext_cyclic _ _ _ W F).
  destruct (firstNonEmpty _) as [k'|] eqn:S.
  - destruct (firstNonEmpty_Some _ _ S) as (q' & I' & E').
    apply elem_of_app in I' as [I'|I']; apply list_elem_of_filter in I' as [Lt I']; simpl in Lt;
      cbn [obind]; (rewrite bool_decide_false by (intros [= ->]; lia)); cbn [negb orb];
      apply (elect_from e k' q' I Wait); try done; by apply smap_elem_find.
  - destruct (empty q) eqn:Eq.
    + rewrite andb_true_r. pose proof (search_none_done _ _ _ W F Wait S Eq).
      case_bool_decide; cbn [obind]; [done|]. rewrite bool_decide_true by done. simpl.
      split; [done|]. split; [done|]. split; [by split|]. split; [congruence|done].
    + rewrite andb_false_r. cbn [obind]. rewrite bool_decide_true by done. cbn [negb orb].
      by apply (elect_from e k q I Wait).
Qed.

(** * Sending *)

Section sending.
Context {C : Type} `{IModbusContext C}.
Implicit Types w : World C.

Definition contextFault : fault := StdException "ModbusContextException".

(** The one request that sending a command makes of the context. *)
Definition readRequest (env : ExecEnv) (p : ptr) (w : World C) : C * ReadResult :=
  let r := polls (wStore w) p in
  readModbusRegisters (wCtx w) (mSlaveId (cmdBase (pollCmd r)))
    (setReadTimes (clkStart env) (mLastReadFinishTime r) r).
Definition writeRequest (p : ptr) (w : World C) : C * WriteResult :=
  let r := writes (wStore w) p in
  writeModbusRegisters (wCtx w) (mSlaveId (cmdBase (writeCmd r))) r.

(** The result of the read that pollRegisters does. *)
Definition readResult (env : ExecEnv) (p : ptr) (w : World C) : ReadResult :=
  let r := polls (wStore w) p in
  (readModbusRegisters (wCtx w) (mSlaveId (cmdBase (pollCmd r)))
     (setReadTimes (clkStart env) (mLastReadFinishTime r) r)).2.

(** The context once the request of [c] has been made. *)
Definition afterRequest (env : ExecEnv) (c : CmdRef) (w : World C) : C :=
  match c with
  | PollRef p => (readRequest env p w).1
  | WriteRef p => (writeRequest p w).1
  end.

(** The context ends the request of [c] with another exception than a read or
    write error. *)
Definition contextRefuses (env : ExecEnv) (w : World C) (c : CmdRef) : Prop :=
  match c with
  | PollRef p => (readRequest env p w).2 = ReadContextException
  | WriteRef p => (writeRequest p w).2 = WriteContextException
  end.

(** The object of [c] is the same in both stores. *)
Definition sameCommand (c : CmdRef) (s s' : Store) : Prop :=
  match c with
  | PollRef p => polls s' p = polls s p
  | WriteRef p => writes s' p = writes s p
  end.

(** What sending [c] does to the world: the context has served the request of [c]
    and no other, messages may have been added for the main thread, and the other
    commands are untouched. *)
Definition sentWorld (env : ExecEnv) (c : CmdRef) (w w' : World C) : Prop :=
  wCtx w' = afterRequest env c w /\ wOut w `prefix_of` wOut w'
  /\ forall c', c' <> c -> sameCommand c' (wStore w) (wStore w').

(** One command's object and messages change, the context does not. *)
Definition touches (c : CmdRef) (w w' : World C) : Prop :=
  wCtx w' = wCtx w /\ wOut w `prefix_of` wOut w'
  /\ forall c', c' <> c -> sameCommand c' (wStore w) (wStore w').

Lemma touches_trans c w1 w2 w3 : touches c w1 w2 -> touches c w2 w3 -> touches c w1 w3.
Proof.
  intros (C1 & O1 & S1) (C2 & O2 & S2). split; [congruence|]. split; [by etrans|].
  intros c' N. specialize (S1 c' N). specialize (S2 c' N). destruct c'; simpl in *; congruence.
Qed.

Lemma touches_putPoll p r w : touches (PollRef p) w (putPoll p r w).
Proof.
  split; [done|]. split; [done|]. intros [q|q] N; simpl; [|done]. rewrite decide_False; [done|congruence].
Qed.

Lemma touches_putWrite p r w : touches (WriteRef p) w (putWrite p r w).
Proof.
  split; [done|]. split; [done|]. intros [q|q] N; simpl; [done|]. rewrite decide_False; [done|congruence].
Qed.

Lemma touches_send c m w : touches c w (sendMessage m w).
Proof. split; [done|]. split; [by apply prefix_app_r|]. by intros [q|q] _. Qed.

Lemma touches_readError env p w : touches (PollRef p) w (handleRegisterReadError env p w).
Proof.
  unfold handleRegisterReadError. destruct (isRpc _); [apply touches_putPoll|].
  destruct (_ <? _); [eapply touches_trans; [|apply touches_send]|]; apply touches_putPoll.
Qed.

Lemma touches_succeeded env p force values w : touches (PollRef p) w (pollSucceeded env p force values w).
Proof.
  unfold pollSucceeded. destruct (_ || _ || _); [|apply touches_putPoll].
  eapply touches_trans; [|apply touches_putPoll].
  eapply touches_trans; [apply touches_putPoll|apply touches_send].
Qed.

(** The request has been served and then only the command was touched. *)
Lemma sentWorld_touches env c w w1 w' :
  wCtx w1 = afterRequest env c w -> wOut w1 = wOut w ->
  (forall c', c' <> c -> sameCommand c' (wStore w) (wStore w1)) -> touches c w1 w' -> sentWorld env c w w'.
Proof.
  intros C1 O1 S1 (C2 & O2 & S2). split; [congruence|]. split; [by rewrite <- O1|].
  intros c' N. specialize (S1 c' N). specialize (S2 c' N). destruct c'; simpl in *; congruence.
Qed.

Lemma pollRegisters_shape env p force e w :
  match pollRegisters env p force e w with
  | Ret (e', w') => e' = withLastCommandTime (clkEnd env) e /\ sentWorld env (PollRef p) w w'
  | Fault f => f = contextFault /\ contextRefuses env w (PollRef p)
  end.
Proof.
  unfold pollRegisters, contextRefuses, readRequest.
  set (r := setReadTimes _ _ (polls (wStore w) p)). cbn [putPoll wCtx].
  change (cmdBase (pollCmd r)) with (cmdBase (pollCmd (polls (wStore w) p))).
  destruct (readModbusRegisters _ _ _) as [c res] eqn:E.
  assert (T : forall w', touches (PollRef p) (putCtx c (putPoll p r w)) w' -> sentWorld env (PollRef p) w w').
  { intros w'. apply sentWorld_touches; [|done|apply (touches_putPoll p r w)].
    unfold afterRequest, readRequest. fold r. by rewrite E. }
  destruct res as [values| |]; simpl; [split; [done|]..|done]; apply T; (eapply touches_trans; [|apply touches_putPoll]).
  - apply touches_succeeded.
  - apply touches_readError.
Qed.

Lemma writeRegisters_shape env p e w :
  match writeRegisters env p e w with
  | Ret (e', w') => e' = withLastCommandTime (clkEnd env) e /\ sentWorld env (WriteRef p) w w'
  | Fault f => f = contextFault /\ contextRefuses env w (WriteRef p)
  end.
Proof.
  unfold writeRegisters, contextRefuses, writeRequest.
  destruct (writeModbusRegisters _ _ _) as [c res] eqn:E.
  assert (T : forall w', touches (WriteRef p) (putCtx c w) w' -> sentWorld env (WriteRef p) w w').
  { intros w'. apply sentWorld_touches; [|done|by intros [|]].
    unfold afterRequest, writeRequest. by rewrite E. }
  destruct res; cbn [obind]; [destruct (mReturnMessage _)|..]; cbn [obind]; try (split; [done|]); try done;
    apply T; try (eapply touches_trans; [|apply touches_send]); apply touches_putWrite.
Qed.

(** What sending the waiting command [c] does to the executor: its queues stay,
    and the command is either kept for a retry or done with. *)
Definition sentState (env : ExecEnv) (c : CmdRef) (e e' : Executor) : Prop :=
  mSlaveQueues e' = mSlaveQueues e /\ mCurrentSlaveQueue e' = mCurrentSlaveQueue e
  /\ mInitialPoll e' = mInitialPoll e
  /\ mLastCommand e' = Some c /\ mLastCommandTime e' = clkEnd env
  /\ mWaitingCommand e' ∈ [Some c; None].

Lemma sentWorld_send env c w w' m : sentWorld env c w w' -> sentWorld env c w (sendMessage m w').
Proof.
  intros (C1 & O1 & S1). split; [done|]. split; [|by intros [|]; apply S1]. simpl. by apply prefix_app_r.
Qed.

Lemma sendCommand_shape env e w c :
  mWaitingCommand e = Some c -> 0 <= mCommandsLeft e ->
  (isPollRef c = false -> 0 < mWriteCommandsQueued e) ->
  match sendCommand env e w with
  | Ret (e', w') =>
      sentState env c e e' /\ sentWorld env c w w' /\ 0 <= mCommandsLeft e'
      /\ mWriteCommandsQueued e <= mWriteCommandsQueued e'
            + (if isPollRef c then 0 else if decide (mWaitingCommand e' = None) then 1 else 0)
  | Fault f => f = contextFault /\ contextRefuses env w c
  end.
Proof.
  intros Wait L Wr. unfold sendCommand. rewrite Wait.
  set (e0 := if decide _ then e else _).
  assert (E0 : mSlaveQueues e0 = mSlaveQueues e /\ mCurrentSlaveQueue e0 = mCurrentSlaveQueue e
    /\ mInitialPoll e0 = mInitialPoll e /\ mCommandsLeft e0 = mCommandsLeft e
    /\ mWriteCommandsQueued e0 = mWriteCommandsQueued e /\ mWaitingCommand e0 = Some c)
    by (subst e0; destruct (decide _); simpl; auto 10).
  clearbody e0. destruct E0 as (E1 & E2 & E3 & E4 & E5 & E6).
  unfold sentState. destruct c as [p|p].
  - pose proof (pollRegisters_shape env p (mInitialPoll e0 || cmdIsRpc (wStore w) (PollRef p)) e0 w) as P.
    destruct (pollRegisters _ _ _ _ _) as [[e1 w1]|]; [|done]. destruct P as [-> P].
    assert (P' : forall m, sentWorld env (PollRef p) w (sendMessage m w1)) by (intros m; by apply sentWorld_send).
    cbn [obind].
    destruct (mLastReadOk _), (mReadRetryCount e0 =? 0) eqn:?, (isRpc _); simpl; rewrite ?Heqb; simpl;
      rewrite ?E6, ?E4; try (destruct (Z.ltb_spec 0 (mCommandsLeft e)));
      simpl; rewrite ?E1, ?E2, ?E3, ?E4, ?E5, ?E6; split_and!; try apply P; try apply P'; set_solver by lia.
  - pose proof (writeRegisters_shape env p e0 w) as P.
    destruct (writeRegisters _ _ _ _) as [[e1 w1]|]; [|done]. destruct P as [-> P]. simpl.
    specialize (Wr eq_refl).
    assert (X : (0 <=? mWriteCommandsQueued e0 - 1) = true) by (apply Z.leb_le; lia).
    destruct (mLastWriteOk _), (mWriteRetryCount e0 =? 0); simpl; rewrite ?X; simpl;
      rewrite ?E6, ?E4; try (destruct (Z.ltb_spec 0 (mCommandsLeft e)));
      simpl; rewrite ?E1, ?E2, ?E3, ?E4, ?E5, ?E6; split_and!; try apply P; set_solver by lia.
Qed.

Lemma pending_sent env c e e' :
  mWaitingCommand e = Some c -> sentState env c e e' ->
  (mWaitingCommand e' = Some c /\ pending e' = pending e)
  \/ (mWaitingCommand e' = None /\ pending e = c :: pending e').
Proof.
  intros Wait (Q & _ & _ & _ & _ & M). unfold pending, queued. rewrite Q, Wait.
  apply elem_of_cons in M as [->|M]; [by left|].
  apply list_elem_of_singleton in M as ->. by right.
Qed.

Lemma sendCommand_inv env e w c :
  Inv e -> mWaitingCommand e = Some c ->
  match sendCommand env e w with
  | Ret (e', w') => sentState env c e e' /\ sentWorld env c w w' /\ Inv e'
  | Fault f => f = contextFault /\ contextRefuses env w c
  end.
Proof.
  intros I Wait. pose proof I as [W Cur Wr L].
  assert (Wr' : isPollRef c = false -> 0 < mWriteCommandsQueued e).
  { intros P. destruct c; [done|]. unfold pending in Wr. rewrite Wait in Wr. simpl in Wr. lia. }
  pose proof (sendCommand_shape env e w c Wait L Wr') as S.
  destruct (sendCommand env e w) as [[e' w']|]; [|done]. destruct S as (S & SW & L' & Q).
  split; [done|]. split; [done|]. pose proof (pending_sent _ _ _ _ Wait S) as P.
  destruct S as (Q1 & Q2 & _). split.
  - by rewrite Q1.
  - rewrite Q2, Q1. destruct (mCurrentSlaveQueue e); [done|].
    unfold pending in Cur. by rewrite Wait in Cur.
  - destruct P as [[M P]|[M P]].
    + rewrite P. rewrite decide_False in Q by congruence. destruct (isPollRef c); lia.
    + rewrite P in Wr. rewrite decide_True in Q by done. destruct c; simpl in *; lia.
  - done.
Qed.

End sending.

(** * Adding polls *)

(** Queued polls ask for reasonable delays. *)
Definition reasonableAll (s : Store) (period : Z) (e : Executor) : Prop :=
  forall p b, PollRef p ∈ queued e -> reasonable s period b p.

(** What the election does to the queues: it only takes commands out. *)
Record shrinks (e e' : Executor) : Prop := {
  sh_wf : smap_wf (mSlaveQueues e');
  sh_keys : forall k, k ∈ smap_keys (mSlaveQueues e) -> k ∈ smap_keys (mSlaveQueues e');
  sh_queued : forall c, c ∈ queued e' -> c ∈ queued e;
  sh_history : sameHistory e e';
  sh_left : mCommandsLeft e' = mCommandsLeft e
}.

Lemma shrinks_refl e : smap_wf (mSlaveQueues e) -> shrinks e e.
Proof. intros. by split. Qed.

Lemma shrinks_trans e1 e2 e3 : shrinks e1 e2 -> shrinks e2 e3 -> shrinks e1 e3.
Proof.
  intros [W1 K1 Q1 (?&?&?&?) L1] [W2 K2 Q2 (?&?&?&?) L2].
  split; eauto; [split_and!|]; congruence.
Qed.

Lemma queued_split e k q m1 m2 c :
  mSlaveQueues e = m1 ++ (k, q) :: m2 ->
  c ∈ queued e <-> c ∈ contents q \/ c ∈ concat (contents ∘ snd <$> m1)
                   \/ c ∈ concat (contents ∘ snd <$> m2).
Proof.
  intros E. unfold queued. rewrite E, fmap_app, concat_app. csimpl.
  rewrite !elem_of_app. tauto.
Qed.

(** Storing a smaller queue back. *)
Lemma shrinks_set e k q q' :
  smap_wf (mSlaveQueues e) -> smap_find k (mSlaveQueues e) = Some q ->
  (forall c, c ∈ contents q' -> c ∈ contents q) ->
  shrinks e (withQueues (smap_set k q' (mSlaveQueues e)) e).
Proof.
  intros W F S. split; try done; simpl.
  - by apply smap_set_wf.
  - intros j J. apply smap_alter_keys. by right.
  - intros c. destruct (smap_split _ _ _ W F) as (m1 & m2 & E & H1 & H2).
    rewrite (queued_split e k q m1 m2 c E), (queued_split _ k q' m1 m2 c).
    + naive_solver.
    + simpl. by rewrite E, smap_set_app.
Qed.

Lemma find_set_same e k q q' j :
  smap_wf (mSlaveQueues e) -> smap_find k (mSlaveQueues e) = Some q -> contents q' = contents q ->
  contents <$> smap_find j (smap_set k q' (mSlaveQueues e))
  = contents <$> smap_find j (mSlaveQueues e).
Proof.
  intros W F S. rewrite smap_find_set by done. destruct (decide (j = k)) as [->|]; [|done].
  rewrite F. simpl. by rewrite S.
Qed.

Lemma queued_find e k q c :
  smap_wf (mSlaveQueues e) -> smap_find k (mSlaveQueues e) = Some q -> c ∈ contents q -> c ∈ queued e.
Proof.
  intros W F. destruct (smap_split _ _ _ W F) as (m1 & m2 & E & _).
  rewrite (queued_split e k q m1 m2 c E). tauto.
Qed.

Lemma contents_poll q p : PollRef p ∈ contents q <-> p ∈ mPollQueue q.
Proof. unfold contents. set_solver. Qed.

(** The election takes a queued poll or leaves everything as it is. *)
Definition elected (e e' : Executor) : Prop :=
  (mWaitingCommand e' = mWaitingCommand e /\ mCurrentSlaveQueue e' = mCurrentSlaveQueue e
   /\ forall k, contents <$> smap_find k (mSlaveQueues e') = contents <$> smap_find k (mSlaveQueues e))
  \/ exists p k, mWaitingCommand e' = Some (PollRef p) /\ PollRef p ∈ queued e
       /\ mCurrentSlaveQueue e' = Some k /\ k ∈ smap_keys (mSlaveQueues e').

Lemma elect_spec s period ks diff e :
  smap_wf (mSlaveQueues e) -> Forall (fun k => k ∈ smap_keys (mSlaveQueues e)) ks ->
  reasonableAll s period e -> diff <= DURATION_MAX ->
  exists e', elect s period ks diff e = Ret e' /\ shrinks e e' /\ elected e e'.
Proof.
  revert diff e. induction ks as [|k ks IH]; intros diff e W K R D; simpl.
  { exists e. split; [done|]. split; [by apply shrinks_refl|by left]. }
  apply Forall_cons in K as [K1 K2]. destruct (diff =? 0); [by apply IH|].
  apply smap_find_keys in K1 as [q F]. rewrite F.
  set (b := bool_decide _).
  assert (Rq : Forall (reasonable s period b) (mPollQueue q)).
  { apply Forall_forall. intros p Hp. apply R. eapply queued_find; eauto. by apply contents_poll. }
  pose proof (findForSilencePeriod_pop s period b q Rq) as P.
  destruct (findForSilencePeriod s period b q) as [ret q']. destruct P as (P1 & P2 & P).
  destruct (Z.ltb_spec ret diff) as [Lt|Ge].
  - destruct P as [[-> _]|(p & q'' & Dp & NZ & Pop & Perm & Wq)]; [lia|].
    rewrite Pop. simpl. destruct (Z.eqb_spec ret 0); [done|].
    set (e1 := withCurrent _ _).
    assert (S1 : shrinks e (withQueues (smap_set k q'' (mSlaveQueues e)) e)).
    { eapply shrinks_set; eauto. intros c. unfold contents. rewrite Wq, Perm. set_solver. }
    assert (S1' : shrinks e e1) by (destruct S1; split; done).
    destruct (IH ret e1) as (e' & E' & S' & El').
    + apply (sh_wf _ _ S1').
    + eapply Forall_impl; [exact K2|]. apply (sh_keys _ _ S1').
    + intros p' b' H'. apply R. by apply (sh_queued _ _ S1').
    + lia.
    + exists e'. split; [done|]. split; [by eapply shrinks_trans|]. right.
      destruct El' as [(E1 & E2 & E3)|(p' & k' & E1 & E2 & E3)].
      * exists p, k. split; [done|]. split.
        { eapply queued_find; eauto. apply contents_poll. rewrite Perm. by left. }
        split; [done|]. apply (sh_keys _ _ S').
        apply smap_find_keys. unfold e1; simpl. by rewrite smap_set_find.
      * exists p', k'. split; [done|]. split; [by apply (sh_queued _ _ S1')|done].
  - set (e1 := withQueues _ e).
    assert (Cq : contents q' = contents q) by (unfold contents; by rewrite P1, P2).
    assert (S1 : shrinks e e1) by (eapply shrinks_set; eauto; by rewrite Cq).
    destruct (IH diff e1) as (e' & E' & S' & El').
    + apply (sh_wf _ _ S1).
    + eapply Forall_impl; [exact K2|]. apply (sh_keys _ _ S1).
    + intros p' b' H'. apply R. by apply (sh_queued _ _ S1).
    + done.
    + exists e'. split; [done|]. split; [by eapply shrinks_trans|].
      destruct El' as [(E1 & E2 & E3)|(p' & k' & E1 & E2 & E3)].
      * left. split; [done|]. split; [done|]. intros j. rewrite E3. by eapply find_set_same.
      * right. exists p', k'. split; [done|]. split; [by apply (sh_queued _ _ S1)|done].
Qed.

(** The polls of a map slave -> polls. *)
Definition inRegs (regs : list (Z * list ptr)) (c : CmdRef) : Prop :=
  exists slave ps p, (slave, ps) ∈ regs /\ p ∈ ps /\ c = PollRef p.

(** The queue of slave [k] holds a poll. *)
Definition hasPoll (e : Executor) (k : Z) : Prop :=
  exists q, smap_find k (mSlaveQueues e) = Some q /\ mPollQueue q <> [].

Lemma writesOf_app l1 l2 : writesOf (l1 ++ l2) = writesOf l1 ++ writesOf l2.
Proof. apply omap_app. Qed.

Lemma writesOf_contents q : writesOf (contents q) = mWriteQueue q.
Proof.
  unfold contents. rewrite writesOf_app.
  assert (P : forall l, writesOf (PollRef <$> l) = []) by (induction l; done).
  assert (X : forall l, writesOf (WriteRef <$> l) = l).
  { induction l as [|a l IH]; csimpl; [done|]. by rewrite IH. }
  by rewrite P, X.
Qed.

Lemma onQueue_writes f k e :
  (forall q, mWriteQueue (f q) = mWriteQueue q) ->
  writesOf (queued (onQueue k f e)) = writesOf (queued e).
Proof.
  intros Hf. unfold queued, onQueue. simpl.
  induction (mSlaveQueues e) as [|[k' q] m IH]; csimpl.
  - by rewrite app_nil_r, writesOf_contents, Hf.
  - destruct (k <? k'); csimpl; [|destruct (k =? k'); csimpl];
      rewrite !writesOf_app, ?IH, ?writesOf_contents, ?Hf; done.
Qed.

Lemma onQueue_addPolls_elem k ps e c :
  c ∈ queued (onQueue k (fun q => RequestQueues.addPollList q ps) e)
  <-> c ∈ queued e \/ exists p, p ∈ ps /\ c = PollRef p.
Proof.
  assert (A : forall q, c ∈ contents (RequestQueues.addPollList q ps)
                        <-> c ∈ contents q \/ exists p, p ∈ ps /\ c = PollRef p).
  { intros q. unfold contents, RequestQueues.addPollList; simpl.
    rewrite !elem_of_app, !list_elem_of_fmap. setoid_rewrite foldl_addPoll_elem. naive_solver. }
  unfold queued, onQueue. simpl.
  induction (mSlaveQueues e) as [|[k' q] m IH]; csimpl.
  - rewrite app_nil_r, A. done.
  - destruct (k <? k'); csimpl; [|destruct (k =? k'); csimpl];
      rewrite !elem_of_app, ?IH, ?A, ?elem_of_app; unfold contents; simpl;
      rewrite ?elem_of_nil; tauto.
Qed.

Lemma onQueue_addPolls_hasPoll k ps e j :
  smap_wf (mSlaveQueues e) -> (hasPoll e j \/ j = k /\ ps <> []) ->
  hasPoll (onQueue k (fun q => RequestQueues.addPollList q ps) e) j.
Proof.
  intros W Hj. unfold hasPoll, onQueue; simpl. rewrite smap_find_alter by done.
  assert (X : forall q p, p ∈ mPollQueue q \/ p ∈ ps ->
            mPollQueue (RequestQueues.addPollList q ps) <> []).
  { intros q p Hp E. assert (I : p ∈ mPollQueue (RequestQueues.addPollList q ps)) by (by apply foldl_addPoll_elem).
    rewrite E in I. by apply elem_of_nil in I. }
  destruct Hj as [(q & F & N)|[-> N]].
  - destruct (decide (j = k)) as [->|]; [|by exists q].
    rewrite F. simpl. eexists. split; [done|]. destruct (mPollQueue q) as [|p l] eqn:E; [done|].
    apply (X q p). rewrite E. left. by left.
  - rewrite decide_True by done. eexists. split; [done|].
    destruct ps as [|p ps]; [done|]. apply (X _ p). right. by left.
Qed.

Lemma queuePolls_spec regs fa e :
  smap_wf (mSlaveQueues e) ->
  let '(fa', e') := queuePolls regs fa e in
  smap_wf (mSlaveQueues e')
  /\ e' = withQueues (mSlaveQueues e') e
  /\ writesOf (queued e') = writesOf (queued e)
  /\ (forall c, c ∈ queued e' <-> c ∈ queued e \/ inRegs regs c)
  /\ (forall k, hasPoll e k -> hasPoll e' k)
  /\ (forall k, k ∈ smap_keys (mSlaveQueues e) -> k ∈ smap_keys (mSlaveQueues e'))
  /\ match fa' with
     | None => fa = None /\ (forall c, ~ inRegs regs c)
     | Some k => fa = Some k \/ hasPoll e' k
     end.
Proof.
  revert fa e. induction regs as [|[slave ps] regs IH]; intros fa e W; simpl.
  { split_and!; try done; [by destruct e|unfold inRegs; set_solver|].
    destruct fa; [by left|]. split; [done|]. unfold inRegs. set_solver. }
  set (e1 := onQueue slave _ e). set (fa1 := match ps with [] => _ | _ => _ end).
  assert (W1 : smap_wf (mSlaveQueues e1)) by (by apply smap_alter_wf).
  specialize (IH fa1 e1 W1). destruct (queuePolls regs fa1 e1) as [fa' e'].
  destruct IH as (I1 & I2 & I3 & I4 & I5 & I6 & I7). split_and!.
  - done.
  - by rewrite I2 at 1.
  - rewrite I3. apply onQueue_writes. done.
  - intros c. rewrite I4. unfold e1. rewrite onQueue_addPolls_elem. unfold inRegs.
    set_solver.
  - intros k Hk. apply I5. apply onQueue_addPolls_hasPoll; auto.
  - intros k Hk. apply I6. apply smap_alter_keys. by right.
  - assert (Hs : ps <> [] -> hasPoll e' slave).
    { intros N. apply I5, onQueue_addPolls_hasPoll; auto. }
    destruct fa' as [k|].
    + destruct I7 as [I7|I7]; [|by right]. unfold fa1 in I7.
      destruct ps as [|p ps]; [by left|]. destruct fa as [k'|]; [by left|].
      injection I7 as ->. right. by apply Hs.
    + destruct I7 as [I7 N7]. unfold fa1 in I7. destruct ps as [|p ps]; [|by destruct fa].
      split; [done|]. intros c (sl & ps' & p' & [[= -> ->]|I]%elem_of_cons & Hp & ->).
      * by apply elem_of_nil in Hp.
      * apply (N7 (PollRef p')). unfold inRegs. eauto 10.
Qed.

Lemma inRegs_writesOf regs l : (forall c, c ∈ l -> inRegs regs c) -> writesOf l = [].
Proof.
  induction l as [|c l IH]; intros A; [done|].
  destruct (A c) as (sl & ps & p & _ & _ & ->); [by left|].
  apply IH. intros c' Hc. apply A. by right.
Qed.

(** The election of an idle executor: one of the new polls waits, the others are
    queued. *)
Definition idleResult (regs : list (Z * list ptr)) (e' : Executor) : Prop :=
  smap_wf (mSlaveQueues e') /\ 0 <= mCommandsLeft e'
  /\ (exists k, mCurrentSlaveQueue e' = Some k /\ k ∈ smap_keys (mSlaveQueues e'))
  /\ (exists c, mWaitingCommand e' = Some c) /\ (forall c, c ∈ pending e' -> inRegs regs c).

Lemma startElection_idle s regs period first e0 :
  smap_wf (mSlaveQueues e0) -> mWaitingCommand e0 = None -> mCurrentSlaveQueue e0 = Some first ->
  hasPoll e0 first -> reasonableAll s period e0 ->
  (forall c, c ∈ queued e0 -> inRegs regs c) ->
  exists e', startElection s period e0 = Ret e' /\ sameHistory e0 e' /\ idleResult regs e'.
Proof.
  intros W N K HP R Q. pose proof HP as (q & F & P). unfold startElection. rewrite N.
  destruct (resetCommandsCounter_spec e0 first K) as (n & Hn & ->); [by exists q|]. cbn [obind].
  set (e := withCommandsLeft n e0).
  destruct (elect_spec s period (smap_keys (mSlaveQueues e)) DURATION_MAX e)
    as (e5 & -> & [W5 K5 Q5 H5 L5] & El); try done; [by apply Forall_forall|]. cbn [obind].
  destruct El as [(E1 & E2 & E3)|(p & k & E1 & E2 & E3 & E4)].
  - rewrite E1. unfold e at 1; simpl. rewrite N. specialize (E3 first). unfold e in E3; simpl in E3.
    rewrite F in E3.
    destruct (smap_find first (mSlaveQueues e5)) as [q5|] eqn:F5; [|done].
    injection E3 as E3. assert (NE : empty q5 = false).
    { destruct (empty q5) eqn:X; [|done]. apply empty_contents in X. rewrite X in E3. symmetry in E3.
      apply empty_contents in E3. unfold empty in E3. by destruct (mPollQueue q). }
    destruct (popCurrent_spec e5 first q5) as (c & q' & -> & PQ); [done|by rewrite E2|done..|].
    eexists. split; [done|]. split; [exact H5|]. split; [by apply smap_set_wf|].
    split; [simpl; rewrite L5; done|]. split; [|split; [by eexists|]].
    + exists first. simpl. rewrite E2. split; [done|]. apply smap_alter_keys. by left.
    + intros c' Hc. apply Q, (Q5 c'). by rewrite PQ.
  - rewrite E1. exists e5. split; [done|]. split; [done|]. split; [done|]. split; [by rewrite L5|].
    split; [by eexists|]. split; [by eexists|]. intros c. unfold pending. rewrite E1. simpl.
    intros [->|Hc]%elem_of_cons; [by apply Q|]. by apply Q, (Q5 c).
Qed.

(** What addPollList does in each of its cases. *)
Definition pollsAdded (regs : list (Z * list ptr)) (e e' : Executor) : Prop :=
  if mInitialPoll e && negb (pollDone e) then e' = e
  else if allDone e then
    (forall c, c ∈ pending e' -> inRegs regs c)
    /\ ((exists c, inRegs regs c) -> is_Some (mWaitingCommand e'))
  else forall c, c ∈ pending e' <-> c ∈ pending e \/ inRegs regs c.

Lemma Inv_queues e m :
  Inv e -> smap_wf m -> writesOf (queued (withQueues m e)) = writesOf (queued e) ->
  (forall k, k ∈ smap_keys (mSlaveQueues e) -> k ∈ smap_keys m) ->
  (mCurrentSlaveQueue e = None -> queued (withQueues m e) = []) ->
  Inv (withQueues m e).
Proof.
  intros [W Cur Wr L] Wm Q K N. split; try done.
  - change (mCurrentSlaveQueue (withQueues m e)) with (mCurrentSlaveQueue e).
    destruct (mCurrentSlaveQueue e); [by apply smap_find_keys, K, smap_find_keys|].
    unfold pending in *. simpl. rewrite (N eq_refl).
    destruct (mWaitingCommand e); [done|]. done.
  - unfold pending in *. rewrite writesOf_app, Q, <- writesOf_app. exact Wr.
Qed.

Lemma not_elem_nil {A} (l : list A) : (forall x, x ∉ l) -> l = [].
Proof. destruct l as [|a l]; [done|]. intros N. destruct (N a). by left. Qed.

Lemma Inv_flags e e' :
  mSlaveQueues e' = mSlaveQueues e -> mCurrentSlaveQueue e' = mCurrentSlaveQueue e ->
  mWaitingCommand e' = mWaitingCommand e -> mWriteCommandsQueued e' = mWriteCommandsQueued e ->
  mCommandsLeft e' = mCommandsLeft e -> Inv e -> Inv e'.
Proof.
  intros E1 E2 E3 E4 E5 [W Cur Wr L]. unfold pending, queued in *.
  split; unfold pending, queued; by rewrite ?E1, ?E2, ?E3, ?E4, ?E5.
Qed.

(** queuePolls on a whole executor. *)
Lemma queuePolls_pending regs e :
  Inv e ->
  let '(fa, e2) := queuePolls regs None e in
  (forall c, c ∈ queued e2 <-> c ∈ queued e \/ inRegs regs c)
  /\ (forall c, c ∈ pending e2 <-> c ∈ pending e \/ inRegs regs c)
  /\ sameHistory e e2 /\ mWaitingCommand e2 = mWaitingCommand e
  /\ smap_wf (mSlaveQueues e2)
  /\ (mCurrentSlaveQueue e <> None \/ queued e2 = [] -> Inv e2)
  /\ match fa with
     | None => forall c, ~ inRegs regs c
     | Some first => hasPoll e2 first
     end.
Proof.
  intros I. pose proof (queuePolls_spec regs None e (inv_wf _ I)) as S.
  destruct (queuePolls regs None e) as [fa e2]. destruct S as (S1 & S2 & S3 & S4 & S5 & S6 & S7).
  assert (P2 : mWaitingCommand e2 = mWaitingCommand e) by (by rewrite S2).
  split_and!; try done.
  - intros c. unfold pending. rewrite P2, !elem_of_app, S4. tauto.
  - by rewrite S2.
  - intros N. rewrite S2. apply Inv_queues; try done.
    rewrite <- S2. intros K. by destruct N.
  - destruct fa; [by destruct S7|]. by destruct S7.
Qed.

Lemma addPollList_spec s regs init n1 n2 e :
  Inv e ->
  (forall p b, inRegs regs (PollRef p) -> reasonable s (n2 - mLastCommandTime e) b p) ->
  exists e', addPollList s regs init n1 n2 e = Ret e' /\ Inv e'
    /\ mLastCommandTime e' = mLastCommandTime e /\ pollsAdded regs e e'.
Proof.
  intros I R. unfold addPollList, pollsAdded.
  destruct (mInitialPoll e && negb (pollDone e)); [by exists e|].
  set (e1 := if init then _ else e).
  assert (I1 : Inv e1) by (unfold e1; destruct init; [by apply (Inv_flags e)|done]).
  assert (T1 : pending e1 = pending e /\ mLastCommandTime e1 = mLastCommandTime e)
    by (by unfold e1; destruct init).
  destruct T1 as [P1 T1]. clearbody e1.
  pose proof (queuePolls_pending regs e1 I1) as S.
  destruct (queuePolls regs None e1) as [fa e2].
  destruct S as (Q2 & B & (H1 & H2 & H3 & H4) & N2 & W2 & I2 & F). rewrite P1 in B.
  pose proof (inv_cur _ I1) as Cur. destruct (allDone e) eqn:AD; last first.
  { exists e2. split; [done|]. split; [|split; [congruence|done]]. apply I2. left. intros N.
    rewrite N, P1 in Cur. apply allDone_pending in Cur. congruence. }
  apply allDone_pending in AD. rewrite AD in *. unfold pending in P1.
  apply app_eq_nil in P1 as [PW PQ]. rewrite PQ in Q2.
  assert (N : mWaitingCommand e2 = None) by (rewrite N2; by destruct (mWaitingCommand e1)).
  assert (Q : forall c, c ∈ queued e2 -> inRegs regs c) by (intros c; rewrite Q2; set_solver).
  destruct fa as [first|]; last first.
  { exists e2. split; [done|]. split; [|split; [congruence|]].
    - apply I2. right. apply not_elem_nil. intros c Hc. apply (F c), Q, Hc.
    - split; [intros c Hc; apply B in Hc; set_solver|]. intros [c Hc]. by destruct (F c). }
  destruct (startElection_idle s regs (n2 - mLastCommandTime (withCurrent (Some first) e2)) first
    (withCurrent (Some first) e2)) as (e' & -> & (E1 & _ & E3 & _) & (D1 & D2 & (k & D3 & D4) & D5 & D6));
    try done.
  { intros p b Hp. simpl. rewrite H1, T1. by apply R, Q. }
  exists e'. split; [done|]. split; [|split; [simpl in E1; congruence|split; [done|by intros _]]].
  split; [done| | |done].
  - rewrite D3. by apply smap_find_keys.
  - rewrite (inRegs_writesOf regs) by done. rewrite E3. simpl. rewrite H3.
    pose proof (inv_writes _ I1). lia.
Qed.

(** * Adding a command *)

Lemma onQueue_perm k f e c :
  (forall q, contents (f q) ≡ₚ contents q ++ [c]) ->
  queued (onQueue k f e) ≡ₚ c :: queued e.
Proof.
  intros Hf. unfold queued, onQueue; simpl.
  rewrite (smap_alter_perm contents newQueues f k (mSlaveQueues e) [c]) by done.
  solve_Permutation.
Qed.

Lemma readdCommand_contents q c : contents (readdCommand q c) ≡ₚ contents q ++ [c].
Proof. destruct c; unfold contents; simpl; solve_Permutation. Qed.

Lemma addWriteCommand_contents q w :
  contents (RequestQueues.addWriteCommand q w) ≡ₚ contents q ++ [WriteRef w].
Proof. unfold contents; simpl. rewrite fmap_app. simpl. solve_Permutation. Qed.

Lemma findQueue_onQueue k f e : smap_wf (mSlaveQueues e) -> findQueue (onQueue k f e) k = Some k.
Proof.
  intros W. unfold findQueue, onQueue; simpl. rewrite smap_find_alter by done.
  by rewrite decide_True.
Qed.

(** The end of both functions: make [k] the current queue and reset the counter. *)
Lemma switch_queue e k :
  smap_wf (mSlaveQueues e) -> k ∈ smap_keys (mSlaveQueues e) ->
  Z.of_nat (length (writesOf (pending e))) <= mWriteCommandsQueued e ->
  exists e', resetCommandsCounter (withCurrent (Some k) e) = Ret e'
    /\ Inv e' /\ pending e' = pending e /\ sameHistory e e'.
Proof.
  intros W K Wr. apply smap_find_keys in K.
  destruct (resetCommandsCounter_spec (withCurrent (Some k) e) k eq_refl K) as (n & Hn & ->).
  eexists. split; [done|]. split; [by split|done].
Qed.

Lemma addReadCommand_spec s p e :
  Inv e ->
  exists e', addReadCommand s p e = Ret e' /\ Inv e'
    /\ (forall c, c ∈ pending e' <-> c ∈ pending e \/ c = PollRef p).
Proof.
  intros I. unfold addReadCommand. set (k := cmdSlave s (PollRef p)).
  set (e1 := onQueue k _ e).
  assert (W1 : smap_wf (mSlaveQueues e1)) by apply smap_alter_wf, I.
  assert (P1 : forall c, c ∈ pending e1 <-> c ∈ pending e \/ c = PollRef p).
  { intros c. unfold pending. rewrite !elem_of_app. unfold e1 at 2.
    rewrite onQueue_addPolls_elem. simpl. set_solver. }
  assert (Wr : Z.of_nat (length (writesOf (pending e1))) <= mWriteCommandsQueued e1).
  { unfold pending, e1. rewrite writesOf_app, onQueue_writes, <- writesOf_app by done. apply I. }
  assert (K1 : k ∈ smap_keys (mSlaveQueues e1)) by (apply smap_alter_keys; by left).
  destruct (mCurrentSlaveQueue e1) as [k'|] eqn:Cur.
  - exists e1. split; [done|]. split; [|done]. split; [done| |done|apply I].
    rewrite Cur. pose proof (inv_cur _ I) as C. change (mCurrentSlaveQueue e1) with (mCurrentSlaveQueue e) in Cur.
    rewrite Cur in C. apply smap_find_keys. apply smap_alter_keys. right. by apply smap_find_keys.
  - unfold e1 at 1. rewrite findQueue_onQueue by apply I. fold e1.
    destruct (switch_queue e1 k W1 K1 Wr) as (e' & -> & I' & P' & _).
    exists e'. rewrite P'. done.
Qed.

(** The invariant once a write has become pending and is counted. *)
Lemma Inv_counted e e1 w :
  Inv e -> smap_wf (mSlaveQueues e1) ->
  match mCurrentSlaveQueue e1 with
  | Some k => k ∈ smap_keys (mSlaveQueues e1)
  | None => False
  end ->
  pending e1 ≡ₚ WriteRef w :: pending e ->
  mWriteCommandsQueued e1 = mWriteCommandsQueued e -> 0 <= mCommandsLeft e1 ->
  Inv (withWritesQueued (mWriteCommandsQueued e1 + 1) e1)
  /\ pending (withWritesQueued (mWriteCommandsQueued e1 + 1) e1) ≡ₚ WriteRef w :: pending e.
Proof.
  intros I W K P Q L. split; [|done]. split; simpl; [done| | |done].
  - destruct (mCurrentSlaveQueue e1); [by apply smap_find_keys|done].
  - change (pending (withWritesQueued _ e1)) with (pending e1). rewrite (writesOf_perm _ _ P). simpl.
    pose proof (inv_writes _ I). lia.
Qed.

(** addWriteCommand makes the write pending, once; it has undefined behaviour
    exactly when no write is counted, nothing waits, and the slave has no queue. *)
Lemma addWriteCommand_spec s w e :
  Inv e ->
  match addWriteCommand s w e with
  | Ret e' => Inv e' /\ pending e' ≡ₚ WriteRef w :: pending e
  | Fault f => f = EndDereferenced /\ mWriteCommandsQueued e = 0 /\ mWaitingCommand e = None
               /\ cmdSlave s (WriteRef w) ∉ smap_keys (mSlaveQueues e)
  end.
Proof.
  intros I. unfold addWriteCommand. set (k := cmdSlave s (WriteRef w)).
  destruct (Z.eqb_spec (mWriteCommandsQueued e) 0) as [Z|NZ].
  - set (e2 := withWaiting _ _).
    assert (E2 : smap_wf (mSlaveQueues e2) /\ pending e2 ≡ₚ WriteRef w :: pending e
                 /\ mWriteCommandsQueued e2 = mWriteCommandsQueued e).
    { unfold e2. destruct (mWaitingCommand e) as [c|] eqn:Wt; simpl.
      - split; [apply smap_alter_wf, I|]. split; [|done]. unfold pending. simpl. rewrite Wt. simpl.
        apply Permutation_cons; [done|]. apply (onQueue_perm k _ e c). intros. apply readdCommand_contents.
      - split; [apply I|]. split; [|done]. unfold pending. by rewrite Wt. }
    destruct E2 as (W2 & P2 & Q2). unfold findQueue.
    destruct (smap_find k (mSlaveQueues e2)) as [q|] eqn:F.
    + destruct (resetCommandsCounter_spec (withCurrent (Some k) e2) k eq_refl) as (n & Hn & ->);
        [by exists q|]. cbn [obind]. apply Inv_counted; try done.
      apply smap_find_keys. by exists q.
    + simpl. split; [done|]. split; [done|]. revert F. unfold e2.
      destruct (mWaitingCommand e) as [c|]; simpl.
      * rewrite smap_find_alter, decide_True by (done || apply I). done.
      * intros F. split; [done|]. intros [q Fq]%smap_find_keys. congruence.
  - set (e1 := onQueue k _ e).
    assert (W1 : smap_wf (mSlaveQueues e1)) by apply smap_alter_wf, I.
    assert (P1 : pending e1 ≡ₚ WriteRef w :: pending e).
    { unfold pending, e1. rewrite (onQueue_perm k _ e (WriteRef w)); [|intros; apply addWriteCommand_contents].
      simpl. solve_Permutation. }
    assert (K1 : k ∈ smap_keys (mSlaveQueues e1)) by (apply smap_alter_keys; by left).
    destruct (mCurrentSlaveQueue e1) as [k'|] eqn:Cur.
    + apply Inv_counted; try done; [|apply I]. rewrite Cur.
      pose proof (inv_cur _ I) as C. change (mCurrentSlaveQueue e1) with (mCurrentSlaveQueue e) in Cur.
      rewrite Cur in C. apply smap_alter_keys. right. by apply smap_find_keys.
    + unfold e1 at 1. rewrite findQueue_onQueue by apply I. fold e1.
      destruct (resetCommandsCounter_spec (withCurrent (Some k) e1) k eq_refl) as (n & Hn & ->);
        [by apply smap_find_keys|]. cbn [obind]. by apply Inv_counted.
Qed.

(** * The executor as a state machine *)

Section machine.
Context {C : Type} `{IModbusContext C}.
Implicit Types w : World C.

(** finishInitialPoll only touches the initial poll flag. *)
Lemma finishInitialPoll_same e :
  pending (finishInitialPoll e) = pending e /\ mWaitingCommand (finishInitialPoll e) = mWaitingCommand e
  /\ mLastCommand (finishInitialPoll e) = mLastCommand e
  /\ mLastCommandTime (finishInitialPoll e) = mLastCommandTime e
  /\ (Inv e -> Inv (finishInitialPoll e)).
Proof.
  unfold finishInitialPoll.
  destruct (mInitialPoll e && pollDone e), (mCurrentSlaveQueue e) eqn:K; split_and!; try done.
  intros I. apply (Inv_flags e); done.
Qed.

Definition retriesLeft (c : CmdRef) (e : Executor) : Z :=
  match c with PollRef _ => mReadRetryCount e | WriteRef _ => mWriteRetryCount e end.
Definition maxRetries (s : Store) (c : CmdRef) : Z :=
  match c with
  | PollRef _ => mMaxReadRetryCount (commandOf s c)
  | WriteRef _ => mMaxWriteRetryCount (commandOf s c)
  end.

(** The retries that command [c] has when it is sent next: what the counter has left
    when it was also the last command, the configured number otherwise. *)
Definition budget (c : CmdRef) (e : Executor) (w : World C) : Z :=
  if decide (mLastCommand e = Some c) then retriesLeft c e else maxRetries (wStore w) c.

(** The fields the retries depend on. *)
Definition sameRetries (e e' : Executor) : Prop :=
  mLastCommand e' = mLastCommand e /\ mReadRetryCount e' = mReadRetryCount e
  /\ mWriteRetryCount e' = mWriteRetryCount e.

Lemma sameRetries_trans e1 e2 e3 : sameRetries e1 e2 -> sameRetries e2 e3 -> sameRetries e1 e3.
Proof. unfold sameRetries. intuition congruence. Qed.

Lemma resetCommandsCounter_retries e e' : resetCommandsCounter e = Ret e' -> sameRetries e e'.
Proof.
  unfold resetCommandsCounter. destruct (currentQueue e); [|done]. cbn.
  destruct (pollEmpty _); by intros [= <-].
Qed.

Lemma popCurrent_retries e c e' : popCurrent e = Ret (c, e') -> sameRetries e e'.
Proof.
  unfold popCurrent. destruct (mCurrentSlaveQueue e); [|done]. intros (q & _ & E)%obind_Ret.
  by apply obind_Ret in E as ([c1 q'] & _ & [= <- <-]).
Qed.

Lemma electNext_retries e b e' : electNext e = Ret (b, e') -> sameRetries e e'.
Proof.
  unfold electNext. destruct (mWaitingCommand e); [by intros [= <- <-]|].
  destruct (mCurrentSlaveQueue e) as [k|]; [|by intros [= <- <-]].
  intros (q & _ & E)%obind_Ret. destruct ((_ =? 0) || _).
  - apply obind_Ret in E as (next & _ & E). destruct (negb _ || _); [|by injection E as <- <-].
    apply obind_Ret in E as ([c e1] & Pop & E). apply obind_Ret in E as (e2 & R & [= <- <-]).
    apply popCurrent_retries in Pop. apply resetCommandsCounter_retries in R.
    by eapply sameRetries_trans, R.
  - apply obind_Ret in E as ([c e1] & Pop & [= <- <-]). by apply popCurrent_retries in Pop.
Qed.

Lemma sameRetries_budget c e e' w : sameRetries e e' -> budget c e' w = budget c e w.
Proof. intros (L & R & Wr). unfold budget, retriesLeft. by rewrite L, R, Wr. Qed.

(** An attempt that fails uses up one retry, or ends the command when none is
    left; one that succeeds ends it. *)
Lemma sendCommand_attempt env e w c e' w' :
  mWaitingCommand e = Some c -> sendCommand env e w = Ret (e', w') ->
  mLastCommand e' = Some c
  /\ (if executedOk (wStore w') c || (budget c e w =? 0) then mWaitingCommand e' = None
      else mWaitingCommand e' = Some c /\ retriesLeft c e' = budget c e w - 1).
Proof.
  intros Wt. unfold sendCommand, budget. rewrite Wt.
  set (e0 := if decide _ then e else _). set (n := if decide _ then retriesLeft c e else _).
  assert (E0 : retriesLeft c e0 = n /\ mWaitingCommand e0 = Some c).
  { unfold e0, n. destruct (decide (Some c = mLastCommand e)) as [E|E].
    - rewrite decide_True by congruence. done.
    - rewrite decide_False by congruence. by destruct c. }
  clearbody e0 n. destruct E0 as [<- W0]. destruct c as [p|p].
  - pose proof (pollRegisters_shape env p (mInitialPoll e0 || cmdIsRpc (wStore w) (PollRef p)) e0 w) as P.
    destruct (pollRegisters _ _ _ _ _) as [[e1 w1]|]; [|done]. destruct P as [-> _]. cbn [obind].
    destruct (mLastReadOk (polls (wStore w1) p)) eqn:Ok; simpl;
      [|destruct (mReadRetryCount e0 =? 0) eqn:Z; [destruct (isRpc _)|]]; simpl;
      intros [= <- <-]; try destruct (0 <? _); simpl; by rewrite ?Ok, ?Z, ?W0.
  - pose proof (writeRegisters_shape env p e0 w) as P.
    destruct (writeRegisters _ _ _ _) as [[e1 w1]|]; [|done]. destruct P as [-> _]. cbn [obind].
    destruct (mLastWriteOk (writes (wStore w1) p)) eqn:Ok; simpl;
      [destruct (0 <=? _)|destruct (mWriteRetryCount e0 =? 0) eqn:Z]; simpl; try done;
      intros [= <- <-]; try destruct (0 <? _); simpl; by rewrite ?Ok, ?Z, ?W0.
Qed.

(** How executeNext ends, given the command [c] that it elects. *)
Inductive nextResult (env : ExecEnv) (w : World C) (e : Executor) : outcome (Z * Executor * World C) -> Prop :=
| NextIdle d e' : allDone e = true -> Inv e' -> pending e' = [] -> nextResult env w e (Ret (d, e', w))
| NextWait e1 c d :
    electNext e = Ret (true, e1) -> mWaitingCommand e1 = Some c ->
    Inv e1 -> pending e1 ≡ₚ pending e ->
    d = commandDelay (wStore w) e1 c - (clkDelay env - mLastCommandTime e) -> 0 < d ->
    nextResult env w e (Ret (d, e1, w))
| NextSent e1 c e' w' :
    electNext e = Ret (true, e1) -> mWaitingCommand e1 = Some c -> pending e1 ≡ₚ pending e ->
    commandDelay (wStore w) e1 c = 0
      \/ commandDelay (wStore w) e1 c <= clkDelay env - mLastCommandTime e ->
    Inv e' -> sentWorld env c w w' -> mLastCommand e' = Some c -> mLastCommandTime e' = clkEnd env ->
    (if executedOk (wStore w') c || (budget c e w =? 0)
     then mWaitingCommand e' = None /\ pending e ≡ₚ c :: pending e'
     else mWaitingCommand e' = Some c /\ pending e' ≡ₚ pending e) ->
    nextResult env w e (Ret (0, e', w'))
| NextDiverges : allDone e = true -> nextResult env w e (Fault Diverges)
| NextContext e1 c :
    electNext e = Ret (true, e1) -> mWaitingCommand e1 = Some c -> pending e1 ≡ₚ pending e ->
    contextRefuses env w c -> nextResult env w e (Fault contextFault).

Lemma executeNext_result env e w : Inv e -> nextResult env w e (executeNext env e w).
Proof.
  intros I. unfold executeNext. pose proof (electNext_spec e I) as S.
  destruct (electNext e) as [[b e1]|f] eqn:El; last first.
  { destruct S as [-> D]. by constructor. }
  destruct S as (I1 & P1 & (T1 & L1 & _) & Prog & Done). cbn [obind].
  destruct b; simpl; last first.
  { pose proof (Done eq_refl) as AD. apply NextIdle; auto. apply Permutation_nil_r. rewrite P1.
    apply allDone_pending in AD. by rewrite AD. }
  destruct (mWaitingCommand e1) as [c|] eqn:W1; last first.
  { destruct (allDone e) eqn:AD; [|by destruct (Prog eq_refl) as [_ [? ?]]].
    destruct (finishInitialPoll_same e1) as (F1 & _ & _ & _ & F5). apply NextIdle; auto.
    rewrite F1. apply Permutation_nil_r. rewrite P1. apply allDone_pending in AD. by rewrite AD. }
  rewrite T1.
  destruct (negb _ && _) eqn:B.
  - apply andb_prop in B as [_ B]. apply Z.ltb_lt in B.
    pose proof (inv_cur _ I1) as Cur. destruct (mCurrentSlaveQueue e1); [by eapply NextWait|].
    unfold pending in Cur. by rewrite W1 in Cur.
  - pose proof (sendCommand_inv env e1 w c I1 W1) as Snd.
    destruct (sendCommand env e1 w) as [[e2 w2]|f] eqn:E; cbn [obind]; last first.
    { destruct Snd as [-> ?]. by eapply NextContext. }
    destruct Snd as (Snd & SW & I2). pose proof (pending_sent _ _ _ _ W1 Snd) as P2.
    destruct Snd as (_ & _ & _ & L2 & T2 & _).
    destruct (finishInitialPoll_same e2) as (F1 & F2 & F3 & F4 & F5).
    eapply NextSent; eauto; try congruence.
    + apply andb_false_iff in B. rewrite negb_false_iff, Z.eqb_eq, Z.ltb_ge in B. lia.
    + rewrite F1, F2. destruct (sendCommand_attempt _ _ _ _ _ _ W1 E) as [_ A].
      rewrite (sameRetries_budget c e) in A by (by eapply electNext_retries).
      destruct (_ || _); [|destruct A as [A _]]; (split; [done|]); destruct P2 as [[? P2]|[? P2]]; try congruence.
      by rewrite <- P1, P2.
Qed.

(** One operation on the executor.  Between operations the other parts of the
    thread may change the world: allocate commands, take messages. *)
Inductive estep : Executor * World C -> Executor * World C -> Prop :=
| step_polls e w regs init n1 n2 e' :
    (forall p b, inRegs regs (PollRef p) -> reasonable (wStore w) (n2 - mLastCommandTime e) b p) ->
    addPollList (wStore w) regs init n1 n2 e = Ret e' -> estep (e, w) (e', w)
| step_read e w p e' : addReadCommand (wStore w) p e = Ret e' -> estep (e, w) (e', w)
| step_write e w p e' : addWriteCommand (wStore w) p e = Ret e' -> estep (e, w) (e', w)
| step_next e w env d e' w' : executeNext env e w = Ret (d, e', w') -> estep (e, w) (e', w')
| step_world e w w' : estep (e, w) (e, w').

Lemma estep_inv st st' : estep st st' -> Inv st.1 -> Inv st'.1.
Proof.
  destruct 1 as [e w regs init n1 n2 e' R E|e w p e' E|e w p e' E|e w env d e' w' E|];
    simpl; intros I; [| | | |done].
  - destruct (addPollList_spec (wStore w) regs init n1 n2 e I R) as (? & E' & ? & _ & _). congruence.
  - destruct (addReadCommand_spec (wStore w) p e I) as (? & E' & ? & _). congruence.
  - pose proof (addWriteCommand_spec (wStore w) p e I) as S. rewrite E in S. by destruct S.
  - pose proof (executeNext_result env e w I) as S. rewrite E in S. by inversion S; subst.
Qed.

(** C13: in every state the executor can reach, the current queue is an element
    of the map (so that it can be dereferenced), it is end() only when nothing is
    pending, and the counter of queued writes is at least the number of pending
    writes, so that it never becomes negative and its assertion holds. *)
Theorem executor_reachable_inv now w e w' :
  rtc estep (newExecutor now, w) (e, w') ->
  smap_wf (mSlaveQueues e)
  /\ match mCurrentSlaveQueue e with
     | Some k => is_Some (smap_find k (mSlaveQueues e))
     | None => pending e = []
     end
  /\ Z.of_nat (length (writesOf (pending e))) <= mWriteCommandsQueued e
  /\ 0 <= mCommandsLeft e.
Proof.
  intros R. assert (I : Inv e).
  { change e with (e, w').1. revert R. generalize (e, w') as st'.
    apply (rtc_ind_r (fun st => Inv st.1)); [apply Inv_new|]. intros ? ? _. apply estep_inv. }
  by destruct I.
Qed.

(** C14: while a command is pending, executeNext either waits or sends exactly one
    command.  It waits: the world is untouched and every command is still pending.
    Or it sends one pending command [c]: the context has served the one request of
    [c] and no other, only the object of [c] and the queue to the main thread have
    changed, and every other command is still pending; [c] is pending too, as the
    waiting command, exactly when the request failed and [c] had a retry left (its
    [budget], see C17).  It ends with an exception only when the context
    refuses a pending write (ModbusContextException, which a write to a type of
    register that cannot be written gets), and in no other way. *)
Theorem executeNext_progress `{!ModbusContextLaws C} env e w :
  Inv e -> allDone e = false ->
  match executeNext env e w with
  | Ret (d, e', w') =>
      Inv e'
      /\ ((0 < d /\ w' = w /\ is_Some (mWaitingCommand e') /\ pending e' ≡ₚ pending e)
          \/ (d = 0 /\ exists c, mLastCommand e' = Some c /\ c ∈ pending e /\ sentWorld env c w w'
                /\ (if executedOk (wStore w') c || (budget c e w =? 0)
                    then mWaitingCommand e' = None /\ pending e ≡ₚ c :: pending e'
                    else mWaitingCommand e' = Some c /\ pending e' ≡ₚ pending e)))
  | Fault f => f = contextFault /\ exists p, WriteRef p ∈ pending e /\ contextRefuses env w (WriteRef p)
  end.
Proof.
  intros I AD. pose proof (executeNext_result env e w I) as R.
  assert (In : forall e1 c, mWaitingCommand e1 = Some c -> pending e1 ≡ₚ pending e -> c ∈ pending e).
  { intros e1 c W P. rewrite <- P. unfold pending. rewrite W. by left. }
  inversion R as [d e' AD'|e1 c d El W1 I1 P1 D Pos|e1 c e' w' El W1 P1 D I' SW L T Q|AD'|e1 c El W1 P1 CR];
    try congruence.
  - split; [done|]. left. by eauto.
  - split; [done|]. right. split; [done|]. exists c.
    split; [done|]. split; [by eapply In|done].
  - split; [done|]. destruct c as [p|p].
    + by destruct (read_no_context_error _ _ _ CR).
    + exists p. split; [by eapply In|done].
Qed.

(** The silence command [c] asks for when [last] was the last command: its first
    command delay, if it has one and the slave changes, else its ordinary delay. *)
Definition silenceAsked (s : Store) (last : option CmdRef) (c : CmdRef) (delay : Z) : Prop :=
  let rc := commandOf s c in
  (exists l, last = Some l /\ cmdSlave s l <> cmdSlave s c
     /\ mDelayBeforeFirstCommand rc <> 0 /\ delay = mDelayBeforeFirstCommand rc)
  \/ ((mDelayBeforeFirstCommand rc = 0 \/ forall l, last = Some l -> cmdSlave s l = cmdSlave s c)
      /\ delay = mDelayBeforeCommand rc).

Lemma commandDelay_asked s e c : silenceAsked s (mLastCommand e) c (commandDelay s e c).
Proof.
  unfold silenceAsked, commandDelay, hasDelayBeforeFirstCommand. cbv zeta.
  destruct (Z.eqb_spec (mDelayBeforeFirstCommand (commandOf s c)) 0) as [Z|NZ]; simpl.
  { right. by split; [left|]. }
  destruct (mLastCommand e) as [l|]; [|right; by split; [right|]].
  destruct (Z.eqb_spec (cmdSlave s c) (cmdSlave s l)) as [S|S]; simpl.
  - right. split; [|done]. right. by intros ? [= <-].
  - left. by exists l.
Qed.

(** C15: a command is sent only when the silence it asks for has passed since the
    last command: its delay before the first command to a slave when it has one and
    the last command went to another slave, its delay before every command
    otherwise.  Until then executeNext returns the time that is left and touches
    nothing. *)
Theorem executeNext_delay env e w d e' w' :
  Inv e -> allDone e = false -> mLastCommandTime e <= clkDelay env ->
  executeNext env e w = Ret (d, e', w') ->
  exists e1 c delay, electNext e = Ret (true, e1) /\ mWaitingCommand e1 = Some c /\ c ∈ pending e
    /\ silenceAsked (wStore w) (mLastCommand e) c delay
    /\ let passed := clkDelay env - mLastCommandTime e in
       (passed < delay /\ d = delay - passed /\ w' = w /\ e' = e1)
       \/ (delay <= passed /\ d = 0 /\ mLastCommand e' = Some c /\ mLastCommandTime e' = clkEnd env).
Proof.
  intros I AD T E. pose proof (executeNext_result env e w I) as R. rewrite E in R.
  assert (In : forall e1 c, electNext e = Ret (true, e1) -> mWaitingCommand e1 = Some c ->
    c ∈ pending e /\ silenceAsked (wStore w) (mLastCommand e) c (commandDelay (wStore w) e1 c)).
  { intros e1 c El W. pose proof (electNext_spec e I) as S. rewrite El in S.
    destruct S as (_ & P & (_ & <- & _) & _). split; [|apply commandDelay_asked].
    rewrite <- P. unfold pending. rewrite W. by left. }
  inversion R as [? ? AD'|e1 c ? El W1 I1 P1 D Pos|e1 c ? ? El W1 P1 D I' SW L TL Q| |]; subst;
    try congruence; destruct (In _ _ El W1) as [M A].
  - exists e', c, (commandDelay (wStore w') e' c). split_and!; try done. left. split_and!; lia || done.
  - exists e1, c, (commandDelay (wStore w) e1 c). split_and!; try done. right. split_and!; lia || done.
Qed.

(** When the commands to the current slave are used up, or its queue is empty,
    the executor goes round-robin: it takes the next slave in cyclic order of the
    slave ids that has a command, the same slave last. *)
Theorem electNext_round_robin e k q k' :
  Inv e -> mWaitingCommand e = None -> mCurrentSlaveQueue e = Some k ->
  smap_find k (mSlaveQueues e) = Some q -> mCommandsLeft e = 0 \/ empty q = true ->
  firstNonEmpty (afterKey k (mSlaveQueues e) ++ beforeKey k (mSlaveQueues e) ++ [(k, q)]) = Some k' ->
  exists c e' q', electNext e = Ret (true, e') /\ mCurrentSlaveQueue e' = Some k'
    /\ mWaitingCommand e' = Some c
    /\ smap_find k' (mSlaveQueues e) = Some q' /\ c ∈ contents q'.
Proof.
  intros I N K F L S. pose proof (inv_wf _ I) as W.
  rewrite (assoc_L (++)), firstNonEmpty_app in S.
  assert (X : exists q', smap_find k' (mSlaveQueues e) = Some q' /\ empty q' = false
    /\ findNext (searchFuel (mSlaveQueues e)) (mSlaveQueues e) (Some k) (smap_next k (mSlaveQueues e))
       = Ret (Some k') /\ (k' = k -> empty q = false)).
  { rewrite (findNext_cyclic _ _ _ W F). destruct (firstNonEmpty (_ ++ _)) as [j|] eqn:S'.
    - injection S as ->. destruct (firstNonEmpty_Some _ _ S') as (q' & I' & E').
      exists q'. apply elem_of_app in I' as [I'|I']; apply list_elem_of_filter in I' as [Lt I'];
        simpl in Lt; (split; [by apply smap_elem_find|]); (split; [done|]); (split; [done|]); lia.
    - simpl in S. destruct (empty q) eqn:Eq; [done|]. injection S as <-. exists q.
      by rewrite andb_false_r. }
  destruct X as (q' & F' & E' & FN & KK).
  destruct (popNext_ret q' E') as (c & q'' & Pop).
  assert (B : (mCommandsLeft e =? 0) || empty q = true)
    by (destruct L as [->| ->]; [done|by rewrite orb_true_r]).
  assert (B' : negb (bool_decide (Some k = Some k')) || negb (empty q) = true).
  { case_bool_decide as D; [|done]. injection D as D. by rewrite KK. }
  unfold electNext, currentQueue. rewrite N, K, F. cbn [obind]. rewrite B, FN. cbn [obind].
  rewrite B'. unfold popCurrent, currentQueue. simpl. rewrite F'. cbn [obind]. rewrite Pop. cbn [obind].
  set (e1 := withWaiting _ _).
  destruct (resetCommandsCounter_spec e1 k' eq_refl) as (n & Hn & ->).
  { simpl. by rewrite smap_set_find. }
  cbn [obind]. exists c. do 2 eexists. split; [done|]. split; [done|]. split; [done|].
  split; [done|]. rewrite (popNext_contents _ _ _ Pop). by left.
Qed.

(** * Retries *)

(** Successive calls of sendCommand. *)
Fixpoint sendAll (envs : list ExecEnv) (e : Executor) (w : World C) : outcome (Executor * World C) :=
  match envs with
  | [] => Ret (e, w)
  | env :: envs' => let! (e', w') := sendCommand env e w in sendAll envs' e' w'
  end.










(** * What the main thread learns *)






(** * Read errors *)

(** Failed reads of poll [p] in a row, one for each of [envs], as pollRegisters does
    them; in between, anything that leaves the poll alone.  [sent] is what these
    reads add to the queue of the main thread. *)
Inductive failedReads (p : ptr) : list ExecEnv -> World C -> list FromModbus -> World C -> Prop :=
| fr_done w : failedReads p [] w [] w
| fr_read env envs force e e1 w w1 out sent w' :
    readResult env p w = ReadException -> pollRegisters env p force e w = Ret (e1, w1) ->
    wOut w1 = wOut w ++ out -> failedReads p envs w1 sent w' -> failedReads p (env :: envs) w (out ++ sent) w'
| fr_other envs w w1 sent w' :
    polls (wStore w1) p = polls (wStore w) p -> failedReads p envs w1 sent w' -> failedReads p envs w sent w'.

Definition readFailedMsg (r : RegisterPoll) : FromModbus :=
  RegisterReadFailed (failedMessage (cmdBase (pollCmd r)) (pollGetCount r) 0).

(** The fields of a poll the error handler and its messages depend on. *)
Definition errorState (r : RegisterPoll) (errors first : Z) (msg : FromModbus) : Prop :=
  isRpc (cmdBase (pollCmd r)) = false /\ mReadErrors r = errors /\ mFirstErrorTime r = first
  /\ readFailedMsg r = msg.

(** One failed read of a poll that is no RPC request. *)
Lemma pollRegisters_error env p force e w e1 w1 n first msg :
  readResult env p w = ReadException -> pollRegisters env p force e w = Ret (e1, w1) ->
  errorState (polls (wStore w) p) (Z.of_nat n) first msg ->
  (0 < n)%nat -> clkError env - first <= DurationBetweenLogError ->
  errorState (polls (wStore w1) p) (Z.of_nat (S n)) first msg
  /\ wOut w1 = wOut w ++ (if (3 <=? n)%nat then [msg] else []).
Proof.
  unfold readResult, pollRegisters. set (r := setReadTimes _ _ (polls (wStore w) p)). cbn [putPoll wCtx].
  change (cmdBase (pollCmd r)) with (cmdBase (pollCmd (polls (wStore w) p))).
  destruct (readModbusRegisters _ _ _) as [ctx res]. cbn [snd]. intros ->. cbn [obind]. intros [= _ <-] (Rpc & E & F & M) N L.
  cbn [putPoll wStore wOut]. rewrite polls_setPoll_eq.
  unfold handleRegisterReadError. cbn [putCtx putPoll wStore]. rewrite polls_setPoll_eq.
  change (cmdBase (pollCmd (setLastReadOk _ _))) with (cmdBase (pollCmd (polls (wStore w) p))). rewrite Rpc.
  cbn [setLastReadOk setReadErrors mReadErrors mFirstErrorTime r setReadTimes]. rewrite E, F.
  rewrite (proj2 (Z.eqb_neq (Z.of_nat n + 1) 1)) by lia. rewrite (proj2 (Z.ltb_ge _ _) L). cbn [orb].
  cbn [setLastReadOk setReadErrors mReadErrors]. unfold DefaultReadErrorCount.
  destruct (Nat.leb_spec 3 n); [rewrite (proj2 (Z.ltb_lt 3 _)) by lia|rewrite (proj2 (Z.ltb_ge 3 _)) by lia];
    cbn [sendMessage putPoll wStore wOut]; rewrite polls_setPoll_eq.
  - split; [|by rewrite <- M]. split_and!; try done. cbn. lia.
  - split; [|by rewrite app_nil_r]. split_and!; try done. cbn. lia.
Qed.

Lemma pollRegisters_first_error env p force e w e1 w1 first msg :
  readResult env p w = ReadException -> pollRegisters env p force e w = Ret (e1, w1) ->
  errorState (polls (wStore w) p) 0 first msg ->
  errorState (polls (wStore w1) p) 1 (clkErrorSet env) msg /\ wOut w1 = wOut w.
Proof.
  unfold readResult, pollRegisters. set (r := setReadTimes _ _ (polls (wStore w) p)). cbn [putPoll wCtx].
  change (cmdBase (pollCmd r)) with (cmdBase (pollCmd (polls (wStore w) p))).
  destruct (readModbusRegisters _ _ _) as [ctx res]. cbn [snd]. intros ->. cbn [obind]. intros [= _ <-] (Rpc & E & F & M).
  cbn [putPoll wStore wOut]. rewrite polls_setPoll_eq.
  unfold handleRegisterReadError. cbn [putCtx putPoll wStore]. rewrite polls_setPoll_eq.
  change (cmdBase (pollCmd (setLastReadOk _ _))) with (cmdBase (pollCmd (polls (wStore w) p))). rewrite Rpc.
  cbn [setLastReadOk setReadErrors mReadErrors mFirstErrorTime r setReadTimes]. rewrite E.
  change (0 + 1 =? 1) with true. cbn [orb negb]. cbn [setReadErrors mReadErrors]. change (DefaultReadErrorCount <? 0 + 1) with false.
  cbn [putPoll wStore wOut]. by rewrite polls_setPoll_eq.
Qed.

Lemma failedReads_step p envs w sent w' n first msg :
  failedReads p envs w sent w' -> errorState (polls (wStore w) p) (Z.of_nat n) first msg -> (0 < n)%nat ->
  Forall (fun env => clkError env - first <= DurationBetweenLogError) envs ->
  sent = replicate ((n + length envs - 3) - (n - 3)) msg.
Proof.
  intros R. revert n. induction R as [w|env envs force e e1 w w1 out sent w' Rd Po Ou R IH|envs w w1 sent w' Sm R IH];
    intros n S N F.
  - by replace (n + length [] - 3 - (n - 3))%nat with 0%nat by (simpl; lia).
  - apply Forall_cons in F as [F1 F].
    destruct (pollRegisters_error _ _ _ _ _ _ _ _ _ _ Rd Po S N F1) as [S1 Ou1].
    rewrite Ou in Ou1. apply app_inv_head in Ou1 as ->. rewrite (IH (Datatypes.S n) S1) by (done || lia). cbn [length].
    destruct (Nat.leb_spec 3 n); cbn [app].
    + replace (n + Datatypes.S (length envs) - 3 - (n - 3))%nat with (Datatypes.S (length envs)) by lia.
      cbn [replicate]. do 2 f_equal. lia.
    + f_equal. lia.
  - apply (IH n); try done. by rewrite Sm.
Qed.

(** C19: reads of a poll that is no RPC request and has no read errors, that all
    fail, in a row and none of them more than five minutes after the first one:
    they send the main thread one message for each read from the fourth on and
    nothing for the first three, [n - 3] messages for [n] failed reads, each naming
    the registers of the poll. *)
Theorem readFailed_threshold env envs p w sent w' :
  let r := polls (wStore w) p in
  isRpc (cmdBase (pollCmd r)) = false -> mReadErrors r = 0 ->
  Forall (fun env' => clkError env' - clkErrorSet env <= DurationBetweenLogError) envs ->
  failedReads p (env :: envs) w sent w' ->
  sent = replicate (S (length envs) - 3) (readFailedMsg r).
Proof.
  intros r Rpc E F R. remember (env :: envs) as l eqn:El.
  assert (St : errorState (polls (wStore w) p) 0 (mFirstErrorTime r) (readFailedMsg r)) by done.
  clearbody r. clear Rpc E. induction R as [w|? ? force e e1 w w1 out sent w' Rd Po Ou R _|? w w1 sent w' Sm R IH];
    [done|injection El as -> ->|].
  - destruct (pollRegisters_first_error _ _ _ _ _ _ _ _ _ Rd Po St) as [S1 Ou1].
    rewrite Ou in Ou1. rewrite <- (app_nil_r (wOut w)) in Ou1 at 2. apply app_inv_head in Ou1 as ->.
    rewrite (failedReads_step _ _ _ _ _ 1 _ _ R S1) by (done || lia). cbn [app]. f_equal. lia.
  - apply IH; [done|]. by rewrite Sm.
Qed.

End machine.

(** * Concrete runs *)

(** Polls 1-9 are on slave 1, the others on slave 2; polls ask for two retries. *)
Module Scenario.

Definition retrying (c : RegisterCommand) : RegisterCommand := setMaxRetryCounts 2 1 true c.
Definition slaveOf (p : ptr) : Z := if p <? 10 then 1 else 2.
Definition pollOf (p : ptr) : RegisterPoll :=
  let r := newRegisterPoll (slaveOf p) p HOLDING 1 1000 ON_CHANGE 0 0 0 in
  setPollCmd (retrying (pollCmd r)) r.
Definition writeOf (p : ptr) : RegisterWrite :=
  let r := newRegisterWrite (newMsgRegisterValues (slaveOf p) HOLDING p [5] 7 AUTO 0) in
  setWriteCmd (retrying (writeCmd r)) r.
Definition store : Store := mkStore pollOf writeOf 100.

Definition world {C} (c : C) : World C := mkWorld store c [].
Definition env (t : Z) : ExecEnv := mkEnv t t t t t t.

Definition run (e : outcome Executor) : Executor :=
  match e with Ret e => e | Fault _ => newExecutor 0 end.

(** Two polls of slave 1 and one of slave 2 added to a fresh executor. *)
Definition busy : Executor :=
  run (addPollList store [(1, [1; 2]); (2, [11])] false 0 0 (newExecutor 0)).
(** The same after both polls of slave 1. *)
Definition slave1Done : Executor :=
  withWaiting None (withCommandsLeft 0 (withQueues
    (smap_set 1 newQueues (mSlaveQueues busy)) busy)).

Lemma busy_inv : Inv busy.
Proof. split; vm_compute; [repeat constructor|eauto|done|done]. Qed.

Lemma busy_polls :
  addPollList store [(1, [1; 2]); (2, [11])] false 0 0 (newExecutor 0) = Ret busy.
Proof. vm_compute. reflexivity. Qed.

Lemma busy_write : addWriteCommand store 3 busy = Ret (run (addWriteCommand store 3 busy)).
Proof. vm_compute. reflexivity. Qed.

Lemma store_reasonable p b : reasonable store (0 - mLastCommandTime (newExecutor 0)) b p.
Proof. destruct b; split; vm_compute; done. Qed.

Lemma slave1Done_inv : Inv slave1Done.
Proof. split; vm_compute; [repeat constructor|eauto|done|done]. Qed.

(** A network on which every request fails. *)
#[global] Instance dead : IModbusContext unit := {
  connect c := c;
  isConnected _ := true;
  disconnect c := c;
  readModbusRegisters c _ _ := (c, ReadException);
  writeModbusRegisters c _ _ := (c, WriteException)
}.

(** A network on which the first [n] requests fail. *)
#[global] Instance flaky : IModbusContext nat := {
  connect c := c;
  isConnected _ := true;
  disconnect c := c;
  readModbusRegisters n _ r :=
    match n with O => (O, ReadOk (replicate (length (mLastValues r)) 1)) | S n' => (n', ReadException) end;
  writeModbusRegisters n _ _ := match n with O => (O, WriteOk) | S n' => (n', WriteException) end
}.

End Scenario.

Import Scenario.

Lemma executor_reachable_inv_witness :
  let e := run (addWriteCommand store 3 busy) in
  smap_wf (mSlaveQueues e)
  /\ match mCurrentSlaveQueue e with
     | Some k => is_Some (smap_find k (mSlaveQueues e))
     | None => pending e = []
     end
  /\ Z.of_nat (length (writesOf (pending e))) <= mWriteCommandsQueued e
  /\ 0 <= mCommandsLeft e.
Proof.
  apply (executor_reachable_inv (C := ModbusContext Device.state) 0 (world Device.ctx) _ (world Device.ctx)).
  apply (rtc_l _ _ (busy, world Device.ctx)); [|apply rtc_once].
  - apply (step_polls _ _ [(1, [1; 2]); (2, [11])] false 0 0 busy); [|exact busy_polls].
    intros p b _. exact (store_reasonable p b).
  - apply (step_write _ _ 3). exact busy_write.
Defined.

Lemma executeNext_progress_witness :
  exists e' w', executeNext (env 5) busy (world Device.ctx) = Ret (0, e', w') /\ Inv e'
    /\ sentWorld (env 5) (PollRef 1) (world Device.ctx) w' /\ pending busy ≡ₚ PollRef 1 :: pending e'.
Proof.
  pose proof (executeNext_progress (env 5) busy (world Device.ctx) busy_inv eq_refl) as P.
  assert (R : match executeNext (env 5) busy (world Device.ctx) with
              | Ret (d, e', _) => d = 0 /\ mLastCommand e' = Some (PollRef 1) /\ mWaitingCommand e' = None
              | Fault _ => False
              end) by (vm_compute; repeat split).
  destruct (executeNext (env 5) busy (world Device.ctx)) as [[[d e'] w']|]; [|destruct R].
  destruct R as (-> & L & W), P as [I [(D & _)|(_ & c & L' & _ & SW & Q)]]; [lia|].
  destruct (_ || _); destruct Q as [W' Q]; [|congruence].
  rewrite L in L'. injection L' as <-. exists e', w'. split; [reflexivity|]. split; [exact I|]. split; [exact SW|exact Q].
Defined.

Lemma executeNext_delay_witness :
  exists e1 c delay, electNext busy = Ret (true, e1) /\ mWaitingCommand e1 = Some c /\ c ∈ pending busy
    /\ silenceAsked store (mLastCommand busy) c delay.
Proof.
  assert (R : is_ret (executeNext (env 5) busy (world Device.ctx)) = true) by (vm_compute; reflexivity).
  destruct (executeNext (env 5) busy (world Device.ctx)) as [[[d e'] w']|] eqn:E; [|discriminate].
  destruct (executeNext_delay (env 5) busy (world Device.ctx) d e' w') as (e1 & c & delay & H1 & H2 & H3 & H4 & _).
  - apply busy_inv.
  - reflexivity.
  - vm_compute. discriminate.
  - exact E.
  - exists e1, c, delay. split; [exact H1|]. split; [exact H2|]. split; [exact H3|exact H4].
Defined.

Lemma electNext_round_robin_witness :
  exists c e' q', electNext slave1Done = Ret (true, e') /\ mCurrentSlaveQueue e' = Some 2
    /\ mWaitingCommand e' = Some c
    /\ smap_find 2 (mSlaveQueues slave1Done) = Some q' /\ c ∈ contents q'.
Proof.
  apply (electNext_round_robin slave1Done 1 newQueues 2); try reflexivity.
  - apply slave1Done_inv.
  - left. reflexivity.
Defined.

(** The state after executeNext, for a call that returns. *)
Definition next {C} `{IModbusContext C} (t : Z) (st : Executor * World C) : Executor * World C :=
  match executeNext (env t) st.1 st.2 with Ret (_, e, w) => (e, w) | Fault _ => st end.





(** The world after pollRegisters, for a call that returns. *)
Definition failPoll (t : Z) (w : World unit) : World unit :=
  match pollRegisters (env t) 1 false busy w with Ret (_, w') => w' | Fault _ => w end.

Lemma readFailed_threshold_witness :
  exists w', failedReads 1 [env 1; env 2; env 3; env 4; env 5] (world tt) (replicate 2 (readFailedMsg (pollOf 1))) w'.
Proof.
  assert (R : forall t w envs sent w', failedReads 1 envs (failPoll t w) sent w' ->
            failedReads 1 (env t :: envs) w (drop (length (wOut w)) (wOut (failPoll t w)) ++ sent) w').
  { intros t w envs sent w'. apply (fr_read 1 (env t) envs false busy (withLastCommandTime t busy)); [reflexivity|reflexivity|].
    pose proof (pollRegisters_shape (env t) 1 false busy w) as Sh. unfold failPoll.
    destruct (pollRegisters _ _ _ _ _) as [[e1 w1]|]; [|by rewrite drop_all, app_nil_r].
    destruct Sh as (_ & _ & [l ->] & _). by rewrite drop_app_length. }
  exists (failPoll 5 (failPoll 4 (failPoll 3 (failPoll 2 (failPoll 1 (world tt)))))).
  assert (X : exists sent, failedReads 1 [env 1; env 2; env 3; env 4; env 5] (world tt) sent
                (failPoll 5 (failPoll 4 (failPoll 3 (failPoll 2 (failPoll 1 (world tt))))))).
  { eexists. do 5 apply R. apply fr_done. }
  destruct X as [sent X].
  pose proof (readFailed_threshold (env 1) [env 2; env 3; env 4; env 5] 1 (world tt) sent
                (failPoll 5 (failPoll 4 (failPoll 3 (failPoll 2 (failPoll 1 (world tt)))))) eq_refl eq_refl) as T.
  assert (E : sent = replicate 2 (readFailedMsg (pollOf 1))).
  { apply T; [|exact X]. repeat (apply Forall_cons; split; [vm_compute; discriminate|]). by apply Forall_nil. }
  rewrite <- E. exact X.
Defined.

(** * Runs that show unintended behaviour *)

(** The election of addPollList replaces a poll it has already taken out of its
    queue when a later slave has a poll with a smaller delay: poll 1 is neither
    waiting nor queued afterwards, although it was just added. *)
Theorem addPollList_loses_poll :
  let s := mkStore (fun p => let r := pollOf p in
             setPollCmd (setDelayBeforeCommand (if p =? 1 then 50 else 20) (pollCmd r)) r) writeOf 100 in
  match addPollList s [(1, [1]); (2, [11])] false 0 0 (newExecutor 0) with
  | Ret e => pending e = [PollRef 11]
  | Fault _ => False
  end.
Proof. vm_compute. done. Qed.

(** A write for a slave that has no queue, on an idle executor, dereferences
    end(). *)
Theorem addWriteCommand_unknown_slave :
  addWriteCommand store 11 (newExecutor 0) = Fault EndDereferenced.
Proof. reflexivity. Qed.

(** The waiting poll of slave 1 is put into the queue of slave 2 when a write for
    slave 2 arrives. *)
Theorem addWriteCommand_misfiles_waiting :
  mWaitingCommand busy = Some (PollRef 1)
  /\ mPollQueue <$> smap_find 2 (mSlaveQueues (run (addWriteCommand store 12 busy))) = Some [1; 11].
Proof. split; reflexivity. Qed.

(** The counter of queued writes stays up when a write fails for good. *)
Theorem failed_write_stays_counted :
  match sendAll [env 1; env 2] (run (addWriteCommand store 3 busy)) (world tt) with
  | Ret (e, _) => mWriteCommandsQueued e = 1 /\ writesOf (pending e) = []
  | Fault _ => False
  end.
Proof. vm_compute. done. Qed.

(** A write that succeeds on its second attempt is reported as failed all the
    same. *)
Theorem retried_write_reported_failed :
  match sendAll [env 1; env 2] (run (addWriteCommand store 3 busy)) (world 1%nat) with
  | Ret (e, w) =>
      mWaitingCommand e = None /\ mLastWriteOk (writes (wStore w) 3) = true
      /\ wOut w = [RegisterWriteFailed (mkBase (mkRange 3 1 HOLDING) 1 7)]
  | Fault _ => False
  end.
Proof. vm_compute. done. Qed.

(** With no command anywhere and the first slave as the current one, executeNext
    searches for ever, whatever the number of iterations. *)
Theorem executeNext_idle_diverges n :
  let m := [(1, newQueues); (2, newQueues)] in
  findNext n m (Some 1) (smap_next 1 m) = Fault Diverges.
Proof. apply findNext_diverges; repeat constructor. Qed.
