(* ===== verification/ModbusThread.v ===== *)
(** The control loop of a modbus thread: libmodmqttsrv/modbus_thread.hpp and
    modbus_thread.cpp, with the messages ModbusClient (modbus_client.hpp and .cpp)
    puts into its queue.

    One iteration of ModbusThread::run is [loopStep]: connect, schedule, execute
    one command, watch the connection, then receive messages.  The clock readings of
    an iteration, the file system and the received messages are a [LoopEnv]. *)

From stdpp Require Import base list sets sorting strings relations.
From Stdlib Require Import ZArith Lia.
From S2P Require Import Prelude ModbusTypes PollSpec Commands RequestQueues Scheduler.
From S2P Require Import ModbusContext Config Watchdog Executor ExecutorProps.

(** What ModbusClient enqueues: start, sendCommand and sendWriteRequest,
    sendReadRequest, sendMqttNetworkIsUp, stop, and the configuration messages of
    ModMqtt. *)
Inductive ToModbus : Type :=
| NetworkConfig (config : ModbusNetworkConfig)
| PollSpecification (spec : PollSpec.MsgRegisterPollSpecification)
| EndWork
| WriteValues (m : MsgRegisterValues)
| ReadRequest (m : ModbusMessageBase)
| MqttNetworkState (isUp : bool)
| SlaveConfig (config : ModbusSlaveConfig).

(** class ModbusThread, with the two local variables of run.  [mModbus] is the
    null pointer until the network configuration arrives; then the context is the
    one of the world. *)
Record Thread : Type := mkThread {
  mNetworkName : string;
  thDelayBeforeCommand : option Z;
  thDelayBeforeFirstCommand : option Z;
  thMaxReadRetryCount : Z;
  thMaxWriteRetryCount : Z;
  mSlaves : list (Z * ModbusSlaveConfig);
  mShouldRun : bool;
  mMqttConnected : bool;
  mModbusSet : bool;
  mScheduler : list (Z * list ptr);
  mExecutor : Executor;
  mWatchdog : Watchdog.Watchdog;
  idleWaitDuration : Z;
  nextPollTimePoint : Z
}.

Module ModbusThread.

Definition withSlaves v (t : Thread) : Thread :=
  mkThread (mNetworkName t) (thDelayBeforeCommand t) (thDelayBeforeFirstCommand t)
    (thMaxReadRetryCount t) (thMaxWriteRetryCount t) v (mShouldRun t) (mMqttConnected t)
    (mModbusSet t) (mScheduler t) (mExecutor t) (mWatchdog t) (idleWaitDuration t)
    (nextPollTimePoint t).
Definition withShouldRun v (t : Thread) : Thread :=
  mkThread (mNetworkName t) (thDelayBeforeCommand t) (thDelayBeforeFirstCommand t)
    (thMaxReadRetryCount t) (thMaxWriteRetryCount t) (mSlaves t) v (mMqttConnected t)
    (mModbusSet t) (mScheduler t) (mExecutor t) (mWatchdog t) (idleWaitDuration t)
    (nextPollTimePoint t).
Definition withMqttConnected v (t : Thread) : Thread :=
  mkThread (mNetworkName t) (thDelayBeforeCommand t) (thDelayBeforeFirstCommand t)
    (thMaxReadRetryCount t) (thMaxWriteRetryCount t) (mSlaves t) (mShouldRun t) v
    (mModbusSet t) (mScheduler t) (mExecutor t) (mWatchdog t) (idleWaitDuration t)
    (nextPollTimePoint t).
Definition withScheduler v (t : Thread) : Thread :=
  mkThread (mNetworkName t) (thDelayBeforeCommand t) (thDelayBeforeFirstCommand t)
    (thMaxReadRetryCount t) (thMaxWriteRetryCount t) (mSlaves t) (mShouldRun t) (mMqttConnected t)
    (mModbusSet t) v (mExecutor t) (mWatchdog t) (idleWaitDuration t) (nextPollTimePoint t).
Definition withExecutor v (t : Thread) : Thread :=
  mkThread (mNetworkName t) (thDelayBeforeCommand t) (thDelayBeforeFirstCommand t)
    (thMaxReadRetryCount t) (thMaxWriteRetryCount t) (mSlaves t) (mShouldRun t) (mMqttConnected t)
    (mModbusSet t) (mScheduler t) v (mWatchdog t) (idleWaitDuration t) (nextPollTimePoint t).
Definition withWatchdog v (t : Thread) : Thread :=
  mkThread (mNetworkName t) (thDelayBeforeCommand t) (thDelayBeforeFirstCommand t)
    (thMaxReadRetryCount t) (thMaxWriteRetryCount t) (mSlaves t) (mShouldRun t) (mMqttConnected t)
    (mModbusSet t) (mScheduler t) (mExecutor t) v (idleWaitDuration t) (nextPollTimePoint t).
Definition withIdleWait v (t : Thread) : Thread :=
  mkThread (mNetworkName t) (thDelayBeforeCommand t) (thDelayBeforeFirstCommand t)
    (thMaxReadRetryCount t) (thMaxWriteRetryCount t) (mSlaves t) (mShouldRun t) (mMqttConnected t)
    (mModbusSet t) (mScheduler t) (mExecutor t) (mWatchdog t) v (nextPollTimePoint t).
Definition withNextPoll v (t : Thread) : Thread :=
  mkThread (mNetworkName t) (thDelayBeforeCommand t) (thDelayBeforeFirstCommand t)
    (thMaxReadRetryCount t) (thMaxWriteRetryCount t) (mSlaves t) (mShouldRun t) (mMqttConnected t)
    (mModbusSet t) (mScheduler t) (mExecutor t) (mWatchdog t) (idleWaitDuration t) v.

(** The constructor and the local variables of run; the retry counts are not
    initialised before the network configuration arrives. *)
Definition newThread (networkName : string) (nowCtor nowRun : Z) : Thread :=
  mkThread networkName None None 0 0 [] true false false [] (Executor.newExecutor nowCtor)
    Watchdog.newWatchdog DURATION_MAX nowRun.

(** Clock readings while messages are handled: those of the RegisterPoll
    constructor for the object at an address, of Watchdog::init, and of
    setupInitialPoll. *)
Record MsgEnv : Type := mkMsgEnv {
  clkNew1 : ptr -> Z;
  clkNew2 : ptr -> Z;
  clkInit : Z;
  clkPoll1 : Z;
  clkPoll2 : Z
}.

(** What one iteration of the loop sees: clock readings, the file system, and the
    messages it receives, in order (none: the wait timed out). *)
Record LoopEnv : Type := mkLoopEnv {
  clkConnected : Z;
  clkSetup1 : Z;
  clkSetup2 : Z;
  clkNow : Z;
  clkAdd1 : Z;
  clkAdd2 : Z;
  envExec : ExecEnv;
  clkInspect : Z;
  envExists : string -> bool;
  clkReconnect : Z;
  clkReset : Z;
  received : list (MsgEnv * ToModbus)
}.

(** setCommandDelays; the configured delays are in milliseconds. *)
Definition setCommandDelays (everyTime onChange : option Z) (cmd : RegisterCommand)
  : RegisterCommand :=
  let cmd1 := match everyTime with
              | Some d => setDelayBeforeCommand (d * MSEC) cmd
              | None => cmd
              end in
  match onChange with
  | Some d => setDelayBeforeFirstCommand (d * MSEC) cmd1
  | None => cmd1
  end.

(** The settings of one slave on top of what a command has. *)
Definition applySlave (c : ModbusSlaveConfig) (cmd : RegisterCommand) : RegisterCommand :=
  setMaxRetryCounts (slaveMaxReadRetryCount c) (slaveMaxWriteRetryCount c) false
    (setCommandDelays (slaveDelayBeforeCommand c) (slaveDelayBeforeFirstCommand c) cmd).

(** applySlaveConfig *)
Definition applySlaveConfig (t : Thread) (slaveId : Z) (cmd : RegisterCommand) : RegisterCommand :=
  let cmd1 := setMaxRetryCounts (thMaxReadRetryCount t) (thMaxWriteRetryCount t) true
                (setCommandDelays (thDelayBeforeCommand t) (thDelayBeforeFirstCommand t) cmd) in
  match smap_find slaveId (mSlaves t) with
  | Some c => applySlave c cmd1
  | None => cmd1
  end.

(** The loop of setPollSpecification: one RegisterPoll per polled range; a poll
    group that no MQTT register uses has no refresh period and is skipped. *)
Definition addSpecPoll (env : MsgEnv) (t : Thread) (acc : list (Z * list ptr) * Store)
    (m : MsgRegisterPoll) : list (Z * list ptr) * Store :=
  let '(registerMap, s) := acc in
  if mRefreshMsec m =? PollSpec.INVALID_REFRESH then acc
  else
    let range := PollSpec.pollRange m in
    let slave := PollSpec.pollSlave m in
    let p := nextPtr s in
    let reg := newRegisterPoll slave (mRegister range) (mRegisterType range) (mCount range)
                 (mRefreshMsec m) (mPublishMode m) 0 (clkNew1 env p) (clkNew2 env p) in
    let '(p, s') := allocPoll s (setPollCmd (applySlaveConfig t slave (pollCmd reg)) reg) in
    (smap_alter [] (fun l => l ++ [p]) slave registerMap, s').

Section thread.
Context {C : Type} `{IModbusContext C}.

(** The context factory with init: a new context for a network, or a
    ModbusContextException. *)
Context (getContext : ModbusNetworkConfig -> outcome C).

(** configure *)
Definition configure (env : MsgEnv) (config : ModbusNetworkConfig) (t : Thread) (w : World C)
  : outcome (Thread * World C) :=
  let! ctx := getContext config in
  Ret (mkThread (netName config)
         (match netDelayBeforeCommand config with Some d => Some d | None => thDelayBeforeCommand t end)
         (match netDelayBeforeFirstCommand config with
          | Some d => Some d | None => thDelayBeforeFirstCommand t end)
         (to_i16 (netMaxReadRetryCount config)) (to_i16 (netMaxWriteRetryCount config))
         (mSlaves t) (mShouldRun t) (mMqttConnected t) true (mScheduler t) (mExecutor t)
         (Watchdog.init (mWatchdogConfig config) (clkInit env) (mWatchdog t))
         (idleWaitDuration t) (nextPollTimePoint t),
       Executor.putCtx ctx w).

(** setPollSpecification *)
Definition setPollSpecification (env : MsgEnv) (spec : PollSpec.MsgRegisterPollSpecification) (t : Thread)
    (w : World C) : outcome (Thread * World C) :=
  let '(registerMap, s) := foldl (addSpecPoll env t) ([], wStore w) (PollSpec.mRegisters spec) in
  let t1 := withScheduler (Scheduler.setPollSpecification registerMap) t in
  let! e := Executor.setupInitialPoll s registerMap (clkPoll1 env) (clkPoll2 env) (mExecutor t1) in
  let t2 := withExecutor e t1 in
  let wd := mWatchdog t2 in
  let t3 :=
    if mAutoWatchPeriod (Watchdog.mConfig wd) then
      let watchPeriod := to_i64 (Scheduler.getMinPollTime s (mScheduler t2) * 2) in
      if mWatchPeriod (Watchdog.mConfig wd) <? watchPeriod
      then withWatchdog (Watchdog.setWatchPeriod watchPeriod wd) t2 else t2
    else t2 in
  Ret (t3, mkWorld s (wCtx w) (wOut w)).

(** processReadRequest *)
Definition processReadRequest (env : MsgEnv) (m : ModbusMessageBase) (t : Thread) (w : World C)
  : outcome (Thread * World C) :=
  let p := nextPtr (wStore w) in
  let reg := newRegisterPoll (mSlaveId m) (mRegister (mRange m)) (mRegisterType (mRange m))
               (mCount (mRange m)) 0 ONCE (mCommandId m) (clkNew1 env p) (clkNew2 env p) in
  let '(p, s) := allocPoll (wStore w)
                   (setPollCmd (applySlaveConfig t (mSlaveId m) (pollCmd reg)) reg) in
  let! e := Executor.addReadCommand s p (mExecutor t) in
  Ret (withExecutor e t, mkWorld s (wCtx w) (wOut w)).

(** processWrite *)
Definition processWrite (m : MsgRegisterValues) (t : Thread) (w : World C)
  : outcome (Thread * World C) :=
  let slave := mSlaveId (msgBase m) in
  let cmd := setReturnMessage (Some m) (newRegisterWrite m) in
  let cmd1 := setWriteCmd (applySlaveConfig t slave (writeCmd cmd)) cmd in
  let cmd2 := match smap_find slave (mSlaves t) with
              | Some c => if decide (mWriteMode cmd1 = AUTO)
                          then setWriteMode (slaveWriteMode c) cmd1 else cmd1
              | None => cmd1
              end in
  let '(p, s) := allocWrite (wStore w) cmd2 in
  let! e := Executor.addWriteCommand s p (mExecutor t) in
  Ret (withExecutor e t, mkWorld s (wCtx w) (wOut w)).

(** updateFromSlaveConfig *)
Definition updateSlavePoll (c : ModbusSlaveConfig) (s : Store) (p : ptr) : Store :=
  setPoll s p (setPollCmd (applySlave c (pollCmd (polls s p))) (polls s p)).

Definition updateFromSlaveConfig (c : ModbusSlaveConfig) (t : Thread) (w : World C)
  : Thread * World C :=
  let t' := withSlaves (smap_set (slaveAddress c) c (mSlaves t)) t in
  let s' := match smap_find (slaveAddress c) (mScheduler t') with
            | Some regs => foldl (updateSlavePoll c) (wStore w) regs
            | None => wStore w
            end in
  (t', mkWorld s' (wCtx w) (wOut w)).

(** One round of the loop of dispatchMessages. *)
Definition dispatchMessage (env : MsgEnv) (item : ToModbus) (t : Thread) (w : World C)
  : outcome (Thread * World C) :=
  match item with
  | NetworkConfig config => configure env config t w
  | PollSpecification spec => setPollSpecification env spec t w
  | EndWork => Ret (withShouldRun false t, w)
  | WriteValues m => processWrite m t w
  | ReadRequest m => processReadRequest env m t w
  | MqttNetworkState isUp => Ret (withMqttConnected isUp t, w)
  | SlaveConfig c => Ret (updateFromSlaveConfig c t w)
  end.

(** dispatchMessages, called until the queue is empty: every message that has
    arrived is handled, in order, those after an EndWorkMessage too. *)
Fixpoint dispatchMessages (items : list (MsgEnv * ToModbus)) (t : Thread) (w : World C)
  : outcome (Thread * World C) :=
  match items with
  | [] => Ret (t, w)
  | (env, item) :: items' =>
      let! (t', w') := dispatchMessage env item t w in dispatchMessages items' t' w'
  end.

Definition maxReconnectTime : Z := 60 * SEC.

Definition sendNetworkState (t : Thread) (isUp : bool) (w : World C) : World C :=
  Executor.sendMessage (ModbusNetworkState (mNetworkName t) isUp) w.

(** The block of run for a context that is not connected. *)
Definition tryConnect (env : LoopEnv) (t : Thread) (w : World C) : outcome (Thread * World C) :=
  let t1 := if maxReconnectTime <? idleWaitDuration t then withIdleWait 0 t else t in
  let w1 := Executor.putCtx (connect (wCtx w)) w in
  if isConnected (wCtx w1) then
    let t2 := withWatchdog (Watchdog.reset (clkConnected env) (mWatchdog t1)) t1 in
    let w2 := sendNetworkState t2 true w1 in
    if negb (mInitialPoll (mExecutor t2)) then
      let! e := Executor.setupInitialPoll (wStore w2) (mScheduler t2) (clkSetup1 env)
                  (clkSetup2 env) (mExecutor t2) in
      Ret (withExecutor e t2, w2)
    else Ret (t2, w2)
  else Ret (t1, w1).

(** The watchdog and the scheduler learn about the command just executed. *)
Definition afterCommand (env : LoopEnv) (t : Thread) (w : World C) : outcome (Thread * World C) :=
  match mLastCommand (mExecutor t) with
  | None => Fault NullDereferenced
  | Some cmd =>
      let s := wStore w in
      let t1 := withWatchdog (Watchdog.inspectCommand (envExists env) (clkInspect env)
                                (executedOk s cmd) (mWatchdog t)) t in
      let s1 := match cmd with
                | PollRef p => if cmdIsRpc s cmd && executedOk s cmd
                               then Scheduler.notifyRpcRead s (mScheduler t1) (Commands.polls s p) else s
                | WriteRef _ => s
                end in
      Ret (t1, mkWorld s1 (wCtx w) (wOut w))
  end.

(** Scheduling: the due polls go to the executor, unless an initial poll is in
    progress or the next poll time has not passed. *)
Definition schedulePolls (env : LoopEnv) (t : Thread) (w : World C) : outcome Thread :=
  let now := clkNow env in
  if negb (mInitialPoll (mExecutor t)) && (nextPollTimePoint t <? now) then
    let '(regsToPoll, schedulerWaitDuration) :=
      Scheduler.getRegistersToPoll (wStore w) (mScheduler t) now in
    let t' := withNextPoll (to_i64 (now + schedulerWaitDuration)) t in
    let! e := Executor.addPollList (wStore w) regsToPoll false (clkAdd1 env) (clkAdd2 env)
                (mExecutor t') in
    Ret (withExecutor e t')
  else Ret t.

(** The block of run for a context that is connected. *)
Definition pollConnected (env : LoopEnv) (t : Thread) (w : World C) : outcome (Thread * World C) :=
  if mMqttConnected t then
    let now := clkNow env in
    let! t1 := schedulePolls env t w in
    if Executor.allDone (mExecutor t1) then
      Ret (withIdleWait (to_i64 (nextPollTimePoint t1 - now)) t1, w)
    else
      let! (d, e, w1) := Executor.executeNext (envExec env) (mExecutor t1) w in
      let t2 := withIdleWait d (withExecutor e t1) in
      if d =? 0 then afterCommand env t2 w1 else Ret (t2, w1)
  else Ret (withIdleWait DURATION_MAX t, w).

(** The part of an iteration before messages are received. *)
Definition pollPhase (env : LoopEnv) (t : Thread) (w : World C) : outcome (Thread * World C) :=
  if mModbusSet t then
    let! (t1, w1) := (if negb (isConnected (wCtx w)) then tryConnect env t w else Ret (t, w)) in
    if isConnected (wCtx w1) then pollConnected env t1 w1
    else
      let w2 := sendNetworkState t1 false w1 in
      Ret (if idleWaitDuration t1 <? maxReconnectTime
           then withIdleWait (idleWaitDuration t1 + 5 * SEC) t1 else t1, w2)
  else Ret (withIdleWait DURATION_MAX t, w).

(** The world that an exception of the poll phase leaves: only a command throws there,
    before it reports anything, so that all the phase has done is to connect and to
    report that. *)
Definition connectedWorld (t : Thread) (w : World C) : World C :=
  if mModbusSet t && negb (isConnected (wCtx w)) then
    let w1 := Executor.putCtx (connect (wCtx w)) w in
    if isConnected (wCtx w1) then sendNetworkState t true w1 else w1
  else w.

Lemma tryConnect_world env t w t1 w1 :
  mModbusSet t = true ->
  (if negb (isConnected (wCtx w)) then tryConnect env t w else Ret (t, w)) = Ret (t1, w1) -> w1 = connectedWorld t w.
Proof.
  intros M. unfold connectedWorld, tryConnect. rewrite M. destruct (isConnected (wCtx w)); cbn [negb andb]; [by intros [= _ <-]|].
  destruct (isConnected (wCtx (Executor.putCtx _ w))); [|by intros [= _ <-]].
  assert (N : forall v u, sendNetworkState (withWatchdog v (if maxReconnectTime <? idleWaitDuration t then withIdleWait 0 t else t)) true u
                          = sendNetworkState t true u) by (intros; by destruct (_ <? _)).
  destruct (negb _); [destruct (Executor.setupInitialPoll _ _ _ _ _); [cbn [obind]|done]|]; intros [= _ <-]; apply N.
Qed.

(** The part of an iteration after it: reconnect, or wait for messages. *)
Definition receivePhase (env : LoopEnv) (t : Thread) (w : World C) : outcome (Thread * World C) :=
  if mShouldRun t then
    if mModbusSet t && isConnected (wCtx w)
       && Watchdog.isReconnectRequired (clkReconnect env) (mWatchdog t) then
      let t1 := withWatchdog (Watchdog.reset (clkReset env) (mWatchdog t)) t in
      Ret (t1, sendNetworkState t1 false (Executor.putCtx (disconnect (wCtx w)) w))
    else dispatchMessages (received env) t w
  else Ret (t, w).

(** One iteration of the loop of run. *)
Definition loopStep (env : LoopEnv) (t : Thread) (w : World C) : outcome (Thread * World C) :=
  let! (t1, w1) := pollPhase env t w in receivePhase env t1 w1.

(** run: iterations while mShouldRun, then the final disconnect.  The list bounds
    the number of iterations; [None] means that the thread still runs.  An exception
    is caught by run, which logs it and ends: here it is the [Fault]. *)
Fixpoint run (envs : list LoopEnv) (t : Thread) (w : World C)
  : outcome (option (Thread * World C)) :=
  if mShouldRun t then
    match envs with
    | [] => Ret None
    | env :: envs' => let! (t', w') := loopStep env t w in run envs' t' w'
    end
  else Ret (Some (t, if mModbusSet t && isConnected (wCtx w)
                     then Executor.putCtx (disconnect (wCtx w)) w else w)).

End thread.

(** The settings of the thread and of the slave leave slave, registers and id of a command as they are. *)
Lemma applySlave_base c cmd : cmdBase (applySlave c cmd) = cmdBase cmd.
Proof.
  unfold applySlave, setCommandDelays, setMaxRetryCounts.
  by destruct (slaveDelayBeforeCommand c), (slaveDelayBeforeFirstCommand c).
Qed.

Lemma applySlaveConfig_base t slave cmd : cmdBase (applySlaveConfig t slave cmd) = cmdBase cmd.
Proof.
  unfold applySlaveConfig.
  assert (B : cmdBase (setMaxRetryCounts (thMaxReadRetryCount t) (thMaxWriteRetryCount t) true
                (setCommandDelays (thDelayBeforeCommand t) (thDelayBeforeFirstCommand t) cmd)) = cmdBase cmd)
    by (unfold setCommandDelays; by destruct (thDelayBeforeCommand t), (thDelayBeforeFirstCommand t)).
  destruct (smap_find slave (mSlaves t)); [by rewrite applySlave_base|done].
Qed.

(** * Network state messages *)

Section states.
Context {C : Type} `{ModbusContextLaws C}.
Context (getContext : ModbusNetworkConfig -> outcome C).
Implicit Types w : World C.

(** The network states among the messages to the main thread, and the last one. *)
Definition netStates (out : list FromModbus) : list bool :=
  omap (fun m => match m with ModbusNetworkState _ up => Some up | _ => None end) out.
Definition lastState (out : list FromModbus) : option bool := last (netStates out).

(** [w'] has the connection and the reported states of [w]. *)
Definition sameLink (w w' : World C) : Prop :=
  isConnected (wCtx w') = isConnected (wCtx w) /\ netStates (wOut w') = netStates (wOut w).

Lemma sameLink_refl w : sameLink w w.
Proof. done. Qed.

Lemma sameLink_trans w1 w2 w3 : sameLink w1 w2 -> sameLink w2 w3 -> sameLink w1 w3.
Proof. intros [E1 E2] [E3 E4]. split; congruence. Qed.

Lemma sameLink_putPoll p r w : sameLink w (Executor.putPoll p r w).
Proof. done. Qed.

Lemma sameLink_send m w :
  (forall n up, m <> ModbusNetworkState n up) -> sameLink w (Executor.sendMessage m w).
Proof.
  intros N. split; [done|]. unfold netStates. simpl. rewrite omap_app. simpl.
  destruct m as [| | |n up]; rewrite ?app_nil_r; try done. by destruct (N n up).
Qed.

Ltac link_send := eapply sameLink_trans; [|by apply sameLink_send].

Lemma sameLink_readError env p w : sameLink w (Executor.handleRegisterReadError env p w).
Proof.
  unfold Executor.handleRegisterReadError. destruct (isRpc _); [done|].
  destruct (_ <? mReadErrors _); [|done]. by link_send.
Qed.

Lemma sameLink_pollSucceeded env p force values w :
  sameLink w (Executor.pollSucceeded env p force values w).
Proof.
  unfold Executor.pollSucceeded. destruct (_ || _); [|done].
  eapply sameLink_trans; [|apply sameLink_putPoll]. by link_send.
Qed.

Lemma sameLink_pollRegisters env p force e w e' w' :
  Executor.pollRegisters env p force e w = Ret (e', w') -> sameLink w w'.
Proof.
  unfold Executor.pollRegisters. set (r := setReadTimes _ _ _).
  pose proof (read_keeps_connection (wCtx (Executor.putPoll p r w)) (mSlaveId (cmdBase (pollCmd r))) r) as K.
  destruct (readModbusRegisters _ _ _) as [c [values| |]]; cbn [obind fst] in K |- *; [| |done];
    intros [= <- <-]; (eapply sameLink_trans; [|apply sameLink_putPoll]).
  - eapply sameLink_trans; [|apply sameLink_pollSucceeded]. done.
  - eapply sameLink_trans; [|apply sameLink_readError]. done.
Qed.

Lemma sameLink_writeRegisters env p e w e' w' :
  Executor.writeRegisters env p e w = Ret (e', w') -> sameLink w w'.
Proof.
  unfold Executor.writeRegisters.
  pose proof (write_keeps_connection (wCtx w) (mSlaveId (cmdBase (writeCmd (writes (wStore w) p))))
    (writes (wStore w) p)) as K.
  destruct (writeModbusRegisters _ _ _) as [c [| |]]; cbn [obind fst] in K |- *; [| |done].
  - destruct (mReturnMessage _); intros [= <- <-]; [|done].
    by link_send.
  - intros [= <- <-].
    by link_send.
Qed.

Lemma sameLink_sendCommand env e w e' w' :
  Executor.sendCommand env e w = Ret (e', w') -> sameLink w w'.
Proof.
  unfold Executor.sendCommand. destruct (mWaitingCommand e) as [c|]; [|done].
  set (e0 := if decide _ then e else _). clearbody e0. destruct c as [p|p].
  - destruct (Executor.pollRegisters _ _ _ _ _) as [[e1 w1]|] eqn:E; [|done].
    apply sameLink_pollRegisters in E. cbn [obind].
    destruct (mLastReadOk _), (mReadRetryCount e1 =? 0), (isRpc _); simpl;
      intros [= _ <-]; try done.
    by link_send.
  - destruct (Executor.writeRegisters _ _ _ _) as [[e1 w1]|] eqn:E; [|done].
    apply sameLink_writeRegisters in E. cbn [obind].
    destruct (mLastWriteOk _), (mWriteRetryCount e1 =? 0); simpl;
      try destruct (0 <=? _); simpl; try done; by intros [= _ <-].
Qed.

(** Executing commands neither changes the connection nor reports a state. *)
Lemma sameLink_executeNext env e w d e' w' :
  Executor.executeNext env e w = Ret (d, e', w') -> sameLink w w'.
Proof.
  unfold Executor.executeNext. destruct (Executor.electNext e) as [[b e1]|]; [|done].
  cbn [obind]. destruct b; simpl; [|by intros [= _ _ <-]].
  destruct (mWaitingCommand e1) as [c|]; [|by intros [= _ _ <-]].
  destruct (negb _ && _).
  - destruct (mCurrentSlaveQueue e1); [by intros [= _ _ <-]|done].
  - destruct (Executor.sendCommand env e1 w) as [[e2 w2]|] eqn:E; [|done]. cbn [obind].
    intros [= _ _ <-]. by eapply sameLink_sendCommand.
Qed.

Lemma lastState_send t up w :
  lastState (wOut (sendNetworkState t up w)) = Some up.
Proof.
  unfold lastState, netStates, sendNetworkState. simpl. rewrite omap_app. simpl. apply last_snoc.
Qed.

(** While the context is connected, the main thread knows. *)
Definition linkKnown (w : World C) : Prop :=
  isConnected (wCtx w) = true -> lastState (wOut w) = Some true.

Lemma linkKnown_same w w' : sameLink w w' -> linkKnown w -> linkKnown w'.
Proof. intros [E1 E2] K. unfold linkKnown, lastState. by rewrite E1, E2. Qed.

Lemma sameLink_afterCommand env t w t' w' :
  afterCommand env t w = Ret (t', w') -> sameLink w w' /\ mShouldRun t' = mShouldRun t
    /\ mModbusSet t' = mModbusSet t.
Proof. unfold afterCommand. destruct (mLastCommand _); [|done]. by intros [= <- <-]. Qed.

Lemma sameLink_pollConnected env t w t' w' :
  pollConnected env t w = Ret (t', w') -> sameLink w w' /\ mShouldRun t' = mShouldRun t
    /\ mModbusSet t' = mModbusSet t.
Proof.
  unfold pollConnected. destruct (mMqttConnected t); [|by intros [= <- <-]].
  destruct (schedulePolls env t w) as [t1|] eqn:E1; [|done]. cbn [obind].
  assert (S1 : mShouldRun t1 = mShouldRun t /\ mModbusSet t1 = mModbusSet t).
  { unfold schedulePolls in E1. destruct (negb _ && _); [|by injection E1 as <-].
    destruct (Scheduler.getRegistersToPoll _ _ _).
    destruct (Executor.addPollList _ _ _ _ _ _); [|done]. by injection E1 as <-. }
  destruct S1 as [S1 S2]. destruct (Executor.allDone _); [by intros [= <- <-]|].
  destruct (Executor.executeNext _ _ _) as [[[d e] w1]|] eqn:E2; [|done]. cbn [obind].
  apply sameLink_executeNext in E2. destruct (d =? 0); [|by intros [= <- <-]].
  intros A. apply sameLink_afterCommand in A as (A1 & A2 & A3).
  split; [by eapply sameLink_trans|]. split; etransitivity; eauto.
Qed.

Lemma tryConnect_link env t w t' w' :
  tryConnect env t w = Ret (t', w') ->
  linkKnown w' /\ mShouldRun t' = mShouldRun t /\ mModbusSet t' = mModbusSet t
  /\ (isConnected (wCtx w') = true -> lastState (wOut w') = Some true).
Proof.
  unfold tryConnect, linkKnown. set (t1 := if _ <? _ then _ else t).
  assert (S1 : mShouldRun t1 = mShouldRun t /\ mModbusSet t1 = mModbusSet t)
    by (unfold t1; by destruct (_ <? _)). clearbody t1. destruct S1 as [S1 S2].
  destruct (isConnected (wCtx (Executor.putCtx _ w))) eqn:Cn.
  - set (t2 := withWatchdog _ t1). pose proof (lastState_send t2 true (Executor.putCtx (connect (wCtx w)) w)) as L.
    destruct (negb _).
    + destruct (Executor.setupInitialPoll _ _ _ _ _); [|done]. cbn [obind]. intros [= <- <-]. by split_and!.
    + intros [= <- <-]. by split_and!.
  - intros [= <- <-]. rewrite Cn. by split_and!.
Qed.

Lemma pollPhase_link env t w t' w' :
  pollPhase env t w = Ret (t', w') -> linkKnown w ->
  linkKnown w' /\ mShouldRun t' = mShouldRun t /\ mModbusSet t' = mModbusSet t
  /\ (mModbusSet t = true -> lastState (wOut w') = Some (isConnected (wCtx w'))).
Proof.
  unfold pollPhase. intros E K. destruct (mModbusSet t) eqn:M; [|by injection E as <- <-].
  destruct (if negb _ then _ else _) as [[t1 w1]|] eqn:E1; [|done]. cbn [obind] in E.
  assert (S : linkKnown w1 /\ mShouldRun t1 = mShouldRun t /\ mModbusSet t1 = true).
  { destruct (negb _); [|by injection E1 as <- <-].
    apply tryConnect_link in E1 as (? & ? & -> & _). done. }
  destruct S as (K1 & S1 & S2). destruct (isConnected (wCtx w1)) eqn:Cn.
  - apply sameLink_pollConnected in E as (L & -> & ->). pose proof (linkKnown_same _ _ L K1) as K'.
    split_and!; try done. intros _. destruct L as [L _]. rewrite Cn in L. rewrite L. by apply K'.
  - injection E as <- <-. pose proof (lastState_send t1 false w1) as L. split_and!.
    + unfold linkKnown. simpl. by rewrite Cn.
    + destruct (_ <? _); simpl; congruence.
    + destruct (_ <? _); simpl; congruence.
    + intros _. simpl in *. by rewrite Cn.
Qed.

Section fresh.

(** A new context is not connected. *)
Hypothesis fresh_context : forall config ctx, getContext config = Ret ctx -> isConnected ctx = false.

Lemma dispatchMessage_link env item t w t' w' :
  dispatchMessage getContext env item t w = Ret (t', w') -> linkKnown w -> linkKnown w'.
Proof.
  destruct item as [config|spec| |m|m|up|c]; simpl.
  - unfold configure. destruct (getContext config) as [ctx|] eqn:G; [|done].
    cbn [obind]. intros [= _ <-] _. unfold linkKnown. simpl. by rewrite (fresh_context _ _ G).
  - unfold setPollSpecification. destruct (foldl _ _ _).
    destruct (Executor.setupInitialPoll _ _ _ _ _); [|done]. cbn [obind]. by intros [= _ <-].
  - by intros [= _ <-].
  - unfold processWrite. simpl. destruct (Executor.addWriteCommand _ _ _); [|done].
    cbn [obind]. by intros [= _ <-].
  - unfold processReadRequest. simpl. destruct (Executor.addReadCommand _ _ _); [|done].
    cbn [obind]. by intros [= _ <-].
  - by intros [= _ <-].
  - by intros [= _ <-].
Qed.

Lemma dispatchMessages_link items t w t' w' :
  dispatchMessages getContext items t w = Ret (t', w') -> linkKnown w -> linkKnown w'.
Proof.
  revert t w. induction items as [|[env item] items IH]; intros t w; simpl; [by intros [= _ <-]|].
  destruct (dispatchMessage _ _ _ _ _) as [[t1 w1]|] eqn:E; [|done]. cbn [obind].
  intros R K. eapply IH; [done|]. by eapply dispatchMessage_link.
Qed.

Lemma receivePhase_link env t w t' w' :
  receivePhase getContext env t w = Ret (t', w') -> linkKnown w -> linkKnown w'.
Proof.
  unfold receivePhase. destruct (mShouldRun t); [|by intros [= _ <-]].
  destruct (_ && _); [|apply dispatchMessages_link]. intros [= _ <-] _.
  unfold linkKnown. simpl. by rewrite disconnect_disconnects.
Qed.

(** Iterations of the loop. *)
Fixpoint iterate (envs : list LoopEnv) (t : Thread) (w : World C) : outcome (Thread * World C) :=
  match envs with
  | [] => Ret (t, w)
  | env :: envs' => let! (t', w') := loopStep getContext env t w in iterate envs' t' w'
  end.

Lemma iterate_link envs t w t' w' :
  iterate envs t w = Ret (t', w') -> linkKnown w -> linkKnown w'.
Proof.
  revert t w. induction envs as [|env envs IH]; intros t w; simpl; [by intros [= _ <-]|].
  unfold loopStep. destruct (pollPhase env t w) as [[t1 w1]|] eqn:E1; [|done]. cbn [obind].
  destruct (receivePhase _ _ _ _) as [[t2 w2]|] eqn:E2; [|done]. cbn [obind].
  intros R K. eapply IH; [done|]. eapply receivePhase_link; [done|].
  by apply pollPhase_link in E1 as (? & _).
Qed.

(** C21: the main thread is told the truth about the network: whenever the context
    is connected, the last network state message says so, and at the end of the
    poll phase of every iteration of a configured thread the last message says
    exactly whether the context is connected. *)
Theorem network_state_reported envs env t ctx s t1 w1 t2 w2 :
  isConnected ctx = false ->
  iterate envs t (mkWorld s ctx []) = Ret (t1, w1) ->
  pollPhase env t1 w1 = Ret (t2, w2) ->
  (isConnected (wCtx w2) = true -> lastState (wOut w2) = Some true)
  /\ (mModbusSet t1 = true -> lastState (wOut w2) = Some (isConnected (wCtx w2))).
Proof.
  intros D I P. assert (K : linkKnown w1).
  { eapply iterate_link; [done|]. unfold linkKnown. simpl. by rewrite D. }
  apply pollPhase_link in P as (K2 & _ & _ & L); done.
Qed.

End fresh.

(** * Safety of the poll phase *)

(** Every delay of a scheduled poll is reasonable for the executor at time [n]. *)
Definition delaysOk (n : Z) (t : Thread) (w : World C) : Prop :=
  forall p b, inRegs (mScheduler t) (PollRef p) ->
    RequestQueues.reasonable (wStore w) (n - mLastCommandTime (mExecutor t)) b p.

(** The context refuses a write that was pending in [e]: a context in the state of
    [w], or one just connected. *)
Definition writeRefused (env : ExecEnv) (e : Executor) (w : World C) : Prop :=
  exists p, WriteRef p ∈ pending e
    /\ (contextRefuses env w (WriteRef p)
        \/ contextRefuses env (Executor.putCtx (connect (wCtx w)) w) (WriteRef p)).

Lemma inRegs_due m s n c :
  smap_wf m -> inRegs (Scheduler.getRegistersToPoll s m n).1 c -> inRegs m c.
Proof.
  intros W (k & ps & p & I & Hp & ->). rewrite Scheduler.getRegistersToPoll_eq in I by done.
  destruct (proj1 (Scheduler.dueMap_elem s n m k p W)) as (l & F & Hl & _); [by exists ps|].
  exists k, l, p. split; [by apply smap_find_elem|done].
Qed.

Lemma pollsAdded_writes regs e e' p :
  pollsAdded regs e e' -> WriteRef p ∈ pending e' -> WriteRef p ∈ pending e.
Proof.
  unfold pollsAdded. destruct (_ && _); [by intros ->|]. destruct (Executor.allDone e).
  - intros [A _] I. destruct (A _ I) as (? & ? & ? & _ & _ & [=]).
  - intros A I. apply A in I as [I|(? & ? & ? & _ & _ & [=])]. done.
Qed.

(** Adding polls keeps what the following steps need. *)
Lemma addPollList_keeps s regs init n1 n2 e :
  Inv e -> (forall p b, inRegs regs (PollRef p) -> RequestQueues.reasonable s (n2 - mLastCommandTime e) b p) ->
  exists e', Executor.addPollList s regs init n1 n2 e = Ret e' /\ Inv e'
    /\ mLastCommandTime e' = mLastCommandTime e
    /\ (forall p, WriteRef p ∈ pending e' -> WriteRef p ∈ pending e).
Proof.
  intros I R. destruct (addPollList_spec s regs init n1 n2 e I R) as (e' & E & I' & T & P).
  exists e'. split; [done|]. split; [done|]. split; [done|]. intros p. by apply (pollsAdded_writes regs).
Qed.

Lemma executeNext_step env e w :
  Inv e -> Executor.allDone e = false ->
  match Executor.executeNext env e w with
  | Ret (d, e', _) => Inv e' /\ (d = 0 -> is_Some (mLastCommand e'))
  | Fault f => f = contextFault /\ exists p, WriteRef p ∈ pending e /\ contextRefuses env w (WriteRef p)
  end.
Proof.
  intros I AD. pose proof (executeNext_result env e w I) as R.
  inversion R as [d e' AD'|e1 c d El W1 I1 P1 D Pos|e1 c e' w' El W1 P1 D I' SW L T Q|AD'|e1 c El W1 P1 CR];
    try congruence.
  - split; [done|]. lia.
  - split; [done|]. by eexists.
  - split; [done|]. destruct c as [p|p]; [by destruct (read_no_context_error _ _ _ CR)|].
    exists p. split; [|done]. rewrite <- P1. unfold pending. rewrite W1. by left.
Qed.

(** How the poll phase ends, for a thread that had [e] as its executor: with the
    invariant, or because the context refuses a pending write. *)
Definition phaseEnds (env : LoopEnv) (e : Executor) (w : World C) (r : outcome (Thread * World C)) : Prop :=
  match r with
  | Ret (t', _) => Inv (mExecutor t')
  | Fault f => f = contextFault /\ exists p, WriteRef p ∈ pending e /\ contextRefuses (envExec env) w (WriteRef p)
  end.

Lemma pollConnected_safe env t w :
  Inv (mExecutor t) -> smap_wf (mScheduler t) -> delaysOk (clkAdd2 env) t w ->
  phaseEnds env (mExecutor t) w (pollConnected env t w).
Proof.
  intros I W DO. unfold pollConnected. destruct (mMqttConnected t); [|done].
  assert (X : exists t1, schedulePolls env t w = Ret t1 /\ Inv (mExecutor t1)
                         /\ forall p, WriteRef p ∈ pending (mExecutor t1) -> WriteRef p ∈ pending (mExecutor t)).
  { unfold schedulePolls. destruct (negb _ && _); [|eauto].
    destruct (Scheduler.getRegistersToPoll _ _ _) as [regs d] eqn:G. cbn zeta.
    destruct (addPollList_keeps (wStore w) regs false (clkAdd1 env) (clkAdd2 env) (mExecutor t) I)
      as (e' & E & I' & _ & P).
    { intros p b Hp. apply DO. apply (inRegs_due _ (wStore w) (clkNow env)); [done|]. by rewrite G. }
    cbn [mExecutor withNextPoll]. rewrite E. cbn [obind]. eexists. split; [done|]. by split. }
  destruct X as (t1 & -> & I1 & P1). cbn [obind].
  destruct (Executor.allDone (mExecutor t1)) eqn:AD; [done|].
  pose proof (executeNext_step (envExec env) (mExecutor t1) w I1 AD) as S.
  destruct (Executor.executeNext _ _ _) as [[[d e'] w']|f]; cbn [obind].
  - destruct S as [I' L]. destruct (Z.eqb_spec d 0) as [->|]; [|done].
    destruct (L eq_refl) as [c Lc]. unfold afterCommand. cbn [mExecutor withIdleWait withExecutor].
    by rewrite Lc.
  - destruct S as (-> & p & Hp & R). split; [done|]. exists p. split; [by apply P1|done].
Qed.

(** C22: the poll phase of the loop, while the executor's invariant holds and the
    delays of the scheduled polls are in the range of the clock (not negative and,
    less the silence so far, below duration::max()), ends with a state in which the
    invariant holds again, or with the exception the context throws for a pending
    write that it refuses (a register type that cannot be written), which ends the
    thread, and in no other way: the last command exists whenever it is
    dereferenced, no end iterator is, no assertion fails, and the search for the
    next queue ends. *)
Theorem pollPhase_safe env t w :
  Inv (mExecutor t) -> smap_wf (mScheduler t) ->
  delaysOk (clkSetup2 env) t w -> delaysOk (clkAdd2 env) t w ->
  match pollPhase env t w with
  | Ret (t', _) => Inv (mExecutor t')
  | Fault f => f = contextFault /\ writeRefused (envExec env) (mExecutor t) w
  end.
Proof.
  intros I W D1 D2. unfold pollPhase. destruct (mModbusSet t); [|done].
  assert (Fin : forall e w0 r, phaseEnds env e w0 r ->
    (forall p, WriteRef p ∈ pending e -> WriteRef p ∈ pending (mExecutor t)) ->
    (w0 = w \/ wCtx w0 = connect (wCtx w) /\ wStore w0 = wStore w) ->
    match r with
    | Ret (t', _) => Inv (mExecutor t')
    | Fault f => f = contextFault /\ writeRefused (envExec env) (mExecutor t) w
    end).
  { intros e w0 [[t' ?]|f] Ph P S; [done|]. destruct Ph as (-> & p & Hp & R). split; [done|].
    exists p. split; [by apply P|]. destruct S as [->|[S1 S2]]; [by left|right].
    unfold contextRefuses, writeRequest in *. simpl. by rewrite <- S1, <- S2. }
  destruct (isConnected (wCtx w)) eqn:Cn; cbn [negb obind].
  { rewrite Cn. eapply Fin; [by apply pollConnected_safe|done|by left]. }
  unfold tryConnect. set (t1 := if _ <? _ then _ else t).
  assert (S1 : mExecutor t1 = mExecutor t /\ mScheduler t1 = mScheduler t)
    by (unfold t1; by destruct (_ <? _)). clearbody t1. destruct S1 as [S1 S2].
  destruct (isConnected (wCtx (Executor.putCtx _ w))) eqn:Cn'; cbn [obind]; last first.
  { rewrite Cn'. destruct (_ <? _); simpl; by rewrite S1. }
  destruct (negb _); cbn [obind].
  - simpl in Cn'. simpl. rewrite S1, S2. unfold Executor.setupInitialPoll.
    destruct (addPollList_keeps (wStore w) (mScheduler t) true (clkSetup1 env) (clkSetup2 env)
      (mExecutor t) I D1) as (e' & E & I' & T & P). rewrite E. cbn [obind]. simpl. rewrite Cn'.
    eapply Fin; [apply pollConnected_safe; simpl; [done|by rewrite S2|]|done|by right].
    intros p b Hp. simpl in *. rewrite S2 in Hp. rewrite T. by apply D2.
  - simpl in Cn'. simpl. rewrite Cn'.
    eapply Fin; [apply pollConnected_safe; simpl; rewrite ?S1, ?S2; try done| |by right].
    + intros p b Hp. simpl in *. rewrite S2 in Hp. rewrite S1. by apply D2.
    + cbn. by rewrite S1.
Qed.

(** While the MQTT broker is not connected, an iteration sends no modbus
    request (it at most connects), leaves every command object alone, and tells the
    main thread nothing but network states. *)
Theorem no_polling_without_mqtt env t w t' w' :
  mMqttConnected t = false -> pollPhase env t w = Ret (t', w') ->
  wStore w' = wStore w /\ (wCtx w' = wCtx w \/ wCtx w' = connect (wCtx w))
  /\ exists l, wOut w' = wOut w ++ l
       /\ Forall (fun m => exists n up, m = ModbusNetworkState n up) l.
Proof.
  intros M. unfold pollPhase. destruct (mModbusSet t); last first.
  { intros [= <- <-]. split_and!; eauto. exists []. by rewrite app_nil_r. }
  destruct (isConnected (wCtx w)) eqn:Cn; cbn [negb obind].
  { rewrite Cn. unfold pollConnected. rewrite M. intros [= <- <-]. split_and!; eauto.
    exists []. by rewrite app_nil_r. }
  unfold tryConnect. set (t1 := if _ <? _ then _ else t).
  assert (M1 : mMqttConnected t1 = false) by (unfold t1; by destruct (_ <? _)). clearbody t1.
  destruct (isConnected (wCtx (Executor.putCtx _ w))) eqn:Cn'; last first.
  { cbn [obind]. rewrite Cn'. intros [= <- <-]. split_and!; simpl; eauto.
    eexists. split; [done|]. repeat constructor. eauto. }
  assert (X : forall t2, mMqttConnected t2 = false ->
    pollConnected env t2 (sendNetworkState (withWatchdog (Watchdog.reset (clkConnected env) (mWatchdog t1)) t1)
      true (Executor.putCtx (connect (wCtx w)) w)) = Ret (t', w') ->
    wStore w' = wStore w /\ (wCtx w' = wCtx w \/ wCtx w' = connect (wCtx w))
    /\ exists l, wOut w' = wOut w ++ l
       /\ Forall (fun m => exists n up, m = ModbusNetworkState n up) l).
  { intros t2 M2. unfold pollConnected. rewrite M2. intros [= <- <-]. split_and!; simpl; eauto.
    eexists. split; [done|]. repeat constructor. eauto. }
  destruct (negb _).
  - destruct (Executor.setupInitialPoll _ _ _ _ _) as [e|]; [|done]. cbn [obind].
    simpl in Cn'. simpl. rewrite Cn'. by apply X.
  - cbn [obind]. simpl in Cn'. simpl. rewrite Cn'. by apply X.
Qed.

(** * Stopping *)

Lemma dispatchMessage_stopped env item t w t' w' :
  dispatchMessage getContext env item t w = Ret (t', w') ->
  mShouldRun t = false \/ item = EndWork -> mShouldRun t' = false.
Proof.
  intros E [S| ->]; [|by injection E as <- <-]. revert E. destruct item; simpl.
  - unfold configure. destruct (getContext config); [|done]. cbn [obind]. by intros [= <- _].
  - unfold setPollSpecification. destruct (foldl _ _ _).
    destruct (Executor.setupInitialPoll _ _ _ _ _); [|done]. cbn [obind]. intros [= <- _].
    destruct (mAutoWatchPeriod _); [destruct (_ <? _)|]; done.
  - by intros [= <- _].
  - unfold processWrite. simpl. destruct (Executor.addWriteCommand _ _ _); [|done].
    cbn [obind]. by intros [= <- _].
  - unfold processReadRequest. simpl. destruct (Executor.addReadCommand _ _ _); [|done].
    cbn [obind]. by intros [= <- _].
  - by intros [= <- _].
  - by intros [= <- _].
Qed.

Lemma dispatchMessages_stopped items t w t' w' :
  dispatchMessages getContext items t w = Ret (t', w') ->
  mShouldRun t = false \/ EndWork ∈ items.*2 -> mShouldRun t' = false.
Proof.
  revert t w. induction items as [|[env item] items IH]; intros t w; simpl.
  { intros [= <- _] [?|I]; [done|]. by apply elem_of_nil in I. }
  destruct (dispatchMessage _ _ _ _ _) as [[t1 w1]|] eqn:E; [|done]. cbn [obind].
  intros R P. eapply IH; [done|].
  destruct P as [P|P]; [left|apply elem_of_cons in P as [P|P]; [left|by right]];
    (eapply dispatchMessage_stopped; [done|]); auto.
Qed.

(** An EndWorkMessage ends the thread: once it is among the messages an
    iteration receives, whatever else arrives with it, the loop runs no further
    iteration and the context is left disconnected. *)
Theorem end_work_stops env rest t w t' w' :
  mModbusSet t && isConnected (wCtx w)
    && Watchdog.isReconnectRequired (clkReconnect env) (mWatchdog t) = false ->
  EndWork ∈ (received env).*2 ->
  receivePhase getContext env t w = Ret (t', w') ->
  exists w'', run getContext rest t' w' = Ret (Some (t', w'')) /\ wOut w'' = wOut w'
    /\ (mModbusSet t' = true -> isConnected (wCtx w'') = false).
Proof.
  intros R E P. assert (S : mShouldRun t' = false).
  { unfold receivePhase in P. rewrite R in P. destruct (mShouldRun t) eqn:S; [|by injection P as <- <-].
    eapply dispatchMessages_stopped; [done|]. by right. }
  exists (if mModbusSet t' && isConnected (wCtx w')
          then Executor.putCtx (disconnect (wCtx w')) w' else w').
  split; [destruct rest; simpl; by rewrite S|].
  destruct (mModbusSet t') eqn:M; simpl; [|done]. destruct (isConnected (wCtx w')) eqn:Cn; simpl.
  - split; [done|]. intros _. apply disconnect_disconnects.
  - done.
Qed.

End states.

(** * Slave settings *)

Section slaves.
Context {C : Type} `{IModbusContext C}.
Implicit Types w : World C.

Definition updPoll (c : ModbusSlaveConfig) (r : RegisterPoll) : RegisterPoll :=
  setPollCmd (applySlave c (pollCmd r)) r.

Lemma applySlave_idem c cmd : applySlave c (applySlave c cmd) = applySlave c cmd.
Proof.
  unfold applySlave, setCommandDelays, setMaxRetryCounts.
  destruct (slaveDelayBeforeCommand c), (slaveDelayBeforeFirstCommand c); simpl;
    destruct (to_i16 (slaveMaxReadRetryCount c) =? 0), (to_i16 (slaveMaxWriteRetryCount c) =? 0); done.
Qed.

Lemma updPoll_idem c r : updPoll c (updPoll c r) = updPoll c r.
Proof. unfold updPoll. destruct r. cbn. by rewrite applySlave_idem. Qed.

(** Updating the polls of a list updates each once, however often it occurs. *)
Lemma foldl_updateSlavePoll c l s p :
  polls (foldl (updateSlavePoll c) s l) p
  = if decide (p ∈ l) then updPoll c (polls s p) else polls s p.
Proof.
  revert s. induction l as [|q l IH]; intros s; cbn [foldl].
  { by rewrite decide_False by set_solver. }
  rewrite IH. unfold updateSlavePoll at 1 2. rewrite polls_setPoll. fold (updPoll c (polls s q)).
  destruct (decide (p = q)) as [->|Ne].
  - rewrite (decide_True (P := q ∈ q :: l)) by set_solver. destruct (decide (q ∈ l)); [|done].
    apply updPoll_idem.
  - destruct (decide (p ∈ l)); [by rewrite decide_True by set_solver|].
    by rewrite decide_False by set_solver.
Qed.

Section order.
Context (env : MsgEnv) (c : ModbusSlaveConfig) (t : Thread).
Let a := slaveAddress c.
Let t' := withSlaves (smap_set a c (mSlaves t)) t.
Context (Ws : smap_wf (mSlaves t)) (Fa : smap_find a (mSlaves t) = None).

Lemma applySlaveConfig_new slave cmd :
  applySlaveConfig t' slave cmd
  = if decide (slave = a) then applySlave c (applySlaveConfig t slave cmd)
    else applySlaveConfig t slave cmd.
Proof.
  unfold applySlaveConfig. simpl. rewrite smap_find_set by done.
  destruct (decide (slave = a)) as [->|]; [|done]. by rewrite Fa.
Qed.

(** The polls built without and with the slave's settings. *)
Definition ordered (acc acc' : list (Z * list ptr) * Store) : Prop :=
  acc'.1 = acc.1 /\ nextPtr acc'.2 = nextPtr acc.2 /\ smap_wf acc.1
  /\ (forall k l p, smap_find k acc.1 = Some l -> p ∈ l -> p < nextPtr acc.2)
  /\ forall p, polls acc'.2 p
       = if decide (p ∈ default [] (smap_find a acc.1)) then updPoll c (polls acc.2 p)
         else polls acc.2 p.

Lemma addSpecPoll_ordered acc acc' m :
  ordered acc acc' -> ordered (addSpecPoll env t acc m) (addSpecPoll env t' acc' m).
Proof.
  intros (E1 & E2 & W & Fr & E3). destruct acc as [rm s], acc' as [rm' s']. simpl in *. subst rm'.
  unfold addSpecPoll. destruct (mRefreshMsec m =? _); [by split_and!|].
  set (slave := PollSpec.pollSlave m). unfold allocPoll. rewrite E2.
  set (n := nextPtr s) in *. set (reg := newRegisterPoll _ _ _ _ _ _ _ _ _).
  split; [done|]. split; [done|]. split; [by apply smap_alter_wf|]. split.
  - intros k l p F Hp. simpl in *. rewrite smap_find_alter in F by done.
    destruct (decide (k = slave)) as [->|].
    + injection F as <-. apply elem_of_app in Hp as [Hp|Hp]; [|apply list_elem_of_singleton in Hp; lia].
      destruct (smap_find slave rm) as [l0|] eqn:F0; [|by apply elem_of_nil in Hp].
      specialize (Fr _ _ _ F0 Hp). lia.
    + specialize (Fr _ _ _ F Hp). lia.
  - intros p. simpl. rewrite smap_find_alter by done. rewrite applySlaveConfig_new.
    assert (Nn : n ∉ default [] (smap_find a rm)).
    { intros I. destruct (smap_find a rm) as [l0|] eqn:F0; [|by apply elem_of_nil in I].
      specialize (Fr _ _ _ F0 I). lia. }
    destruct (decide (p = n)) as [->|Ne].
    + destruct (decide (slave = a)) as [Es|Es].
      * rewrite (decide_True (P := a = slave)) by done. simpl.
        rewrite decide_True by set_solver. done.
      * rewrite (decide_False (P := a = slave)) by congruence. by rewrite decide_False.
    + rewrite E3. destruct (decide (a = slave)) as [Es|Es]; simpl; [|done].
      rewrite <- Es. destruct (decide (p ∈ default [] (smap_find a rm))).
      * by rewrite decide_True by set_solver.
      * by rewrite decide_False by set_solver.
Qed.

Lemma foldl_addSpecPoll_ordered l acc acc' :
  ordered acc acc' -> ordered (foldl (addSpecPoll env t) acc l) (foldl (addSpecPoll env t') acc' l).
Proof.
  revert acc acc'. induction l as [|m l IH]; intros acc acc' O; simpl; [done|].
  by apply IH, addSpecPoll_ordered.
Qed.

End order.

(** C25: the settings of a slave do not depend on whether its configuration
    arrives before or after the poll specification: either way the scheduler gets
    the same polls, with the same delays and retry counts. *)
Theorem slave_config_order env spec c t w t1 w1 t2 w2 :
  smap_wf (mSlaves t) -> smap_find (slaveAddress c) (mSlaves t) = None -> mScheduler t = [] ->
  setPollSpecification env spec t w = Ret (t1, w1) ->
  setPollSpecification env spec (updateFromSlaveConfig c t w).1 (updateFromSlaveConfig c t w).2
    = Ret (t2, w2) ->
  let late := updateFromSlaveConfig c t1 w1 in
  mScheduler late.1 = mScheduler t2 /\ mSlaves late.1 = mSlaves t2
  /\ forall p, polls (wStore late.2) p = polls (wStore w2) p.
Proof.
  intros Ws Fa Sc. unfold updateFromSlaveConfig at 1 2. simpl. rewrite Sc. simpl.
  unfold setPollSpecification. simpl.
  assert (O : ordered c ([], wStore w) ([], wStore w)).
  { split_and!; try done. constructor. }
  pose proof (foldl_addSpecPoll_ordered env c t Ws Fa (PollSpec.mRegisters spec) _ _ O) as (E1 & E2 & W & _ & E3).
  destruct (foldl (addSpecPoll env t) _ _) as [rm s].
  destruct (foldl (addSpecPoll env _) _ _) as [rm' s']. simpl in *. subst rm'.
  destruct (Executor.setupInitialPoll s _ _ _ _) as [e|]; [|done].
  destruct (Executor.setupInitialPoll s' _ _ _ _) as [e'|]; [|done]. cbn [obind].
  intros [= <- <-] [= <- <-]. simpl.
  split; [by destruct (mAutoWatchPeriod _); repeat destruct (_ <? _)|].
  split; [by destruct (mAutoWatchPeriod _); repeat destruct (_ <? _)|].
  intros p. rewrite E3.
  match goal with |- context [smap_find _ (mScheduler ?t)] =>
    replace (mScheduler t) with rm by (by destruct (mAutoWatchPeriod _); repeat destruct (_ <? _)) end.
  destruct (smap_find (slaveAddress c) rm) as [l|]; simpl.
  - apply foldl_updateSlavePoll.
  - done.
Qed.

End slaves.

(** * Concrete runs *)

Module ThreadScenario.

Definition offline : ModbusContext Device.state := mkContext false (fun a => a).
Definition factory (c : ModbusNetworkConfig) : outcome (ModbusContext Device.state) := Ret offline.
Definition network : ModbusNetworkConfig := defaultNetworkConfig TCPIP.
Definition msgEnv : MsgEnv := mkMsgEnv (fun _ => 0) (fun _ => 0) 0 0 0.
Definition iteration (now : Z) (msgs : list ToModbus) : LoopEnv :=
  mkLoopEnv now now now now now now (mkEnv now now now now now now) now (fun _ => true) now now
    ((fun m => (msgEnv, m)) <$> msgs).

(** Two polls of slave 1. *)
Definition specPoll (reg : Z) : MsgRegisterPoll :=
  mkMsgPoll (mkBase (mkRange reg 1 HOLDING) 1 0) 1000 ON_CHANGE.
Definition spec : PollSpec.MsgRegisterPollSpecification :=
  PollSpec.mkSpec "net" [specPoll 1; specPoll 5].
Definition slave : ModbusSlaveConfig := mkSlaveConfig 1 "s" AUTO (Some 7) None 3 0.

Definition store : Store := Scenario.store.
Definition thread : Thread := newThread "net" 0 0.
Definition world : World (ModbusContext Device.state) := mkWorld store offline [].

(** The thread after its configuration messages. *)
Definition configured : Thread * World (ModbusContext Device.state) :=
  match dispatchMessages factory
          ((fun m => (msgEnv, m)) <$> [NetworkConfig network; PollSpecification spec;
                                      MqttNetworkState true]) thread world with
  | Ret r => r
  | Fault _ => (thread, world)
  end.

End ThreadScenario.
Import ThreadScenario.

Lemma network_state_reported_witness :
  match iterate factory [iteration 1 [NetworkConfig network]] thread world with
  | Ret (t1, w1) => match pollPhase (iteration 2 []) t1 w1 with
                    | Ret (t2, w2) => lastState (wOut w2) = Some (isConnected (wCtx w2))
                    | Fault _ => False
                    end
  | Fault _ => False
  end.
Proof.
  assert (R1 : match iterate factory [iteration 1 [NetworkConfig network]] thread world with
    | Ret (t1, w1) => mModbusSet t1 && is_ret (pollPhase (iteration 2 []) t1 w1) = true
    | Fault _ => False end) by (vm_compute; reflexivity).
  destruct (iterate factory [iteration 1 [NetworkConfig network]] thread world) as [[t1 w1]|] eqn:E1;
    [|exact R1].
  apply andb_prop in R1 as [M R2].
  destruct (pollPhase (iteration 2 []) t1 w1) as [[t2 w2]|] eqn:E2; [|discriminate R2].
  apply (network_state_reported factory) with (envs := [iteration 1 [NetworkConfig network]])
    (env := iteration 2 []) (t := thread) (ctx := offline) (s := store) (t1 := t1) (w1 := w1) (t2 := t2).
  - intros config ctx [= <-]. reflexivity.
  - reflexivity.
  - exact E1.
  - exact E2.
  - exact M.
Defined.

Lemma configured_inv : Inv (mExecutor configured.1).
Proof. split; vm_compute; [repeat constructor|eauto|done|done]. Qed.

Lemma configured_delays n : 0 <= n <= 10 -> delaysOk n configured.1 configured.2.
Proof.
  intros Hn p b (k & ps & q & I & Hq & [= <-]).
  assert (E : mScheduler configured.1 = [(1, [100; 101])]) by (vm_compute; reflexivity).
  rewrite E in I. apply list_elem_of_singleton in I as [= -> ->].
  assert (T : mLastCommandTime (mExecutor configured.1) = - 100000 * HOUR) by (vm_compute; reflexivity).
  rewrite T. unfold RequestQueues.reasonable, RequestQueues.delayOf.
  assert (D : RequestQueues.silenceDelay b (pollCmd (polls (wStore configured.2) p)) = 0).
  { apply elem_of_cons in Hq as [->|Hq]; [|apply list_elem_of_singleton in Hq as ->];
      destruct b; vm_compute; reflexivity. }
  rewrite D. unfold HOUR, SEC, MSEC, DURATION_MAX, INT64_MAX. lia.
Qed.

Lemma pollPhase_safe_witness :
  exists t' w', pollPhase (iteration 2 []) configured.1 configured.2 = Ret (t', w')
    /\ Inv (mExecutor t').
Proof.
  assert (R : is_ret (pollPhase (iteration 2 []) configured.1 configured.2) = true) by (vm_compute; reflexivity).
  pose proof (pollPhase_safe (iteration 2 []) configured.1 configured.2) as P.
  destruct (pollPhase (iteration 2 []) configured.1 configured.2) as [[t' w']|]; [|discriminate R].
  exists t', w'. split; [reflexivity|]. apply P.
  - apply configured_inv.
  - vm_compute. repeat constructor.
  - apply configured_delays. cbn. lia.
  - apply configured_delays. cbn. lia.
Defined.

Lemma no_polling_without_mqtt_witness :
  match pollPhase (iteration 2 []) (withMqttConnected false configured.1) configured.2 with
  | Ret (t', w') => wStore w' = wStore configured.2
  | Fault _ => False
  end.
Proof.
  assert (R : is_ret (pollPhase (iteration 2 []) (withMqttConnected false configured.1) configured.2) = true)
    by (vm_compute; reflexivity).
  destruct (pollPhase (iteration 2 []) (withMqttConnected false configured.1) configured.2)
    as [[t' w']|] eqn:E; [|discriminate R].
  apply (no_polling_without_mqtt (iteration 2 []) (withMqttConnected false configured.1)
    configured.2 t' w'); [reflexivity|exact E].
Defined.

Lemma end_work_stops_witness :
  match receivePhase factory (iteration 2 [EndWork; MqttNetworkState false]) configured.1 configured.2 with
  | Ret (t', w') => exists w'', run factory [] t' w' = Ret (Some (t', w'')) /\ wOut w'' = wOut w'
      /\ (mModbusSet t' = true -> isConnected (wCtx w'') = false)
  | Fault _ => False
  end.
Proof.
  assert (R : is_ret (receivePhase factory (iteration 2 [EndWork; MqttNetworkState false])
    configured.1 configured.2) = true) by (vm_compute; reflexivity).
  destruct (receivePhase factory _ configured.1 configured.2) as [[t' w']|] eqn:E; [|discriminate R].
  apply (end_work_stops factory (iteration 2 [EndWork; MqttNetworkState false]) []
    configured.1 configured.2 t' w').
  - vm_compute. reflexivity.
  - vm_compute. left.
  - exact E.
Defined.

Lemma slave_config_order_witness :
  match setPollSpecification msgEnv spec thread world,
        setPollSpecification msgEnv spec (updateFromSlaveConfig slave thread world).1
          (updateFromSlaveConfig slave thread world).2 with
  | Ret (t1, w1), Ret (t2, w2) =>
      let late := updateFromSlaveConfig slave t1 w1 in
      mScheduler late.1 = mScheduler t2 /\ mSlaves late.1 = mSlaves t2
      /\ forall p, polls (wStore late.2) p = polls (wStore w2) p
  | _, _ => False
  end.
Proof.
  assert (R : is_ret (setPollSpecification msgEnv spec thread world)
    && is_ret (setPollSpecification msgEnv spec (updateFromSlaveConfig slave thread world).1
          (updateFromSlaveConfig slave thread world).2) = true) by (vm_compute; reflexivity).
  apply andb_prop in R as [R1 R2].
  destruct (setPollSpecification msgEnv spec thread world) as [[t1 w1]|] eqn:E1; [|discriminate R1].
  destruct (setPollSpecification msgEnv spec (updateFromSlaveConfig slave thread world).1
          (updateFromSlaveConfig slave thread world).2) as [[t2 w2]|] eqn:E2; [|discriminate R2].
  apply (slave_config_order msgEnv spec slave thread world t1 w1 t2 w2).
  - constructor.
  - reflexivity.
  - reflexivity.
  - exact E1.
  - exact E2.
Defined.

(** With an empty poll specification the automatic watch period doubles
    duration::max(), which does not fit into 64 bits. *)
Theorem auto_watch_period_overflows :
  Scheduler.getMinPollTime store [] * 2 > INT64_MAX.
Proof. vm_compute. done. Qed.

End ModbusThread.
