(* ===== verification/ConvTools.v ===== *)
(** Conversion helpers: libmodmqttconv/convtools.hpp, and what it and its callers
    use of the C++ standard library to read and print integers.

    The byte and word order functions come with their round trips; reading a
    number back from its decimal representation is the round trip of the text
    side. *)

From stdpp Require Import base list strings.
From Stdlib Require Import ZArith Lia Ascii String.
From S2P Require Import Prelude Commands.

#[local] Open Scope string_scope.
#[local] Open Scope Z_scope.

(** * Strings *)

Lemma app_assoc_s (a b c : string) : (a +:+ b) +:+ c = a +:+ (b +:+ c).
Proof. induction a as [|x a IH]; [done|]. change (String x ((a +:+ b) +:+ c) = String x (a +:+ (b +:+ c))). by rewrite IH. Qed.

Lemma app_nil_s (a : string) : a +:+ "" = a.
Proof. induction a as [|x a IH]; [done|]. change (String x (a +:+ "") = String x a). by rewrite IH. Qed.

(** * Reading and printing integers *)

Module Numbers.

Definition code (c : ascii) : Z := Z.of_N (N_of_ascii c).

(** The value of a digit in a base up to 36. *)
Definition digitVal (c : ascii) : option Z :=
  let n := code c in
  if (48 <=? n) && (n <=? 57) then Some (n - 48)
  else if (97 <=? n) && (n <=? 122) then Some (n - 87)
  else if (65 <=? n) && (n <=? 90) then Some (n - 55)
  else None.

Definition isDigit (base : Z) (c : ascii) : bool :=
  match digitVal c with Some d => d <? base | None => false end.

Definition isSpace (c : ascii) : bool :=
  let n := code c in (n =? 32) || ((9 <=? n) && (n <=? 13)).

Fixpoint skipSpaces (s : string) : string :=
  match s with
  | String c s' => if isSpace c then skipSpaces s' else s
  | EmptyString => s
  end.

(** The longest prefix of digits: value, and what is left. *)
Fixpoint readDigits (base : Z) (s : string) (acc : Z) : Z * string :=
  match s with
  | String c s' =>
      if isDigit base c then readDigits base s' (acc * base + default 0 (digitVal c)) else (acc, s)
  | EmptyString => (acc, s)
  end.

(** The sign of a number, and what follows it. *)
Definition readSign (s : string) : Z * string :=
  match s with
  | String "-" s' => (-1, s')
  | String "+" s' => (1, s')
  | _ => (1, s)
  end.

(** The base strtol uses for base 0, 10 or 16, and the digits. *)
Definition readPrefix (base : Z) (s : string) : Z * string :=
  match s with
  | String "0" (String x (String h s')) =>
      if ((base =? 0) || (base =? 16)) && ((code x =? 120) || (code x =? 88)) && isDigit 16 h
      then (16, String h s')
      else (if base =? 0 then 8 else base, s)
  | String "0" _ => (if base =? 0 then 8 else base, s)
  | _ => (if base =? 0 then 10 else base, s)
  end.

(** The subject sequence of strtol: an integer and the rest of the string; [None]
    when there is no digit. *)
Definition parseInt (base : Z) (s : string) : option (Z * string) :=
  let '(sign, s1) := readSign (skipSpaces s) in
  let '(base', s2) := readPrefix base s1 in
  match s2 with
  | String c _ =>
      if isDigit base' c then let '(v, rest) := readDigits base' s2 0 in Some (sign * v, rest)
      else None
  | EmptyString => None
  end.

Definition clamp (lo hi v : Z) : Z := if v <? lo then lo else if hi <? v then hi else v.

(** strtol and strtoll with 64 bit results: value and rest of the string. *)
Definition strtol (base : Z) (s : string) : Z * string :=
  match parseInt base s with
  | Some (v, rest) => (clamp INT64_MIN INT64_MAX v, rest)
  | None => (0, s)
  end.

(** std::stoi: value and number of characters read; both of its exceptions, for no
    number and for one out of range, carry the name of the function. *)
Definition stoi (base : Z) (s : string) : outcome (Z * Z) :=
  match parseInt base s with
  | None => Fault (StdException "stoi")
  | Some (v, rest) =>
      if (v <? INT_MIN) || (INT_MAX <? v) then Fault (StdException "stoi")
      else Ret (v, Z.of_nat (String.length s) - Z.of_nat (String.length rest))
  end.

Definition digitChar (d : Z) : ascii := ascii_of_N (Z.to_N (48 + d)).

Fixpoint digits (fuel : nat) (n : Z) (rest : string) : string :=
  match fuel with
  | O => rest
  | S fuel' =>
      let rest' := String (digitChar (n mod 10)) rest in
      if n <? 10 then rest' else digits fuel' (n / 10) rest'
  end.

Definition digitFuel (n : Z) : nat := S (Z.to_nat (Z.log2 n)).

(** std::to_string on an integer. *)
Definition to_string (z : Z) : string :=
  if z <? 0 then String "-" (digits (digitFuel (- z)) (- z) EmptyString)
  else digits (digitFuel z) z EmptyString.

(** * Reading back what was printed *)

Lemma digitChar_val d : 0 <= d < 10 -> digitVal (digitChar d) = Some d /\ isSpace (digitChar d) = false.
Proof.
  intros H. assert (d = 0 \/ d = 1 \/ d = 2 \/ d = 3 \/ d = 4 \/ d = 5 \/ d = 6 \/ d = 7 \/ d = 8 \/ d = 9)
    as D by lia.
  by repeat destruct D as [->|D]; [..|subst d].
Qed.

Lemma isDigit_10 d : 0 <= d < 10 -> isDigit 10 (digitChar d) = true.
Proof. intros H. unfold isDigit. rewrite (proj1 (digitChar_val d H)). apply Z.ltb_lt. lia. Qed.

Lemma readDigits_digits fuel n rest :
  0 <= n < 10 ^ Z.of_nat fuel -> (0 < fuel)%nat ->
  readDigits 10 (digits fuel n rest) 0 = readDigits 10 rest n.
Proof.
  revert n rest. induction fuel as [|fuel IH]; intros n rest H F; [lia|]. cbn [digits].
  assert (D : 0 <= n mod 10 < 10) by (apply Z.mod_pos_bound; lia).
  assert (X : forall acc, readDigits 10 (String (digitChar (n mod 10)) rest) acc
                          = readDigits 10 rest (acc * 10 + n mod 10)).
  { intros acc. cbn [readDigits]. rewrite isDigit_10 by done.
    by rewrite (proj1 (digitChar_val _ D)). }
  destruct (Z.ltb_spec n 10) as [L|L].
  - rewrite X. f_equal. rewrite Z.mod_small by lia. lia.
  - assert (E : 10 ^ Z.of_nat (S fuel) = 10 * 10 ^ Z.of_nat fuel)
      by (rewrite Nat2Z.inj_succ, Z.pow_succ_r by lia; done).
    rewrite IH.
    + rewrite X. f_equal. pose proof (Z.div_mod n 10). lia.
    + split; [apply Z.div_pos; lia|]. apply Z.div_lt_upper_bound; lia.
    + destruct fuel; [|lia]. simpl in E. lia.
Qed.

Lemma digitFuel_enough n : 0 <= n -> n < 10 ^ Z.of_nat (digitFuel n).
Proof.
  intros H. unfold digitFuel. rewrite Nat2Z.inj_succ, Z2Nat.id by apply Z.log2_nonneg.
  destruct (Z.eq_dec n 0) as [->|]; [done|].
  destruct (Z.log2_spec n) as [_ L]; [lia|].
  eapply Z.lt_le_trans; [exact L|]. apply Z.pow_le_mono_l. lia.
Qed.

(** What the digits of a number start with. *)
Lemma digits_head fuel n rest :
  0 <= n < 10 ^ Z.of_nat fuel -> (0 < fuel)%nat ->
  exists d s, digits fuel n rest = String (digitChar d) s /\ 0 <= d < 10
              /\ (d = 0 -> n = 0 /\ s = rest).
Proof.
  revert n rest. induction fuel as [|fuel IH]; intros n rest H F; [lia|]. cbn [digits].
  assert (D : 0 <= n mod 10 < 10) by (apply Z.mod_pos_bound; lia).
  destruct (Z.ltb_spec n 10) as [L|L].
  - exists (n mod 10), rest. split; [done|]. split; [done|]. rewrite Z.mod_small by lia. by intros ->.
  - assert (E : 10 ^ Z.of_nat (S fuel) = 10 * 10 ^ Z.of_nat fuel)
      by (rewrite Nat2Z.inj_succ, Z.pow_succ_r by lia; done).
    destruct (IH (n / 10) (String (digitChar (n mod 10)) rest)) as (d & s & E1 & Hd & Z).
    + split; [apply Z.div_pos; lia|]. apply Z.div_lt_upper_bound; lia.
    + destruct fuel; [|lia]. simpl in E. lia.
    + exists d, s. split; [done|]. split; [done|]. intros D0. destruct (Z D0) as [Z1 _].
      pose proof (Z.div_mod n 10). lia.
Qed.

(** A decimal number is read in base 10 whether base 0 or 10 is asked for. *)
Lemma readPrefix_digit base d s :
  base = 0 \/ base = 10 -> 0 <= d < 10 -> (d = 0 -> base = 10 \/ s = EmptyString) ->
  exists b, readPrefix base (String (digitChar d) s) = (b, String (digitChar d) s)
    /\ (b = 10 \/ (d = 0 /\ s = EmptyString /\ b = 8)).
Proof.
  intros Hb Hd Hz.
  assert (D : d = 0 \/ d = 1 \/ d = 2 \/ d = 3 \/ d = 4 \/ d = 5 \/ d = 6 \/ d = 7 \/ d = 8 \/ d = 9) by lia.
  destruct D as [->|D].
  - destruct (Hz eq_refl) as [->| ->].
    + exists 10. split; [|by left]. destruct s as [|x [|h s]]; done.
    + destruct Hb as [->| ->]; eexists; (split; [done|]); auto.
  - exists 10. split; [|by left]. destruct Hb as [->| ->];
      repeat destruct D as [->|D]; try subst d; done.
Qed.

Lemma parseInt_digits base sign n :
  base = 0 \/ base = 10 -> 0 <= n ->
  let s := digits (digitFuel n) n EmptyString in
  let '(base', s2) := readPrefix base s in
  match s2 with
  | String c _ =>
      if isDigit base' c then let '(v, rest) := readDigits base' s2 0 in Some (sign * v, rest)
      else None
  | EmptyString => None
  end = Some (sign * n, EmptyString).
Proof.
  intros Hb Hn s. pose proof (digitFuel_enough n Hn) as B.
  destruct (digits_head (digitFuel n) n EmptyString) as (d & s' & E & Hd & Z); [lia|unfold digitFuel; lia|].
  destruct (readPrefix_digit base d s' Hb Hd) as (b & R & Hb').
  { intros D0. right. by apply Z. }
  unfold s. rewrite E, R.
  destruct Hb' as [->|(-> & -> & ->)].
  - rewrite isDigit_10 by done. rewrite <- E.
    rewrite readDigits_digits by (lia || unfold digitFuel; lia). done.
  - destruct (Z eq_refl) as [-> _]. done.
Qed.

Lemma readSign_digit d s : 0 <= d < 10 -> readSign (String (digitChar d) s) = (1, String (digitChar d) s).
Proof.
  intros Hd. assert (D : d = 0 \/ d = 1 \/ d = 2 \/ d = 3 \/ d = 4 \/ d = 5 \/ d = 6 \/ d = 7 \/ d = 8 \/ d = 9) by lia.
  by repeat destruct D as [->|D]; [..|subst d].
Qed.

Lemma parseInt_to_string base z :
  base = 0 \/ base = 10 -> parseInt base (to_string z) = Some (z, EmptyString).
Proof.
  intros Hb. unfold to_string, parseInt. destruct (Z.ltb_spec z 0) as [L|L].
  - change (skipSpaces (String "-" ?s)) with (String "-" s). cbn [readSign].
    pose proof (parseInt_digits base (-1) (- z) Hb ltac:(lia)) as P. cbn zeta in P.
    destruct (readPrefix base _) as [b s2]. rewrite P. do 2 f_equal. lia.
  - pose proof (parseInt_digits base 1 z Hb ltac:(lia)) as P. cbn zeta in P.
    pose proof (digitFuel_enough z ltac:(lia)) as B.
    destruct (digits_head (digitFuel z) z EmptyString) as (d & s' & E & Hd & _);
      [lia|unfold digitFuel; lia|].
    rewrite E in *. cbn [skipSpaces]. rewrite (proj2 (digitChar_val d Hd)), readSign_digit by done.
    destruct (readPrefix base _) as [b s2]. rewrite P. do 2 f_equal. lia.
Qed.

(** The text of a number that fits into 64 bits is read back as that number. *)
Lemma strtol_to_string base z :
  base = 0 \/ base = 10 -> INT64_MIN <= z <= INT64_MAX ->
  strtol base (to_string z) = (z, EmptyString).
Proof.
  intros Hb Hz. unfold strtol. rewrite parseInt_to_string by done. unfold clamp.
  destruct (Z.ltb_spec z INT64_MIN); [lia|]. destruct (Z.ltb_spec INT64_MAX z); [lia|done].
Qed.

End Numbers.

(** * class ConverterTools *)

Module ConverterTools.

(** toInt *)
Definition toInt (arg : string) (base : Z) : outcome Z :=
  let! (val, pos) := Numbers.stoi base arg in
  if negb (pos =? Z.of_nat (String.length arg))
  then Fault (StdException (arg +:+ " has unparsable chars starting from idx="
                            +:+ Numbers.to_string pos +:+ " when converting to int"))
  else Ret val.

(** setByteOrder: the argument is converted to uint16_t. *)
Definition setByteOrder (value : Z) (swap : bool) : Z :=
  let value := to_u16 value in
  if negb swap then value
  else to_u16 (Z.lor (Z.shiftl (Z.land value 0x00ff) 8) (Z.shiftr (Z.land value 0xff00) 8)).

(** registersToInt32; [data[high]] of an empty vector is undefined behaviour, and
    the shift and the addition wrap around. *)
Definition registersToInt32 (data : list Z) (lowFirst swapBytes : bool) : outcome Z :=
  let two := (1 <? Datatypes.length data)%nat in
  let high := if lowFirst && two then 1 else 0 in
  let low := if lowFirst && two then 0 else 1 in
  let! h := ModbusRegisters.getValue data high in
  let val := setByteOrder h swapBytes in
  if two then
    let! l := ModbusRegisters.getValue data low in
    Ret (to_i32 (to_i32 (Z.shiftl val 16) + setByteOrder l swapBytes))
  else Ret val.

(** int32ToRegisters *)
Definition int32ToRegisters (val : Z) (lowFirst swapBytes : bool) (registerCount : Z) : list Z :=
  let ret := [setByteOrder val swapBytes] in
  if registerCount =? 2 then
    let v := setByteOrder (Z.shiftr val 16) swapBytes in
    if negb lowFirst then v :: ret else (ret ++ [v])%list
  else ret.

(** htons on a little or big endian host. *)
Definition htons (littleEndian : bool) (v : Z) : Z := setByteOrder v littleEndian.

(** adaptToNetworkByteOrder *)
Definition adaptToNetworkByteOrder (littleEndian : bool) (registers : list Z) : list Z :=
  htons littleEndian <$> registers.

(** swapByteOrder *)
Definition swapByteOrder (registers : list Z) : list Z :=
  (fun r => setByteOrder r true) <$> registers.

(** * Round trips *)

Lemma setByteOrder_range v b : is_u16 (setByteOrder v b).
Proof. unfold setByteOrder. destruct b; simpl; apply to_u16_range. Qed.

(** Disjoint bits: bitwise or is addition. *)
Lemma lor_add a b n : 0 <= n -> 0 <= b < 2 ^ n -> Z.lor (a * 2 ^ n) b = a * 2 ^ n + b.
Proof.
  intros Hn Hb. assert (L : Z.land (a * 2 ^ n) b = 0).
  { rewrite <- (Z.mod_small b (2 ^ n)) by done. rewrite <- Z.land_ones by done.
    rewrite (Z.land_comm b), Z.land_assoc, Z.land_ones by done.
    rewrite Z.mod_mul by (apply Z.pow_nonzero; lia). apply Z.land_0_l. }
  rewrite <- Z.lxor_lor by done. symmetry. by apply Z.add_nocarry_lxor.
Qed.

(** Swapping exchanges the two bytes. *)
Lemma setByteOrder_swap hi lo :
  0 <= hi < 256 -> 0 <= lo < 256 -> setByteOrder (hi * 256 + lo) true = lo * 256 + hi.
Proof.
  intros Hh Hl. unfold setByteOrder. cbn [negb].
  rewrite (to_u16_small (hi * 256 + lo)) by (unfold is_u16; lia).
  assert (E1 : Z.land (hi * 256 + lo) 0xff = lo).
  { change 0xff with (Z.ones 8). rewrite Z.land_ones by lia. change (2 ^ 8) with 256.
    rewrite Z.add_comm, Z.mod_add by lia. apply Z.mod_small. lia. }
  assert (E2 : Z.shiftr (Z.land (hi * 256 + lo) 0xff00) 8 = hi).
  { rewrite Z.shiftr_land. change (Z.shiftr 0xff00 8) with (Z.ones 8).
    rewrite Z.land_ones, Z.shiftr_div_pow2 by lia. change (2 ^ 8) with 256.
    rewrite Z.add_comm, Z.div_add by lia. rewrite (Z.div_small lo) by lia. apply Z.mod_small. lia. }
  rewrite E1, E2, Z.shiftl_mul_pow2 by lia.
  change 256 with (2 ^ 8). rewrite lor_add by (simpl; lia).
  apply to_u16_small. unfold is_u16. simpl. lia.
Qed.

Lemma u16_bytes v : is_u16 v -> exists hi lo, v = hi * 256 + lo /\ 0 <= hi < 256 /\ 0 <= lo < 256.
Proof.
  unfold is_u16. intros H. exists (v / 256), (v mod 256).
  pose proof (Z.div_mod v 256). pose proof (Z.mod_pos_bound v 256).
  split; [lia|]. split; [|lia]. split; [apply Z.div_pos; lia|]. apply Z.div_lt_upper_bound; lia.
Qed.

(** Swapping twice changes nothing. *)
Lemma setByteOrder_involutive v b : is_u16 v -> setByteOrder (setByteOrder v b) b = v.
Proof.
  intros H. destruct b; [|unfold setByteOrder; simpl; by rewrite !(to_u16_small v)].
  destruct (u16_bytes v H) as (hi & lo & -> & Hh & Hl). by rewrite !setByteOrder_swap.
Qed.

Lemma setByteOrder_u16 v b : setByteOrder (to_u16 v) b = setByteOrder v b.
Proof. unfold setByteOrder. by rewrite (to_u16_small (to_u16 v)) by apply to_u16_range. Qed.

(** Joining a high and a low word. *)
Definition joinWords (h l : Z) : Z := to_i32 (to_i32 (Z.shiftl h 16) + l).

Lemma joinWords_mod h l : joinWords h l = to_i32 (h * 2 ^ 16 + l).
Proof.
  unfold joinWords. rewrite Z.shiftl_mul_pow2 by lia. unfold to_i32.
  rewrite <- (to_signed_mod 32 (to_signed 32 (h * 2 ^ 16) + l)) by lia.
  rewrite Z.add_mod, to_signed_unsigned, <- Z.add_mod by lia. apply to_signed_mod. lia.
Qed.

Lemma joinWords_split v : is_i32 v -> joinWords (to_u16 (Z.shiftr v 16)) (to_u16 v) = v.
Proof.
  intros H. rewrite joinWords_mod. rewrite Z.shiftr_div_pow2 by lia. unfold to_u16.
  assert (E : ((v / 2 ^ 16) mod 2 ^ 16 * 2 ^ 16 + v mod 2 ^ 16) mod 2 ^ 32 = v mod 2 ^ 32).
  { unfold is_i32 in H. Z.div_mod_to_equations. lia. }
  unfold to_i32. rewrite <- to_signed_mod, E, to_signed_mod by lia. by apply to_signed_small.
Qed.

Lemma joinWords_words h l :
  is_u16 h -> is_u16 l ->
  to_u16 (Z.shiftr (joinWords h l) 16) = h /\ to_u16 (joinWords h l) = l.
Proof.
  unfold is_u16. intros Hh Hl. rewrite joinWords_mod, Z.shiftr_div_pow2 by lia.
  unfold to_i32, to_signed, to_u16. rewrite (Z.mod_small _ (2 ^ 32)) by lia.
  destruct (Z.ltb_spec (h * 2 ^ 16 + l) (2 ^ (32 - 1))); split; Z.div_mod_to_equations; lia.
Qed.

(** The two words of a number, as int32ToRegisters orders them, and how
    registersToInt32 reads two registers. *)
Lemma int32ToRegisters_two v lf sb :
  int32ToRegisters v lf sb 2
  = let h := setByteOrder (Z.shiftr v 16) sb in
    let l := setByteOrder v sb in
    if lf then [l; h] else [h; l].
Proof. unfold int32ToRegisters. simpl. by destruct lf. Qed.

Lemma registersToInt32_two a b lf sb :
  registersToInt32 [a; b] lf sb
  = Ret (if lf then joinWords (setByteOrder b sb) (setByteOrder a sb)
         else joinWords (setByteOrder a sb) (setByteOrder b sb)).
Proof. unfold registersToInt32. by destruct lf. Qed.

Lemma joinWords_range h l : is_i32 (joinWords h l).
Proof. apply (to_signed_range 32). lia. Qed.

Lemma int32_back v lf sb :
  is_i32 v -> registersToInt32 (int32ToRegisters v lf sb 2) lf sb = Ret v.
Proof.
  intros Hv. rewrite int32ToRegisters_two. cbn zeta.
  assert (X : forall x, setByteOrder (setByteOrder x sb) sb = to_u16 x).
  { intros x. rewrite <- (setByteOrder_u16 x). apply setByteOrder_involutive, to_u16_range. }
  destruct lf; rewrite registersToInt32_two, !X; by rewrite joinWords_split.
Qed.

Lemma registers_back a b n lf sb :
  is_u16 a -> is_u16 b -> registersToInt32 [a; b] lf sb = Ret n ->
  int32ToRegisters n lf sb 2 = [a; b].
Proof.
  intros Ha Hb. rewrite registersToInt32_two, int32ToRegisters_two. cbn zeta.
  destruct lf; intros [= <-];
    [pose proof (joinWords_words (setByteOrder b sb) (setByteOrder a sb)) as E
    |pose proof (joinWords_words (setByteOrder a sb) (setByteOrder b sb)) as E];
    destruct E as [E1 E2]; try apply setByteOrder_range;
    rewrite <- (setByteOrder_u16 (Z.shiftr _ _)), <- (setByteOrder_u16 (joinWords _ _)), E1, E2;
    by rewrite !setByteOrder_involutive.
Qed.

(** A 32 bit number survives the way into two registers and back, for every
    word and byte order; and so do any two registers the way into a number and
    back. *)
Theorem int32_registers_roundtrip v a b lowFirst swapBytes :
  is_i32 v -> is_u16 a -> is_u16 b ->
  registersToInt32 (int32ToRegisters v lowFirst swapBytes 2) lowFirst swapBytes = Ret v
  /\ (let! n := registersToInt32 [a; b] lowFirst swapBytes in
      Ret (int32ToRegisters n lowFirst swapBytes 2)) = Ret [a; b].
Proof.
  intros Hv Ha Hb. split; [by apply int32_back|].
  destruct (registersToInt32 [a; b] lowFirst swapBytes) as [n|] eqn:E.
  - cbn [obind]. f_equal. by eapply registers_back.
  - by rewrite registersToInt32_two in E.
Qed.

Lemma int32_registers_roundtrip_witness :
  registersToInt32 (int32ToRegisters (-123456789) true true 2) true true = Ret (-123456789)
  /\ (let! n := registersToInt32 [0xA1B2; 0xC3D4] true true in
      Ret (int32ToRegisters n true true 2)) = Ret [0xA1B2; 0xC3D4].
Proof.
  apply (int32_registers_roundtrip (-123456789) 0xA1B2 0xC3D4 true true);
    unfold is_i32, is_u16; lia.
Defined.

End ConverterTools.
