(* ===== verification/ConvArgs.v ===== *)
(** Converter arguments and values: libmodmqttconv/mqttvalue.hpp,
    libmodmqttconv/convargs.hpp, stdconv/argtools.hpp, and the argument parser of
    libmodmqttsrv/conv_name_parser.cpp. *)

From stdpp Require Import base gmap list strings.
From Stdlib Require Import ZArith Lia Ascii String.
From S2P Require Import Prelude Commands ConvTools.

#[local] Open Scope string_scope.
#[local] Open Scope Z_scope.

(** What the sources use of the types double and float: reading a number (value
    and rest of the string), conversion from an integer and to one (towards zero),
    the text MqttValue::format builds for a precision (-1: none), arithmetic, the
    64 bits of a double, and the 32 bits of a float read as a double and back. *)
Class CDouble (D : Type) : Type := {
  strtod : string -> D * string;
  double_of_int : Z -> D;
  double_to_int : D -> Z;
  double_format : D -> Z -> string;
  double_add : D -> D -> D;
  double_sub : D -> D -> D;
  double_mul : D -> D -> D;
  double_div : D -> D -> D;
  double_bits : D -> Z;
  float_of_bits : Z -> D;
  float_to_bits : D -> Z
}.

(** The bits of a NaN: all exponent bits set and a fraction. *)
Definition isNaNBits (b : Z) : bool :=
  (Z.land b 0x7f800000 =? 0x7f800000) && negb (Z.land b 0x7fffff =? 0).

(** IEEE 754: every integer of up to 53 bits is a double, and so is every float. *)
Class CDoubleLaws (D : Type) `{CDouble D} : Prop := {
  double_exact : forall z, - 2 ^ 53 <= z <= 2 ^ 53 -> double_to_int (double_of_int z) = z;
  float_bits_exact : forall b, is_i32 b -> isNaNBits b = false -> float_to_bits (float_of_bits b) = b
}.

Lemma double_int_exact {D} `{CDoubleLaws D} z : is_i32 z -> double_to_int (double_of_int (D := D) z) = z.
Proof. unfold is_i32. intros R. apply double_exact. lia. Qed.

(** Integers in place of doubles, to compute with. *)
Module IntDouble.
#[global] Instance ops : CDouble Z := {
  strtod s := Numbers.strtol 10 s;
  double_of_int z := z;
  double_to_int z := z;
  double_format z _ := Numbers.to_string z;
  double_add := Z.add;
  double_sub := Z.sub;
  double_mul := Z.mul;
  double_div := Z.quot;
  double_bits z := z mod 2 ^ 64;
  float_of_bits b := b;
  float_to_bits b := b
}.
#[global] Instance laws : CDoubleLaws Z.
Proof. by split. Qed.
End IntDouble.

(** ConverterTools::toDouble, with std::stod, which throws when strtod reads
    nothing. *)
Definition toDouble {D} `{CDouble D} (arg : string) : outcome D :=
  let '(val, rest) := strtod (D := D) arg in
  if bool_decide (rest = arg) then Fault (StdException "stod")
  else if negb (bool_decide (rest = EmptyString))
  then Fault (StdException (arg +:+ " has unparsable chars starting from idx="
         +:+ Numbers.to_string (Z.of_nat (String.length arg) - Z.of_nat (String.length rest))
         +:+ " when converting to double"))
  else Ret val.

(** class MqttValue: the value of each SourceType.  Binary data is a byte string;
    constructors that copy a buffer keep its size. *)
Inductive MqttValue (D : Type) : Type :=
| VInt (v : Z)
| VDouble (v : D) (precision : Z)
| VBinary (data : string)
| VInt64 (v : Z).
Arguments VInt {D} v.
Arguments VDouble {D} v precision.
Arguments VBinary {D} data.
Arguments VInt64 {D} v.

Definition NO_PRECISION : Z := -1.

(** The characters before the first NUL. *)
Fixpoint cstr (s : string) : string :=
  match s with
  | String c s' => if (Numbers.code c =? 0) then EmptyString else String c (cstr s')
  | EmptyString => EmptyString
  end.

Module MqttValue.

Section values.
Context {D : Type} `{CDouble D}.

Definition fromInt (v : Z) : MqttValue D := VInt (to_i32 v).
Definition fromInt64 (v : Z) : MqttValue D := VInt64 (to_i64 v).
Definition fromDouble (v : D) (precision : Z) : MqttValue D := VDouble v precision.
Definition fromBinary (data : string) : MqttValue D := VBinary data.
(** MqttValue(const std::string&): copied with strlen. *)
Definition fromString (s : string) : MqttValue D := VBinary (cstr s).

(** getString *)
Definition getString (m : MqttValue D) : string :=
  match m with
  | VBinary s => s
  | VInt v => Numbers.to_string v
  | VInt64 v => Numbers.to_string v
  | VDouble v precision => double_format v precision
  end.

(** getDouble *)
Definition getDouble (m : MqttValue D) : outcome D :=
  match m with
  | VBinary s =>
      let '(v, rest) := strtod (cstr s) in
      if negb (bool_decide (rest = EmptyString))
      then Fault (ConvException ("Cannot convert " +:+ s +:+ " to double")) else Ret v
  | VInt v => Ret (double_of_int v)
  | VInt64 v => Ret (double_of_int v)
  | VDouble v _ => Ret v
  end.

(** getInt: strtol with base 0, then a conversion to int32_t. *)
Definition getInt (m : MqttValue D) : outcome Z :=
  match m with
  | VBinary s =>
      let '(v, rest) := Numbers.strtol 0 (cstr s) in
      if negb (bool_decide (rest = EmptyString))
      then Fault (ConvException ("Cannot convert " +:+ s +:+ " to int")) else Ret (to_i32 v)
  | VInt v => Ret v
  | VInt64 v => Ret (to_i32 v)
  | VDouble v _ => Ret (to_i32 (double_to_int v))
  end.

(** getUInt16 *)
Definition getUInt16 (m : MqttValue D) : outcome Z :=
  let! val := getInt m in
  if (val <? 0) || (UINT16_MAX <? val)
  then Fault (ConvException ("Conversion failed, value " +:+ Numbers.to_string val +:+ " out of range"))
  else Ret val.

(** getInt64: strtoll with base 10. *)
Definition getInt64 (m : MqttValue D) : outcome Z :=
  match m with
  | VBinary s =>
      let '(v, rest) := Numbers.strtol 10 (cstr s) in
      if negb (bool_decide (rest = EmptyString))
      then Fault (ConvException ("Cannot convert " +:+ s +:+ " to int64")) else Ret v
  | VInt v => Ret v
  | VInt64 v => Ret v
  | VDouble v _ => Ret (to_i64 (double_to_int v))
  end.

(** getBinarySize *)
Definition getBinarySize (m : MqttValue D) : Z :=
  match m with
  | VBinary s => Z.of_nat (String.length s)
  | VInt _ => 4
  | VDouble _ _ => 8
  | VInt64 _ => 8
  end.

(** * Text round trips *)

Lemma cstr_digits fuel n rest : cstr (Numbers.digits fuel n rest) = Numbers.digits fuel n (cstr rest).
Proof.
  revert n rest. induction fuel as [|fuel IH]; intros n rest; cbn [Numbers.digits]; [done|].
  assert (X : cstr (String (Numbers.digitChar (n mod 10)) rest)
              = String (Numbers.digitChar (n mod 10)) (cstr rest)).
  { cbn [cstr]. pose proof (Z.mod_pos_bound n 10 ltac:(lia)) as B.
    destruct (Numbers.digitChar_val _ B) as [V _]. destruct (Z.eqb_spec (Numbers.code (Numbers.digitChar (n mod 10))) 0)
      as [E|]; [|done]. unfold Numbers.digitVal in V. rewrite E in V. done. }
  destruct (n <? 10); [done|]. by rewrite IH, X.
Qed.

Lemma cstr_to_string z : cstr (Numbers.to_string z) = Numbers.to_string z.
Proof.
  unfold Numbers.to_string. destruct (z <? 0).
  - cbn [cstr]. change (Numbers.code "-" =? 0) with false. by rewrite cstr_digits.
  - by rewrite cstr_digits.
Qed.

(** An integer value published as text and read back from a payload is the
    same integer, for 32 bit values with getInt and for 64 bit values with
    getInt64. *)
Theorem value_text_roundtrip v w :
  is_i32 v -> INT64_MIN <= w <= INT64_MAX ->
  getInt (fromString (getString (VInt v))) = Ret v
  /\ getInt64 (fromString (getString (VInt64 w))) = Ret w.
Proof.
  intros Hv Hw. unfold fromString, getString, getInt, getInt64. rewrite !cstr_to_string.
  rewrite !Numbers.strtol_to_string by (unfold is_i32, INT64_MIN, INT64_MAX in *; lia || auto).
  cbn. split; [|done]. f_equal. by apply to_signed_small.
Qed.

End values.

Lemma value_text_roundtrip_witness :
  getInt (D := Z) (fromString (getString (VInt (-2147483648)))) = Ret (-2147483648)
  /\ getInt64 (D := Z) (fromString (getString (VInt64 4294967295))) = Ret 4294967295.
Proof.
  apply (value_text_roundtrip (D := Z) (-2147483648) 4294967295);
    unfold is_i32, INT64_MIN, INT64_MAX; lia.
Defined.

(** A number beyond 32 bits is not refused but wraps around. *)
Theorem getInt_wraps : getInt (D := Z) (VBinary "4294967297") = Ret 1.
Proof. reflexivity. Qed.

End MqttValue.

(** * Converter arguments (convargs.hpp) *)

(** enum ConverterArgType *)
Inductive ConverterArgType : Type := ArgINVALID | ArgINT | ArgSTRING | ArgDOUBLE | ArgBOOL.

(** class ConverterArg *)
Record ConverterArg : Type := mkArg {
  argName : string;
  argType : ConverterArgType;
  argDefault : string
}.

Definition sPrecisionArgName : string := "precision".
Definition sSwapBytesArgName : string := "swap_bytes".
Definition sLowFirstArgName : string := "low_first".

(** ConverterArgs::add with a string, and with an int or bool default. *)
Definition argStr (name : string) (ty : ConverterArgType) (defvalue : string) : ConverterArg :=
  mkArg name ty defvalue.
Definition argInt (name : string) (ty : ConverterArgType) (defvalue : Z) : ConverterArg :=
  mkArg name ty (Numbers.to_string defvalue).

(** class ConverterArgValue *)
Record ConverterArgValue : Type := mkArgValue {
  avName : string;
  avType : ConverterArgType;
  avValue : string
}.

Module ArgValue.

Definition setValue (v : string) (a : ConverterArgValue) : ConverterArgValue :=
  mkArgValue (avName a) (avType a) v.

Definition as_str (a : ConverterArgValue) : string := avValue a.

(** [mValue.rfind("0x") == 0]: the only occurrence is at the start. *)
Fixpoint contains0x (s : string) : bool :=
  match s with
  | String "0" (String "x" _) => true
  | String _ s' => contains0x s'
  | EmptyString => false
  end.
Definition startsWith0x (s : string) : bool :=
  match s with
  | String "0" (String "x" s') => negb (contains0x (String "x" s'))
  | _ => false
  end.

(** A std::exception rethrown as a ConvException. *)
Definition rethrow {A} (prefix : string) (m : outcome A) : outcome A :=
  match m with
  | Fault (StdException what) => Fault (ConvException (prefix +:+ what))
  | Fault (ConvException what) => Fault (ConvException (prefix +:+ what))
  | _ => m
  end.

(** as_int *)
Definition as_int (a : ConverterArgValue) : outcome Z :=
  rethrow ("Invalid" +:+ avName a +:+ " int value:")
    (ConverterTools.toInt (avValue a) (if startsWith0x (avValue a) then 16 else 10)).

(** as_uint16 *)
Definition as_uint16 (a : ConverterArgValue) : outcome Z :=
  rethrow ("Invalid" +:+ avName a +:+ " uint16 value:")
    (let! ret := ConverterTools.toInt (avValue a) 16 in
     if (ret <? 0) || (0xffff <? ret) then Fault (StdException "value out of range")
     else Ret (to_u16 ret)).

(** as_bool *)
Definition as_bool (a : ConverterArgValue) : outcome bool :=
  let v := avValue a in
  if bool_decide (v = "true") || bool_decide (v = "TRUE") || bool_decide (v = "1") then Ret true
  else if bool_decide (v = "false") || bool_decide (v = "FALSE") || bool_decide (v = "0") then Ret false
  else Fault (ConvException (avName a +:+ " value cannot be converted to bool")).

(** as_double *)
Definition as_double {D} `{CDouble D} (a : ConverterArgValue) : outcome D :=
  rethrow ("Invalid" +:+ avName a +:+ " double value:") (toDouble (avValue a)).

End ArgValue.

(** class ConverterArgValues: a std::map from argument names. *)
Abbreviation ConverterArgValues := (gmap string ConverterArgValue).

Module ArgValues.

(** The constructor: every argument with its default; insert keeps the first of
    two arguments with one name. *)
Definition insertArg (m : ConverterArgValues) (a : ConverterArg) : ConverterArgValues :=
  match m !! argName a with
  | Some _ => m
  | None => <[argName a := mkArgValue (argName a) (argType a) (argDefault a)]> m
  end.
Definition new (args : list ConverterArg) : ConverterArgValues := foldl insertArg ∅ args.

(** getArgValue and operator[] *)
Definition getArgValue (m : ConverterArgValues) (name : string) : outcome ConverterArgValue :=
  match m !! name with
  | Some v => Ret v
  | None => Fault (StdException ("no value for " +:+ name))
  end.

(** setArgValue *)
Definition setArgValue (m : ConverterArgValues) (name value : string) : outcome ConverterArgValues :=
  match m !! name with
  | Some a => Ret (<[name := ArgValue.setValue value a]> m)
  | None => Fault (StdException ("Wrong parameter name " +:+ name))
  end.

Definition count (m : ConverterArgValues) : Z := Z.of_nat (size m).

Lemma insertArg_lookup m a n :
  insertArg m a !! n
  = match m !! n with
    | Some v => Some v
    | None => if decide (n = argName a) then Some (mkArgValue (argName a) (argType a) (argDefault a))
              else None
    end.
Proof.
  unfold insertArg. destruct (m !! argName a) eqn:E.
  - destruct (m !! n) eqn:En; [done|]. rewrite decide_False; [done|]. intros ->. congruence.
  - destruct (decide (n = argName a)) as [->|]; [by rewrite lookup_insert_eq, E|].
    rewrite lookup_insert_ne by done. by destruct (m !! n).
Qed.

Lemma new_keys args n : is_Some (new args !! n) <-> n ∈ argName <$> args.
Proof.
  unfold new. assert (X : forall m, is_Some (foldl insertArg m args !! n)
                             <-> is_Some (m !! n) \/ n ∈ argName <$> args).
  { induction args as [|a args IH]; intros m; csimpl.
    - split; [by left|]. intros [?|I]; [done|]. by apply elem_of_nil in I.
    - rewrite IH, insertArg_lookup, elem_of_cons. destruct (m !! n); [naive_solver|].
      destruct (decide (n = argName a)); naive_solver. }
  rewrite X, lookup_empty. split; [intros [[? ?]|]; done|by right].
Qed.

End ArgValues.

(** class DoubleRegisterArgTools (argtools.hpp): booleans, with the older words
    still accepted. *)
Module DoubleRegisterArgTools.

Definition getSwapBytes (values : ConverterArgValues) : outcome bool :=
  let! val := ArgValues.getArgValue values sSwapBytesArgName in
  match ArgValue.as_bool val with
  | Ret b => Ret b
  | Fault f =>
      let oldval := ArgValue.as_str val in
      if bool_decide (oldval = "") then Ret false
      else if bool_decide (oldval = "swap_bytes") then Ret true
      else Fault f
  end.

Definition getLowFirst (values : ConverterArgValues) : outcome bool :=
  let! val := ArgValues.getArgValue values sLowFirstArgName in
  match ArgValue.as_bool val with
  | Ret b => Ret b
  | Fault f =>
      let oldval := ArgValue.as_str val in
      if bool_decide (oldval = "") || bool_decide (oldval = "high_first") then Ret false
      else if bool_decide (oldval = "low_first") then Ret true
      else Fault f
  end.

End DoubleRegisterArgTools.

(** * The argument parser (conv_name_parser.cpp) *)

(** enum aState *)
Inductive aState : Type := SCAN | ARGVALUE | ESCAPE.

Module ArgParser.

(** class ConverterArgParser with the local variables of parse.  [pPosArgs] are
    the arguments from mCurrentPosArgIterator on; a zero delimiter is [None]. *)
Record ArgParser : Type := mkParser {
  pArgs : list ConverterArg;
  pUseArgOrder : bool;
  pState : list aState;
  pArgName : string;
  pArgValue : string;
  pPosArgs : list ConverterArg;
  pProcessed : list string;
  pDelimiter : option ascii;
  pRet : ConverterArgValues
}.

Definition parserError {A} (what : string) : outcome A :=
  Fault (StdException what).

(** The name of the argument being set: the given one, or the next positional
    one. *)
Definition takeName (p : ArgParser) : outcome (string * bool * list ConverterArg) :=
  if negb (bool_decide (pArgName p = "")) then Ret (pArgName p, false, pPosArgs p)
  else if negb (pUseArgOrder p)
  then parserError ("Cannot use positional argument after named argument "
                    +:+ Numbers.to_string (Z.of_nat (Datatypes.length (pArgs p))))
  else match pPosArgs p with
       | [] => parserError ("Too many arguments provided, need "
                            +:+ Numbers.to_string (Z.of_nat (Datatypes.length (pArgs p))))
       | a :: rest => Ret (argName a, true, rest)
       end.

(** setArgValue: an exception is thrown again as a ConvNameParserException that
    names the argument. *)
Definition settingError {A} (name what : string) : outcome A :=
  parserError ("Error setting argument " +:+ name +:+ ":" +:+ what).

Definition setArgValue (p : ArgParser) : outcome ArgParser :=
  match takeName p with
  | Fault (StdException what) => settingError (pArgName p) what
  | Fault f => Fault f
  | Ret (name, order, rest) =>
      if bool_decide (name ∈ pProcessed p) then settingError name (name +:+ " already set")
      else
        match ArgValues.setArgValue (pRet p) name (pArgValue p) with
        | Fault (StdException what) => settingError name what
        | Fault f => Fault f
        | Ret ret =>
            Ret (mkParser (pArgs p) order (pState p) "" "" rest (pProcessed p ++ [name])%list
                   (pDelimiter p) ret)
        end
  end.

Definition appendChar (c : ascii) (p : ArgParser) : ArgParser :=
  mkParser (pArgs p) (pUseArgOrder p) (pState p) (pArgName p) (pArgValue p +:+ String c EmptyString)
    (pPosArgs p) (pProcessed p) (pDelimiter p) (pRet p).
Definition pushState (st : aState) (delim : option ascii) (p : ArgParser) : ArgParser :=
  mkParser (pArgs p) (pUseArgOrder p) (st :: pState p) (pArgName p) (pArgValue p)
    (pPosArgs p) (pProcessed p) delim (pRet p).
Definition popState (delim : option ascii) (p : ArgParser) : ArgParser :=
  mkParser (pArgs p) (pUseArgOrder p) (tail (pState p)) (pArgName p) (pArgValue p)
    (pPosArgs p) (pProcessed p) delim (pRet p).
Definition nameFromValue (p : ArgParser) : ArgParser :=
  mkParser (pArgs p) (pUseArgOrder p) (pState p) (pArgValue p) ""
    (pPosArgs p) (pProcessed p) (pDelimiter p) (pRet p).

Definition argCount (p : ArgParser) (n : Z) : string := Numbers.to_string (ArgValues.count (pRet p) + n).

(** A character after a backslash stands for itself. *)
Definition escaped (c : ascii) (p : ArgParser) : ArgParser := popState (pDelimiter p) (appendChar c p).

(** One character of the loop of parse.  The top of the state stack always
    exists: [SCAN] is pushed first and never popped. *)
Definition step (p : ArgParser) (c : ascii) : outcome ArgParser :=
  match pState p with
  | [] => Fault EndDereferenced
  | ESCAPE :: _ => Ret (escaped c p)
  | ARGVALUE :: _ =>
      if bool_decide (c = "="%char) then
        match pDelimiter p with
        | None => parserError ("Name for argument " +:+ argCount p 1 +:+ " cannot be quoted")
        | Some _ => Ret (appendChar c p)
        end
      else if bool_decide (c = "034"%char) || bool_decide (c = "'"%char) then
        if bool_decide (pDelimiter p = Some c) then Ret (popState None p) else Ret (appendChar c p)
      else Ret (appendChar c p)
  | SCAN :: _ =>
      if bool_decide (c = "\"%char) then Ret (pushState ESCAPE (pDelimiter p) p)
      else if bool_decide (c = "="%char) then
        if bool_decide (pArgValue p = "") then parserError ("Missing name for argument " +:+ argCount p 1)
        else if negb (bool_decide (pArgName p = ""))
        then parserError ("Name for argument " +:+ argCount p 1 +:+ " already set to " +:+ pArgName p)
        else Ret (nameFromValue p)
      else if bool_decide (c = ","%char) then
        if bool_decide (pArgValue p = "") then parserError ("Argument " +:+ argCount p 1 +:+ " is empty")
        else setArgValue p
      else if bool_decide (c = "034"%char) || bool_decide (c = "'"%char)
      then Ret (pushState ARGVALUE (Some c) p)
      else if bool_decide (c = " "%char) then Ret p
      else Ret (appendChar c p)
  end.

Fixpoint steps (p : ArgParser) (s : string) : outcome ArgParser :=
  match s with
  | String c s' => let! p' := step p c in steps p' s'
  | EmptyString => Ret p
  end.

Definition start (args : list ConverterArg) : ArgParser :=
  mkParser args true [SCAN] "" "" args [] None (ArgValues.new args).

(** The end of parse. *)
Definition finish (p : ArgParser) : outcome ConverterArgValues :=
  match pState p with
  | [] => Fault EndDereferenced
  | SCAN :: _ =>
      if negb (bool_decide (pArgValue p = "")) then let! p' := setArgValue p in Ret (pRet p')
      else Ret (pRet p)
  | ARGVALUE :: _ => parserError ("Argument " +:+ argCount p 0 +:+ " is an unterminated string")
  | ESCAPE :: _ => parserError ("Argument " +:+ argCount p 0 +:+ " has an invalid escape sequence")
  end.

(** parse, and ConverterNameParser::parseArgs *)
Definition parseArgs (args : list ConverterArg) (argStr : string) : outcome ConverterArgValues :=
  let! p := steps (start args) argStr in finish p.

(** * Parsing what was printed *)

(** [name="value"], separated by commas. *)
Definition dquote : ascii := "034"%char.
Definition quoted (nv : string * string) : string :=
  nv.1 +:+ "=" +:+ String dquote (nv.2 +:+ String dquote "").
Fixpoint printArgs (l : list (string * string)) : string :=
  match l with
  | [] => ""
  | [x] => quoted x
  | x :: l' => quoted x +:+ "," +:+ printArgs l'
  end.

Fixpoint allChars (P : ascii -> bool) (s : string) : bool :=
  match s with String c s' => P c && allChars P s' | EmptyString => true end.

(** Characters with no meaning of their own outside of quotes. *)
Definition plain (c : ascii) : bool :=
  negb (bool_decide (c ∈ ["\"%char; "="%char; ","%char; dquote; "'"%char; " "%char])).
Definition notQuote (c : ascii) : bool := negb (bool_decide (c = dquote)).

Definition goodName (n : string) : Prop := n <> "" /\ allChars plain n = true.
Definition goodValue (v : string) : Prop := v <> "" /\ allChars notQuote v = true.

Lemma plain_ne c :
  plain c = true ->
  bool_decide (c = "\"%char) = false /\ bool_decide (c = "="%char) = false
  /\ bool_decide (c = ","%char) = false /\ bool_decide (c = "034"%char) = false
  /\ bool_decide (c = "'"%char) = false /\ bool_decide (c = " "%char) = false.
Proof.
  unfold plain, dquote. rewrite negb_true_iff, bool_decide_eq_false, !not_elem_of_cons.
  intros (? & ? & ? & ? & ? & ? & _). rewrite !bool_decide_false by done. done.
Qed.

Lemma steps_app p s1 s2 :
  steps p (s1 +:+ s2) = let! p' := steps p s1 in steps p' s2.
Proof.
  revert p. induction s1 as [|c s1 IH]; intros p; [done|].
  change (String c s1 +:+ s2) with (String c (s1 +:+ s2)). cbn [steps].
  destruct (step p c); cbn [obind]; [apply IH|done].
Qed.

Section printing.
Context (args : list ConverterArg) (pos : list ConverterArg).

Definition scanState order name value processed ret : ArgParser :=
  mkParser args order [SCAN] name value pos processed None ret.

Lemma steps_plain order n0 v processed ret s :
  allChars plain s = true ->
  steps (scanState order n0 v processed ret) s = Ret (scanState order n0 (v +:+ s) processed ret).
Proof.
  revert v. induction s as [|c s IH]; intros v P; [by rewrite app_nil_s|].
  cbn [allChars] in P. apply andb_prop in P as [P1 P2].
  apply plain_ne in P1 as (E1 & E2 & E3 & E4 & E5 & E6).
  cbn [steps]. unfold step. cbn [scanState pState]. rewrite E1, E2, E3, E4, E5, E6.
  cbn [orb obind]. change (appendChar c (scanState order n0 v processed ret))
    with (scanState order n0 (v +:+ String c "") processed ret).
  rewrite IH by done. by rewrite app_assoc_s.
Qed.

Lemma steps_quotedValue order n0 v processed ret s :
  allChars notQuote s = true ->
  steps (mkParser args order [ARGVALUE; SCAN] n0 v pos processed (Some dquote) ret) s
  = Ret (mkParser args order [ARGVALUE; SCAN] n0 (v +:+ s) pos processed (Some dquote) ret).
Proof.
  revert v. induction s as [|c s IH]; intros v P; [by rewrite app_nil_s|].
  cbn [allChars] in P. apply andb_prop in P as [P1 P2].
  unfold notQuote in P1. apply negb_true_iff, bool_decide_eq_false in P1.
  cbn [steps]. assert (S : step (mkParser args order [ARGVALUE; SCAN] n0 v pos processed (Some dquote) ret) c
    = Ret (appendChar c (mkParser args order [ARGVALUE; SCAN] n0 v pos processed (Some dquote) ret))).
  { unfold step. cbn [pState pDelimiter]. destruct (bool_decide (c = "="%char)); [done|].
    rewrite (bool_decide_false (Some dquote = Some c)) by congruence. by destruct (_ || _). }
  rewrite S. cbn [obind]. unfold appendChar. cbn. rewrite IH by done. by rewrite app_assoc_s.
Qed.

Lemma steps_quoted order processed ret n v :
  goodName n -> goodValue v ->
  steps (scanState order "" "" processed ret) (quoted (n, v)) = Ret (scanState order n v processed ret).
Proof.
  intros [N1 N2] [_ V2]. unfold quoted. cbn [fst snd].
  rewrite steps_app, steps_plain by done. cbn [obind].
  change ("" +:+ n) with n. change ("=" +:+ ?s) with (String "=" s). cbn [steps].
  assert (S : step (scanState order "" n processed ret) "=" = Ret (scanState order n "" processed ret)).
  { unfold step. cbn [scanState pState pArgValue pArgName].
    rewrite (bool_decide_false (n = "")) by done. reflexivity. }
  rewrite S. cbn [obind steps].
  change (step (scanState order n "" processed ret) dquote)
    with (Ret (mkParser args order [ARGVALUE; SCAN] n "" pos processed (Some dquote) ret)).
  cbn [obind]. rewrite steps_app, steps_quotedValue by done. done.
Qed.

Lemma setArgValue_named order processed ret n v a :
  n <> "" -> n ∉ processed -> ret !! n = Some a ->
  setArgValue (scanState order n v processed ret)
  = Ret (scanState false "" "" (processed ++ [n])%list (<[n := ArgValue.setValue v a]> ret)).
Proof.
  intros N P R. unfold setArgValue, takeName. cbn [scanState pArgName pPosArgs pProcessed pRet pArgValue].
  rewrite (bool_decide_false (n = "")) by done. cbn [negb].
  rewrite (bool_decide_false (n ∈ processed)) by done. unfold ArgValues.setArgValue. by rewrite R.
Qed.

(** The values after setting each name of [l]. *)
Definition setAll (l : list (string * string)) (m : ConverterArgValues) : ConverterArgValues :=
  foldl (fun m nv => alter (ArgValue.setValue nv.2) nv.1 m) m l.

Lemma insert_alter v n a (m : ConverterArgValues) :
  m !! n = Some a -> <[n := ArgValue.setValue v a]> m = alter (ArgValue.setValue v) n m.
Proof.
  intros E. apply map_eq. intros j. destruct (decide (j = n)) as [->|].
  - by rewrite lookup_insert_eq, lookup_alter_eq, E.
  - by rewrite lookup_insert_ne, lookup_alter_ne.
Qed.

Lemma parse_printed l order processed ret :
  Forall (fun nv => goodName nv.1 /\ goodValue nv.2 /\ is_Some (ret !! nv.1)) l ->
  NoDup (processed ++ l.*1)%list ->
  (let! p := steps (scanState order "" "" processed ret) (printArgs l) in finish p)
  = Ret (setAll l ret).
Proof.
  revert order processed ret. induction l as [|[n v] l IH]; intros order processed ret F ND; [done|].
  apply Forall_cons in F as [(Gn & Gv & [a Ha]) F]. cbn [fst snd] in *.
  assert (NP : n ∉ processed).
  { apply NoDup_app in ND as (_ & ND & _). intros I. apply (ND n I). csimpl. by left. }
  assert (N0 : n <> "") by apply Gn. pose proof (setArgValue_named order processed ret n v a N0 NP Ha) as S.
  destruct l as [|x l].
  - cbn [printArgs]. rewrite steps_quoted by done. cbn [obind]. unfold finish. cbn [scanState pState pArgValue].
    rewrite bool_decide_false by apply Gv. cbn [negb].
    change (mkParser args order [SCAN] n v pos processed None ret) with (scanState order n v processed ret).
    rewrite S. cbn. by rewrite (insert_alter _ _ _ _ Ha).
  - change (printArgs ((n, v) :: x :: l)) with (quoted (n, v) +:+ String "," (printArgs (x :: l))).
    rewrite steps_app, steps_quoted by done. cbn [obind steps].
    assert (T : step (scanState order n v processed ret) "," = setArgValue (scanState order n v processed ret)).
    { unfold step. cbn [scanState pState pArgValue].
      rewrite (bool_decide_false (v = "")) by apply Gv. reflexivity. }
    rewrite T, S. cbn [obind]. rewrite IH.
    + cbn. by rewrite (insert_alter _ _ _ _ Ha).
    + eapply Forall_impl; [exact F|]. intros [n' v'] (? & ? & L). cbn in *.
      split; [done|]. split; [done|]. destruct (decide (n' = n)) as [->|];
        [by rewrite lookup_insert_eq; eexists|by rewrite lookup_insert_ne].
    + rewrite <- (assoc_L (++)%list). done.
Qed.

End printing.

(** Arguments written as [name="value", ...] are parsed back to exactly those
    values, the others keeping their defaults: commas, equal signs, backslashes,
    spaces and apostrophes in a value are kept. *)
Lemma parseArgs_printed args l :
  Forall (fun nv => goodName nv.1 /\ goodValue nv.2 /\ nv.1 ∈ argName <$> args) l ->
  NoDup l.*1 ->
  parseArgs args (printArgs l) = Ret (setAll l (ArgValues.new args)).
Proof.
  intros F ND. unfold parseArgs, start.
  apply (parse_printed args args l true [] (ArgValues.new args)); [|done].
  eapply Forall_impl; [exact F|]. intros [n v] (? & ? & ?). split; [done|]. split; [done|].
  by apply ArgValues.new_keys.
Qed.

(** An argument given as an empty string at the end keeps its default. *)
Theorem empty_argument_ignored :
  (let! m := parseArgs [argStr "a" ArgSTRING "def"] (String dquote (String dquote "")) in
   ArgValues.getArgValue m "a") = Ret (mkArgValue "a" ArgSTRING "def").
Proof. reflexivity. Qed.

End ArgParser.
