(* ===== verification/Ieee.v ===== *)
(** Doubles: IEEE 754 binary64 and binary32 as an instance of the interface [CDouble].

    The arithmetic is that of the Standard Library's specification of floating point
    numbers, rounding to nearest, ties to even.  Reading and printing of decimal
    numbers are exact computations that are rounded once, and MqttValue::format of
    mqttvalue.hpp is written on top of them.  The laws the conversions rely on are
    theorems here. *)

From stdpp Require Import base list strings.
From Stdlib Require Import ZArith Lia Ascii String SpecFloat.
From S2P Require Import Prelude ConvTools ConvArgs.

#[local] Open Scope string_scope.
#[local] Open Scope Z_scope.

(** * Exact computations *)

Module Ieee.

Definition double : Type := spec_float.

(** The closest double to [m * 2 ^ e]. *)
Definition ofScaled (m e : Z) (negZero : bool) : double := binary_normalize 53 1024 m e negZero.
Definition ofInt (z : Z) : double := ofScaled z 0 false.

(** The closest double to the quotient of two natural numbers. *)
Definition ofQuotient (s : bool) (num den : positive) : double :=
  let '(mz, ez, lz) := SFdiv_core_binary 53 1024 (Zpos num) 0 (Zpos den) 0 in
  binary_round_aux 53 1024 s mz ez lz.

(** [m * 2 ^ e] without its fraction. *)
Definition truncScaled (m e : Z) : Z := if 0 <=? e then m * 2 ^ e else m / 2 ^ (- e).

(** The conversion to an integer, which C++ leaves undefined for infinities, NaN and
    numbers that do not fit; the processors the gateway runs on return the smallest 64 bit
    integer. *)
Definition toInt (d : double) : Z :=
  match d with
  | S754_zero _ => 0
  | S754_finite s m e =>
      let v := cond_Zopp s (truncScaled (Zpos m) e) in
      if (INT64_MIN <=? v) && (v <=? INT64_MAX) then v else INT64_MIN
  | _ => INT64_MIN
  end.

Definition isNegative (d : double) : bool :=
  match d with
  | S754_zero s | S754_infinity s | S754_finite s _ _ => s
  | S754_nan => false
  end.

(** The fraction is 0. *)
Definition isIntegral (d : double) : bool :=
  match d with
  | S754_zero _ | S754_infinity _ => true
  | S754_nan => false
  | S754_finite _ m e => if 0 <=? e then true else Zpos m mod 2 ^ (- e) =? 0
  end.

(** [num / den] rounded to the nearest integer, ties to even. *)
Definition roundQuotient (num den : Z) : Z :=
  let q := num / den in
  match 2 * (num mod den) ?= den with
  | Lt => q
  | Gt => q + 1
  | Eq => if Z.even q then q else q + 1
  end.

(** The magnitude of a number in units of [10 ^ -p]. *)
Definition toDecimal (p m e : Z) : Z :=
  if 0 <=? e then m * 2 ^ e * 10 ^ p else roundQuotient (m * 10 ^ p) (2 ^ (- e)).

Fixpoint zeros (n : nat) : string := match n with O => "" | S n' => String "0" (zeros n') end.
Definition padLeft (n : nat) (s : string) : string := zeros (n - String.length s) +:+ s.

(** A natural number in units of [10 ^ -p], with a decimal point. *)
Definition decimalText (p : nat) (v : Z) : string :=
  let text := padLeft (S p) (Numbers.to_string v) in
  match p with
  | O => text
  | _ => substring 0 (String.length text - p) text +:+ "." +:+ substring (String.length text - p) p text
  end.

(** A stream in fixed notation; a negative precision is the default. *)
Definition fixedText (precision : Z) (d : double) : string :=
  let p := if precision <? 0 then 6 else precision in
  (if isNegative d then "-" else "") +:+
  match d with
  | S754_nan => "nan"
  | S754_infinity _ => "inf"
  | S754_zero _ => decimalText (Z.to_nat p) 0
  | S754_finite _ m e => decimalText (Z.to_nat p) (toDecimal p (Zpos m) e)
  end.

(** MqttValue::format *)
Definition format (value : double) (mDoublePrecision : Z) : string :=
  if isIntegral value && (mDoublePrecision =? NO_PRECISION) then Numbers.to_string (toInt value)
  else fixedText (if mDoublePrecision =? NO_PRECISION then 6 else mDoublePrecision) value.

(** strtod, for decimal numbers with an optional fraction and exponent. *)
Definition readExponent (s : string) : Z * string :=
  match s with
  | String c s1 =>
      if (Numbers.code c =? 101) || (Numbers.code c =? 69) then
        let '(sign, s2) := Numbers.readSign s1 in
        match s2 with
        | String d _ => if Numbers.isDigit 10 d
                        then let '(v, rest) := Numbers.readDigits 10 s2 0 in (sign * v, rest) else (0, s)
        | EmptyString => (0, s)
        end
      else (0, s)
  | EmptyString => (0, s)
  end.

(** [m * 10 ^ e] *)
Definition ofDecimal (s : bool) (m e : Z) : double :=
  match m with
  | Zpos m' => if 0 <=? e then binary_round 53 1024 s (m' * Z.to_pos (10 ^ e)) 0
               else ofQuotient s m' (Z.to_pos (10 ^ (- e)))
  | _ => S754_zero s
  end.

Definition strtodDecimal (s : string) : double * string :=
  let '(sign, s1) := Numbers.readSign (Numbers.skipSpaces s) in
  let '(whole, s2) := Numbers.readDigits 10 s1 0 in
  let wholeDigits := (String.length s1 - String.length s2)%nat in
  let '(m, s3) := match s2 with
                  | String "." s' => Numbers.readDigits 10 s' whole
                  | _ => (whole, s2)
                  end in
  let fractionDigits := match s2 with
                        | String "." s' => (String.length s' - String.length s3)%nat
                        | _ => O
                        end in
  if Nat.eqb (wholeDigits + fractionDigits) 0 then (S754_zero false, s)
  else
    let '(e, rest) := readExponent s3 in
    (ofDecimal (sign <? 0) m (e - Z.of_nat fractionDigits), rest).

(** * Bits *)

(** The bits of a number with [w] bits of fraction and [2 * emax] exponents. *)
Definition encode (w emax : Z) (d : spec_float) : Z :=
  let expMax := 2 * emax - 1 in
  let sign s := if (s : bool) then 2 * emax * 2 ^ w else 0 in
  match d with
  | S754_zero s => sign s
  | S754_infinity s => sign s + expMax * 2 ^ w
  | S754_nan => expMax * 2 ^ w + 2 ^ (w - 1)
  | S754_finite s m e =>
      if Zpos m <? 2 ^ w then sign s + Zpos m
      else sign s + (e + w + emax - 1) * 2 ^ w + (Zpos m - 2 ^ w)
  end.

Definition toFloat (d : double) : spec_float :=
  match d with
  | S754_finite s m e => binary_round 24 128 s m e
  | _ => d
  end.

Definition floatToBits (d : double) : Z := to_i32 (encode 23 128 (toFloat d)).

Definition floatOfBits (b : Z) : double :=
  let u := to_u32 b in
  let s := 2 ^ 31 <=? u in
  let exponent := (u / 2 ^ 23) mod 2 ^ 8 in
  let fraction := u mod 2 ^ 23 in
  if exponent =? 255 then (if fraction =? 0 then S754_infinity s else S754_nan)
  else if exponent =? 0 then
    match fraction with
    | Zpos m => binary_round 53 1024 s m (-149)
    | _ => S754_zero s
    end
  else binary_round 53 1024 s (Z.to_pos (fraction + 2 ^ 23)) (exponent - 150).

End Ieee.

#[global] Instance ieeeOps : CDouble spec_float := {
  strtod := Ieee.strtodDecimal;
  double_of_int := Ieee.ofInt;
  double_to_int := Ieee.toInt;
  double_format := Ieee.format;
  double_add := SFadd 53 1024;
  double_sub := SFsub 53 1024;
  double_mul := SFmul 53 1024;
  double_div := SFdiv 53 1024;
  double_bits := Ieee.encode 52 1024;
  float_of_bits := Ieee.floatOfBits;
  float_to_bits := Ieee.floatToBits
}.


(** * Rounding what is representable changes nothing *)

Lemma digits2_pos_shift m n : Zpos (digits2_pos (Pos.iter xO m n)) = Zpos (digits2_pos m) + Zpos n.
Proof.
  induction n as [|n IH] using Pos.peano_ind; [cbn; lia|]. rewrite Pos.iter_succ. cbn [digits2_pos]. lia.
Qed.

Lemma pos_iter_xO m n : Zpos (Pos.iter xO m n) = Zpos m * 2 ^ Zpos n.
Proof.
  induction n as [|n IH] using Pos.peano_ind; [cbn; lia|]. rewrite Pos.iter_succ.
  rewrite Pos2Z.inj_xO, IH, Pos2Z.inj_succ, Z.pow_succ_r by lia. lia.
Qed.

Lemma digits2_log2 m : Zpos (digits2_pos m) = Z.log2 (Zpos m) + 1.
Proof.
  induction m as [m IH|m IH|]; [..|done]; cbn [digits2_pos]; rewrite Pos2Z.inj_succ, IH.
  - rewrite Pos2Z.inj_xI, Z.log2_succ_double by lia. lia.
  - rewrite Pos2Z.inj_xO, Z.log2_double by lia. lia.
Qed.

Lemma digits2_bounds m d : 2 ^ (d - 1) <= Zpos m < 2 ^ d -> 1 <= d -> Zpos (digits2_pos m) = d.
Proof. intros B D. rewrite digits2_log2. rewrite (Z.log2_unique (Zpos m) (d - 1)); [lia..|]. by replace (Z.succ (d - 1)) with d by lia. Qed.

Lemma digits2_bound m : 2 ^ (Zpos (digits2_pos m) - 1) <= Zpos m < 2 ^ Zpos (digits2_pos m).
Proof. rewrite digits2_log2. pose proof (Z.log2_spec (Zpos m) ltac:(lia)) as L. by replace (Z.log2 (Z.pos m) + 1 - 1) with (Z.log2 (Z.pos m)) by lia. Qed.

Section exact.
Variables prec emax : Z.
Hypothesis precLt : prec < emax.

(** A mantissa that is already at the exponent of its format stays. *)
Lemma round_aux_canonical s m e :
  fexp prec emax (Zpos (digits2_pos m) + e) = e -> e <= emax - prec ->
  binary_round_aux prec emax s (Zpos m) e loc_Exact = S754_finite s m e.
Proof.
  intros F B. unfold binary_round_aux, shr_fexp. cbn [Zdigits2 shr_record_of_loc]. rewrite F, Z.sub_diag. cbn.
  rewrite F, Z.sub_diag. cbn. by rewrite (proj2 (Z.leb_le _ _) B).
Qed.

(** A number with at most [prec] bits is shifted to the left. *)
Lemma round_exact s m e :
  Zpos (digits2_pos m) <= prec -> emin prec emax <= e -> Zpos (digits2_pos m) + e <= emax ->
  let ex := fexp prec emax (Zpos (digits2_pos m) + e) in
  exists m', binary_round prec emax s m e = S754_finite s m' ex /\ Zpos m' = Zpos m * 2 ^ (e - ex) /\ ex <= e
    /\ Zpos (digits2_pos m') = Zpos (digits2_pos m) + (e - ex).
Proof.
  intros Dm Em Ov ex. assert (ex <= e) as Le by (unfold ex, fexp; lia).
  assert (ex <= emax - prec) as Bd by (unfold ex, fexp, emin in *; lia).
  unfold binary_round. fold ex. unfold shl_align. destruct (ex - e) as [|k|k] eqn:E; [..|].
  - assert (ex = e) as Ex by lia. exists m. rewrite Ex, Z.sub_diag, Z.mul_1_r.
    split; [|lia]. apply round_aux_canonical; [exact Ex|lia].
  - lia.
  - exists (Pos.iter xO m k). replace (e - ex) with (Zpos k) by lia.
    split; [|split; [apply pos_iter_xO|split; [done|apply digits2_pos_shift]]].
    apply round_aux_canonical; [|done]. rewrite digits2_pos_shift.
    replace (Zpos (digits2_pos m) + Zpos k + ex) with (Zpos (digits2_pos m) + e) by lia. done.
Qed.

Lemma iter_pos_nat {A} (f : A -> A) n x : iter_pos f n x = Nat.iter (Pos.to_nat n) f x.
Proof.
  revert x. induction n as [n IH|n IH|]; intros x; cbn [iter_pos]; [..|done].
  - rewrite Pos2Nat.inj_xI, !IH, Nat.iter_succ_r, <- Nat.iter_add. f_equal. lia.
  - rewrite Pos2Nat.inj_xO, !IH, <- Nat.iter_add. f_equal. lia.
Qed.

(** Zeros are shifted out. *)
Lemma shr_zeros m n :
  Nat.iter n shr_1 (Build_shr_record (Zpos m * 2 ^ Z.of_nat n) false false) = Build_shr_record (Zpos m) false false.
Proof.
  induction n as [|n IH]; [cbn; by rewrite Z.mul_1_r|]. rewrite Nat.iter_succ_r.
  replace (shr_1 (Build_shr_record (Z.pos m * 2 ^ Z.of_nat (S n)) false false))
    with (Build_shr_record (Z.pos m * 2 ^ Z.of_nat n) false false); [exact IH|].
  rewrite Nat2Z.inj_succ, Z.pow_succ_r by lia.
  assert (0 < Zpos m * 2 ^ Z.of_nat n) as P by (apply Z.mul_pos_pos; [lia|apply Z.pow_pos_nonneg; lia]).
  replace (Z.pos m * (2 * 2 ^ Z.of_nat n)) with (2 * (Z.pos m * 2 ^ Z.of_nat n)) by lia.
  by destruct (Z.pos m * 2 ^ Z.of_nat n).
Qed.

(** A number whose surplus bits are zeros is shifted to the right. *)
Lemma round_narrow s m e m2 k :
  0 <= k -> Zpos m2 = Zpos m * 2 ^ k -> Zpos (digits2_pos m2) = Zpos (digits2_pos m) + k ->
  fexp prec emax (Zpos (digits2_pos m) + e) = e -> e <= emax - prec ->
  binary_round prec emax s m2 (e - k) = S754_finite s m e.
Proof.
  intros Hk E D F B. unfold binary_round.
  replace (Zpos (digits2_pos m2) + (e - k)) with (Zpos (digits2_pos m) + e) by lia. rewrite F.
  unfold shl_align. replace (e - (e - k)) with k by lia. destruct k as [|k|k]; [..|lia].
  - rewrite Z.sub_0_r. assert (m2 = m) as -> by lia. by apply round_aux_canonical.
  - unfold binary_round_aux, shr_fexp. cbn [Zdigits2 shr_record_of_loc].
    replace (Zpos (digits2_pos m2) + (e - Zpos k)) with (Zpos (digits2_pos m) + e) by lia. rewrite F.
    replace (e - (e - Zpos k)) with (Zpos k) by lia. cbn [shr]. rewrite iter_pos_nat, E.
    pose proof (shr_zeros m (Pos.to_nat k)) as Z. rewrite positive_nat_Z in Z. rewrite Z.
    replace (e - Zpos k + Zpos k) with e by lia. cbn. rewrite F, Z.sub_diag. cbn. by rewrite (proj2 (Z.leb_le _ _) B).
Qed.

End exact.

(** * The laws *)

Lemma trunc_shifted m k : 0 <= k -> Ieee.truncScaled (m * 2 ^ k) (- k) = m.
Proof.
  intros Hk. unfold Ieee.truncScaled. destruct (Z.leb_spec 0 (- k)).
  - replace k with 0 by lia. cbn. lia.
  - rewrite Z.opp_involutive. apply Z.div_mul, Z.pow_nonzero; lia.
Qed.

(** Integers of up to 53 bits are doubles. *)
Lemma ofInt_exact z : - 2 ^ 53 <= z <= 2 ^ 53 -> Ieee.toInt (Ieee.ofInt z) = z.
Proof.
  intros R. destruct (decide (Z.abs z = 2 ^ 53)) as [E|N].
  { assert (z = 2 ^ 53 \/ z = - 2 ^ 53) as [-> | ->] by lia; vm_compute; reflexivity. }
  assert (forall s m, Zpos m < 2 ^ 53 -> Ieee.toInt (binary_round 53 1024 s m 0) = cond_Zopp s (Zpos m)) as G.
  { intros s m Lt. pose proof (digits2_bound m) as B.
    assert (Zpos (digits2_pos m) <= 53) as D.
    { apply Z.nlt_ge. intros C. pose proof (Z.pow_le_mono_r 2 53 (Zpos (digits2_pos m) - 1)). lia. }
    destruct (round_exact 53 1024 ltac:(lia) s m 0 D) as (m' & -> & Em & Le & _); [unfold emin; lia|lia|].
    set (ex := fexp 53 1024 (Z.pos (digits2_pos m) + 0)) in *. cbn [Ieee.toInt]. rewrite Em.
    assert (Ieee.truncScaled (Z.pos m * 2 ^ (0 - ex)) ex = Z.pos m) as ->.
    { rewrite <- (trunc_shifted (Z.pos m) (0 - ex)) at 2 by lia. f_equal. lia. }
    unfold INT64_MIN, INT64_MAX. destruct s; cbn [cond_Zopp];
      rewrite (proj2 (Z.leb_le _ _)), (proj2 (Z.leb_le _ _)) by lia; done. }
  unfold Ieee.ofInt, Ieee.ofScaled, binary_normalize. destruct z as [|m|m]; [done|..]; rewrite G by lia; done.
Qed.

(** A float widened to a double and narrowed again is itself. *)
Lemma toFloat_widened s m e :
  fexp 24 128 (Zpos (digits2_pos m) + e) = e -> e <= 104 -> Zpos (digits2_pos m) <= 24 ->
  Ieee.toFloat (binary_round 53 1024 s m e) = S754_finite s m e.
Proof.
  intros F B D. assert (-149 <= e) as Lo by (unfold fexp, emin in F; lia).
  destruct (round_exact 53 1024 ltac:(lia) s m e) as (m' & -> & Em & Le & Dm); [lia|unfold emin; lia|lia|].
  set (ex := fexp 53 1024 (Z.pos (digits2_pos m) + e)) in *. cbn [Ieee.toFloat].
  replace ex with (e - (e - ex)) by lia. apply round_narrow; lia || done.
Qed.

(** The fields of a float. *)
Lemma float_fields u :
  0 <= u < 2 ^ 32 ->
  let s := if 2 ^ 31 <=? u then 2 * 128 * 2 ^ 23 else 0 in
  u = s + (u / 2 ^ 23) mod 2 ^ 8 * 2 ^ 23 + u mod 2 ^ 23
  /\ 0 <= (u / 2 ^ 23) mod 2 ^ 8 < 256 /\ 0 <= u mod 2 ^ 23 < 2 ^ 23.
Proof.
  intros R s. pose proof (Z.mod_pos_bound u (2 ^ 23) ltac:(lia)) as F. pose proof (Z.mod_pos_bound (u / 2 ^ 23) (2 ^ 8) ltac:(lia)) as E.
  split; [|lia]. pose proof (Z.div_mod u (2 ^ 23) ltac:(lia)) as D1. pose proof (Z.div_mod (u / 2 ^ 23) (2 ^ 8) ltac:(lia)) as D2.
  rewrite Z.div_div in D2 by lia. change (2 ^ 23 * 2 ^ 8) with (2 ^ 31) in D2.
  assert (u / 2 ^ 31 = if 2 ^ 31 <=? u then 1 else 0) as Q.
  { destruct (Z.leb_spec (2 ^ 31) u); [symmetry; apply Z.div_unique with (u - 2 ^ 31); lia|apply Z.div_small; lia]. }
  rewrite Q in D2. unfold s. destruct (2 ^ 31 <=? u); lia.
Qed.

Lemma isNaNBits_fields b :
  isNaNBits b = ((to_u32 b / 2 ^ 23) mod 2 ^ 8 =? 255) && negb (to_u32 b mod 2 ^ 23 =? 0).
Proof.
  unfold isNaNBits. f_equal; [|f_equal].
  - change 2139095040 with (Z.shiftl (Z.ones 8) 23).
    replace (Z.land b (Z.shiftl (Z.ones 8) 23)) with (Z.shiftl (Z.land (Z.shiftr b 23) (Z.ones 8)) 23).
    2: { rewrite Z.shiftl_land. apply Z.bits_inj'. intros n Hn. rewrite !Z.land_spec.
         destruct (Z.ltb_spec n 23).
         - rewrite !(Z.shiftl_spec_low _ _ n) by lia. by rewrite !andb_false_r.
         - rewrite !Z.shiftl_spec, Z.shiftr_spec by lia. by replace (n - 23 + 23) with n by lia. }
    rewrite Z.land_ones, Z.shiftr_div_pow2, !Z.shiftl_mul_pow2 by lia. change (Z.ones 8) with 255.
    replace ((to_u32 b / 2 ^ 23) mod 2 ^ 8) with ((b / 2 ^ 23) mod 2 ^ 8).
    + apply eq_true_iff_eq. rewrite !Z.eqb_eq. lia.
    + unfold to_u32. pose proof (Z.div_mod b (2 ^ 32) ltac:(lia)) as D. rewrite D at 1.
      replace (2 ^ 32 * (b / 2 ^ 32) + b mod 2 ^ 32) with (b mod 2 ^ 32 + (2 ^ 9 * (b / 2 ^ 32)) * 2 ^ 23) by lia.
      rewrite Z.div_add by lia. replace (2 ^ 9 * (b / 2 ^ 32)) with ((2 * (b / 2 ^ 32)) * 2 ^ 8) by lia. by rewrite Z.mod_add by lia.
  - change 8388607 with (Z.ones 23). rewrite Z.land_ones by lia. unfold to_u32.
    rewrite <- Znumtheory.Zmod_div_mod; [done|lia..|]. exists (2 ^ 9). lia.
Qed.

Lemma floatBits_exact b : is_i32 b -> isNaNBits b = false -> Ieee.floatToBits (Ieee.floatOfBits b) = b.
Proof.
  intros R N. rewrite isNaNBits_fields in N. unfold Ieee.floatToBits, Ieee.floatOfBits.
  assert (0 <= to_u32 b < 2 ^ 32) as U by (apply Z.mod_pos_bound; lia).
  enough (Ieee.encode 23 128 (Ieee.toFloat (Ieee.floatOfBits b)) = to_u32 b) as E.
  { unfold Ieee.floatOfBits in E. rewrite E. unfold to_u32, to_i32. rewrite to_signed_mod by lia. by apply to_signed_small. }
  destruct (float_fields _ U) as (Eu & Ex & Fr). unfold Ieee.floatOfBits. set (u := to_u32 b) in *.
  set (ex := (u / 2 ^ 23) mod 2 ^ 8) in *. set (fr := u mod 2 ^ 23) in *. set (s := 2 ^ 31 <=? u) in *.
  destruct (Z.eqb_spec ex 255) as [E255|N255].
  { destruct (Z.eqb_spec fr 0) as [F0|]; [|done]. rewrite E255, F0 in Eu. cbn [Ieee.toFloat Ieee.encode]. rewrite Eu at 1. destruct s; lia. }
  destruct (Z.eqb_spec ex 0) as [E0|N0].
  - destruct fr as [|m|m] eqn:Ef; [cbn [Ieee.toFloat Ieee.encode]; rewrite Eu; destruct s; lia| |lia].
    assert (Zpos (digits2_pos m) <= 23) as D.
    { apply Z.nlt_ge. intros C. pose proof (Z.pow_le_mono_r 2 23 (Zpos (digits2_pos m) - 1)). pose proof (digits2_bound m). lia. }
    rewrite toFloat_widened by (unfold fexp, emin; lia). cbn [Ieee.encode].
    rewrite (proj2 (Z.ltb_lt _ _)) by lia. rewrite Eu. destruct s; lia.
  - set (m := Z.to_pos (fr + 2 ^ 23)). assert (Zpos m = fr + 2 ^ 23) as Em by (unfold m; lia).
    assert (Zpos (digits2_pos m) = 24) as D by (apply digits2_bounds; lia).
    rewrite toFloat_widened by (unfold fexp, emin; lia). cbn [Ieee.encode].
    rewrite (proj2 (Z.ltb_ge _ _)) by lia. rewrite Em, Eu. destruct s; lia.
Qed.

(** Doubles keep the promises the conversions rely on. *)
#[global] Instance ieeeLaws : CDoubleLaws spec_float.
Proof. split; [exact ofInt_exact|exact floatBits_exact]. Qed.

Lemma roundQuotient_nearest num den :
  0 < den -> 2 * Z.abs (num - Ieee.roundQuotient num den * den) <= den.
Proof.
  intros Hd. unfold Ieee.roundQuotient. pose proof (Z.div_mod num den ltac:(lia)). pose proof (Z.mod_pos_bound num den Hd).
  destruct (Z.compare_spec (2 * (num mod den)) den); [destruct (Z.even (num / den))|..]; nia.
Qed.

(** What is published with [p] digits after the point is the closest number of so many
    digits: the decimal number [v / 10 ^ p] differs from [m * 2 ^ e] by at most half of
    the last digit, and not at all from a number without a fraction. *)
Theorem published_digits_nearest p m e :
  0 <= p ->
  if 0 <=? e then Ieee.toDecimal p m e = m * 2 ^ e * 10 ^ p
  else 2 * Z.abs (m * 10 ^ p - Ieee.toDecimal p m e * 2 ^ (- e)) <= 2 ^ (- e).
Proof.
  intros Hp. unfold Ieee.toDecimal. destruct (Z.leb_spec 0 e); [done|].
  apply roundQuotient_nearest, Z.pow_pos_nonneg; lia.
Qed.

(** Numbers as they are read and published. *)
Example ieee_texts :
  map (fun s => Ieee.format (strtod s).1 NO_PRECISION) ["0.1"; "-5"; "2e3"; "1e-7"; "33.3333333"]
    = ["0.100000"; "-5"; "2000"; "0.000000"; "33.333333"]
  /\ map (fun s => Ieee.format (strtod s).1 2) ["0.125"; "0.375"; "-1.005"; "99.999"] = ["0.12"; "0.38"; "-1.00"; "100.00"]
  /\ float_to_bits (double_div (double_of_int (D := spec_float) 10) (double_of_int 3)) = 0x40555555.
Proof. vm_compute. done. Qed.
