(* ===== verification/StdConv.v ===== *)
(** The standard converters: stdconv/*.hpp and stdconv/plugin.cpp, except map, which
    is in [MapConv], and the JSON of debug.

    A converter is created by name, configured with its argument values, and then
    translates registers to MQTT values and back. *)

From stdpp Require Import base gmap list strings.
From Stdlib Require Import ZArith Lia Ascii String.
From S2P Require Import Prelude Commands ConvTools ConvArgs.

#[local] Open Scope string_scope.
#[local] Open Scope Z_scope.

Import ConverterTools.

Definition outOfRange {A} (val : Z) : outcome A :=
  Fault (ConvException ("Conversion failed, value " +:+ Numbers.to_string val +:+ " out of range")).

(** The default implementations of class DataConverter. *)
Definition notImplementedMqtt {A} : outcome A :=
  Fault (StdException "Conversion to mqtt value is not implemented").
Definition notImplementedModbus {A} : outcome A :=
  Fault (StdException "Conversion to modbus register values is not implemented").

Section converters.
Context {D : Type} `{CDouble D}.

(** * int8.hpp *)

(** Int8Base::getArgs and setArgValues: mFirst *)
Definition int8Args : list ConverterArg := [argInt "first" ArgBOOL 0].
Definition int8SetArgs (values : ConverterArgValues) : outcome bool :=
  let! val := ArgValues.getArgValue values "first" in
  match ArgValue.as_bool val with
  | Ret b => Ret b
  | Fault f =>
      let oldval := ArgValue.as_str val in
      if bool_decide (oldval = "") then Ret false
      else if bool_decide (oldval = "first") then Ret true
      else Fault f
  end.

Definition int8ToMqtt (mFirst : bool) (data : list Z) : outcome (MqttValue D) :=
  let! val := ModbusRegisters.getValue data 0 in
  let val := if mFirst then Z.shiftr val 8 else val in
  Ret (MqttValue.fromInt (to_i8 val)).

Definition uint8ToMqtt (mFirst : bool) (data : list Z) : outcome (MqttValue D) :=
  let! val := ModbusRegisters.getValue data 0 in
  let val := if mFirst then Z.shiftr val 8 else val in
  Ret (MqttValue.fromInt (to_u8 val)).

(** * int16.hpp *)

Definition int16Args : list ConverterArg := [argInt sSwapBytesArgName ArgBOOL 0].

Definition int16SetArgs (args : ConverterArgValues) : outcome bool := DoubleRegisterArgTools.getSwapBytes args.

Definition int16ToMqtt (mSwapBytes : bool) (data : list Z) : outcome (MqttValue D) :=
  let! val := ModbusRegisters.getValue data 0 in
  Ret (MqttValue.fromInt (to_i16 (setByteOrder val mSwapBytes))).

Definition int16ToModbus (mSwapBytes : bool) (value : MqttValue D) (registerCount : Z)
  : outcome (list Z) :=
  let! val := MqttValue.getInt value in
  if (val <? INT16_MIN) || (INT16_MAX <? val) then outOfRange val
  else Ret (replicate (Z.to_nat registerCount) (setByteOrder val mSwapBytes)).

Definition uint16ToMqtt (mSwapBytes : bool) (data : list Z) : outcome (MqttValue D) :=
  let! val := ModbusRegisters.getValue data 0 in
  Ret (MqttValue.fromInt (setByteOrder val mSwapBytes)).

Definition uint16ToModbus (mSwapBytes : bool) (value : MqttValue D) (registerCount : Z)
  : outcome (list Z) :=
  let! val := MqttValue.getInt value in
  if (val <? 0) || (UINT16_MAX <? val) then outOfRange val
  else Ret (replicate (Z.to_nat registerCount) (setByteOrder val mSwapBytes)).

(** * int32.hpp *)

Definition int32Args : list ConverterArg :=
  [argInt sLowFirstArgName ArgBOOL 0; argInt sSwapBytesArgName ArgBOOL 0].

(** mLowFirst and mSwapBytes *)
Definition int32SetArgs (args : ConverterArgValues) : outcome (bool * bool) :=
  let! sb := DoubleRegisterArgTools.getSwapBytes args in
  let! lf := DoubleRegisterArgTools.getLowFirst args in
  Ret (lf, sb).

Definition int32ToMqtt (mLowFirst mSwapBytes : bool) (data : list Z) : outcome (MqttValue D) :=
  let! val := registersToInt32 data mLowFirst mSwapBytes in Ret (MqttValue.fromInt val).

Definition int32ToModbus (mLowFirst mSwapBytes : bool) (value : MqttValue D) (registerCount : Z)
  : outcome (list Z) :=
  let! val := MqttValue.getInt value in Ret (int32ToRegisters val mLowFirst mSwapBytes registerCount).

(** * uint32.hpp *)

Definition uint32Args : list ConverterArg := [argInt sLowFirstArgName ArgBOOL 0].

(** mHighByte is 1 and mLowByte 0 when the low word comes first. *)
Definition uint32ToMqtt (lowFirst : bool) (data : list Z) : outcome (MqttValue D) :=
  let two := 1 <? ModbusRegisters.getCount data in
  let high := if two then (if lowFirst then 1 else 0) else 0 in
  let low := if two then (if lowFirst then 0 else 1) else 0 in
  let! h := ModbusRegisters.getValue data high in
  if two then
    let! l := ModbusRegisters.getValue data low in
    Ret (MqttValue.fromInt64 (to_u32 (to_u32 (Z.shiftl h 16) + l)))
  else Ret (MqttValue.fromInt64 h).

Definition uint32ToModbus (lowFirst : bool) (value : MqttValue D) (registerCount : Z)
  : outcome (list Z) :=
  let! v := MqttValue.getInt64 value in
  let val := to_u32 v in
  let ret := [to_u16 val] in
  if registerCount =? 2 then
    let hw := to_u16 (Z.shiftr val 16) in
    Ret (if negb lowFirst then ModbusRegisters.prependValue ret hw
         else ModbusRegisters.appendValue ret hw)
  else Ret ret.

(** setArgValues of a new converter: the words are swapped when low_first is set. *)
Definition uint32SetArgs (args : ConverterArgValues) : outcome bool := DoubleRegisterArgTools.getLowFirst args.

(** * bits.hpp *)

Definition bitmaskArgs : list ConverterArg := [argInt "mask" ArgINT 0xffff].
Definition bitmaskSetArgs (values : ConverterArgValues) : outcome Z :=
  let! v := ArgValues.getArgValue values "mask" in ArgValue.as_uint16 v.
Definition bitmaskToMqtt (mask : Z) (data : list Z) : outcome (MqttValue D) :=
  let! v := ModbusRegisters.getValue data 0 in Ret (MqttValue.fromInt (Z.land v mask)).

Definition bitArgs : list ConverterArg := [argInt "bit" ArgINT (-1)].
Definition bitSetArgs (values : ConverterArgValues) : outcome Z :=
  let! v := ArgValues.getArgValue values "bit" in
  let! number := ArgValue.as_int v in
  if (16 <? number) || (number <? 0)
  then Fault (ConvException "Please provide a valid bit number [1-16]") else Ret (to_u8 number).

(** A shift by a negative number is undefined behaviour. *)
Definition bitToMqtt (bitNumber : Z) (data : list Z) : outcome (MqttValue D) :=
  let! v := ModbusRegisters.getValue data 0 in
  if bitNumber - 1 <? 0 then Fault UndefinedBehaviour
  else Ret (MqttValue.fromInt (Z.land (Z.shiftr v (bitNumber - 1)) 0x1)).

(** * single_arg_ops.hpp *)

Definition singleArgs (mFirstArgName : string) : list ConverterArg :=
  [argStr mFirstArgName ArgDOUBLE ""; argInt sPrecisionArgName ArgINT NO_PRECISION;
   argInt sLowFirstArgName ArgBOOL 0; argInt sSwapBytesArgName ArgBOOL 0].

Record SingleArg : Type := mkSingle {
  mDoubleArg : D;
  sSwapBytes : bool;
  sLowFirst : bool;
  sPrecision : Z
}.

Definition singleSetArgs (mFirstArgName : string) (values : ConverterArgValues) : outcome SingleArg :=
  let! v := ArgValues.getArgValue values mFirstArgName in
  let! d := ArgValue.as_double v in
  let! sb := DoubleRegisterArgTools.getSwapBytes values in
  let! lf := DoubleRegisterArgTools.getLowFirst values in
  let! pv := ArgValues.getArgValue values sPrecisionArgName in
  let! precision := ArgValue.as_int pv in
  Ret (mkSingle d sb lf precision).

Definition singleToMqtt (doMath : D -> D -> D) (a : SingleArg) (data : list Z)
  : outcome (MqttValue D) :=
  let! val := (if ModbusRegisters.getCount data =? 1 then ModbusRegisters.getValue data 0
               else registersToInt32 data (sLowFirst a) (sSwapBytes a)) in
  Ret (MqttValue.fromDouble (doMath (double_of_int val) (mDoubleArg a)) (sPrecision a)).

Definition singleToModbus (doMath : D -> D -> D) (a : SingleArg) (value : MqttValue D)
    (registerCount : Z) : outcome (list Z) :=
  let! v := MqttValue.getDouble value in
  let val := to_i32 (double_to_int (doMath v (mDoubleArg a))) in
  Ret (int32ToRegisters val (sLowFirst a) (sSwapBytes a) registerCount).

(** DivideConverter and MultiplyConverter: the names of their argument, and doMath
    of a value and that argument. *)
Definition divideArg : string := "divisor".
Definition divideMath (value arg : D) : D := double_div value arg.
Definition multiplyArg : string := "multipler".
Definition multiplyMath (value arg : D) : D := double_mul value arg.

(** * scale.hpp *)

Record Scale : Type := mkScale {
  mSourceScaleFrom : D;
  mSourceScaleTo : D;
  mTargetScaleFrom : D;
  mTargetScaleTo : D;
  scPrecision : Z
}.

Definition scaleArgs : list ConverterArg :=
  [argStr "src_from" ArgDOUBLE ""; argStr "src_to" ArgDOUBLE ""; argStr "tgt_from" ArgDOUBLE "";
   argStr "tgt_to" ArgDOUBLE ""; argInt sPrecisionArgName ArgINT NO_PRECISION].

Definition scaleSetArgs (values : ConverterArgValues) : outcome Scale :=
  let dbl name := (let! v := ArgValues.getArgValue values name in ArgValue.as_double v) in
  let! sf := dbl "src_from" in
  let! st := dbl "src_to" in
  let! tf := dbl "tgt_from" in
  let! tg := dbl "tgt_to" in
  let! pv := ArgValues.getArgValue values sPrecisionArgName in
  let! precision := ArgValue.as_int pv in
  Ret (mkScale sf st tf tg precision).

Definition scaleToMqtt (c : Scale) (data : list Z) : outcome (MqttValue D) :=
  let! v := ModbusRegisters.getValue data 0 in
  let sourceValue := double_of_int v in
  let targetValue :=
    double_add
      (double_div
         (double_mul (double_sub (mTargetScaleTo c) (mTargetScaleFrom c))
            (double_sub sourceValue (mSourceScaleFrom c)))
         (double_sub (mSourceScaleTo c) (mSourceScaleFrom c)))
      (mTargetScaleFrom c) in
  Ret (MqttValue.fromDouble targetValue (scPrecision c)).

(** * float32.hpp *)

Record Float32 : Type := mkFloat32 {
  fPrecision : Z;
  fLowFirst : bool;
  fSwapBytes : bool
}.

Definition floatArgs : list ConverterArg :=
  [argInt sPrecisionArgName ArgINT NO_PRECISION; argInt sLowFirstArgName ArgBOOL 0;
   argInt sSwapBytesArgName ArgBOOL 0].

Definition floatSetArgs (values : ConverterArgValues) : outcome Float32 :=
  let! sb := DoubleRegisterArgTools.getSwapBytes values in
  let! lf := DoubleRegisterArgTools.getLowFirst values in
  let! pv := ArgValues.getArgValue values sPrecisionArgName in
  let! precision := ArgValue.as_int pv in
  Ret (mkFloat32 precision lf sb).

(** ConverterTools::toNumber<float>, as a double. *)
Definition toNumber (highRegister lowRegister : Z) (swapBytes : bool) : outcome D :=
  let! bits := registersToInt32 [highRegister; lowRegister] false swapBytes in
  Ret (float_of_bits bits).

Definition floatToMqtt (c : Float32) (data : list Z) : outcome (MqttValue D) :=
  if ModbusRegisters.getCount data <? 2
  then Fault (ConvException "Cannot read 32-bit float from single register")
  else
    let! h := ModbusRegisters.getValue data (if fLowFirst c then 1 else 0) in
    let! l := ModbusRegisters.getValue data (if fLowFirst c then 0 else 1) in
    let! val := toNumber h l (fSwapBytes c) in
    Ret (MqttValue.fromDouble val (fPrecision c)).

Definition floatToModbus (c : Float32) (value : MqttValue D) (registerCount : Z) : outcome (list Z) :=
  if registerCount <? 2 then Fault (ConvException "Cannot store float in single register")
  else
    let! v := MqttValue.getDouble value in
    Ret (int32ToRegisters (float_to_bits v) (fLowFirst c) (fSwapBytes c) registerCount).

(** * string.hpp *)

(** The two bytes of a register as they are in the memory of the host. *)
Definition memoryBytes (littleEndian : bool) (r : Z) : list Z :=
  if littleEndian then [Z.land r 0xff; Z.shiftr r 8] else [Z.shiftr r 8; Z.land r 0xff].

Definition byteChar (b : Z) : ascii := ascii_of_N (Z.to_N b).
Fixpoint bytesString (l : list Z) : string :=
  match l with [] => EmptyString | b :: l' => String (byteChar b) (bytesString l') end.

(** findCStringSize, and the bytes it keeps. *)
Fixpoint untilZero (l : list Z) : list Z :=
  match l with [] => [] | b :: l' => if b =? 0 then [] else b :: untilZero l' end.

Definition stringToMqtt (littleEndian : bool) (data : list Z) : outcome (MqttValue D) :=
  let registers := adaptToNetworkByteOrder littleEndian data in
  Ret (MqttValue.fromBinary (bytesString (untilZero (mjoin (memoryBytes littleEndian <$> registers))))).

(** [(uint16_t)*strPtr]: char is signed. *)
Definition charWord (c : ascii) : Z := to_u16 (to_i8 (Numbers.code c)).

(** The loop of toModbus: two bytes a register, zeros at the end. *)
Fixpoint packChars (n : nat) (s : string) : list Z :=
  match n with
  | O => []
  | S n' =>
      match s with
      | EmptyString => 0 :: packChars n' EmptyString
      | String a EmptyString => to_u16 (Z.shiftl (charWord a) 8) :: packChars n' EmptyString
      | String a (String b s') =>
          to_u16 (to_u16 (Z.shiftl (charWord a) 8) + charWord b) :: packChars n' s'
      end
  end.

(** The bytes of an integer of [n] bytes in the memory of the host. *)
Fixpoint lowBytes (n : nat) (v : Z) : list Z :=
  match n with O => [] | S n' => v mod 256 :: lowBytes n' (v / 256) end.
Definition intBytes (littleEndian : bool) (n : nat) (v : Z) : list Z :=
  if littleEndian then lowBytes n v else rev (lowBytes n v).

(** The bytes at getBinaryPtr, as many as getBinarySize says. *)
Definition binaryData (littleEndian : bool) (m : MqttValue D) : string :=
  match m with
  | VBinary s => s
  | VInt v => bytesString (intBytes littleEndian 4 v)
  | VInt64 v => bytesString (intBytes littleEndian 8 v)
  | VDouble v _ => bytesString (intBytes littleEndian 8 (double_bits v))
  end.

(** StringConverter::toModbus *)
Definition stringToModbus (littleEndian : bool) (value : MqttValue D) (registerCount : Z) : list Z :=
  adaptToNetworkByteOrder littleEndian (packChars (Z.to_nat registerCount) (binaryData littleEndian value)).

End converters.
Arguments SingleArg D : clear implicits.
Arguments Scale D : clear implicits.

(** * The plugin (plugin.cpp) *)

(** The converters by kind; debug and map have their own code. *)
Inductive ConvKind : Type :=
| KBit | KBitmask | KDivide | KMultiply | KInt32 | KScale | KString | KInt16 | KUInt16
| KUInt32 | KFloat | KInt8 | KUInt8 | KMap | KDebug.

(** StdConvPlugin::getConverter; the null pointer is [None]. *)
Definition getConverter (name : string) : option ConvKind :=
  if bool_decide (name = "bit") then Some KBit
  else if bool_decide (name = "bitmask") then Some KBitmask
  else if bool_decide (name = "divide") then Some KDivide
  else if bool_decide (name = "multiply") then Some KMultiply
  else if bool_decide (name = "int32") then Some KInt32
  else if bool_decide (name = "scale") then Some KScale
  else if bool_decide (name = "string") then Some KString
  else if bool_decide (name = "int16") then Some KInt16
  else if bool_decide (name = "uint16") then Some KUInt16
  else if bool_decide (name = "uint32") then Some KUInt32
  else if bool_decide (name = "float32") then Some KFloat
  else if bool_decide (name = "int8") then Some KInt8
  else if bool_decide (name = "uint8") then Some KUInt8
  else if bool_decide (name = "map") then Some KMap
  else if bool_decide (name = "debug") then Some KDebug
  else None.

(** * Theorems *)

Section theorems.
Context {D : Type} `{CDoubleLaws D}.
Implicit Types m : MqttValue D.

Lemma getValue_cons a l : ModbusRegisters.getValue (a :: l) 0 = Ret a.
Proof. done. Qed.

Lemma to_i16_u16 v : is_i16 v -> to_i16 (to_u16 v) = v.
Proof.
  intros Hv. unfold to_i16, to_u16. rewrite to_signed_mod by lia. by apply to_signed_small.
Qed.

Lemma setByteOrder_back v b : setByteOrder (setByteOrder v b) b = to_u16 v.
Proof. rewrite <- (setByteOrder_u16 v). apply setByteOrder_involutive, to_u16_range. Qed.

Lemma replicate_head (n : Z) (x : Z) : 0 < n -> exists l, replicate (Z.to_nat n) x = x :: l.
Proof. intros Hn. destruct (Z.to_nat n) as [|k] eqn:E; [lia|]. by eexists. Qed.

Lemma int16_roundtrip (m : MqttValue D) v sb n :
  MqttValue.getInt m = Ret v -> is_i32 v -> 0 < n ->
  (let! regs := int16ToModbus sb m n in int16ToMqtt (D := D) sb regs)
  = (if bool_decide (is_i16 v) then Ret (VInt v) else outOfRange v).
Proof.
  intros Hm Hv Hn. unfold int16ToModbus. rewrite Hm. cbn [obind]. case_bool_decide as B.
  - assert (X : (v <? INT16_MIN) || (INT16_MAX <? v) = false)
      by (unfold is_i16, INT16_MIN, INT16_MAX in *; lia).
    rewrite X. destruct (replicate_head n (setByteOrder v sb) Hn) as [l ->]. cbn [obind].
    unfold int16ToMqtt. rewrite getValue_cons. cbn [obind]. rewrite setByteOrder_back, to_i16_u16 by done.
    unfold MqttValue.fromInt, to_i32. by rewrite to_signed_small.
  - assert (X : (v <? INT16_MIN) || (INT16_MAX <? v) = true)
      by (unfold is_i16, INT16_MIN, INT16_MAX in *; lia).
    by rewrite X.
Qed.

Lemma uint16_roundtrip (m : MqttValue D) v sb n :
  MqttValue.getInt m = Ret v -> is_i32 v -> 0 < n ->
  (let! regs := uint16ToModbus sb m n in uint16ToMqtt (D := D) sb regs)
  = (if bool_decide (is_u16 v) then Ret (VInt v) else outOfRange v).
Proof.
  intros Hm Hv Hn. unfold uint16ToModbus. rewrite Hm. cbn [obind]. case_bool_decide as B.
  - assert (X : (v <? 0) || (UINT16_MAX <? v) = false) by (unfold is_u16, UINT16_MAX in *; lia).
    rewrite X. destruct (replicate_head n (setByteOrder v sb) Hn) as [l ->]. cbn [obind].
    unfold uint16ToMqtt. rewrite getValue_cons. cbn [obind]. rewrite setByteOrder_back, to_u16_small by done.
    unfold MqttValue.fromInt, to_i32. by rewrite to_signed_small.
  - assert (X : (v <? 0) || (UINT16_MAX <? v) = true) by (unfold is_u16, UINT16_MAX in *; lia).
    by rewrite X.
Qed.

Lemma int32_roundtrip (m : MqttValue D) v lf sb n :
  MqttValue.getInt m = Ret v -> is_i32 v ->
  (let! regs := int32ToModbus lf sb m n in int32ToMqtt (D := D) lf sb regs)
  = Ret (VInt (if n =? 2 then v else to_u16 v)).
Proof.
  intros Hm Hv. unfold int32ToModbus, int32ToMqtt. rewrite Hm. cbn [obind].
  destruct (Z.eqb_spec n 2) as [->|N].
  - rewrite int32_back by done. cbn [obind]. unfold MqttValue.fromInt, to_i32. by rewrite to_signed_small.
  - unfold int32ToRegisters. rewrite (proj2 (Z.eqb_neq n 2)) by done.
    assert (E : registersToInt32 [setByteOrder v sb] lf sb = Ret (to_u16 v)).
    { unfold registersToInt32. change (1 <? Datatypes.length [setByteOrder v sb])%nat with false. rewrite andb_false_r.
      rewrite getValue_cons. cbn [obind]. by rewrite setByteOrder_back. }
    rewrite E. cbn [obind]. pose proof (to_u16_range v). unfold MqttValue.fromInt, to_i32.
    by rewrite to_signed_small by (unfold is_u16 in *; lia).
Qed.

Lemma uint32ToMqtt_two lf a b :
  uint32ToMqtt (D := D) lf [a; b]
  = Ret (MqttValue.fromInt64 (if lf then to_u32 (to_u32 (Z.shiftl b 16) + a)
                              else to_u32 (to_u32 (Z.shiftl a 16) + b))).
Proof. by destruct lf. Qed.

Lemma uint32_roundtrip (m : MqttValue D) v lf n :
  MqttValue.getInt64 m = Ret v ->
  (let! regs := uint32ToModbus lf m n in uint32ToMqtt (D := D) lf regs)
  = Ret (VInt64 (if n =? 2 then to_u32 v else to_u16 v)).
Proof.
  intros Hm. unfold uint32ToModbus. rewrite Hm. cbn [obind].
  assert (R : 0 <= to_u32 v < 4294967296) by (apply Z.mod_pos_bound; lia).
  assert (F : forall x, 0 <= x < 4294967296 -> MqttValue.fromInt64 (D := D) x = VInt64 x)
    by (intros x Hx; unfold MqttValue.fromInt64, to_i64; rewrite to_signed_small by lia; done).
  assert (U : to_u16 (to_u32 v) = to_u16 v) by (unfold to_u16, to_u32; Z.div_mod_to_equations; lia).
  destruct (Z.eqb_spec n 2) as [->|N]; cbn [obind].
  - set (u := to_u32 v) in *. clearbody u.
    assert (E : to_u32 (to_u32 (Z.shiftl (to_u16 (Z.shiftr u 16)) 16) + to_u16 u) = u).
    { rewrite Z.shiftl_mul_pow2, Z.shiftr_div_pow2 by lia. unfold to_u32, to_u16.
      Z.div_mod_to_equations. lia. }
    destruct lf; cbn [negb]; unfold ModbusRegisters.appendValue, ModbusRegisters.prependValue; cbn [app];
      rewrite uint32ToMqtt_two, E, F; done.
  - rewrite U. unfold uint32ToMqtt. change (1 <? ModbusRegisters.getCount [to_u16 v]) with false. cbn zeta iota.
    rewrite getValue_cons. cbn [obind]. rewrite F; [done|]. pose proof (to_u16_range v). unfold is_u16 in *. lia.
Qed.

(** C29: writing a value and reading the registers back, for every byte and word
    order.  [v] is the 32 bit integer getInt makes of the value: through int16 and
    uint16, with at least one register, it comes back when it is in the range of the
    converter and is refused otherwise; through int32 it comes back from two
    registers.  [w] is the integer getInt64 makes of a value: through uint32 it
    comes back, modulo 2^32, from two registers.  With another number of registers
    the two 32 bit converters write one, and the low 16 bits come back.  (getInt
    keeps the low 32 bits of a longer number, so that the refusal is of what is
    left; that is a finding.) *)
Theorem integer_converters_roundtrip (m m' : MqttValue D) v w (lf sb : bool) n r :
  MqttValue.getInt m = Ret v -> is_i32 v -> MqttValue.getInt64 m' = Ret w -> 0 < n ->
  (let! regs := int16ToModbus sb m n in int16ToMqtt (D := D) sb regs)
    = (if bool_decide (is_i16 v) then Ret (VInt v) else outOfRange v)
  /\ (let! regs := uint16ToModbus sb m n in uint16ToMqtt (D := D) sb regs)
    = (if bool_decide (is_u16 v) then Ret (VInt v) else outOfRange v)
  /\ (let! regs := int32ToModbus lf sb m r in int32ToMqtt (D := D) lf sb regs)
    = Ret (VInt (if r =? 2 then v else to_u16 v))
  /\ (let! regs := uint32ToModbus lf m' r in uint32ToMqtt (D := D) lf regs)
    = Ret (VInt64 (if r =? 2 then to_u32 w else to_u16 w)).
Proof.
  intros Hm Hv Hw Hn. split; [by apply int16_roundtrip|]. split; [by apply uint16_roundtrip|].
  split; [by apply int32_roundtrip|by apply uint32_roundtrip].
Qed.

(** The two registers of any 32 bit float that is not a NaN come back
    unchanged from the value float32 makes of them, for every word and byte
    order. *)
Theorem float32_roundtrip c a b bits :
  is_u16 a -> is_u16 b -> registersToInt32 [a; b] (fLowFirst c) (fSwapBytes c) = Ret bits ->
  isNaNBits bits = false ->
  (let! v := floatToMqtt (D := D) c [a; b] in floatToModbus c v 2) = Ret [a; b].
Proof.
  intros Ha Hb R N. destruct c as [prec lf sb]. cbn [fLowFirst fSwapBytes] in R.
  assert (T : floatToMqtt (D := D) (mkFloat32 prec lf sb) [a; b]
              = Ret (MqttValue.fromDouble (float_of_bits bits) prec)).
  { rewrite registersToInt32_two in R. unfold floatToMqtt, toNumber.
    change (ModbusRegisters.getCount [a; b] <? 2) with false. cbn [fLowFirst fSwapBytes fPrecision].
    destruct lf; cbn [ModbusRegisters.getValue obind];
      change (ModbusRegisters.getValue [a; b] 1) with (Ret b);
      change (ModbusRegisters.getValue [a; b] 0) with (Ret a); cbn [obind];
      rewrite registersToInt32_two; cbn [obind]; by injection R as <-. }
  rewrite T. unfold floatToModbus. cbn [obind MqttValue.fromDouble MqttValue.getDouble fLowFirst fSwapBytes].
  change (2 <? 2) with false. cbn [obind MqttValue.getDouble].
  rewrite float_bits_exact; [| |done].
  - f_equal. by apply registers_back.
  - rewrite registersToInt32_two in R. destruct lf; injection R as <-; apply joinWords_range.
Qed.

Lemma land_1 v : Z.land v 1 = Z.b2z (Z.testbit v 0).
Proof. change 1 with (Z.ones 1) at 1. rewrite Z.land_ones by lia. by rewrite <- Z.bit0_mod. Qed.

(** Std.bit returns exactly the given bit of the register, counted from 1,
    and std.bitmask the bits of the mask; both stay within 16 bits. *)
Theorem bit_converters_spec v n mask :
  is_u16 v -> 1 <= n <= 16 -> is_u16 mask ->
  bitToMqtt (D := D) n [v] = Ret (VInt (if Z.testbit v (n - 1) then 1 else 0))
  /\ exists r, bitmaskToMqtt (D := D) mask [v] = Ret (VInt r) /\ 0 <= r <= mask
       /\ forall i, 0 <= i -> Z.testbit r i = Z.testbit v i && Z.testbit mask i.
Proof.
  unfold is_u16. intros Hv Hn Hm. split.
  - unfold bitToMqtt. rewrite getValue_cons. cbn [obind].
    destruct (Z.ltb_spec (n - 1) 0); [lia|]. unfold MqttValue.fromInt.
    by rewrite land_1, Z.shiftr_spec, Z.add_0_l by lia; destruct (Z.testbit v (n - 1)).
  - assert (B : 0 <= Z.land v mask <= mask).
    { split; [apply Z.land_nonneg; lia|]. apply Z.ldiff_le; [lia|].
      apply Z.bits_inj'. intros i Hi. rewrite Z.ldiff_spec, Z.land_spec, Z.bits_0.
      by destruct (Z.testbit v i), (Z.testbit mask i). }
    exists (Z.land v mask). split; [|split; [done|]].
    + unfold bitmaskToMqtt. rewrite getValue_cons. cbn [obind]. unfold MqttValue.fromInt, to_i32.
      rewrite to_signed_small by lia. done.
    + intros i Hi. apply Z.land_spec.
Qed.

(** The bytes of a register in the order of the modbus packet. *)
Definition packetBytes (r : Z) : list Z := [Z.shiftr r 8; Z.land r 0xff].

Lemma bytes_of_word hi lo :
  0 <= hi < 256 -> 0 <= lo < 256 ->
  Z.shiftr (hi * 256 + lo) 8 = hi /\ Z.land (hi * 256 + lo) 0xff = lo.
Proof.
  intros Hh Hl. rewrite Z.shiftr_div_pow2 by lia. change 0xff with (Z.ones 8).
  rewrite Z.land_ones by lia. change (2 ^ 8) with 256. Z.div_mod_to_equations. lia.
Qed.

Lemma memoryBytes_network le r :
  is_u16 r -> memoryBytes le (htons le r) = packetBytes r.
Proof.
  intros Hr. unfold htons. destruct (u16_bytes r Hr) as (hi & lo & -> & Hh & Hl). destruct le.
  - rewrite setByteOrder_swap by done. unfold memoryBytes, packetBytes.
    destruct (bytes_of_word hi lo), (bytes_of_word lo hi); congruence.
  - unfold setByteOrder. cbn [negb]. by rewrite to_u16_small.
Qed.

Lemma networkBytes le data :
  Forall is_u16 data ->
  mjoin (memoryBytes le <$> adaptToNetworkByteOrder le data) = mjoin (packetBytes <$> data).
Proof.
  intros F. unfold adaptToNetworkByteOrder. rewrite <- list_fmap_compose. f_equal.
  apply Forall_fmap_ext_1. eapply Forall_impl; [exact F|]. intros r Hr. by apply memoryBytes_network.
Qed.

(** Reading a string takes the bytes of the registers in packet order, on
    either kind of host, up to the first zero byte. *)
Theorem string_reads_packet le data :
  Forall is_u16 data ->
  stringToMqtt (D := D) le data
  = Ret (VBinary (bytesString (untilZero (mjoin (packetBytes <$> data))))).
Proof.
  intros F. unfold stringToMqtt. by rewrite networkBytes.
Qed.

End theorems.

(** The text of 7 bit characters, without NUL. *)
Definition isText (c : ascii) : bool := (0 <? Numbers.code c) && (Numbers.code c <? 128).
Fixpoint allText (s : string) : bool :=
  match s with EmptyString => true | String c s' => isText c && allText s' end.
Fixpoint codes (s : string) : list Z :=
  match s with EmptyString => [] | String c s' => Numbers.code c :: codes s' end.

Lemma isText_bound c : isText c = true -> 0 < Numbers.code c < 128 /\ charWord c = Numbers.code c.
Proof.
  unfold isText. intros T. assert (B : 0 < Numbers.code c < 128) by lia. split; [done|].
  unfold charWord, to_i8. rewrite to_signed_small by lia. apply to_u16_small. unfold is_u16. lia.
Qed.

Lemma word_small hi lo :
  0 <= hi < 256 -> 0 <= lo < 256 -> to_u16 (to_u16 (Z.shiftl hi 8) + lo) = hi * 256 + lo.
Proof.
  intros Hh Hl. rewrite Z.shiftl_mul_pow2 by lia. change (2 ^ 8) with 256.
  rewrite !to_u16_small; unfold is_u16; try lia. rewrite to_u16_small; unfold is_u16; lia.
Qed.

Lemma packetBytes_word hi lo :
  0 <= hi < 256 -> 0 <= lo < 256 -> packetBytes (hi * 256 + lo) = [hi; lo].
Proof. intros Hh Hl. unfold packetBytes. by destruct (bytes_of_word hi lo Hh Hl) as [-> ->]. Qed.

Lemma mjoin_packet_cons r l :
  mjoin (packetBytes <$> (r :: l)) = (packetBytes r ++ mjoin (packetBytes <$> l))%list.
Proof. done. Qed.

(** The registers of a text: the two bytes of a register are two characters. *)
Lemma packChars_bytes n s :
  allText s = true -> (String.length s <= 2 * n)%nat ->
  Forall is_u16 (packChars n s)
  /\ mjoin (packetBytes <$> packChars n s) = (codes s ++ replicate (2 * n - String.length s) 0)%list.
Proof.
  revert s. induction n as [|n IH]; intros s T L.
  { destruct s; [done|]. simpl in L. lia. }
  destruct s as [|a [|b s]]; cbn [allText packChars] in *.
  - destruct (IH EmptyString eq_refl ltac:(simpl; lia)) as [F E]. split; [constructor; [done|exact F]|].
    rewrite mjoin_packet_cons, E. simpl (String.length _).
    replace (2 * S n - 0)%nat with (S (S (2 * n - 0))) by lia. done.
  - apply andb_prop in T as [Ta _]. destruct (isText_bound a Ta) as [Ba ->].
    assert (W : to_u16 (Z.shiftl (Numbers.code a) 8) = Numbers.code a * 256 + 0).
    { rewrite Z.shiftl_mul_pow2, to_u16_small by (unfold is_u16; lia). lia. }
    destruct (IH EmptyString eq_refl ltac:(simpl; lia)) as [F E].
    split; [constructor; [apply to_u16_range|exact F]|].
    rewrite mjoin_packet_cons, E, W, packetBytes_word by lia. simpl (String.length _).
    replace (2 * S n - 1)%nat with (S (2 * n - 0)) by lia. done.
  - apply andb_prop in T as [Ta T]. apply andb_prop in T as [Tb T].
    destruct (isText_bound a Ta) as [Ba ->], (isText_bound b Tb) as [Bb ->].
    simpl in L. destruct (IH s T ltac:(lia)) as [F E].
    split; [constructor; [apply to_u16_range|exact F]|].
    rewrite mjoin_packet_cons, E, word_small, packetBytes_word by lia.
    simpl (String.length _). replace (2 * S n - S (S (String.length s)))%nat
      with (2 * n - String.length s)%nat by lia. done.
Qed.

Lemma untilZero_text s n :
  allText s = true -> bytesString (untilZero (codes s ++ replicate n 0)) = s.
Proof.
  induction s as [|c s IH]; cbn [allText codes]; intros T; [by destruct n|].
  apply andb_prop in T as [Tc T]. destruct (isText_bound c Tc) as [B _]. cbn [app untilZero].
  destruct (Z.eqb_spec (Numbers.code c) 0); [lia|]. cbn [bytesString]. rewrite IH by done. f_equal.
  unfold byteChar, Numbers.code. rewrite N2Z.id. apply ascii_N_embedding.
Qed.

Lemma bytesString_length l : String.length (bytesString l) = Datatypes.length l.
Proof. induction l as [|b l IH]; cbn; [done|]. by rewrite IH. Qed.

Lemma intBytes_length le n v : Datatypes.length (intBytes le n v) = n.
Proof.
  assert (L : forall k w, Datatypes.length (lowBytes k w) = k).
  { induction k as [|k IH]; intros w; cbn; [done|]. by rewrite IH. }
  unfold intBytes. destruct le; [apply L|]. by rewrite length_rev, L.
Qed.

Lemma binaryData_size {D} `{CDouble D} le (m : MqttValue D) :
  Z.of_nat (String.length (binaryData le m)) = MqttValue.getBinarySize m.
Proof.
  destruct m; cbn [binaryData MqttValue.getBinarySize]; [..|done|];
    by rewrite bytesString_length, intBytes_length.
Qed.

(** A text of 7 bit characters that fits is written two characters a
    register, padded with zeros: once the registers are brought to network byte
    order, reading them gives the text back. *)
Theorem string_write_read {D} `{CDouble D} le s n :
  allText s = true -> Z.of_nat (String.length s) <= 2 * n ->
  stringToMqtt (D := D) le (adaptToNetworkByteOrder le (stringToModbus le (VBinary (D := D) s) n)) = Ret (VBinary s).
Proof.
  intros T L. destruct (packChars_bytes (Z.to_nat n) s T ltac:(lia)) as [F E].
  unfold stringToModbus, adaptToNetworkByteOrder. cbn [binaryData]. rewrite <- list_fmap_compose.
  assert (I : (htons le ∘ htons le) <$> packChars (Z.to_nat n) s = packChars (Z.to_nat n) s).
  { rewrite <- (list_fmap_id (packChars _ s)) at 2. apply Forall_fmap_ext_1.
    eapply Forall_impl; [exact F|]. intros r Hr. by apply setByteOrder_involutive. }
  rewrite I. unfold stringToMqtt, MqttValue.fromBinary. rewrite networkBytes, E by done.
  by rewrite untilZero_text.
Qed.

Lemma string_write_read_witness :
  stringToMqtt (D := Z) true (adaptToNetworkByteOrder true (stringToModbus true (VBinary (D := Z) "pump") 3)) = Ret (VBinary "pump").
Proof. apply (string_write_read (D := Z) true "pump" 3); [reflexivity|]. simpl. lia. Defined.

Lemma string_reads_packet_witness :
  stringToMqtt (D := Z) true [0x4142; 0x4300; 0x4445] = Ret (VBinary "ABC").
Proof. rewrite (string_reads_packet (D := Z) true); [reflexivity|]. repeat constructor; unfold is_u16; lia. Defined.

Lemma integer_converters_roundtrip_witness :
  (let! regs := int16ToModbus true (VBinary (D := Z) "40000") 1 in int16ToMqtt (D := Z) true regs)
    = outOfRange 40000
  /\ (let! regs := uint16ToModbus true (VBinary (D := Z) "40000") 1 in uint16ToMqtt (D := Z) true regs)
    = Ret (VInt 40000)
  /\ (let! regs := int32ToModbus true true (VBinary (D := Z) "40000") 2 in int32ToMqtt (D := Z) true true regs)
    = Ret (VInt 40000)
  /\ (let! regs := uint32ToModbus true (VInt64 (D := Z) 4000000000) 2 in uint32ToMqtt (D := Z) true regs)
    = Ret (VInt64 4000000000).
Proof.
  apply (integer_converters_roundtrip (D := Z) (VBinary "40000") (VInt64 4000000000) 40000 4000000000 true true 1 2);
    [reflexivity|unfold is_i32; lia|reflexivity|lia].
Defined.

Lemma float32_roundtrip_witness :
  (let! v := floatToMqtt (D := Z) (mkFloat32 2 true true) [0x1234; 0x3f80] in
   floatToModbus (mkFloat32 2 true true) v 2) = Ret [0x1234; 0x3f80].
Proof.
  apply (float32_roundtrip (D := Z) (mkFloat32 2 true true) 0x1234 0x3f80 (-2143341550));
    unfold is_u16; (lia || reflexivity).
Defined.

Lemma bit_converters_spec_witness :
  bitToMqtt (D := Z) 3 [4] = Ret (VInt 1)
  /\ exists r, bitmaskToMqtt (D := Z) 0xf0 [0x1234] = Ret (VInt r) /\ 0 <= r <= 0xf0.
Proof.
  destruct (bit_converters_spec (D := Z) 4 3 0) as [A _]; [unfold is_u16; lia|lia|unfold is_u16; lia|].
  destruct (bit_converters_spec (D := Z) 0x1234 1 0xf0) as (_ & r & B & C & _);
    [unfold is_u16; lia|lia|unfold is_u16; lia|].
  split; [exact A|]. exists r. split; [exact B|exact C].
Defined.

(** On a little endian host the registers themselves hold the characters of a
    text in swapped pairs, and reading them back does not give the text. *)
Theorem string_written_swapped :
  stringToModbus true (VBinary (D := Z) "ABC") 2 = [0x4241; 0x0043]
  /\ stringToMqtt (D := Z) true (stringToModbus true (VBinary (D := Z) "ABC") 2) = Ret (VBinary "BA").
Proof. vm_compute. auto. Qed.

(** A character of 8 bits is sign extended, and spoils the one before it. *)
Theorem string_utf8_corrupted :
  stringToModbus false (VBinary (D := Z) (String (byteChar 0xc3) (String (byteChar 0xa9) EmptyString))) 1 = [0xc2a9].
Proof. reflexivity. Qed.

(** std.bitmask without an argument is refused: its default mask is printed in
    decimal and read in base 16. *)
Theorem bitmask_default_refused :
  bitmaskSetArgs (ArgValues.new bitmaskArgs)
  = Fault (ConvException "Invalidmask uint16 value:value out of range").
Proof. vm_compute. reflexivity. Qed.

(** Bit number 0 is accepted, and shifts by a negative amount. *)
Theorem bit_zero_accepted :
  (let! values := ArgValues.setArgValue (ArgValues.new bitArgs) "bit" "0" in
   let! n := bitSetArgs values in bitToMqtt (D := Z) n [1]) = Fault UndefinedBehaviour.
Proof. vm_compute. reflexivity. Qed.
