(* ===== verification/MapConv.v ===== *)
(** The map converter: stdconv/map.hpp and stdconv/map.cpp.

    A map is written as the text of a dictionary from register values to integers
    or strings; the parser is a machine over a stack of states. *)

From stdpp Require Import base gmap list strings.
From Stdlib Require Import ZArith Lia Ascii String.
From S2P Require Import Prelude Commands ConvTools ConvArgs StdConv.

#[local] Open Scope string_scope.
#[local] Open Scope Z_scope.

Module MapConv.

(** * Mappings *)

(** union MqttVariant, with the flag mIsInt of its Mapping. *)
Inductive MqttVariant : Type :=
| VarInt (i : Z)
| VarStr (s : string).

#[export] Instance MqttVariant_eq_dec : EqDecision MqttVariant.
Proof. solve_decision. Defined.

(** class Mapping *)
Record Mapping : Type := mkMapping {
  mRegisterValue : Z;
  mMqttValue : MqttVariant
}.

#[export] Instance Mapping_eq_dec : EqDecision Mapping.
Proof. solve_decision. Defined.

(** Mapping(uint16_t, const std::string&): the string is copied with strcpy. *)
Definition strMapping (registerValue : Z) (s : string) : Mapping :=
  mkMapping registerValue (VarStr (cstr s)).
Definition intMapping (registerValue i : Z) : Mapping := mkMapping registerValue (VarInt i).

(** Map::findRegValue *)
Fixpoint findRegValue (value : Z) (m : list Mapping) : option Mapping :=
  match m with
  | [] => None
  | x :: m' => if mRegisterValue x =? value then Some x else findRegValue value m'
  end.

(** The comparison of addMapping: integers with integers, strings with strings. *)
Definition sameVariant (a b : MqttVariant) : bool :=
  match a, b with
  | VarInt i, VarInt j => i =? j
  | VarStr s, VarStr t => bool_decide (s = t)
  | _, _ => false
  end.

(** * The parser *)

(** enums aState and aValueType of class MapParser *)
Inductive aState : Type := SCAN | KEY | ESCAPE | VALUE.
Inductive aValueType : Type := NONE | INT | STRING.

(** class MapParser and the map it fills; the top of the stack comes first. *)
Record MapParser : Type := mkParser {
  mCurrentState : list aState;
  mKey : string;
  mValueType : aValueType;
  mValue : string;
  mappings : list Mapping
}.

Definition appendTo (s : string) (c : ascii) : string := s +:+ String c EmptyString.

Definition withState (st : list aState) (p : MapParser) : MapParser :=
  mkParser st (mKey p) (mValueType p) (mValue p) (mappings p).
Definition withType (t : aValueType) (p : MapParser) : MapParser :=
  mkParser (mCurrentState p) (mKey p) t (mValue p) (mappings p).
Definition addKeyChar (c : ascii) (p : MapParser) : MapParser :=
  mkParser (mCurrentState p) (appendTo (mKey p) c) (mValueType p) (mValue p) (mappings p).
Definition addValueChar (c : ascii) (p : MapParser) : MapParser :=
  mkParser (mCurrentState p) (mKey p) (mValueType p) (appendTo (mValue p) c) (mappings p).
Definition pushState (st : aState) (p : MapParser) : MapParser := withState (st :: mCurrentState p) p.

(** [mCurrentState.pop()]: undefined on an empty stack. *)
Definition popState (p : MapParser) : outcome MapParser :=
  match mCurrentState p with
  | [] => Fault UndefinedBehaviour
  | _ :: st => Ret (withState st p)
  end.

(** std::atoi: strtol in base 10, converted to an int. *)
Definition atoi (s : string) : Z := to_i32 (Numbers.strtol 10 (cstr s)).1.

Definition mapError {A} (what : string) : outcome A := Fault (ConvException what).

(** The number of an aState, as std::to_string prints it. *)
Definition stateNumber (st : aState) : Z := match st with SCAN => 0 | KEY => 1 | ESCAPE => 2 | VALUE => 3 end.

(** addEscapedChar; getEscapedChar returns the character itself. *)
Definition addEscapedChar (c : ascii) (p : MapParser) : outcome MapParser :=
  let! p := popState p in
  match mCurrentState p with
  | [] => Fault UndefinedBehaviour
  | KEY :: _ => Ret (addKeyChar c p)
  | VALUE :: _ => Ret (addValueChar c p)
  | st :: _ => mapError ("Internal parser error: invalid state " +:+ Numbers.to_string (stateNumber st)
                         +:+ " when adding escaped char " +:+ String c EmptyString)
  end.

Section parser.
Context {D : Type} `{CDouble D}.

(** addMapping *)
Definition addMapping (p : MapParser) : outcome MapParser :=
  if bool_decide (mKey p = "") then mapError "Internal parser error: register value cannot be empty"
  else
    let! regVal := MqttValue.getUInt16 (MqttValue.fromString (D := D) (mKey p)) in
    match findRegValue regVal (mappings p) with
    | Some _ => mapError ("Register value " +:+ mKey p +:+ " already mapped")
    | None =>
        let mapping := match mValueType p with
                       | INT => intMapping regVal (atoi (mValue p))
                       | _ => strMapping regVal (mValue p)
                       end in
        if existsb (fun m => sameVariant (mMqttValue mapping) (mMqttValue m)) (mappings p)
        then mapError ("Mqtt value " +:+ mValue p +:+ " already mapped")
        else popState (mkParser (mCurrentState p) "" NONE "" (mappings p ++ [mapping])%list)
    end.

(** The labels of the switch of parse. *)
Inductive label : Type := OpenBrace | CloseBrace | Backslash | Quote | Space | Colon | Comma | Other.
Definition labelOf (c : ascii) : label :=
  if bool_decide (c = "{"%char) then OpenBrace
  else if bool_decide (c = "}"%char) then CloseBrace
  else if bool_decide (c = "\"%char) then Backslash
  else if bool_decide (c = "034"%char) then Quote
  else if bool_decide (c = " "%char) then Space
  else if bool_decide (c = ":"%char) then Colon
  else if bool_decide (c = ","%char) then Comma
  else Other.

Definition isdigit (c : ascii) : bool := Numbers.isDigit 10 c.

(** What a default character of a value does to its type. *)
Definition digitType (c : ascii) (p : MapParser) : MapParser :=
  match mValueType p with
  | NONE => if isdigit c then withType INT p else p
  | _ => p
  end.

(** One character of the loop of parse. *)
Definition step (p : MapParser) (c : ascii) : outcome MapParser :=
  match mCurrentState p with
  | [] => Fault UndefinedBehaviour
  | ESCAPE :: _ => addEscapedChar c p
  | SCAN :: _ =>
      match labelOf c with
      | OpenBrace => Ret p
      | CloseBrace => match mValueType p with INT => addMapping p | _ => Ret p end
      | Backslash => mapError "\ in map key is not allowed, must be an uint16_value"
      | Quote =>
          if bool_decide (mKey p = "") then Ret (pushState KEY p)
          else Ret (withType STRING (pushState VALUE p))
      | Space => Ret p
      | Colon =>
          if bool_decide (mKey p = "")
          then mapError ("Key " +:+ Numbers.to_string (Z.of_nat (Datatypes.length (mappings p)) + 1)
                         +:+ " is empty")
          else Ret p
      | Comma => Ret p
      | Other =>
          if bool_decide (mKey p = "") then
            if isdigit c then Ret (addKeyChar c (pushState KEY p))
            else mapError ("string key should start with " +:+ String "034"%char EmptyString)
          else Ret (addValueChar c (pushState VALUE (digitType c p)))
      end
  | KEY :: _ =>
      match labelOf c with
      | OpenBrace => mapError "{ in map key is not allowed, must be an uint16_value"
      | CloseBrace => mapError "} in map key is not allowed, must be an uint16_value"
      | Backslash => mapError "\ in map key is not allowed, must be an uint16_value"
      | Quote => mapError (String "034"%char " in map key is not allowed, must be an uint16_value")
      | Space => popState p
      | Colon => popState p
      | Comma => mapError ", in map key is not allowed, must be an uint16_value"
      | Other =>
          if negb (isdigit c) && negb (bool_decide (c = "x"%char))
          then mapError ("Invalid char " +:+ Numbers.to_string (to_i8 (Numbers.code c)) +:+ " in int key")
          else Ret (addKeyChar c p)
      end
  | VALUE :: _ =>
      match labelOf c with
      | OpenBrace => Ret (addValueChar c p)
      | CloseBrace =>
          match mValueType p with
          | INT => addMapping p
          | _ => mapError "Internal parser error: unknown value type on closing brace"
          end
      | Backslash => Ret (pushState ESCAPE p)
      | Quote =>
          match mValueType p with
          | NONE => Ret (withType STRING p)
          | STRING => addMapping p
          | INT => mapError (String "034"%char " in int value is not allowed")
          end
      | Space =>
          match mValueType p with
          | INT => popState p
          | STRING => Ret (addValueChar c p)
          | NONE => Ret p
          end
      | Colon => Ret (addValueChar c p)
      | Comma => match mValueType p with INT => addMapping p | _ => Ret (addValueChar c p) end
      | Other => Ret (addValueChar c (digitType c p))
      end
  end.

Fixpoint steps (p : MapParser) (s : string) : outcome MapParser :=
  match s with
  | String c s' => let! p' := step p c in steps p' s'
  | EmptyString => Ret p
  end.

Definition start : MapParser := mkParser [SCAN] "" NONE "" [].

(** MapParser::parse on a fresh parser, as MapConverter::parseMap calls it. *)
Definition parseMap (data : string) : outcome (list Mapping) :=
  let! p := steps start data in Ret (mappings p).

(** * The converter *)

Definition mapArgs : list ConverterArg := [argStr "map" ArgSTRING ""].
Definition mapSetArgs (values : ConverterArgValues) : outcome (list Mapping) :=
  let! val := ArgValues.getArgValue values "map" in parseMap (ArgValue.as_str val).

(** MapConverter::toMqtt *)
Definition mapToMqtt (m : list Mapping) (data : list Z) : outcome (MqttValue D) :=
  if negb (ModbusRegisters.getCount data =? 1) then mapError "Cannot map multiple registers"
  else
    let! v := ModbusRegisters.getValue data 0 in
    match findRegValue v m with
    | None => Ret (MqttValue.fromInt v)
    | Some it => match mMqttValue it with
                 | VarInt i => Ret (MqttValue.fromInt i)
                 | VarStr s => Ret (MqttValue.fromString s)
                 end
    end.

(** Map::findVariant *)
Fixpoint findVariant (pValue : MqttValue D) (m : list Mapping) : outcome (option Mapping) :=
  match m with
  | [] => Ret None
  | it :: m' =>
      match mMqttValue it with
      | VarInt i =>
          let! val := MqttValue.getInt pValue in
          if i =? val then Ret (Some it) else findVariant pValue m'
      | VarStr s =>
          if bool_decide (s = MqttValue.getString pValue) then Ret (Some it) else findVariant pValue m'
      end
  end.

(** MapConverter::toModbus; Int16Converter() is value-initialised, so that its
    mSwapBytes is false. *)
Definition mapToModbus (m : list Mapping) (value : MqttValue D) (registerCount : Z) : outcome (list Z) :=
  if negb (registerCount =? 1) then mapError "Cannot map multiple registers"
  else
    let! it := findVariant value m in
    match it with
    | None => int16ToModbus false value registerCount
    | Some it => Ret [mRegisterValue it]
    end.

(** * What the parser builds *)

(** Every register and every value is mapped once; the values are those of their
    C++ types. *)
Definition validMapping (x : Mapping) : Prop :=
  is_u16 (mRegisterValue x)
  /\ match mMqttValue x with VarInt i => is_i32 i | VarStr s => cstr s = s end.
Definition wf (m : list Mapping) : Prop :=
  NoDup (mRegisterValue <$> m) /\ NoDup (mMqttValue <$> m) /\ Forall validMapping m.

Lemma cstr_idem s : cstr (cstr s) = cstr s.
Proof.
  induction s as [|c s IH]; [done|]. cbn [cstr]. destruct (Numbers.code c =? 0) eqn:E; [done|].
  cbn [cstr]. by rewrite E, IH.
Qed.

Lemma findRegValue_None v m : findRegValue v m = None <-> v ∉ (mRegisterValue <$> m).
Proof.
  induction m as [|x m IH]; cbn [findRegValue]; [split; [intros _; apply not_elem_of_nil|done]|].
  rewrite fmap_cons, not_elem_of_cons. destruct (Z.eqb_spec (mRegisterValue x) v) as [E|E]; [|naive_solver].
  split; [done|]. intros [N _]. by destruct N.
Qed.

Lemma findRegValue_Some v m x : findRegValue v m = Some x -> x ∈ m /\ mRegisterValue x = v.
Proof.
  induction m as [|y m IH]; cbn [findRegValue]; [done|].
  destruct (Z.eqb_spec (mRegisterValue y) v) as [E|E]; intros F.
  - injection F as <-. split; [left|done].
  - destruct (IH F). split; [by right|done].
Qed.

Lemma findRegValue_found m x :
  NoDup (mRegisterValue <$> m) -> x ∈ m -> findRegValue (mRegisterValue x) m = Some x.
Proof.
  induction m as [|y m IH]; intros N I; [by apply elem_of_nil in I|].
  rewrite fmap_cons, NoDup_cons in N. destruct N as [Ny N]. cbn [findRegValue].
  apply elem_of_cons in I as [->|I]; [by rewrite Z.eqb_refl|].
  destruct (Z.eqb_spec (mRegisterValue y) (mRegisterValue x)) as [E|E]; [|by apply IH].
  destruct Ny. rewrite E. by apply list_elem_of_fmap_2.
Qed.

Lemma sameVariant_eq a b : sameVariant a b = true <-> a = b.
Proof.
  destruct a, b; cbn [sameVariant]; rewrite ?Z.eqb_eq, ?bool_decide_eq_true; naive_solver.
Qed.

Lemma existsb_variant v m :
  existsb (fun x => sameVariant v (mMqttValue x)) m = false <-> v ∉ (mMqttValue <$> m).
Proof.
  induction m as [|x m IH]; cbn [existsb]; [split; [intros _; apply not_elem_of_nil|done]|].
  rewrite orb_false_iff, IH, fmap_cons, not_elem_of_cons, <- not_true_iff_false, sameVariant_eq. done.
Qed.

Lemma popState_mappings p p' : popState p = Ret p' -> mappings p' = mappings p.
Proof. unfold popState. destruct (mCurrentState p); naive_solver. Qed.

Lemma getUInt16_range v r : MqttValue.getUInt16 (D := D) v = Ret r -> is_u16 r.
Proof.
  unfold MqttValue.getUInt16. destruct (MqttValue.getInt v) as [i|]; cbn [obind]; [|done].
  destruct ((i <? 0) || (UINT16_MAX <? i)) eqn:E; [done|]. intros F. injection F as <-.
  unfold is_u16, UINT16_MAX in *. lia.
Qed.

Lemma addMapping_wf p p' : addMapping p = Ret p' -> wf (mappings p) -> wf (mappings p').
Proof.
  unfold addMapping. intros A (Nr & Nv & F). case_bool_decide; [done|].
  destruct (MqttValue.getUInt16 _) as [r|] eqn:U; cbn [obind] in A; [|done].
  destruct (findRegValue r (mappings p)) eqn:R; [done|]. apply findRegValue_None in R.
  destruct (existsb _ _) eqn:X; [done|]. apply existsb_variant in X.
  apply popState_mappings in A. rewrite A. cbn [mappings]. unfold wf. rewrite !fmap_app, !NoDup_app.
  assert (V : validMapping (match mValueType p with
                            | INT => intMapping r (atoi (mValue p))
                            | _ => strMapping r (mValue p) end)).
  { split; [destruct (mValueType p); exact (getUInt16_range _ _ U)|].
    destruct (mValueType p); cbn; try apply cstr_idem. apply (to_signed_range 32). lia. }
  split; [|split; [|apply Forall_app; split; [done|by constructor]]]; (split; [done|split; [|apply NoDup_singleton]]);
    intros y Hy H1; apply list_elem_of_singleton in H1; subst y; [|done].
  by destruct (mValueType p).
Qed.

(** A character leaves the map alone or ends a mapping. *)
Lemma step_mappings p c p' :
  step p c = Ret p' -> mappings p' = mappings p \/ addMapping p = Ret p'.
Proof.
  unfold step. destruct (mCurrentState p) as [|st l] eqn:E; [done|].
  assert (A : forall q q', addEscapedChar c q = Ret q' -> mappings q' = mappings q).
  { intros q q'. unfold addEscapedChar, popState. destruct (mCurrentState q) as [|? [|[] ?]]; cbn; naive_solver. }
  assert (T : forall q, mappings (digitType c q) = mappings q).
  { intros q. unfold digitType. destruct (mValueType q); [destruct (isdigit c)|..]; done. }
  destruct st, (labelOf c); try destruct (mValueType p); try case_bool_decide;
    try destruct (isdigit c); intros S; cbn in S; try done;
    try (by left; apply popState_mappings in S); try (by left; eapply A); try (by right);
    repeat case_bool_decide; simplify_eq; cbn; rewrite ?T; auto.
Qed.

Lemma steps_wf p s p' : steps p s = Ret p' -> wf (mappings p) -> wf (mappings p').
Proof.
  revert p. induction s as [|c s IH]; cbn [steps]; intros p S W; [by injection S as <-|].
  destruct (step p c) as [q|] eqn:E; cbn [obind] in S; [|done]. eapply IH; [exact S|].
  destruct (step_mappings p c q E) as [->|A]; [done|]. by eapply addMapping_wf.
Qed.

Lemma parseMap_wf data m : parseMap data = Ret m -> wf m.
Proof.
  unfold parseMap. destruct (steps start data) as [p|] eqn:E; cbn [obind]; [|done].
  intros F. injection F as <-. eapply steps_wf; [exact E|].
  split; [constructor|]. split; constructor.
Qed.

(** The value a mapping publishes. *)
Definition variantValue (v : MqttVariant) : MqttValue D :=
  match v with VarInt i => VInt i | VarStr s => VBinary s end.

Lemma mapToMqtt_found m x :
  wf m -> x ∈ m -> mapToMqtt m [mRegisterValue x] = Ret (variantValue (mMqttValue x)).
Proof.
  intros (Nr & _ & F) I. unfold mapToMqtt. cbn [negb]. change (ModbusRegisters.getCount _ =? 1) with true.
  cbn [negb]. rewrite getValue_cons. cbn [obind]. rewrite findRegValue_found by done.
  rewrite Forall_forall in F. destruct (F x I) as [_ V]. destruct (mMqttValue x) as [i|s]; cbn.
  - unfold MqttValue.fromInt, to_i32. by rewrite to_signed_small.
  - unfold MqttValue.fromString. by rewrite V.
Qed.

(** A map that was parsed maps no register value and no MQTT value twice, and
    publishes for each register it maps exactly the value given for it; any other
    register is published as its number. *)
Theorem parsed_map_injective data m :
  parseMap data = Ret m ->
  NoDup (mRegisterValue <$> m) /\ NoDup (mMqttValue <$> m)
  /\ (forall x, x ∈ m -> mapToMqtt m [mRegisterValue x] = Ret (variantValue (mMqttValue x)))
  /\ (forall r, is_u16 r -> r ∉ (mRegisterValue <$> m) -> mapToMqtt m [r] = Ret (VInt r)).
Proof.
  intros P. pose proof (parseMap_wf _ _ P) as W. split; [apply W|]. split; [apply W|].
  split; [intros x; by apply mapToMqtt_found|]. intros r R N. unfold mapToMqtt.
  change (ModbusRegisters.getCount _ =? 1) with true. cbn [negb]. rewrite getValue_cons. cbn [obind].
  apply findRegValue_None in N. rewrite N. unfold MqttValue.fromInt, to_i32.
  rewrite to_signed_small by (unfold is_u16 in R; lia). done.
Qed.

(** * Commands through a map *)

Definition isIntMapping (x : Mapping) : bool := match mMqttValue x with VarInt _ => true | _ => false end.

(** All values are integers, or all are strings. *)
Definition uniform (m : list Mapping) : bool := forallb isIntMapping m || forallb (negb ∘ isIntMapping) m.

Lemma findVariant_ints m x i v :
  forallb isIntMapping m = true -> NoDup (mMqttValue <$> m) -> x ∈ m -> mMqttValue x = VarInt i ->
  MqttValue.getInt v = Ret i -> findVariant v m = Ret (Some x).
Proof.
  intros A N I E G. induction m as [|y m IH]; [by apply elem_of_nil in I|].
  cbn [forallb] in A. apply andb_prop in A as [Ay A]. rewrite fmap_cons, NoDup_cons in N.
  destruct N as [Ny N]. cbn [findVariant]. unfold isIntMapping in Ay.
  destruct (mMqttValue y) as [j|] eqn:Ey; [|done]. rewrite G. cbn [obind].
  apply elem_of_cons in I as [->|I].
  - rewrite E in Ey. injection Ey as ->. by rewrite Z.eqb_refl.
  - destruct (Z.eqb_spec j i) as [->|]; [|by apply IH]. destruct Ny. rewrite <- E.
    by apply list_elem_of_fmap_2.
Qed.

Lemma findVariant_strs m x s v :
  forallb (negb ∘ isIntMapping) m = true -> NoDup (mMqttValue <$> m) -> x ∈ m ->
  mMqttValue x = VarStr s -> MqttValue.getString v = s -> findVariant v m = Ret (Some x).
Proof.
  intros A N I E G. induction m as [|y m IH]; [by apply elem_of_nil in I|].
  cbn [forallb] in A. apply andb_prop in A as [Ay A]. rewrite fmap_cons, NoDup_cons in N.
  destruct N as [Ny N]. cbn [findVariant]. unfold isIntMapping in Ay. cbn in Ay.
  destruct (mMqttValue y) as [|t] eqn:Ey; [done|]. rewrite G.
  apply elem_of_cons in I as [->|I].
  - rewrite E in Ey. injection Ey as ->. by rewrite bool_decide_true.
  - case_bool_decide as B; [|by apply IH]. subst t. destruct Ny. rewrite <- E.
    by apply list_elem_of_fmap_2.
Qed.

(** With a parsed map of integers or of strings, the text published for a
    mapped register, sent back as a command, writes that register value. *)
Theorem map_command_roundtrip data m x :
  parseMap data = Ret m -> uniform m = true -> x ∈ m ->
  (let! v := mapToMqtt m [mRegisterValue x] in
   mapToModbus m (MqttValue.fromString (MqttValue.getString v)) 1) = Ret [mRegisterValue x].
Proof.
  intros P U I. pose proof (parseMap_wf _ _ P) as W. rewrite mapToMqtt_found by done. cbn [obind].
  destruct W as (_ & Nv & F). rewrite Forall_forall in F. destruct (F x I) as [_ V].
  unfold mapToModbus. change (1 =? 1) with true. cbn [negb].
  assert (X : findVariant (MqttValue.fromString (MqttValue.getString (variantValue (mMqttValue x)))) m
              = Ret (Some x)); [|by rewrite X].
  apply orb_prop in U as [U|U]; destruct (mMqttValue x) as [i|s] eqn:E.
  - apply (findVariant_ints m x i); try done. cbn [variantValue MqttValue.getString].
    unfold MqttValue.fromString, MqttValue.getInt. rewrite !MqttValue.cstr_to_string.
    rewrite Numbers.strtol_to_string by (unfold is_i32, INT64_MIN, INT64_MAX in *; (lia || auto)).
    cbn. f_equal. by apply to_signed_small.
  - exfalso. rewrite forallb_forall in U. apply list_elem_of_In, U in I. unfold isIntMapping in I.
    by rewrite E in I.
  - exfalso. rewrite forallb_forall in U. apply list_elem_of_In, U in I. cbn in I. unfold isIntMapping in I.
    by rewrite E in I.
  - apply (findVariant_strs m x s); try done.
Qed.

(** * Printing a map *)

(** The characters a printed string value escapes. *)
Definition mustEscape (c : ascii) : bool :=
  match labelOf c with CloseBrace | Backslash | Quote => true | _ => false end.
Fixpoint escapeStr (s : string) : string :=
  match s with
  | EmptyString => EmptyString
  | String c s' => if mustEscape c then String "\" (String c (escapeStr s')) else String c (escapeStr s')
  end.

Definition printVariant (v : MqttVariant) : string :=
  match v with
  | VarInt i => Numbers.to_string i
  | VarStr s => String "034" (escapeStr s +:+ String "034" EmptyString)
  end.

(** The entries, the last one followed by a closing brace. *)
Fixpoint printEntries (m : list Mapping) : string :=
  match m with
  | [] => "}"
  | x :: m' =>
      Numbers.to_string (mRegisterValue x) +:+ ": " +:+ printVariant (mMqttValue x)
      +:+ (match m' with [] => "}" | _ => ", " +:+ printEntries m' end)
  end.
Definition printMap (m : list Mapping) : string := "{" +:+ printEntries m.

Fixpoint allDigits (s : string) : bool :=
  match s with EmptyString => true | String c s' => isdigit c && allDigits s' end.

Lemma isdigit_label c : isdigit c = true -> labelOf c = Other.
Proof. destruct c as [[] [] [] [] [] [] [] []]; try (intros E; vm_compute in E; done); done. Qed.

Lemma allDigits_digits fuel n rest :
  allDigits rest = true -> allDigits (Numbers.digits fuel n rest) = true.
Proof.
  revert n rest. induction fuel as [|fuel IH]; intros n rest A; [done|]. cbn [Numbers.digits].
  assert (B : allDigits (String (Numbers.digitChar (n mod 10)) rest) = true).
  { cbn [allDigits]. unfold isdigit. rewrite Numbers.isDigit_10 by (apply Z.mod_pos_bound; lia). done. }
  destruct (n <? 10); auto.
Qed.

Lemma steps_append p s t : steps p (s +:+ t) = (let! q := steps p s in steps q t).
Proof.
  revert p. induction s as [|c s IH]; intros p; [done|]. cbn [steps].
  change ((String c s) +:+ t) with (String c (s +:+ t)). cbn [steps].
  destruct (step p c); cbn [obind]; auto.
Qed.

(** The digits of a key. *)
Lemma steps_key st k t v m s :
  allDigits s = true ->
  steps (mkParser (KEY :: st) k t v m) s = Ret (mkParser (KEY :: st) (k +:+ s) t v m).
Proof.
  revert k. induction s as [|c s IH]; intros k A; [by rewrite app_nil_s|].
  cbn [allDigits] in A. apply andb_prop in A as [Ac A]. cbn [steps]. unfold step. cbn [mCurrentState].
  rewrite isdigit_label, Ac by done. cbn [negb andb obind].
  unfold addKeyChar. cbn [mCurrentState mKey mValueType mValue mappings]. rewrite IH by done.
  unfold appendTo. by rewrite app_assoc_s.
Qed.

(** The digits of an integer value. *)
Lemma steps_int st k v m s :
  allDigits s = true ->
  steps (mkParser (VALUE :: st) k INT v m) s = Ret (mkParser (VALUE :: st) k INT (v +:+ s) m).
Proof.
  revert v. induction s as [|c s IH]; intros v A; [by rewrite app_nil_s|].
  cbn [allDigits] in A. apply andb_prop in A as [Ac A]. cbn [steps]. unfold step. cbn [mCurrentState].
  rewrite isdigit_label by done. cbn [negb andb obind].
  unfold addValueChar, digitType. cbn [mCurrentState mKey mValueType mValue mappings]. rewrite IH by done.
  unfold appendTo. by rewrite app_assoc_s.
Qed.

(** The escaped characters of a string value. *)
Lemma steps_str st k v m s :
  steps (mkParser (VALUE :: st) k STRING v m) (escapeStr s)
  = Ret (mkParser (VALUE :: st) k STRING (v +:+ s) m).
Proof.
  revert v. induction s as [|c s IH]; intros v; [by rewrite app_nil_s|].
  assert (X : forall w, appendTo v c +:+ w = v +:+ String c w).
  { intros w. unfold appendTo. by rewrite app_assoc_s. }
  cbn [escapeStr]. unfold mustEscape.
  assert (E : steps (mkParser (VALUE :: st) k STRING v m) (String "\" (String c (escapeStr s)))
              = steps (mkParser (VALUE :: st) k STRING (appendTo v c) m) (escapeStr s)) by done.
  destruct (labelOf c) eqn:L; rewrite ?E; try (rewrite IH; by rewrite X);
    cbn [steps]; unfold step; cbn [mCurrentState]; rewrite L;
    cbn [mValueType obind]; unfold addValueChar, digitType;
    cbn [mValueType mCurrentState mKey mValue mappings]; rewrite IH; by rewrite X.
Qed.

(** The parser between two entries. *)
Definition between (acc : list Mapping) : MapParser := mkParser [SCAN] "" NONE "" acc.

Lemma nonneg_text n :
  0 <= n -> exists c s, Numbers.to_string n = String c s /\ isdigit c = true /\ allDigits s = true.
Proof.
  intros Hn. unfold Numbers.to_string. destruct (Z.ltb_spec n 0); [lia|].
  pose proof (allDigits_digits (Numbers.digitFuel n) n EmptyString eq_refl) as A.
  pose proof (Numbers.digitFuel_enough n Hn).
  destruct (Numbers.digits_head (Numbers.digitFuel n) n EmptyString) as (d & s & E & _);
    [lia|unfold Numbers.digitFuel; lia|].
  rewrite E in *. cbn [allDigits] in A. apply andb_prop in A as [Ac A]. by eexists _, _.
Qed.

Lemma negative_text n :
  n < 0 -> exists s, Numbers.to_string n = String "-" s /\ allDigits s = true /\ s <> "".
Proof.
  intros Hn. unfold Numbers.to_string. destruct (Z.ltb_spec n 0); [|lia].
  eexists; split; [done|]. split; [by apply allDigits_digits|].
  pose proof (Numbers.digitFuel_enough (- n) ltac:(lia)).
  destruct (Numbers.digits_head (Numbers.digitFuel (- n)) (- n) EmptyString) as (d & s & E & _);
    [lia|unfold Numbers.digitFuel; lia|]. by rewrite E.
Qed.

(** The key and the colon of an entry. *)
Lemma steps_entry_key acc r rest :
  0 <= r ->
  steps (between acc) (Numbers.to_string r +:+ ": " +:+ rest)
  = steps (mkParser [SCAN] (Numbers.to_string r) NONE "" acc) rest.
Proof.
  intros Hr. destruct (nonneg_text r Hr) as (c & s & -> & Ac & A).
  change (String c s +:+ ": " +:+ rest) with (String c (s +:+ ": " +:+ rest)). cbn [steps].
  unfold step, between. cbn [mCurrentState mKey]. rewrite isdigit_label by done.
  rewrite bool_decide_true, Ac by done. cbn [obind].
  unfold addKeyChar, pushState, withState. cbn [mCurrentState mKey mValueType mValue mappings].
  rewrite steps_append, steps_key by done. done.
Qed.

(** The digits of an integer value, up to the character that ends it. *)
Lemma steps_entry_int acc k i rest :
  k <> "" ->
  steps (mkParser [SCAN] k NONE "" acc) (Numbers.to_string i +:+ rest)
  = steps (mkParser [VALUE; SCAN] k INT (Numbers.to_string i) acc) rest.
Proof.
  intros Hk. destruct (Z.ltb_spec i 0) as [L|L].
  - destruct (negative_text i L) as (s & -> & A & N). destruct s as [|c s]; [done|].
    cbn [allDigits] in A. apply andb_prop in A as [Ac A].
    change (String "-" (String c s) +:+ rest) with (String "-" (String c (s +:+ rest))). cbn [steps].
    unfold step at 1. cbn [mCurrentState mKey]. change (labelOf "-") with Other. cbn match.
    rewrite bool_decide_false by done. cbn [obind].
    change (step _ c) with (step (mkParser [VALUE; SCAN] k NONE "-" acc) c).
    unfold step. cbn [mCurrentState]. rewrite isdigit_label by done. cbn [obind]. unfold digitType.
    cbn [mValueType]. rewrite Ac. unfold addValueChar, withType.
    cbn [mValueType mCurrentState mKey mValue mappings]. by rewrite steps_append, steps_int.
  - destruct (nonneg_text i L) as (c & s & -> & Ac & A).
    change (String c s +:+ rest) with (String c (s +:+ rest)). cbn [steps].
    unfold step. cbn [mCurrentState mKey]. rewrite isdigit_label by done.
    rewrite bool_decide_false by done. cbn [obind]. unfold digitType. cbn [mValueType]. rewrite Ac.
    unfold addValueChar, withType, pushState, withState.
    cbn [mValueType mCurrentState mKey mValue mappings]. by rewrite steps_append, steps_int.
Qed.

Lemma to_string_nonempty z : Numbers.to_string z <> "".
Proof.
  destruct (Z.ltb_spec z 0) as [L|L].
  - by destruct (negative_text z L) as (s & -> & _).
  - by destruct (nonneg_text z L) as (c & s & -> & _).
Qed.

Lemma getUInt16_text r :
  is_u16 r -> MqttValue.getUInt16 (MqttValue.fromString (D := D) (Numbers.to_string r)) = Ret r.
Proof.
  unfold is_u16. intros Hr. unfold MqttValue.getUInt16, MqttValue.fromString, MqttValue.getInt.
  rewrite !MqttValue.cstr_to_string, Numbers.strtol_to_string
    by (unfold INT64_MIN, INT64_MAX; (lia || auto)).
  cbn [bool_decide]. rewrite bool_decide_true by done. cbn [negb obind]. unfold to_i32.
  rewrite to_signed_small by lia.
  assert (X : (r <? 0) || (UINT16_MAX <? r) = false) by (unfold UINT16_MAX; lia). by rewrite X.
Qed.

Lemma atoi_text i : is_i32 i -> atoi (Numbers.to_string i) = i.
Proof.
  unfold is_i32. intros Hi. unfold atoi.
  rewrite !MqttValue.cstr_to_string, Numbers.strtol_to_string
    by (unfold INT64_MIN, INT64_MAX; (lia || auto)).
  by apply to_signed_small.
Qed.

(** The end of a value adds its mapping. *)
Lemma addMapping_new acc x st t v :
  validMapping x -> mRegisterValue x ∉ (mRegisterValue <$> acc) -> mMqttValue x ∉ (mMqttValue <$> acc) ->
  (match t with INT => VarInt (atoi v) | _ => VarStr (cstr v) end) = mMqttValue x ->
  addMapping (mkParser (st :: [SCAN]) (Numbers.to_string (mRegisterValue x)) t v acc)
  = Ret (between (acc ++ [x])).
Proof.
  intros [V _] Nr Nv E. unfold addMapping. cbn [mKey mappings mValueType mValue mCurrentState].
  rewrite bool_decide_false by apply to_string_nonempty. rewrite getUInt16_text by done. cbn [obind].
  apply findRegValue_None in Nr. rewrite Nr. apply existsb_variant in Nv.
  assert (M : (match t with INT => intMapping (mRegisterValue x) (atoi v)
                       | _ => strMapping (mRegisterValue x) v end) = x).
  { destruct x as [r y]. cbn in *. unfold intMapping, strMapping. destruct t; by rewrite E. }
  by rewrite M, Nv.
Qed.

(** One entry with the character after it. *)
Lemma steps_entry acc x e rest :
  validMapping x -> mRegisterValue x ∉ (mRegisterValue <$> acc) -> mMqttValue x ∉ (mMqttValue <$> acc) ->
  labelOf e = Comma \/ labelOf e = CloseBrace ->
  steps (between acc) (Numbers.to_string (mRegisterValue x) +:+ ": " +:+ printVariant (mMqttValue x)
                       +:+ String e rest)
  = steps (between (acc ++ [x])) rest.
Proof.
  intros V Nr Nv He. rewrite steps_entry_key by apply V.
  destruct (mMqttValue x) as [i|s] eqn:E; cbn [printVariant].
  - rewrite steps_entry_int by apply to_string_nonempty. cbn [steps]. unfold step. cbn [mCurrentState mValueType].
    assert (A := addMapping_new acc x VALUE INT (Numbers.to_string i) V Nr). rewrite E in A.
    destruct V as [_ V]. rewrite E in V. rewrite atoi_text in A by done.
    destruct He as [-> | ->]; by rewrite A.
  - change (String "034" (escapeStr s +:+ String "034" EmptyString) +:+ String e rest)
      with (String "034" ((escapeStr s +:+ String "034" EmptyString) +:+ String e rest)).
    rewrite app_assoc_s. cbn [steps]. unfold step at 1. cbn [mCurrentState mKey].
    change (labelOf "034") with Quote. cbn match. rewrite bool_decide_false by apply to_string_nonempty.
    cbn [obind]. unfold withType, pushState, withState. cbn [mValueType mCurrentState mKey mValue mappings].
    rewrite steps_append, steps_str. cbn [obind].
    change (String "034" EmptyString +:+ String e rest) with (String "034" (String e rest)).
    cbn [steps]. unfold step at 1. cbn [mCurrentState mValueType]. change (labelOf "034") with Quote. cbn match.
    change ("" +:+ s) with s.
    rewrite (addMapping_new acc x VALUE STRING s) by (done || (rewrite ?E; done) || (destruct V as [_ V]; rewrite E in *; by rewrite V)).
    cbn [obind]. unfold step, between. cbn [mCurrentState mValueType]. by destruct He as [-> | ->].
Qed.

Lemma steps_entries m acc :
  wf (acc ++ m) -> steps (between acc) (printEntries m) = Ret (between (acc ++ m)).
Proof.
  revert acc. induction m as [|x m IH]; intros acc W; [by rewrite app_nil_r|].
  assert (W' : wf ((acc ++ [x]) ++ m)) by (by rewrite <- (assoc_L (++)%list)).
  destruct W as (Nr & Nv & F). rewrite fmap_app, fmap_cons, NoDup_app in Nr.
  rewrite fmap_app, fmap_cons, NoDup_app in Nv.
  apply Forall_app in F as [_ F]. apply Forall_cons in F as [Vx _].
  destruct Nr as (_ & Nr & _), Nv as (_ & Nv & _).
  assert (Hr : mRegisterValue x ∉ (mRegisterValue <$> acc)) by (intros I; apply (Nr _ I); left).
  assert (Hv : mMqttValue x ∉ (mMqttValue <$> acc)) by (intros I; apply (Nv _ I); left).
  cbn [printEntries]. destruct m as [|y m].
  - rewrite (steps_entry acc x "}" "") by auto. done.
  - change (", " +:+ printEntries (y :: m)) with (String "," (String " " (printEntries (y :: m)))).
    rewrite steps_entry by auto.
    change (steps (between (acc ++ [x])) (String " " (printEntries (y :: m))))
      with (steps (between (acc ++ [x])) (printEntries (y :: m))).
    rewrite IH by done. by rewrite <- (assoc_L (++)%list).
Qed.

(** Every map without repeated registers or values has a text the parser
    reads back as that map: register values in decimal, integers of either sign,
    strings quoted, with closing braces, quotes and backslashes escaped. *)
Theorem map_parse_printed m : wf m -> parseMap (printMap m) = Ret m.
Proof.
  intros W. unfold parseMap, printMap.
  change (steps start ("{" +:+ printEntries m)) with (steps (between []) (printEntries m)).
  rewrite steps_entries by done. done.
Qed.

End parser.

(** * Witnesses *)

Definition demoText : string := "{1: 5, 0x10: -7, 30: 12}".
Definition demoInts : list Mapping := [intMapping 1 5; intMapping 16 (-7); intMapping 30 12].
Definition demoMixed : list Mapping :=
  [intMapping 1 (-5); strMapping 2 "on}"; strMapping 65535 (String "034" "\: {,")].

Lemma parsed_map_injective_witness :
  parseMap (D := Z) demoText = Ret demoInts /\ mapToMqtt (D := Z) demoInts [16] = Ret (VInt (-7)).
Proof.
  assert (P : parseMap (D := Z) demoText = Ret demoInts) by (vm_compute; reflexivity).
  split; [exact P|]. destruct (parsed_map_injective (D := Z) demoText demoInts P) as (_ & _ & R & _).
  apply (R (intMapping 16 (-7))). right. left.
Defined.

Lemma map_command_roundtrip_witness :
  (let! v := mapToMqtt (D := Z) demoInts [16] in
   mapToModbus demoInts (MqttValue.fromString (MqttValue.getString v)) 1) = Ret [16].
Proof.
  apply (map_command_roundtrip (D := Z) demoText demoInts (intMapping 16 (-7)));
    [vm_compute; reflexivity|reflexivity|right; left].
Defined.

Lemma map_parse_printed_witness : parseMap (D := Z) (printMap demoMixed) = Ret demoMixed.
Proof.
  apply (map_parse_printed (D := Z) demoMixed).
  split; [|split]; [apply (bool_decide_unpack _); vm_compute; exact I..|].
  repeat constructor; cbn; unfold is_u16, is_i32; (lia || reflexivity).
Defined.

(** * What the parser gets wrong *)

(** A closing brace in a string value is refused, although the code appends it. *)
Theorem map_brace_in_string :
  parseMap (D := Z) ("{1: " +:+ String "034" ("a}" +:+ String "034" "}"))
  = Fault (ConvException "Internal parser error: unknown value type on closing brace").
Proof. vm_compute. reflexivity. Qed.

(** A space before a comma does not end an integer: the next key goes on with it. *)
Theorem map_space_before_comma : parseMap (D := Z) "{1: 5 , 2: 6}" = Ret [intMapping 1 52].
Proof. vm_compute. reflexivity. Qed.

(** A space before the closing brace empties the stack of states, and anything
    after it is undefined behaviour. *)
Theorem map_space_before_brace :
  parseMap (D := Z) "{1: 5 }" = Ret [intMapping 1 5]
  /\ parseMap (D := Z) "{1: 5 } " = Fault UndefinedBehaviour.
Proof. vm_compute. auto. Qed.

(** With an integer before it in the map, the text of a string mapping is refused
    as a command. *)
Theorem map_mixed_refused :
  mapToModbus (D := Z) [intMapping 1 5; strMapping 2 "on"] (MqttValue.fromString "on") 1
  = Fault (ConvException "Cannot convert on to int").
Proof. vm_compute. reflexivity. Qed.

(** An unmapped register above 32767 is published, but refused as a command. *)
Theorem map_unmapped_one_way :
  mapToMqtt (D := Z) [] [40000] = Ret (VInt 40000)
  /\ mapToModbus (D := Z) [] (VInt 40000) 1 = outOfRange 40000.
Proof. vm_compute. auto. Qed.

End MapConv.
