(* ===== verification/Converters.v ===== *)
(** Converters by name: the debug converter (stdconv/debug.hpp), the converter
    objects of the std plugin (stdconv/plugin.cpp), converter specifications
    (conv_name_parser.cpp, strutils.hpp) and their instantiation
    (ModMqtt::createConverterFromString).

    rapidjson is an interface: what its writers print and its parser reads is not
    modelled, what the sources ask of them is. *)

From stdpp Require Import base gmap list strings.
From Stdlib Require Import ZArith Lia Ascii String.
From S2P Require Import Prelude Commands ConvTools ConvArgs StdConv MapConv.

#[local] Open Scope string_scope.
#[local] Open Scope Z_scope.

(** * JSON *)

(** A rapidjson::Value; numbers without a fraction that fit into 64 bits are
    integers, all others doubles. *)
Inductive Json (D : Type) : Type :=
| JNull
| JBool (b : bool)
| JInt (z : Z)
| JDouble (d : D)
| JString (s : string)
| JArray (l : list (Json D))
| JObject (members : list (string * Json D)).
Arguments JNull {D}.
Arguments JBool {D} b.
Arguments JInt {D} z.
Arguments JDouble {D} d.
Arguments JString {D} s.
Arguments JArray {D} l.
Arguments JObject {D} members.

(** A call of a rapidjson::Writer. *)
Inductive WriterCall (D : Type) : Type :=
| WStartObject | WEndObject | WStartArray | WEndArray
| WKey (s : string)
| WInt (z : Z)
| WInt64 (z : Z)
| WUint (z : Z)
| WDouble (d : D)
| WString (s : string)
| WSetMaxDecimalPlaces (n : Z).
Arguments WStartObject {D}.
Arguments WEndObject {D}.
Arguments WStartArray {D}.
Arguments WEndArray {D}.
Arguments WKey {D} s.
Arguments WInt {D} z.
Arguments WInt64 {D} z.
Arguments WUint {D} z.
Arguments WDouble {D} d.
Arguments WString {D} s.
Arguments WSetMaxDecimalPlaces {D} n.

(** A failed parse: the offset and the text of the error. *)
Record ParseError : Type := mkParseError { peOffset : Z; peText : string }.

(** rapidjson: the text a writer prints for a sequence of calls, the text of a
    document (indented or not), and the parser. *)
Class Rapidjson (D : Type) : Type := {
  writerText : list (WriterCall D) -> string;
  documentText : bool -> Json D -> string;
  parseDocument : string -> Json D + ParseError
}.

(** * Converter objects *)

Section converters.
Context {D : Type} `{CDouble D}.

(** class DataConverter with its arguments set. *)
Record DataConverter : Type := mkConverter {
  toMqtt : list Z -> outcome (MqttValue D);
  toModbus : MqttValue D -> Z -> outcome (list Z)
}.

(** A converter object: getArgs, the converter setArgValues leaves, and the one
    that is used when setArgValues is not called. *)
Record ConverterObject : Type := mkObject {
  getArgs : list ConverterArg;
  setArgValues : ConverterArgValues -> outcome DataConverter;
  unset : DataConverter
}.

Definition readOnly (f : list Z -> outcome (MqttValue D)) : DataConverter :=
  mkConverter f (fun _ _ => notImplementedModbus).

(** Members without an initial value are read before they are set. *)
Definition uninitialised : DataConverter :=
  mkConverter (fun _ => Fault UndefinedBehaviour) (fun _ _ => Fault UndefinedBehaviour).

(** A converter with members of type [A]. *)
Definition withArgs {A} (args : list ConverterArg) (set : ConverterArgValues -> outcome A)
    (conv : A -> DataConverter) (initial : option A) : ConverterObject :=
  mkObject args (fun values => let! a := set values in Ret (conv a))
    (match initial with Some a => conv a | None => uninitialised end).

(** * debug.hpp *)

Section debug.
Context `{Rapidjson D}.

Definition hexDigit (d : Z) : ascii := byteChar (if d <? 10 then 48 + d else 55 + d).

(** snprintf with 0x%04X on a 16 bit value. *)
Definition hex4 (v : Z) : string :=
  "0x" +:+ String (hexDigit (v / 4096 mod 16)) (String (hexDigit (v / 256 mod 16))
    (String (hexDigit (v / 16 mod 16)) (String (hexDigit (v mod 16)) EmptyString))).

(** addRawArrays *)
Definition addRawArrays (data : list Z) : list (string * Json D) :=
  [("raw", JArray (JInt <$> data)); ("hex", JArray ((fun v => JString (hex4 v)) <$> data))].

(** addInt16Section *)
Definition addInt16Section (val : Z) : list (string * Json D) :=
  let swapped := ConverterTools.setByteOrder val true in
  [("int16", JObject [("std.int16", JInt (to_i16 val)); ("std.int16(swap_bytes=true)", JInt (to_i16 swapped))]);
   ("uint16", JObject [("std.uint16", JInt val); ("std.uint16(swap_bytes=true)", JInt swapped)])].

(** addInt32Section and addUInt32Section: the four orders of two registers. *)
Definition addOrders (prefix : string) (f : bool -> bool -> outcome (Json D))
  : outcome (list (string * Json D)) :=
  let! a := f false false in
  let! b := f true false in
  let! c := f false true in
  let! d := f true true in
  Ret [(prefix, a); (prefix +:+ "(low_first=true)", b); (prefix +:+ "(swap_bytes=true)", c);
       (prefix +:+ "(low_first=true,swap_bytes=true)", d)].

Definition addInt32Section (data : list Z) : outcome (list (string * Json D)) :=
  let! m := addOrders "std.int32"
      (fun lf sb => let! v := ConverterTools.registersToInt32 data lf sb in Ret (JInt v)) in
  Ret [("int32", JObject m)].

Definition addUInt32Section (data : list Z) : outcome (list (string * Json D)) :=
  let! m := addOrders "std.uint32"
      (fun lf sb => let! v := ConverterTools.registersToInt32 data lf sb in Ret (JInt (to_u32 v))) in
  Ret [("uint32", JObject m)].

(** addFloat, on the bits of a float. *)
Definition isInfBits (bits : Z) : bool := Z.land bits 0x7fffffff =? 0x7f800000.
Definition addFloat (bits : Z) : Json D :=
  if isNaNBits bits then JString "nan"
  else if isInfBits bits then JString (if 0 <? bits then "inf" else "-inf")
  else JDouble (float_of_bits bits).

(** addFloat32Section: toNumber takes the high register first. *)
Definition addFloat32Section (data : list Z) : outcome (list (string * Json D)) :=
  let! r0 := ModbusRegisters.getValue data 0 in
  let! r1 := ModbusRegisters.getValue data 1 in
  let! m := addOrders "std.float32"
      (fun lf sb =>
         let! bits := ConverterTools.registersToInt32 (if lf then [r1; r0] else [r0; r1]) false sb in
         Ret (addFloat bits)) in
  Ret [("float32", JObject m)].

(** addStringSection *)
Definition addStringSection (data : list Z) : list (string * Json D) :=
  [("string", JString (bytesString (mjoin (packetBytes <$> data))))].

(** The document toMqtt builds. *)
Definition debugDocument (data : list Z) : outcome (Json D) :=
  let! sections :=
    (if ModbusRegisters.getCount data =? 1 then
       let! v := ModbusRegisters.getValue data 0 in Ret (addInt16Section v)
     else if ModbusRegisters.getCount data =? 2 then
       let! a := addInt32Section data in
       let! b := addUInt32Section data in
       let! c := addFloat32Section data in
       Ret (a ++ b ++ c)%list
     else Ret []) in
  Ret (JObject (addRawArrays data ++ sections ++ addStringSection data)%list).

Definition debugArgs : list ConverterArg := [argInt "pretty_print" ArgBOOL 0].
Definition debugSetArgs (values : ConverterArgValues) : outcome bool :=
  let! v := ArgValues.getArgValue values "pretty_print" in ArgValue.as_bool v.
Definition debugToMqtt (mPrettyPrint : bool) (data : list Z) : outcome (MqttValue D) :=
  let! doc := debugDocument data in Ret (MqttValue.fromBinary (documentText mPrettyPrint doc)).
Definition debugConverter (pretty : bool) : DataConverter :=
  mkConverter (debugToMqtt pretty) (fun _ _ => Fault (ConvException "std.debug is read-only")).

End debug.
(** * plugin.cpp *)

Section plugins.
Context `{Rapidjson D}.
Variable littleEndian : bool.

(** The converter objects StdConvPlugin::getConverter creates. *)
Definition objectOf (k : ConvKind) : ConverterObject :=
  match k with
  | KBit => withArgs bitArgs bitSetArgs (fun n => readOnly (bitToMqtt n)) None
  | KBitmask => withArgs bitmaskArgs bitmaskSetArgs (fun m => readOnly (bitmaskToMqtt m)) None
  | KDivide => withArgs (singleArgs divideArg) (singleSetArgs divideArg)
      (fun a => mkConverter (singleToMqtt divideMath a) (singleToModbus divideMath a)) None
  | KMultiply => withArgs (singleArgs multiplyArg) (singleSetArgs multiplyArg)
      (fun a => mkConverter (singleToMqtt multiplyMath a) (singleToModbus multiplyMath a)) None
  | KInt32 => withArgs int32Args int32SetArgs
      (fun a => mkConverter (int32ToMqtt a.1 a.2) (int32ToModbus a.1 a.2)) None
  | KScale => withArgs scaleArgs scaleSetArgs (fun c => readOnly (scaleToMqtt c)) None
  | KString => withArgs [] (fun _ => Ret tt)
      (fun _ => mkConverter (stringToMqtt littleEndian)
                  (fun v n => Ret (stringToModbus littleEndian v n))) (Some tt)
  | KInt16 => withArgs int16Args int16SetArgs
      (fun sb => mkConverter (int16ToMqtt sb) (int16ToModbus sb)) None
  | KUInt16 => withArgs int16Args int16SetArgs
      (fun sb => mkConverter (uint16ToMqtt sb) (uint16ToModbus sb)) None
  | KUInt32 => withArgs uint32Args uint32SetArgs
      (fun lf => mkConverter (uint32ToMqtt lf) (uint32ToModbus lf)) (Some false)
  | KFloat => withArgs floatArgs floatSetArgs
      (fun c => mkConverter (floatToMqtt c) (floatToModbus c)) None
  | KInt8 => withArgs int8Args int8SetArgs (fun f => readOnly (int8ToMqtt f)) (Some false)
  | KUInt8 => withArgs int8Args int8SetArgs (fun f => readOnly (uint8ToMqtt f)) (Some false)
  | KMap => withArgs MapConv.mapArgs MapConv.mapSetArgs
      (fun m => mkConverter (MapConv.mapToMqtt m) (MapConv.mapToModbus m)) (Some [])
  | KDebug => withArgs debugArgs debugSetArgs debugConverter (Some false)
  end.

(** class ConverterPlugin: getName and getConverter. *)
Record ConverterPlugin : Type := mkPlugin {
  pluginName : string;
  pluginConverter : string -> option ConverterObject
}.

Definition stdPlugin : ConverterPlugin :=
  mkPlugin "std" (fun name => objectOf <$> getConverter name).

(** * strutils.hpp *)

Fixpoint rtrim (s : string) : string :=
  match s with
  | EmptyString => EmptyString
  | String c s' =>
      let r := rtrim s' in
      if Numbers.isSpace c && bool_decide (r = EmptyString) then EmptyString else String c r
  end.
Definition ltrim (s : string) : string := Numbers.skipSpaces s.
Definition trim (s : string) : string := ltrim (rtrim s).

(** * conv_name_parser.cpp *)

Record ConverterSpecification : Type := mkSpecification {
  spPlugin : string;
  spConverter : string;
  spArguments : string
}.

(** The longest prefix of characters of a class, and the rest. *)
Fixpoint spanChars (P : ascii -> bool) (s : string) : string * string :=
  match s with
  | String c s' => if P c then let '(a, b) := spanChars P s' in (String c a, b) else (EmptyString, s)
  | EmptyString => (EmptyString, EmptyString)
  end.

(** [a-z0-9], and the characters "." matches. *)
Definition identChar (c : ascii) : bool :=
  let n := Numbers.code c in ((97 <=? n) && (n <=? 122)) || ((48 <=? n) && (n <=? 57)).
Definition dotChar (c : ascii) : bool :=
  let n := Numbers.code c in negb (n =? 10) && negb (n =? 13).

Definition expectChar (c : ascii) (s : string) : option string :=
  match s with String x s' => if bool_decide (x = c) then Some s' else None | EmptyString => None end.

(** The last character, and what is before it. *)
Fixpoint splitLast (s : string) : option (string * ascii) :=
  match s with
  | EmptyString => None
  | String c s' => match splitLast s' with
                   | Some (a, l) => Some (String c a, l)
                   | None => Some (EmptyString, c)
                   end
  end.

(** regex_match with RE_CONV: every quantifier is determined by the character
    that follows it. *)
Definition matchSpec (s : string) : option ConverterSpecification :=
  let '(plugin, s) := spanChars identChar s in
  if bool_decide (plugin = "") then None
  else
    s ← expectChar "." s;
    let '(conv, s) := spanChars identChar s in
    if bool_decide (conv = "") then None
    else
      let s := match s with String c s' => if Numbers.isSpace c then s' else s | EmptyString => s end in
      s ← expectChar "(" s;
      '(args, l) ← splitLast s;
      if bool_decide (l = ")"%char) && ArgParser.allChars dotChar args
      then Some (mkSpecification plugin conv args) else None.

(** ConverterNameParser::parse *)
Definition parseSpec (spec : string) : outcome ConverterSpecification :=
  match matchSpec (cstr (trim spec)) with
  | Some s => Ret s
  | None => ArgParser.parserError "Supply converter spec in form: plugin.converter(value1, param=value2, …)"
  end.

(** * modmqtt.cpp *)

(** createConverterInstance *)
Fixpoint createConverterInstance (plugins : list ConverterPlugin) (plugin name : string)
  : option ConverterObject :=
  match plugins with
  | [] => None
  | p :: l => if bool_decide (pluginName p = plugin) then pluginConverter p name
              else createConverterInstance l plugin name
  end.

(** createConverterFromString *)
Definition createConverterFromString (plugins : list ConverterPlugin) (pSpec : string)
  : outcome DataConverter :=
  let! parsed := parseSpec pSpec in
  match createConverterInstance plugins (spPlugin parsed) (spConverter parsed) with
  | None => ArgParser.parserError ("Converter " +:+ spPlugin parsed +:+ "." +:+ spConverter parsed
                                   +:+ " not found")
  | Some conv =>
      if negb (bool_decide (spArguments parsed = "()")) then
        let! values := ArgParser.parseArgs (getArgs conv) (spArguments parsed) in
        setArgValues conv values
      else Ret (unset conv)
  end.

(** * Specifications that are read back *)

Definition printSpec (plugin name : string) (l : list (string * string)) : string :=
  plugin +:+ "." +:+ name +:+ "(" +:+ ArgParser.printArgs l +:+ ")".

(** The names of plugins and converters; the characters of an argument. *)
Definition goodIdent (s : string) : Prop := s <> "" /\ ArgParser.allChars identChar s = true.
Definition argChar (c : ascii) : bool := negb (Numbers.code c =? 0) && dotChar c.

Definition goodArg (args : list ConverterArg) (nv : string * string) : Prop :=
  ArgParser.goodName nv.1 /\ ArgParser.goodValue nv.2 /\ nv.1 ∈ argName <$> args
  /\ ArgParser.allChars argChar nv.1 = true /\ ArgParser.allChars argChar nv.2 = true.

Lemma allChars_app P s t : ArgParser.allChars P (s +:+ t) = ArgParser.allChars P s && ArgParser.allChars P t.
Proof.
  induction s as [|c s IH]; [done|]. change (String c s +:+ t) with (String c (s +:+ t)).
  cbn [ArgParser.allChars]. rewrite IH. by destruct (P c).
Qed.

Lemma allChars_impl (P Q : ascii -> bool) s :
  (forall c, P c = true -> Q c = true) -> ArgParser.allChars P s = true -> ArgParser.allChars Q s = true.
Proof.
  intros I. induction s as [|c s IH]; cbn [ArgParser.allChars]; [done|]. intros E.
  apply andb_prop in E as [E1 E2]. by rewrite (I c E1), IH.
Qed.

Lemma printArgs_chars args l :
  Forall (goodArg args) l -> ArgParser.allChars argChar (ArgParser.printArgs l) = true.
Proof.
  assert (Q : forall nv, goodArg args nv -> ArgParser.allChars argChar (ArgParser.quoted nv) = true).
  { intros [n v] (_ & _ & _ & A & B). unfold ArgParser.quoted. cbn [fst snd] in *.
    rewrite allChars_app, A. change ("=" +:+ ?s) with (String "=" s).
    cbn [ArgParser.allChars]. by rewrite allChars_app, B. }
  induction l as [|x l IH]; intros F; [done|]. apply Forall_cons in F as [Gx F].
  destruct l as [|y l]; [by apply Q|].
  change (ArgParser.printArgs (x :: y :: l)) with (ArgParser.quoted x +:+ "," +:+ ArgParser.printArgs (y :: l)).
  rewrite allChars_app, Q by done. by apply IH.
Qed.

Lemma rtrim_end s c : Numbers.isSpace c = false -> rtrim (s +:+ String c EmptyString) = s +:+ String c EmptyString.
Proof.
  intros N. induction s as [|x s IH].
  - change (EmptyString +:+ ?t) with t. cbn [rtrim]. by rewrite N.
  - change (String x s +:+ ?t) with (String x (s +:+ t)). cbn [rtrim]. rewrite IH.
    rewrite bool_decide_false by (by destruct s). by rewrite andb_false_r.
Qed.

Lemma cstr_chars s : ArgParser.allChars argChar s = true -> cstr s = s.
Proof.
  induction s as [|c s IH]; cbn [ArgParser.allChars cstr]; [done|]. intros E.
  apply andb_prop in E as [E1 E2]. unfold argChar in E1. apply andb_prop in E1 as [E1 _].
  apply negb_true_iff in E1. by rewrite E1, IH.
Qed.

Lemma spanChars_app P s c t :
  ArgParser.allChars P s = true -> P c = false -> spanChars P (s +:+ String c t) = (s, String c t).
Proof.
  intros A N. induction s as [|x s IH]; [change (EmptyString +:+ ?t) with t; cbn [spanChars]; by rewrite N|].
  cbn [ArgParser.allChars] in A. apply andb_prop in A as [Ax A].
  change (String x s +:+ ?t) with (String x (s +:+ t)). cbn [spanChars]. by rewrite Ax, IH.
Qed.

Lemma splitLast_app s c : splitLast (s +:+ String c EmptyString) = Some (s, c).
Proof.
  induction s as [|x s IH]; [done|]. change (String x s +:+ ?t) with (String x (s +:+ t)).
  cbn [splitLast]. by rewrite IH.
Qed.

Lemma identChar_facts c : identChar c = true -> argChar c = true /\ Numbers.isSpace c = false.
Proof.
  unfold identChar, argChar, dotChar, Numbers.isSpace. intros E.
  destruct (Z.eqb_spec (Numbers.code c) 0), (Z.eqb_spec (Numbers.code c) 10),
    (Z.eqb_spec (Numbers.code c) 13); cbn [negb andb]; lia.
Qed.

Lemma parseSpec_printed plugin name args l :
  goodIdent plugin -> goodIdent name -> Forall (goodArg args) l ->
  parseSpec (printSpec plugin name l) = Ret (mkSpecification plugin name (ArgParser.printArgs l)).
Proof.
  intros [Np Ap] [Nn An] F. pose proof (printArgs_chars args l F) as AA. unfold parseSpec, trim, printSpec.
  assert (R : forall a, plugin +:+ "." +:+ name +:+ "(" +:+ a +:+ ")"
              = (plugin +:+ "." +:+ name +:+ "(" +:+ a) +:+ ")") by (intros a; by rewrite !app_assoc_s).
  rewrite R, rtrim_end, <- R by done. clear R.
  assert (I : forall s, ArgParser.allChars identChar s = true -> ArgParser.allChars argChar s = true)
    by (intros s; apply allChars_impl; intros c Hc; by apply identChar_facts).
  assert (L : ltrim (plugin +:+ "." +:+ name +:+ "(" +:+ ArgParser.printArgs l +:+ ")")
              = plugin +:+ "." +:+ name +:+ "(" +:+ ArgParser.printArgs l +:+ ")").
  { destruct plugin as [|c s]; [done|]. cbn [ArgParser.allChars] in Ap. apply andb_prop in Ap as [Ac _].
    unfold ltrim. change (String c s +:+ ?t) with (String c (s +:+ t)). cbn [Numbers.skipSpaces].
    by rewrite (proj2 (identChar_facts c Ac)). }
  rewrite L, cstr_chars; [|rewrite !allChars_app; rewrite (I plugin Ap), (I name An), AA; done].
  unfold matchSpec. change ("." +:+ ?t) with (String "." t). change ("(" +:+ ?t) with (String "(" t).
  rewrite spanChars_app by done. rewrite bool_decide_false by done. cbn [expectChar].
  rewrite bool_decide_true by done. cbn [mbind option_bind].
  rewrite spanChars_app by done. rewrite bool_decide_false by done.
  change (Numbers.isSpace "(") with false. cbn match. cbn [expectChar].
  rewrite bool_decide_true by done. cbn [mbind option_bind].
  rewrite splitLast_app. cbn [mbind option_bind]. rewrite bool_decide_true by done.
  rewrite (allChars_impl argChar dotChar _ ltac:(intros c Hc; by apply andb_prop in Hc as [_ Hc]) AA). done.
Qed.

Lemma printArgs_not_parens args l : Forall (goodArg args) l -> ArgParser.printArgs l <> "()".
Proof.
  destruct l as [|[n v] l]; [done|]. intros F E. apply Forall_cons in F as [(Gn & _) _]. cbn [fst] in Gn.
  assert (S : exists t, ArgParser.printArgs ((n, v) :: l) = n +:+ String "=" t).
  { destruct l as [|y l]; [by eexists|]. exists (String ArgParser.dquote (v +:+ String ArgParser.dquote "")
      +:+ "," +:+ ArgParser.printArgs (y :: l)).
    change (ArgParser.printArgs ((n, v) :: y :: l))
      with (ArgParser.quoted (n, v) +:+ "," +:+ ArgParser.printArgs (y :: l)).
    unfold ArgParser.quoted. cbn [fst snd]. by rewrite app_assoc_s. }
  destruct S as [t S]. rewrite S in E. destruct Gn as [Nn _].
  destruct n as [|c1 [|c2 [|c3 n]]]; [done| | |];
    change (String c1 ?s +:+ ?t) with (String c1 (s +:+ t)) in E; cbn in E; try discriminate E.
Qed.

(** C28: a converter specification printed with the name of a plugin, the name of
    one of its converters and arguments written as [name="value", ...], with
    different names, all of them arguments of the converter, and values that are not
    empty and hold no double quote, line end or zero byte: creating the converter
    from that text is setting exactly those argument values, with the others at
    their defaults; commas, equal signs, parentheses, backslashes, spaces and
    apostrophes in a value are kept.  (An empty value is ignored by the parser and
    leaves the default; that is a finding.) *)
Theorem converter_spec_roundtrip plugins plugin name obj l :
  goodIdent plugin -> goodIdent name ->
  createConverterInstance plugins plugin name = Some obj ->
  Forall (goodArg (getArgs obj)) l -> NoDup l.*1 ->
  createConverterFromString plugins (printSpec plugin name l)
  = setArgValues obj (ArgParser.setAll l (ArgValues.new (getArgs obj))).
Proof.
  intros Gp Gn C F ND. unfold createConverterFromString.
  rewrite (parseSpec_printed plugin name (getArgs obj) l) by done. cbn [obind spPlugin spConverter spArguments].
  rewrite C, bool_decide_false by (by eapply printArgs_not_parens). cbn [negb].
  rewrite ArgParser.parseArgs_printed; [done| |done].
  eapply Forall_impl; [exact F|]. intros nv (? & ? & ? & _). done.
Qed.

End plugins.
End converters.
Arguments DataConverter D : clear implicits.
Arguments ConverterObject D : clear implicits.
Arguments ConverterPlugin D : clear implicits.

(** A small printer and a parser of one document, to compute with. *)
Module DemoJson.

(** Commas go before a key, a value or an opening bracket that follows a value or
    a closing bracket. *)
Fixpoint callsText (comma : bool) (l : list (WriterCall Z)) : string :=
  match l with
  | [] => ""
  | c :: l' =>
      let sep := if comma then "," else "" in
      match c with
      | WStartObject => sep +:+ "{" +:+ callsText false l'
      | WEndObject => "}" +:+ callsText true l'
      | WStartArray => sep +:+ "[" +:+ callsText false l'
      | WEndArray => "]" +:+ callsText true l'
      | WKey s => sep +:+ s +:+ ":" +:+ callsText false l'
      | WInt z | WInt64 z | WUint z | WDouble z => sep +:+ Numbers.to_string z +:+ callsText true l'
      | WString s => sep +:+ s +:+ callsText true l'
      | WSetMaxDecimalPlaces _ => callsText comma l'
      end
  end.

Fixpoint jsonCalls (j : Json Z) : list (WriterCall Z) :=
  match j with
  | JNull => [WString "null"]
  | JBool b => [WString (if b then "true" else "false")]
  | JInt z => [WInt64 z]
  | JDouble d => [WDouble d]
  | JString s => [WString s]
  | JArray l => [WStartArray] ++ flat_map jsonCalls l ++ [WEndArray]
  | JObject m => [WStartObject] ++ flat_map (fun kv => WKey kv.1 :: jsonCalls kv.2) m ++ [WEndObject]
  end%list.

Definition request : Json Z :=
  JObject [("network", JString "net"); ("slave", JInt 1); ("register", JString "0x10")].

#[global] Instance json : Rapidjson Z := {
  writerText l := callsText false l;
  documentText _ j := callsText false (jsonCalls j);
  parseDocument s := if bool_decide (s = "request") then inl request else inr (mkParseError 0 "Invalid value.")
}.

End DemoJson.

Lemma converter_spec_roundtrip_witness :
  let l := [("divisor", "16"); ("precision", "2")] in
  createConverterFromString (D := Z) [stdPlugin (D := Z) true] (printSpec "std" "divide" l)
  = setArgValues (objectOf (D := Z) true KDivide) (ArgParser.setAll l (ArgValues.new (singleArgs "divisor")))
  /\ is_ret (createConverterFromString (D := Z) [stdPlugin (D := Z) true] (printSpec "std" "divide" l)) = true
  /\ createConverterFromString (D := Z) [stdPlugin (D := Z) true] (printSpec "std" "map" [("map", "{16:-7, 1:2}")])
  = setArgValues (objectOf (D := Z) true KMap) (ArgParser.setAll [("map", "{16:-7, 1:2}")] (ArgValues.new MapConv.mapArgs))
  /\ is_ret (createConverterFromString (D := Z) [stdPlugin (D := Z) true]
               (printSpec "std" "map" [("map", "{16:-7, 1:2}")])) = true.
Proof.
  split; [|split; [vm_compute; reflexivity|split; [|vm_compute; reflexivity]]].
  - apply (converter_spec_roundtrip (D := Z) [stdPlugin (D := Z) true] "std" "divide"
           (objectOf (D := Z) true KDivide) [("divisor", "16"); ("precision", "2")]);
      [by split|by split|reflexivity| |].
    + repeat (apply Forall_cons; split; [|try apply Forall_nil; try done]);
        (split; [by split|split; [by split|split; [|by split]]]); cbn; set_solver.
    + apply NoDup_cons. split; [set_solver|]. apply NoDup_singleton.
  - apply (converter_spec_roundtrip (D := Z) [stdPlugin (D := Z) true] "std" "map"
           (objectOf (D := Z) true KMap) [("map", "{16:-7, 1:2}")]);
      [by split|by split|reflexivity| |].
    + repeat (apply Forall_cons; split; [|try apply Forall_nil; try done]);
        (split; [by split|split; [by split|split; [|by split]]]); cbn; set_solver.
    + apply NoDup_singleton.
Defined.

(** * The debug converter and the others *)

Section debug_spec.
Context {D : Type} `{CDouble D} `{Rapidjson D}.

(** The arguments that select one of the four orders of two registers. *)
Definition orderArgs (lf sb : bool) : string :=
  match lf, sb with
  | false, false => ""
  | true, false => "(low_first=true)"
  | false, true => "(swap_bytes=true)"
  | true, true => "(low_first=true,swap_bytes=true)"
  end.

Lemma to_u32_i32 x : to_u32 (to_i32 x) = to_u32 x.
Proof. apply (to_signed_unsigned 32). lia. Qed.

Lemma to_u32_joinWords h l : to_u32 (ConverterTools.joinWords h l) = to_u32 (to_u32 (Z.shiftl h 16) + l).
Proof.
  unfold ConverterTools.joinWords. rewrite to_u32_i32. unfold to_u32 at 1 2.
  rewrite <- Zplus_mod_idemp_l. fold (to_u32 (to_i32 (Z.shiftl h 16))). by rewrite to_u32_i32.
Qed.

Lemma fromInt_joinWords h l :
  MqttValue.fromInt (D := D) (ConverterTools.joinWords h l) = VInt (ConverterTools.joinWords h l).
Proof.
  unfold MqttValue.fromInt, to_i32. rewrite to_signed_small; [done|lia|].
  apply (ConverterTools.joinWords_range h l).
Qed.

#[local] Ltac pick := first [apply list_elem_of_here | apply list_elem_of_further; pick].

(** The values debug lists for two registers are those of the converters named by
    their keys: int32 and float32 in all four orders, uint32 in the two it has. *)
Theorem debug_matches_converters a b :
  is_u16 a -> is_u16 b ->
  exists ints uints floats,
    addInt32Section (D := D) [a; b] = Ret [("int32", JObject ints)]
    /\ addUInt32Section (D := D) [a; b] = Ret [("uint32", JObject uints)]
    /\ addFloat32Section (D := D) [a; b] = Ret [("float32", JObject floats)]
    /\ (forall lf sb, exists v, int32ToMqtt (D := D) lf sb [a; b] = Ret (VInt v)
          /\ ("std.int32" +:+ orderArgs lf sb, JInt v) ∈ ints)
    /\ (forall lf, exists v, uint32ToMqtt (D := D) lf [a; b] = Ret (VInt64 v)
          /\ ("std.uint32" +:+ orderArgs lf false, JInt v) ∈ uints)
    /\ (forall lf sb p, exists bits, floatToMqtt (D := D) (mkFloat32 p lf sb) [a; b]
            = Ret (VDouble (float_of_bits bits) p)
          /\ ("std.float32" +:+ orderArgs lf sb, addFloat bits) ∈ floats).
Proof.
  intros Ha Hb. unfold addInt32Section, addUInt32Section, addFloat32Section, addOrders.
  rewrite getValue_cons. change (ModbusRegisters.getValue [a; b] 1) with (Ret b).
  repeat (rewrite ConverterTools.registersToInt32_two; cbn [obind]).
  eexists _, _, _. split; [done|]. split; [done|]. split; [done|]. split; [|split].
  - intros lf sb. unfold int32ToMqtt. rewrite ConverterTools.registersToInt32_two. cbn [obind].
    destruct lf; rewrite fromInt_joinWords; eexists; (split; [done|]); destruct sb; pick.
  - intros lf. rewrite uint32ToMqtt_two.
    assert (S : forall v, MqttValue.fromInt64 (D := D) (to_u32 v) = VInt64 (to_u32 v)).
    { intros v. unfold MqttValue.fromInt64, to_i64. rewrite to_signed_small; [done|lia|].
      unfold to_u32. pose proof (Z.mod_pos_bound v (2 ^ 32)). lia. }
    destruct lf; rewrite S; eexists; (split; [done|]);
      rewrite <- to_u32_joinWords; rewrite (to_u16_small a Ha : ConverterTools.setByteOrder a false = a),
        (to_u16_small b Hb : ConverterTools.setByteOrder b false = b); pick.
  - intros lf sb p. unfold floatToMqtt, toNumber. cbn [fLowFirst fSwapBytes fPrecision].
    change (ModbusRegisters.getCount [a; b] <? 2) with false. cbn match.
    destruct lf; change (ModbusRegisters.getValue [a; b] 1) with (Ret b); rewrite getValue_cons; cbn [obind];
      rewrite ConverterTools.registersToInt32_two; cbn [obind]; eexists; (split; [done|]);
      destruct sb; pick.
Qed.

End debug_spec.

(** What debug suggests to paste into a configuration is not always accepted: std.uint32
    has no argument for the byte order, and a converter needs its parentheses. *)
Theorem debug_suggestion_refused :
  createConverterFromString (D := Z) [stdPlugin (D := Z) true] "std.uint32(swap_bytes=true)"
  = Fault (StdException "Error setting argument swap_bytes:Wrong parameter name swap_bytes")
  /\ createConverterFromString (D := Z) [stdPlugin (D := Z) true] "std.int16"
     = Fault (StdException "Supply converter spec in form: plugin.converter(value1, param=value2, …)").
Proof. vm_compute. auto. Qed.
