(* ===== verification/UnitTestsConv.v ===== *)
(** The repository's own tests of the converters, run on the model.

    A test case of unittests is the list of what its REQUIRE lines compare, section by
    section; a section starts from the beginning of its case.  Doubles are the IEEE 754
    numbers of [Ieee], the host is little endian, and the JSON library is any. *)

From stdpp Require Import base gmap list strings.
From Stdlib Require Import ZArith Lia Ascii String SpecFloat.
From S2P Require Import Prelude Commands ConvTools ConvArgs Ieee StdConv MapConv Converters.

#[local] Open Scope string_scope.
#[local] Open Scope Z_scope.

(** REQUIRE(a == b), and REQUIRE_THROWS_AS for a ConvException and for the exceptions of
    the parser of names. *)
Definition require {A} `{EqDecision A} (o : outcome A) (expected : A) : bool :=
  match o with Ret a => bool_decide (a = expected) | Fault _ => false end.
Definition throwsConv {A} (o : outcome A) : bool :=
  match o with Fault (ConvException _) => true | _ => false end.
Definition passed (case : list bool) : bool := forallb id case.

(** A text in double quotes. *)
Definition dquote : string := String (ascii_of_nat 34) "".
Definition quoted (s : string) : string := dquote +:+ s +:+ dquote.

(** testnumbers.hpp *)
Module TestNumbers.
Definition AB : Z := 0xA1B2.
Definition BA : Z := 0xB2A1.
Definition CD : Z := 0xC3D4.
Definition DC : Z := 0xD4C3.
Definition AB_as_int16 : Z := -24142.
Definition AB_as_uint16 : Z := 41394.
Definition ABCD_as_int32 : Z := -1582119980.
Definition CDAB_as_int32 : Z := -1009475150.
Definition ABCD_as_uint32 : Z := 2712847316.
Definition CDAB_as_uint32 : Z := 3285492146.
Definition Float_AB : Z := 0xBF9E.
Definition Float_BA : Z := 0x9EBF.
Definition Float_CD : Z := 0x064B.
Definition Float_DC : Z := 0x4B06.
Definition ABCD_as_float : spec_float := float_of_bits 0xBF9E064B.
End TestNumbers.
Import TestNumbers.

Section tests.
Context `{Rapidjson spec_float}.

(** PluginLoader::getConverter, setArgValue for some arguments, and setArgValues. *)
Definition converter (name : string) (args : list (string * string)) : outcome (DataConverter spec_float) :=
  match pluginConverter (stdPlugin true) name with
  | None => Fault NullDereferenced
  | Some conv =>
      let! values := foldM (fun m kv => ArgValues.setArgValue m kv.1 kv.2) args (ArgValues.new (getArgs conv)) in
      setArgValues conv values
  end.

Definition reads (name : string) (args : list (string * string)) (input : list Z) : outcome (MqttValue spec_float) :=
  let! conv := converter name args in toMqtt conv input.
Definition writes (name : string) (args : list (string * string)) (input : MqttValue spec_float) (count : Z)
  : outcome (list Z) :=
  let! conv := converter name args in toModbus conv input count.

Definition getInt (o : outcome (MqttValue spec_float)) : outcome Z := let! v := o in MqttValue.getInt v.
Definition getString (o : outcome (MqttValue spec_float)) : outcome string := let! v := o in Ret (MqttValue.getString v).
Definition getBinarySize (o : outcome (MqttValue spec_float)) : outcome Z := let! v := o in Ret (MqttValue.getBinarySize v).

Definition low_first : string * string := ("low_first", "true").
Definition swap_bytes : string * string := ("swap_bytes", "true").
Definition precision (n : string) : string * string := ("precision", n).

(** stdconv_int8_tests.cpp *)
Definition test_int8 : list bool :=
  [require (getInt (reads "int8" [] [0xff01])) 1;
   require (getInt (reads "int8" [("first", "true")] [0xff01])) (-1)].
Definition test_uint8 : list bool :=
  [require (getInt (reads "uint8" [] [0xff01])) 1;
   require (getInt (reads "uint8" [("first", "true")] [0xff01])) 255].

(** stdconv_int16_tests.cpp *)
Definition test_int16 : list bool :=
  [require (getInt (reads "int16" [] [AB])) AB_as_int16;
   require (getInt (reads "int16" [swap_bytes] [BA])) AB_as_int16;
   require (writes "int16" [] (MqttValue.fromInt AB_as_int16) 1) [AB];
   require (writes "int16" [swap_bytes] (MqttValue.fromInt AB_as_int16) 1) [BA]].
Definition test_uint16 : list bool :=
  [require (getInt (reads "uint16" [] [AB])) AB_as_uint16;
   require (getInt (reads "uint16" [swap_bytes] [BA])) AB_as_uint16;
   require (writes "uint16" [] (MqttValue.fromInt AB_as_uint16) 1) [AB];
   require (writes "uint16" [swap_bytes] (MqttValue.fromInt AB_as_uint16) 1) [BA]].

(** stdconv_int32_tests.cpp *)
Definition test_int32 : list bool :=
  let value := MqttValue.fromInt ABCD_as_int32 in
  [require (getInt (reads "int32" [] [AB; CD])) ABCD_as_int32;
   require (getInt (reads "int32" [swap_bytes] [BA; DC])) ABCD_as_int32;
   require (getInt (reads "int32" [low_first] [AB; CD])) CDAB_as_int32;
   require (getInt (reads "int32" [low_first; swap_bytes] [BA; DC])) CDAB_as_int32;
   require (getInt (reads "int32" [low_first] [AB])) AB;
   require (writes "int32" [low_first] value 2) [CD; AB];
   require (writes "int32" [low_first; swap_bytes] value 2) [DC; BA];
   require (writes "int32" [] value 2) [AB; CD];
   require (writes "int32" [swap_bytes] value 2) [BA; DC]].

(** stdconv_uint32_tests.cpp: the converter of the case is int32, and what it returns is
    compared as an unsigned number. *)
Definition test_uint32 : list bool :=
  let value := MqttValue.fromInt64 ABCD_as_uint32 in
  let unsigned o := let! v := getInt o in Ret (to_u32 v) in
  [require (unsigned (reads "int32" [] [AB; CD])) ABCD_as_uint32;
   require (unsigned (reads "int32" [low_first] [AB; CD])) CDAB_as_uint32;
   require (writes "int32" [low_first] value 2) [CD; AB];
   require (writes "int32" [] value 2) [AB; CD]].

(** stdconv_bit_tests.cpp *)
Definition test_bit : list bool :=
  [require (getString (reads "bit" [("bit", "0x8")] [0x80])) "1";
   require (getString (reads "bit" [("bit", "16")] [0x7FFF])) "0";
   throwsConv (converter "bit" [("bit", "20")])].

(** stdconv_divide_tests.cpp *)
Definition test_divide : list bool :=
  let divisor := ("divisor", "2.0") in
  [require (writes "divide" [divisor] (MqttValue.fromInt 0x20004) 2) [0x1; 0x2];
   require (writes "divide" [divisor; precision "2"; low_first] (MqttValue.fromInt 0x20004) 2) [0x2; 0x1];
   require (writes "divide" [divisor; precision "0"; low_first; swap_bytes] (MqttValue.fromInt ABCD_as_int32) 2)
     [0xea61; 0xd9d0];
   require (getString (reads "divide" [divisor] [0x01; 0x2])) "32769";
   require (getString (reads "divide" [divisor; precision "0"; low_first] [0x02; 0x1])) "32769";
   require (getInt (reads "divide" [divisor; precision "0"; low_first; swap_bytes] [0x0201; 0x0804])) 0x02040081;
   require (getString (reads "divide" [divisor] [0x02])) "1";
   require (writes "divide" [divisor] (MqttValue.fromInt 0x4) 1) [0x2]].
Definition test_divide_precision : list bool :=
  let divisor := ("divisor", "3.0") in
  [require (getString (reads "divide" [divisor] [10])) "3.333333";
   require (getString (reads "divide" [divisor; precision "3"] [10])) "3.333";
   require (getString (reads "divide" [divisor; precision "0"] [10])) "3"].

(** stdconv_multiply_tests.cpp *)
Definition test_multiply : list bool :=
  [require (getString (reads "multiply" [("multipler", "2")] [10])) "20";
   require (getString (reads "multiply" [("multipler", "2"); precision "2"] [10])) "20.00"].

(** stdconv_float_tests.cpp: std::to_string of a float has six digits. *)
Definition test_float_read : list bool :=
  let text := Ieee.fixedText 6 ABCD_as_float in
  let isFloat o := match (let! v := o in MqttValue.getDouble v) with
                   | Ret d => SFeqb d ABCD_as_float
                   | Fault _ => false
                   end in
  let read args input := reads "float32" args input in
  [isFloat (read [] [Float_AB; Float_CD]); require (getString (read [] [Float_AB; Float_CD])) "-1.234567";
   isFloat (read [low_first] [Float_CD; Float_AB]); require (getString (read [low_first] [Float_CD; Float_AB])) text;
   isFloat (read [swap_bytes] [Float_BA; Float_DC]); require (getString (read [swap_bytes] [Float_BA; Float_DC])) text;
   isFloat (read [low_first; swap_bytes] [Float_DC; Float_BA]);
   require (getString (read [low_first; swap_bytes] [Float_DC; Float_BA])) text;
   require (getString (read [precision "2"] [0xc2f6; 0xe979])) "-123.46"].
Definition test_float_write : list bool :=
  let input := MqttValue.fromBinary "-1.234567" in
  [require (writes "float32" [] input 2) [Float_AB; Float_CD];
   require (writes "float32" [low_first] input 2) [Float_CD; Float_AB];
   require (writes "float32" [swap_bytes] input 2) [Float_BA; Float_DC];
   require (writes "float32" [low_first; swap_bytes] input 2) [Float_DC; Float_BA]].

(** stdconv_string_tests.cpp: the texts with the null character that ends them. *)
Definition nul : string := String Ascii.zero "".
Definition longText : string :=
  string_of_list_ascii ((fun i => ascii_of_nat (48 + i mod 64)) <$> seq 0 10000).
Definition test_string : list bool :=
  let adapt := ConverterTools.adaptToNetworkByteOrder true in
  let even := [0x4142; 0x4344] in
  let odd := [0x4142; 0x4300] in
  let withNull := [0x4142; 0x0043; 0x0044] in
  [require (getString (reads "string" [] even)) "ABCD"; require (getBinarySize (reads "string" [] even)) 4;
   require (getString (reads "string" [] odd)) "ABC"; require (getBinarySize (reads "string" [] odd)) 3;
   require (getString (reads "string" [] withNull)) "AB"; require (getBinarySize (reads "string" [] withNull)) 2;
   require (writes "string" [] (MqttValue.fromBinary ("ABCD" +:+ nul)) 2) (adapt even);
   require (writes "string" [] (MqttValue.fromBinary ("ABC" +:+ nul)) 2) (adapt odd);
   require (writes "string" [] (MqttValue.fromBinary ("ABC" +:+ nul)) 3) (adapt (odd ++ [0])%list);
   require (writes "string" [] (MqttValue.fromBinary longText) 2) [0x3130; 0x3332];
   require (writes "string" [] (MqttValue.fromBinary ("AB" +:+ nul +:+ "C" +:+ nul +:+ "D" +:+ nul)) 3) (adapt withNull)].

(** stdconv_tests.cpp *)
Definition test_scale : list bool :=
  [require (getString (reads "scale" [("src_from", "4"); ("src_to", "20"); ("tgt_from", "0"); ("tgt_to", "400")] [8])) "100"].

(** stdconv_map_tests.cpp *)
Definition test_map : list bool :=
  let map text := [("map", text)] in
  let maps text value expected := require (getString (reads "map" (map text) [value])) expected in
  let unmaps text value expected := require (writes "map" (map text) value 1) [expected] in
  [maps "{3: 38400}" 3 "38400"; unmaps "{3: 38400}" (MqttValue.fromInt 38400) 3;
   unmaps "{3: 38400}" (MqttValue.fromInt 12) 12; unmaps "{3: 38400}" (MqttValue.fromInt 17) 17;
   maps ("{1: " +:+ quoted "one" +:+ "}") 1 "one";
   unmaps ("{1: " +:+ quoted "one" +:+ "}") (MqttValue.fromString "one") 1;
   maps ("{ 1 : " +:+ quoted " \\one " +:+ "  }") 1 " \one ";
   maps ("{1:" +:+ quoted ":" +:+ "}") 1 ":";
   maps ("{1:11,2:" +:+ quoted "two" +:+ "}") 1 "11"; maps ("{1:11,2:" +:+ quoted "two" +:+ "}") 2 "two";
   maps "{0x11:17}" 0x11 "17"; unmaps "{0x11:17}" (MqttValue.fromInt 17) 0x11;
   maps ("{24:" +:+ quoted "t" +:+ ", 1:" +:+ quoted "o" +:+ "}") 24 "t";
   maps ("24:" +:+ quoted "t" +:+ ", 1:" +:+ quoted "o") 24 "t";
   maps "24:1, 1:2" 24 "1";
   maps ("24:" +:+ quoted "1" +:+ ",1:" +:+ quoted "2") 24 "1";
   maps ("{ 0:" +:+ quoted "nnnn" +:+ ", 1:" +:+ quoted "nnn.n" +:+ " }") 0 "nnnn";
   maps ("{ 0:" +:+ quoted "DI1" +:+ ", 1:" +:+ quoted "DI2" +:+ ", 32768:" +:+ quoted "AI1"
         +:+ ", 32769:" +:+ quoted "AI2" +:+ " }") 32769 "AI2"].

End tests.

(** mqtt_value_tests.cpp *)
Definition doubleOf (literal : string) : spec_float := (strtod literal).1.
Definition test_fromDouble : list bool :=
  let text v p := Ret (MqttValue.getString (MqttValue.fromDouble (doubleOf v) p)) in
  [require (text "1.0" NO_PRECISION) "1"; require (text "1.0" 2) "1.00"; require (text "1.1234" NO_PRECISION) "1.123400";
   require (text "1.1234" 2) "1.12"; require (text "1.1299" 2) "1.13"].
Definition test_fromString : list bool :=
  let int s := MqttValue.getInt (D := spec_float) (MqttValue.fromString s) in
  [require (int "10") 10; require (int "0x10") 16; require (int "010") 8].

(** converter_name_parser_tests.cpp *)
Definition throwsParser {A} (o : outcome A) : bool :=
  match o with Fault (StdException _) => true | _ => false end.
Definition parsesTo (args : list ConverterArg) (text : string) (expected : list (string * string)) : bool :=
  let m := ArgParser.parseArgs args text in
  passed (require (let! v := m in Ret (ArgValues.count v)) (Z.of_nat (List.length expected)) ::
          ((fun kv => require (let! v := m in let! a := ArgValues.getArgValue v kv.1 in Ret (ArgValue.as_str a)) kv.2)
             <$> expected)).
Definition test_name : list bool :=
  let names text := let! s := parseSpec text in Ret (spPlugin s, spConverter s) in
  [require (names "std.something()") ("std", "something"); require (names "std.something( )") ("std", "something")].
Definition test_arguments : list bool :=
  let int n := argInt n ArgINT 0 in
  let str := argStr "strval" ArgSTRING "" in
  let expression := "((x + 'abc') like '*123*') or ('a123b' ilike y)" in
  [parsesTo [int "intval"] "1" [("intval", "1")];
   parsesTo [str] (quoted "foo") [("strval", "foo")];
   parsesTo [str] (quoted "foo ") [("strval", "foo ")];
   parsesTo [int "intval"] " 1 " [("intval", "1")];
   parsesTo [int "intval1"; int "intval2"] "1,2" [("intval1", "1"); ("intval2", "2")];
   parsesTo [int "intval1"; argStr "strval2" ArgSTRING ""] ("1," +:+ quoted "2") [("intval1", "1"); ("strval2", "2")];
   parsesTo [str] "'1'" [("strval", "1")];
   parsesTo [str] ("'" +:+ dquote +:+ "'") [("strval", dquote)];
   parsesTo [str] (quoted "'") [("strval", "'")];
   throwsParser (ArgParser.parseArgs [str] "1,2");
   parsesTo [str] (quoted "a=b") [("strval", "a=b")];
   parsesTo [str] (quoted expression) [("strval", expression)]].
Definition test_params : list bool :=
  let args := [argStr "a" ArgSTRING "def"] in
  [parsesTo args "" [("a", "def")]; parsesTo args "a=1" [("a", "1")]; parsesTo args "a = 1" [("a", "1")];
   throwsParser (ArgParser.parseArgs args "b=1"); throwsParser (ArgParser.parseArgs args "=1");
   throwsParser (ArgParser.parseArgs args "a==1"); throwsParser (ArgParser.parseArgs args "a=1, a=2")].
Definition test_args_and_params : list bool :=
  let args := [argStr "arg" ArgSTRING "a"; argStr "param" ArgSTRING "p"] in
  [parsesTo args "arg=set" [("arg", "set"); ("param", "p")]; throwsParser (ArgParser.parseArgs args "arg=2, 4")].

(** The model passes them. *)
Theorem converter_tests_pass `{Rapidjson spec_float} :
  Forall (fun case => passed case = true)
    [test_int8; test_uint8; test_int16; test_uint16; test_int32; test_uint32; test_bit; test_divide;
     test_divide_precision; test_multiply; test_float_read; test_float_write; test_string; test_scale; test_map;
     test_fromDouble; test_fromString; test_name; test_arguments; test_params; test_args_and_params].
Proof. repeat (constructor; [vm_compute; reflexivity|]). constructor. Qed.
