(* ===== verification/MqttObject.v ===== *)
(** MQTT objects: libmodmqttsrv/mqttobject.hpp and mqttobject.cpp.

    An object publishes a tree of data nodes whose leaves are modbus registers, and
    an availability computed from the state of all its registers. *)

From stdpp Require Import base list strings relations.
From Stdlib Require Import ZArith Lia String.
From S2P Require Import Prelude ModbusTypes Commands ConvTools ConvArgs StdConv Converters.

#[local] Open Scope string_scope.
#[local] Open Scope Z_scope.

(** enum AvailableFlag *)
Inductive AvailableFlag : Type := NotSet | AFalse | ATrue.

#[export] Instance AvailableFlag_eq_dec : EqDecision AvailableFlag.
Proof. solve_decision. Defined.

(** class MqttObjectRegisterIdent *)
Record RegisterIdent : Type := mkIdent {
  idNetwork : string;
  idSlave : Z;
  idRegister : Z;
  idType : RegisterType
}.

#[export] Instance RegisterIdent_eq_dec : EqDecision RegisterIdent.
Proof. solve_decision. Defined.

(** MqttObjectRegisterIdent(network, message) *)
Definition identOf (network : string) (m : ModbusMessageBase) : RegisterIdent :=
  mkIdent network (mSlaveId m) (mRegister (mRange m)) (mRegisterType (mRange m)).

(** asModbusAddressRange *)
Definition identRange (i : RegisterIdent) : ModbusAddressRange := mkRange (idRegister i) 1 (idType i).

(** class MqttObjectRegisterValue *)
Record RegisterValue : Type := mkValue {
  rvReadOk : bool;
  rvHasValue : bool;
  rvValue : Z
}.

#[export] Instance RegisterValue_eq_dec : EqDecision RegisterValue.
Proof. solve_decision. Defined.

Definition newValue : RegisterValue := mkValue true false 0.

(** setValue: whether the value is new. *)
Definition setValue (val : Z) (v : RegisterValue) : bool * RegisterValue :=
  if negb (rvValue v =? val) then (true, mkValue (rvReadOk v) true val)
  else (negb (rvHasValue v), mkValue (rvReadOk v) true (rvValue v)).
Definition setReadError (flag : bool) (v : RegisterValue) : RegisterValue :=
  mkValue (negb flag) (rvHasValue v) (rvValue v).

Module MqttObject.

Section object.
Context {D : Type} `{CDouble D}.

(** class MqttObjectDataNode: mKeyName, mNodes with its flag mForceListOutput,
    mIdent, mValue and mConverter. *)
Inductive DataNode : Type :=
| mkNode (name : string) (nodes : list DataNode) (forceList : bool) (ident : option RegisterIdent)
    (value : RegisterValue) (converter : option (DataConverter D)).

Definition nodeName (n : DataNode) : string := let '(mkNode name _ _ _ _ _) := n in name.
Definition getChildNodes (n : DataNode) : list DataNode := let '(mkNode _ nodes _ _ _ _) := n in nodes.
Definition childrenAsList (n : DataNode) : bool := let '(mkNode _ _ f _ _ _) := n in f.
Definition nodeIdent (n : DataNode) : option RegisterIdent := let '(mkNode _ _ _ i _ _) := n in i.
Definition nodeValue (n : DataNode) : RegisterValue := let '(mkNode _ _ _ _ v _) := n in v.
Definition nodeConverter (n : DataNode) : option (DataConverter D) := let '(mkNode _ _ _ _ _ c) := n in c.

Definition newNode : DataNode := mkNode "" [] false None newValue None.
Definition isUnnamed (n : DataNode) : bool := bool_decide (nodeName n = "").
Definition isScalar (n : DataNode) : bool := match getChildNodes n with [] => true | _ => false end.
Definition hasConverter (n : DataNode) : bool := bool_decide (is_Some (nodeConverter n)).

(** setScalarNode and addChildDataNode *)
Definition setScalarNode (i : RegisterIdent) (n : DataNode) : DataNode :=
  mkNode (nodeName n) (getChildNodes n) (childrenAsList n) (Some i) (nodeValue n) (nodeConverter n).
Definition addChildDataNode (child : DataNode) (forceList : bool) (n : DataNode) : DataNode :=
  let nodes := (getChildNodes n ++ [child])%list in
  mkNode (nodeName n) nodes (forceList || (1 <? Z.of_nat (Datatypes.length nodes))) (nodeIdent n)
    (nodeValue n) (nodeConverter n).

(** * Updates

    The three updates walk the tree in the same way, and differ in what they do
    with the value of a scalar node; they return whether anything changed. *)

Section updates.
Variable leaf : RegisterIdent -> RegisterValue -> outcome (bool * RegisterValue).

Definition updateList (f : DataNode -> outcome (bool * DataNode))
  : list DataNode -> outcome (bool * list DataNode) :=
  fix go l :=
    match l with
    | [] => Ret (false, [])
    | n :: l' =>
        let! (r, n') := f n in
        let! (r', l'') := go l' in
        Ret (r || r', n' :: l'')
    end.

Fixpoint updateNode (n : DataNode) : outcome (bool * DataNode) :=
  match n with
  | mkNode name [] force ident value conv =>
      match ident with
      | None => Fault NullDereferenced
      | Some i => let! (r, v) := leaf i value in Ret (r, mkNode name [] force ident v conv)
      end
  | mkNode name nodes force ident value conv =>
      let! (r, nodes') := updateList updateNode nodes in
      Ret (r, mkNode name nodes' force ident value conv)
  end.

End updates.

Definition sameSlave (net : string) (m : ModbusMessageBase) (i : RegisterIdent) : bool :=
  (mSlaveId m =? idSlave i) && bool_decide (mRegisterType (mRange m) = idType i)
  && bool_decide (net = idNetwork i).

(** updateRegisterValues on a scalar node *)
Definition valueLeaf (net : string) (m : MsgRegisterValues) (i : RegisterIdent) (v : RegisterValue)
  : outcome (bool * RegisterValue) :=
  let r := mRange (msgBase m) in
  if sameSlave net (msgBase m) i && (mRegister r <=? idRegister i)
     && (idRegister i <=? ModbusRange.lastRegister r)
  then
    let! val := ModbusRegisters.getValue (msgRegisters m) (to_u16 (idRegister i - mRegister r)) in
    let '(ret, v') := setValue val v in
    Ret (ret, setReadError false v')
  else Ret (false, v).

(** updateRegistersReadFailed on a scalar node *)
Definition failedLeaf (net : string) (m : ModbusMessageBase) (i : RegisterIdent) (v : RegisterValue)
  : outcome (bool * RegisterValue) :=
  if sameSlave net m i && (to_u16 (Z.abs (idRegister i - mRegister (mRange m))) <? mCount (mRange m))
  then Ret (true, setReadError true v) else Ret (false, v).

(** setModbusNetworkState on a scalar node *)
Definition networkLeaf (net : string) (isUp : bool) (i : RegisterIdent) (v : RegisterValue)
  : outcome (bool * RegisterValue) :=
  if bool_decide (net = idNetwork i) && xorb (rvReadOk v) isUp
  then Ret (true, setReadError (negb isUp) v) else Ret (false, v).

(** * Queries *)

(** hasRegisterIn; the assertion on mIdent. *)
Definition leafRegisterIn (net : string) (m : ModbusMessageBase) (i : RegisterIdent) : bool :=
  (idSlave i =? mSlaveId m) && ModbusRange.overlaps (mRange m) (identRange i)
  && bool_decide (idNetwork i = net).

Definition anyNode (f : DataNode -> outcome bool) : list DataNode -> outcome bool :=
  fix go l :=
    match l with
    | [] => Ret false
    | n :: l' => let! b := f n in if b then Ret true else go l'
    end.
Definition allNodes (f : DataNode -> outcome bool) : list DataNode -> outcome bool :=
  fix go l :=
    match l with
    | [] => Ret true
    | n :: l' => let! b := f n in if b then go l' else Ret false
    end.

Fixpoint hasRegisterIn (net : string) (m : ModbusMessageBase) (n : DataNode) : outcome bool :=
  match n with
  | mkNode _ [] _ ident _ _ =>
      match ident with None => Fault AssertionFailed | Some i => Ret (leafRegisterIn net m i) end
  | mkNode _ nodes _ _ _ _ => anyNode (hasRegisterIn net m) nodes
  end.

Fixpoint hasAllValues (n : DataNode) : outcome bool :=
  match n with
  | mkNode _ [] _ ident v _ =>
      match ident with None => Fault AssertionFailed | Some _ => Ret (rvHasValue v) end
  | mkNode _ nodes _ _ _ _ => allNodes hasAllValues nodes
  end.

Fixpoint isPolling (n : DataNode) : bool :=
  match n with
  | mkNode _ [] _ _ v _ => rvReadOk v
  | mkNode _ nodes _ _ _ _ => forallb isPolling nodes
  end.

(** getRawValue, with its assertion. *)
Definition getRawValue (n : DataNode) : outcome Z :=
  if isScalar n then Ret (rvValue (nodeValue n)) else Fault AssertionFailed.

Fixpoint rawValues (l : list DataNode) : outcome (list Z) :=
  match l with
  | [] => Ret []
  | n :: l' => let! v := getRawValue n in let! vs := rawValues l' in Ret (v :: vs)
  end.

(** getConvertedValue *)
Definition getConvertedValue (n : DataNode) : outcome (MqttValue D) :=
  match nodeConverter n with
  | Some conv =>
      let! data := (if isScalar n then rawValues [n] else rawValues (getChildNodes n)) in
      toMqtt conv data
  | None => Ret (VInt (rvValue (nodeValue n)))
  end.

(** * States and availability *)

(** class MqttObjectState *)
Record ObjectState : Type := mkState {
  stNodes : list DataNode;
  stForceList : bool
}.
Definition newState : ObjectState := mkState [] false.

(** addDataNode *)
Definition addDataNode (n : DataNode) (forceList : bool) (s : ObjectState) : ObjectState :=
  let nodes := (stNodes s ++ [n])%list in
  mkState nodes (forceList || (1 <? Z.of_nat (Datatypes.length nodes))).

Definition updateState (leaf : RegisterIdent -> RegisterValue -> outcome (bool * RegisterValue))
    (s : ObjectState) : outcome (bool * ObjectState) :=
  let! (r, nodes) := updateList (updateNode leaf) (stNodes s) in
  Ret (r, mkState nodes (stForceList s)).

Definition stateRegisterIn (net : string) (m : ModbusMessageBase) (s : ObjectState) : outcome bool :=
  anyNode (hasRegisterIn net m) (stNodes s).
Definition stateHasAllValues (s : ObjectState) : outcome bool := allNodes hasAllValues (stNodes s).
Definition stateIsPolling (s : ObjectState) : bool := forallb isPolling (stNodes s).

(** class MqttObject; the smallest time point is [None]. *)
Record MqttObject : Type := mkMqttObject {
  mTopic : string;
  mState : ObjectState;
  mAvailability : ObjectState;
  mAvailableValue : MqttValue D;
  mIsAvailable : AvailableFlag;
  mRetain : bool;
  mPublishMode : PublishMode;
  mLastPublishedPayload : string;
  mLastPublishTime : option Z;
  mEveryPollPeriod : Z
}.

Definition getStateTopic (o : MqttObject) : string := mTopic o +:+ "/state".
Definition getAvailabilityTopic (o : MqttObject) : string := mTopic o +:+ "/availability".

(** A new object, with its publish mode set. *)
Definition newObject (topic : string) (mode : PublishMode) (everyPoll : Z) : MqttObject :=
  mkMqttObject topic newState newState (VInt 1) NotSet true mode "" None everyPoll.

Definition withStates (s a : ObjectState) (o : MqttObject) : MqttObject :=
  mkMqttObject (mTopic o) s a (mAvailableValue o) (mIsAvailable o) (mRetain o) (mPublishMode o)
    (mLastPublishedPayload o) (mLastPublishTime o) (mEveryPollPeriod o).
Definition withFlag (f : AvailableFlag) (o : MqttObject) : MqttObject :=
  mkMqttObject (mTopic o) (mState o) (mAvailability o) (mAvailableValue o) f (mRetain o) (mPublishMode o)
    (mLastPublishedPayload o) (mLastPublishTime o) (mEveryPollPeriod o).
Definition setLastPublishedPayload (p : string) (o : MqttObject) : MqttObject :=
  mkMqttObject (mTopic o) (mState o) (mAvailability o) (mAvailableValue o) (mIsAvailable o) (mRetain o)
    (mPublishMode o) p (mLastPublishTime o) (mEveryPollPeriod o).
Definition setLastPublishTime (t : Z) (o : MqttObject) : MqttObject :=
  mkMqttObject (mTopic o) (mState o) (mAvailability o) (mAvailableValue o) (mIsAvailable o) (mRetain o)
    (mPublishMode o) (mLastPublishedPayload o) (Some t) (mEveryPollPeriod o).

(** MqttObjectAvailability::getAvailableFlag *)
Definition availabilityFlag (o : MqttObject) : outcome AvailableFlag :=
  match stNodes (mAvailability o) with
  | [] => Ret ATrue
  | n :: _ =>
      let! all := stateHasAllValues (mAvailability o) in
      if negb all || negb (stateIsPolling (mAvailability o)) then Ret NotSet
      else
        let! v := getConvertedValue n in
        let! i := MqttValue.getInt v in
        let! e := MqttValue.getInt (mAvailableValue o) in
        Ret (if i =? e then ATrue else AFalse)
  end.

(** The flag updateAvailablityFlag computes. *)
Definition currentFlag (o : MqttObject) : outcome AvailableFlag :=
  if negb (stateIsPolling (mAvailability o)) || negb (stateIsPolling (mState o)) then Ret AFalse
  else
    let! a := stateHasAllValues (mAvailability o) in
    if negb a then Ret NotSet
    else
      let! s := stateHasAllValues (mState o) in
      if negb s then Ret NotSet else availabilityFlag o.

Definition updateAvailablityFlag (o : MqttObject) : outcome MqttObject :=
  let! f := currentFlag o in Ret (withFlag f o).

(** Both states are updated, then the flag if [recompute] says so. *)
Definition updateObject (leaf : RegisterIdent -> RegisterValue -> outcome (bool * RegisterValue))
    (recompute : AvailableFlag -> bool -> bool) (o : MqttObject) : outcome (bool * MqttObject) :=
  let! (stateChanged, s) := updateState leaf (mState o) in
  let! (availChanged, a) := updateState leaf (mAvailability o) in
  let o' := withStates s a o in
  let changed := stateChanged || availChanged in
  if recompute (mIsAvailable o) changed
  then let! o'' := updateAvailablityFlag o' in Ret (changed, o'')
  else Ret (changed, o').

(** updateRegisterValues: the flag is also computed when it is False. *)
Definition updateRegisterValues (net : string) (m : MsgRegisterValues) (o : MqttObject) : outcome MqttObject :=
  let! (_, o') := updateObject (valueLeaf net m)
      (fun flag changed => changed || bool_decide (flag = AFalse)) o in Ret o'.

(** updateRegistersReadFailed *)
Definition updateRegistersReadFailed (net : string) (m : ModbusMessageBase) (o : MqttObject)
  : outcome MqttObject :=
  let! (_, o') := updateObject (failedLeaf net m) (fun _ changed => changed) o in Ret o'.

(** setModbusNetworkState *)
Definition setModbusNetworkState (net : string) (isUp : bool) (o : MqttObject)
  : outcome (bool * MqttObject) :=
  updateObject (networkLeaf net isUp) (fun _ changed => changed) o.

(** MqttObject::hasRegisterIn *)
Definition objectRegisterIn (net : string) (m : ModbusMessageBase) (o : MqttObject) : outcome bool :=
  let! b := stateRegisterIn net m (mState o) in
  if b then Ret true else stateRegisterIn net m (mAvailability o).

(** needStateRepublish; [now] is the reading of the clock. *)
Definition needStateRepublish (now : Z) (o : MqttObject) : bool :=
  match mPublishMode o with
  | ON_CHANGE => false
  | ONCE => false
  | EVERY_POLL =>
      match mLastPublishTime o with
      | None => true
      | Some t => t + mEveryPollPeriod o * MSEC <=? now
      end
  end.

(** * The registers of a node *)

(** The registers at the leaves, with their values. *)
Fixpoint leaves (n : DataNode) : list (RegisterIdent * RegisterValue) :=
  match n with
  | mkNode _ [] _ (Some i) v _ => [(i, v)]
  | mkNode _ [] _ None _ _ => []
  | mkNode _ nodes _ _ _ _ => flat_map leaves nodes
  end.

(** Every scalar node has an identifier. *)
Fixpoint wfNode (n : DataNode) : bool :=
  match n with
  | mkNode _ [] _ ident _ _ => bool_decide (is_Some ident)
  | mkNode _ nodes _ _ _ _ => forallb wfNode nodes
  end.

(** A node without the values of its registers. *)
Fixpoint skeleton (n : DataNode) : DataNode :=
  match n with
  | mkNode name [] f i _ c => mkNode name [] f i newValue c
  | mkNode name nodes f i v c => mkNode name (map skeleton nodes) f i v c
  end.

Lemma DataNode_nested_ind (P : DataNode -> Prop) :
  (forall name f i v c, P (mkNode name [] f i v c)) ->
  (forall name x l f i v c, Forall P (x :: l) -> P (mkNode name (x :: l) f i v c)) ->
  forall n, P n.
Proof.
  intros Hs Hc. fix IH 1. intros [name [|x l] f i v c]; [apply Hs|]. apply Hc. constructor; [apply IH|].
  induction l as [|y l IHl]; constructor; [apply IH|apply IHl].
Qed.

(** An update that acts on each register by itself. *)
Section pointwise.
Variable leaf : RegisterIdent -> RegisterValue -> outcome (bool * RegisterValue).
Variable g : RegisterIdent * RegisterValue -> bool * RegisterValue.

Definition changedBy (iv : RegisterIdent * RegisterValue) : bool := (g iv).1.
Definition updatedBy (iv : RegisterIdent * RegisterValue) : RegisterIdent * RegisterValue := (iv.1, (g iv).2).
Definition acts (iv : RegisterIdent * RegisterValue) : Prop := leaf iv.1 iv.2 = Ret (g iv).

Definition pointwise (n : DataNode) : Prop :=
  exists n', updateNode leaf n = Ret (existsb changedBy (leaves n), n')
    /\ leaves n' = updatedBy <$> leaves n /\ skeleton n' = skeleton n /\ wfNode n' = true.

Lemma updateList_cons f (n : DataNode) l :
  updateList f (n :: l)
  = (let! (r, n') := f n in let! (r', l') := updateList f l in Ret (r || r', n' :: l')).
Proof. done. Qed.

Lemma updateList_pointwise l :
  Forall pointwise l ->
  exists l', updateList (updateNode leaf) l = Ret (existsb changedBy (flat_map leaves l), l')
    /\ flat_map leaves l' = updatedBy <$> flat_map leaves l /\ map skeleton l' = map skeleton l
    /\ forallb wfNode l' = true.
Proof.
  induction l as [|n l IH]; intros F; [by exists []|].
  apply Forall_cons in F as [(n' & U & L & S & W) F]. destruct (IH F) as (l' & Ul & Ll & Sl & Wl).
  exists (n' :: l'). cbn [flat_map map forallb]. rewrite updateList_cons, U. cbn [obind].
  rewrite Ul. cbn [obind].
  rewrite existsb_app, fmap_app, L, Ll, S, Sl, W, Wl. done.
Qed.

Lemma updateNode_pointwise n : wfNode n = true -> Forall acts (leaves n) -> pointwise n.
Proof.
  induction n as [name f i v c|name x l f i v c IH] using DataNode_nested_ind; intros W A.
  - cbn [wfNode] in W. apply bool_decide_eq_true in W as [j ->]. cbn [leaves] in A.
    apply Forall_cons in A as [A _]. unfold acts in A. cbn [fst snd] in A.
    destruct (g (j, v)) as [r v'] eqn:E. exists (mkNode name [] f (Some j) v' c).
    cbn [updateNode leaves existsb fmap list_fmap skeleton wfNode]. rewrite A. unfold changedBy, updatedBy.
    rewrite E. cbn [obind fst snd]. rewrite orb_false_r. split; [done|]. split; [done|]. split; [done|].
    by apply bool_decide_eq_true.
  - assert (F : Forall pointwise (x :: l)).
    { cbn [wfNode] in W. cbn [leaves] in A. rewrite forallb_forall in W.
      rewrite Forall_forall in IH. rewrite Forall_forall in A. apply Forall_forall.
      intros n Hn. apply IH; [done|..].
      - apply W. by apply list_elem_of_In.
      - apply Forall_forall. intros iv Hiv. apply A. apply list_elem_of_In, in_flat_map.
        exists n. split; by apply list_elem_of_In. }
    destruct (updateList_pointwise _ F) as (l' & U & L & S & W').
    destruct l' as [|x' l']; [done|].
    exists (mkNode name (x' :: l') f i v c). cbn [updateNode leaves skeleton wfNode]. rewrite U. cbn [obind].
    split; [done|]. split; [done|]. split; [by rewrite S|done].
Qed.

End pointwise.

(** * What the operations mean for the registers *)

Definition covered (net : string) (m : ModbusMessageBase) (iv : RegisterIdent * RegisterValue) : bool :=
  sameSlave net m iv.1 && (mRegister (mRange m) <=? idRegister iv.1)
  && (idRegister iv.1 <=? ModbusRange.lastRegister (mRange m)).

(** The value a message has for a register. *)
Definition registerAt (m : MsgRegisterValues) (a : Z) : Z :=
  default 0 (msgRegisters m !! Z.to_nat (a - mRegister (mRange (msgBase m)))).

(** A message holds a value for each register of its range. *)
Definition valuesOk (m : MsgRegisterValues) : Prop :=
  mCount (mRange (msgBase m)) = ModbusRegisters.getCount (msgRegisters m)
  /\ ModbusRegisters.getCount (msgRegisters m) <= 65536.

Definition valueOf (net : string) (m : MsgRegisterValues) (iv : RegisterIdent * RegisterValue)
  : bool * RegisterValue :=
  if covered net (msgBase m) iv then
    let v := registerAt m (idRegister iv.1) in
    (negb (rvHasValue iv.2) || negb (rvValue iv.2 =? v), mkValue true true v)
  else (false, iv.2).

Lemma valueLeaf_acts net m iv : valuesOk m -> acts (valueLeaf net m) (valueOf net m) iv.
Proof.
  intros [C L]. destruct iv as [i v]. unfold acts, valueLeaf, valueOf, covered. cbn [fst snd].
  destruct (sameSlave net (msgBase m) i); cbn [andb]; [|done].
  destruct (Z.leb_spec (mRegister (mRange (msgBase m))) (idRegister i)); cbn [andb]; [|done].
  destruct (Z.leb_spec (idRegister i) (ModbusRange.lastRegister (mRange (msgBase m)))) as [B|B]; [|done].
  unfold ModbusRange.lastRegister in B. unfold ModbusRegisters.getCount in *.
  rewrite to_u16_small by (unfold is_u16; lia). unfold registerAt, ModbusRegisters.getValue.
  destruct (msgRegisters m !! _) as [x|] eqn:E.
  - destruct (Z.ltb_spec (idRegister i - mRegister (mRange (msgBase m))) 0); [lia|]. cbn [obind default].
    unfold setValue, setReadError, id. destruct (Z.eqb_spec (rvValue v) x) as [X|X];
      cbn [negb fst snd rvHasValue rvValue].
    + by rewrite orb_false_r, X.
    + by rewrite orb_true_r.
  - exfalso. apply lookup_ge_None in E. lia.
Qed.

Lemma leafRegisterIn_covered net m iv : leafRegisterIn net m iv.1 = covered net m iv.
Proof.
  unfold leafRegisterIn, covered, sameSlave, ModbusRange.overlaps, identRange, ModbusRange.firstRegister.
  destruct iv as [i v]. cbn [fst mRegisterType mRegister mCount].
  rewrite (Z.eqb_sym (idSlave i)). destruct (mSlaveId m =? idSlave i); cbn [andb]; [|done].
  rewrite (bool_decide_ext (idNetwork i = net) (net = idNetwork i)) by (split; congruence).
  destruct (decide (mRegisterType (mRange m) = idType i)) as [T|T].
  - rewrite (bool_decide_true (mRegisterType (mRange m) = idType i)) by exact T.
    unfold ModbusRange.lastRegister. cbn [mRegister mCount andb].
    replace (idRegister i + 1 - 1) with (idRegister i) by lia.
    destruct (bool_decide (net = idNetwork i)); cbn [andb]; [by rewrite andb_true_r|by rewrite andb_false_r].
  - by rewrite (bool_decide_false (mRegisterType (mRange m) = idType i)) by exact T.
Qed.

Lemma isPolling_leaves n : wfNode n = true -> isPolling n = forallb (fun iv => rvReadOk iv.2) (leaves n).
Proof.
  induction n as [name f i v c|name x l f i v c IH] using DataNode_nested_ind; intros W.
  - cbn [wfNode] in W. apply bool_decide_eq_true in W as [j ->]. cbn. by rewrite andb_true_r.
  - cbn [wfNode isPolling leaves] in *. induction IH as [|n l' Hn _ IHl]; [done|].
    cbn [forallb flat_map] in *. apply andb_prop in W as [Wn Wl]. rewrite Hn, forallb_app by done.
    by rewrite IHl.
Qed.

Lemma hasAllValues_leaves n :
  wfNode n = true -> hasAllValues n = Ret (forallb (fun iv => rvHasValue iv.2) (leaves n)).
Proof.
  induction n as [name f i v c|name x l f i v c IH] using DataNode_nested_ind; intros W.
  - cbn [wfNode] in W. apply bool_decide_eq_true in W as [j ->]. cbn. by rewrite andb_true_r.
  - cbn [wfNode hasAllValues leaves] in *. induction IH as [|n l' Hn _ IHl]; [done|].
    cbn [forallb flat_map allNodes] in *. apply andb_prop in W as [Wn Wl]. rewrite Hn, forallb_app by done.
    cbn [obind]. destruct (forallb _ (leaves n)); cbn [andb]; [by apply IHl|done].
Qed.

Lemma hasRegisterIn_leaves net m n :
  wfNode n = true -> hasRegisterIn net m n = Ret (existsb (covered net m) (leaves n)).
Proof.
  induction n as [name f i v c|name x l f i v c IH] using DataNode_nested_ind; intros W.
  - cbn [wfNode] in W. apply bool_decide_eq_true in W as [j ->]. cbn [hasRegisterIn leaves existsb].
    by rewrite orb_false_r, <- leafRegisterIn_covered.
  - cbn [wfNode hasRegisterIn leaves] in *. induction IH as [|n l' Hn _ IHl]; [done|].
    cbn [forallb flat_map anyNode] in *. apply andb_prop in W as [Wn Wl]. rewrite Hn, existsb_app by done.
    cbn [obind]. destruct (existsb _ (leaves n)); cbn [orb]; [done|by apply IHl].
Qed.

(** C37: a tree of data nodes behaves as the list of its registers: an update sets
    exactly the registers of the message to the values it has for them, marks them
    as read, and leaves the rest of the tree alone; it reports a change when one of
    them had no value or another one; and the queries quantify over the registers. *)
Theorem node_refines_registers net m n :
  wfNode n = true -> valuesOk m ->
  (exists n', updateNode (valueLeaf net m) n
        = Ret (existsb (fun iv => covered net (msgBase m) iv
                 && (negb (rvHasValue iv.2) || negb (rvValue iv.2 =? registerAt m (idRegister iv.1))))
               (leaves n), n')
     /\ leaves n' = (fun iv => if covered net (msgBase m) iv
                               then (iv.1, mkValue true true (registerAt m (idRegister iv.1))) else iv)
                    <$> leaves n
     /\ skeleton n' = skeleton n)
  /\ isPolling n = forallb (fun iv => rvReadOk iv.2) (leaves n)
  /\ hasAllValues n = Ret (forallb (fun iv => rvHasValue iv.2) (leaves n))
  /\ hasRegisterIn net (msgBase m) n = Ret (existsb (covered net (msgBase m)) (leaves n)).
Proof.
  intros W V. split; [|split; [by apply isPolling_leaves|split; [by apply hasAllValues_leaves|
    by apply hasRegisterIn_leaves]]].
  destruct (updateNode_pointwise (valueLeaf net m) (valueOf net m) n W) as (n' & U & L & S & _).
  { apply Forall_forall. intros iv _. by apply valueLeaf_acts. }
  exists n'. rewrite U, L. split; [|split; [|done]].
  - do 2 f_equal. apply existsb_ext. intros iv. unfold changedBy, valueOf. by destruct (covered _ _ iv).
  - apply list_fmap_ext. intros _ [i v] _. unfold updatedBy, valueOf. cbn [fst snd].
    by destruct (covered _ _ (i, v)).
Qed.

(** * Availability *)

(** An update that reports no change changes nothing; with [polled], only on nodes
    that are polled. *)
Definition quiet (polled : bool) (leaf : RegisterIdent -> RegisterValue -> outcome (bool * RegisterValue)) : Prop :=
  forall i v v', (polled = true -> rvReadOk v = true) -> leaf i v = Ret (false, v') -> v' = v.

Lemma updateNode_quiet polled leaf n n' :
  quiet polled leaf -> (polled = true -> isPolling n = true) ->
  updateNode leaf n = Ret (false, n') -> n' = n.
Proof.
  intros Q. revert n'.
  induction n as [name f i v c|name x l f i v c IH] using DataNode_nested_ind; intros n' P U.
  - cbn [updateNode] in U. destruct i as [i|]; [|done].
    destruct (leaf i v) as [[r v']|] eqn:E; cbn [obind] in U; [|done]. injection U as -> <-.
    by rewrite (Q i v v' P E).
  - cbn [updateNode] in U. destruct (updateList (updateNode leaf) (x :: l)) as [[r l']|] eqn:E;
      cbn [obind] in U; [|done]. injection U as -> <-. f_equal.
    change (isPolling (mkNode name (x :: l) f i v c)) with (forallb isPolling (x :: l)) in P.
    remember (x :: l) as L eqn:EL. clear EL x l.
    revert l' E. induction IH as [|y l0 Hy _ IHl]; intros l' E; [by injection E as <-|].
    rewrite updateList_cons in E. destruct (updateNode leaf y) as [[r1 y']|] eqn:E1; cbn [obind] in E; [|done].
    destruct (updateList (updateNode leaf) l0) as [[r2 l2]|] eqn:E2; cbn [obind] in E; [|done].
    injection E as R <-. apply orb_false_elim in R as [-> ->].
    rewrite (Hy y'); [|intros HP; apply P in HP; cbn [forallb] in HP; apply andb_prop in HP; tauto|done].
    f_equal. apply IHl; [|done]. intros HP. apply P in HP. cbn [forallb] in HP. apply andb_prop in HP; tauto.
Qed.

Lemma updateState_quiet polled leaf s s' :
  quiet polled leaf -> (polled = true -> stateIsPolling s = true) ->
  updateState leaf s = Ret (false, s') -> s' = s.
Proof.
  intros Q P U. unfold updateState in U.
  destruct (updateList (updateNode leaf) (stNodes s)) as [[r l']|] eqn:E; cbn [obind] in U; [|done].
  injection U as -> <-. destruct s as [nodes f]. cbn [stNodes stForceList] in *. f_equal.
  unfold stateIsPolling in P. cbn [stNodes] in P. revert l' E P.
  induction nodes as [|n nodes IH]; intros l' E P; [by injection E as <-|].
  rewrite updateList_cons in E. destruct (updateNode leaf n) as [[r1 n']|] eqn:E1; cbn [obind] in E; [|done].
  destruct (updateList (updateNode leaf) nodes) as [[r2 l2]|] eqn:E2; cbn [obind] in E; [|done].
  injection E as R <-. apply orb_false_elim in R as [-> ->].
  assert (P1 : polled = true -> isPolling n = true /\ forallb isPolling nodes = true).
  { intros HP. apply P in HP. cbn [forallb] in HP. by apply andb_prop. }
  rewrite (updateNode_quiet polled leaf n n' Q (fun HP => proj1 (P1 HP)) E1). f_equal.
  apply IH; [done|]. intros HP. by apply P1.
Qed.

Lemma valueLeaf_quiet net m : quiet true (valueLeaf net m).
Proof.
  intros i v v' P. specialize (P eq_refl). unfold valueLeaf. destruct (_ && _); [|by intros [= <-]].
  destruct (ModbusRegisters.getValue _ _) as [x|]; cbn [obind]; [|done].
  unfold setValue, setReadError. destruct v as [ok has val]. cbn [rvReadOk rvHasValue rvValue] in *. subst ok.
  destruct (val =? x); cbn [negb]; intros [= E1 E2].
  destruct has; [|done]. by subst v'.
Qed.

Lemma failedLeaf_quiet net m : quiet false (failedLeaf net m).
Proof. intros i v v' _. unfold failedLeaf. destruct (_ && _); by intros [= <-]. Qed.

Lemma networkLeaf_quiet net b : quiet false (networkLeaf net b).
Proof. intros i v v' _. unfold networkLeaf. destruct (_ && _); by intros [= <-]. Qed.

(** The flag of an object is the one its registers call for. *)
Definition flagCurrent (o : MqttObject) : Prop := currentFlag o = Ret (mIsAvailable o).

Lemma withStates_same o : withStates (mState o) (mAvailability o) o = o.
Proof. by destruct o. Qed.

Lemma updateObject_flag polled leaf recompute o r o' :
  quiet polled leaf ->
  (forall flag, recompute flag true = true) ->
  (polled = true -> recompute AFalse false = true) ->
  updateObject leaf recompute o = Ret (r, o') -> flagCurrent o -> flagCurrent o'.
Proof.
  intros Q R1 R2 U F. unfold updateObject in U.
  destruct (updateState leaf (mState o)) as [[r1 s]|] eqn:E1; cbn [obind] in U; [|done].
  destruct (updateState leaf (mAvailability o)) as [[r2 a]|] eqn:E2; cbn [obind] in U; [|done].
  destruct (recompute (mIsAvailable o) (r1 || r2)) eqn:R.
  - unfold updateAvailablityFlag in U.
    destruct (currentFlag (withStates s a o)) as [f|] eqn:C; cbn [obind] in U; [|done].
    by injection U as <- <-.
  - injection U as <- <-.
    assert (B : r1 = false /\ r2 = false) by (destruct r1, r2; rewrite ?R1 in R; done).
    destruct B as [-> ->].
    assert (P : polled = true -> stateIsPolling (mState o) = true /\ stateIsPolling (mAvailability o) = true).
    { intros HP. specialize (R2 HP). unfold flagCurrent, currentFlag in F.
      destruct (stateIsPolling (mAvailability o)), (stateIsPolling (mState o)); cbn [negb orb] in F; try done;
        injection F as F; rewrite <- F in R; cbn [orb] in R; congruence. }
    assert (s = mState o) as -> by (apply (updateState_quiet polled leaf); [done|intros HP; by apply P|done]).
    assert (a = mAvailability o) as -> by (apply (updateState_quiet polled leaf); [done|intros HP; by apply P|done]).
    by rewrite withStates_same.
Qed.

(** What happens to an object while the gateway runs. *)
Inductive ostep : MqttObject -> MqttObject -> Prop :=
| ostep_values net m o o' : updateRegisterValues net m o = Ret o' -> ostep o o'
| ostep_failed net m o o' : updateRegistersReadFailed net m o = Ret o' -> ostep o o'
| ostep_network net isUp o r o' : setModbusNetworkState net isUp o = Ret (r, o') -> ostep o o'.

Lemma ostep_flag o o' : ostep o o' -> flagCurrent o -> flagCurrent o'.
Proof.
  intros S F. inversion S as [net m ? ? U|net m ? ? U|net b ? r ? U]; subst.
  - unfold updateRegisterValues in U.
    destruct (updateObject _ _ o) as [[r x]|] eqn:E; cbn [obind] in U; [|done]. injection U as <-.
    by apply (updateObject_flag true _ _ o r x (valueLeaf_quiet net m)) in E.
  - unfold updateRegistersReadFailed in U.
    destruct (updateObject _ _ o) as [[r x]|] eqn:E; cbn [obind] in U; [|done]. injection U as <-.
    by apply (updateObject_flag false _ _ o r x (failedLeaf_quiet net m)) in E.
  - by apply (updateObject_flag false _ _ o r o' (networkLeaf_quiet net b)) in U.
Qed.

(** An update only succeeds on trees whose scalar nodes have an identifier. *)
Lemma updateList_wf leaf l r l' :
  Forall (fun n => forall r n', updateNode leaf n = Ret (r, n') -> wfNode n' = true) l ->
  updateList (updateNode leaf) l = Ret (r, l') -> forallb wfNode l' = true /\ (l <> [] -> l' <> []).
Proof.
  intros F. revert r l'. induction F as [|n l Hn _ IH]; intros r l' U; [by injection U as <- <-|].
  rewrite updateList_cons in U. destruct (updateNode leaf n) as [[r1 n']|] eqn:E1; cbn [obind] in U; [|done].
  destruct (updateList (updateNode leaf) l) as [[r2 l2]|]; cbn [obind] in U; [|done].
  injection U as <- <-. destruct (IH _ _ eq_refl) as [W _]. cbn [forallb]. by rewrite (Hn _ _ eq_refl), W.
Qed.

Lemma updateNode_wf leaf n r n' : updateNode leaf n = Ret (r, n') -> wfNode n' = true.
Proof.
  revert r n'. induction n as [name f i v c|name x l f i v c IH] using DataNode_nested_ind; intros r n' U.
  - cbn [updateNode] in U. destruct i as [i|]; [|done].
    destruct (leaf i v) as [[r1 v']|]; cbn [obind] in U; [|done]. injection U as <- <-.
    by apply bool_decide_eq_true.
  - cbn [updateNode] in U. destruct (updateList _ (x :: l)) as [[r1 l']|] eqn:E; cbn [obind] in U; [|done].
    injection U as <- <-. destruct (updateList_wf _ _ _ _ IH E) as [W L]. destruct l'; [by destruct L|done].
Qed.

(** The trees of an object are well formed. *)
Definition wfObject (o : MqttObject) : Prop :=
  forallb wfNode (stNodes (mState o)) = true /\ forallb wfNode (stNodes (mAvailability o)) = true.

Lemma updateObject_wf leaf recompute o r o' : updateObject leaf recompute o = Ret (r, o') -> wfObject o'.
Proof.
  assert (S : forall s r s', updateState leaf s = Ret (r, s') -> forallb wfNode (stNodes s') = true).
  { intros s r0 s' U. unfold updateState in U.
    destruct (updateList (updateNode leaf) (stNodes s)) as [[r1 l']|] eqn:E; cbn [obind] in U; [|done].
    injection U as <- <-. apply (updateList_wf _ _ _ _ (ltac:(apply Forall_forall; eauto using updateNode_wf)) E). }
  intros U. unfold updateObject in U.
  destruct (updateState leaf (mState o)) as [[r1 s]|] eqn:E1; cbn [obind] in U; [|done].
  destruct (updateState leaf (mAvailability o)) as [[r2 a]|] eqn:E2; cbn [obind] in U; [|done].
  assert (W : wfObject (withStates s a o)) by (split; by eapply S).
  destruct (recompute _ _); [|by injection U as <- <-]. unfold updateAvailablityFlag in U.
  destruct (currentFlag _); cbn [obind] in U; [|done]. by injection U as <- <-.
Qed.

Lemma ostep_wf o o' : ostep o o' -> wfObject o'.
Proof.
  intros S. inversion S as [net m ? ? U|net m ? ? U|net b ? r ? U]; subst; [..|by eapply updateObject_wf];
    (unfold updateRegisterValues, updateRegistersReadFailed in U;
     destruct (updateObject _ _ o) as [[r x]|] eqn:E; cbn [obind] in U; [|done]; injection U as <-;
     by eapply updateObject_wf).
Qed.

(** An object after configuration: no register has been read yet. *)
Definition fresh (o : MqttObject) : Prop :=
  mIsAvailable o = NotSet
  /\ forallb wfNode (stNodes (mState o) ++ stNodes (mAvailability o)) = true
  /\ Forall (fun iv => iv.2 = newValue) (flat_map leaves (stNodes (mState o) ++ stNodes (mAvailability o)))
  /\ flat_map leaves (stNodes (mState o)) <> [].

Lemma stateIsPolling_leaves s :
  forallb wfNode (stNodes s) = true ->
  stateIsPolling s = forallb (fun iv => rvReadOk iv.2) (flat_map leaves (stNodes s)).
Proof.
  unfold stateIsPolling. induction (stNodes s) as [|n l IH]; [done|]. cbn [forallb flat_map]. intros W.
  apply andb_prop in W as [Wn W]. by rewrite isPolling_leaves, forallb_app, IH.
Qed.

Lemma stateHasAllValues_leaves s :
  forallb wfNode (stNodes s) = true ->
  stateHasAllValues s = Ret (forallb (fun iv => rvHasValue iv.2) (flat_map leaves (stNodes s))).
Proof.
  unfold stateHasAllValues. induction (stNodes s) as [|n l IH]; [done|]. cbn [forallb flat_map allNodes].
  intros W. apply andb_prop in W as [Wn W]. rewrite hasAllValues_leaves, forallb_app by done. cbn [obind].
  destruct (forallb _ (leaves n)); cbn [andb]; [by apply IH|done].
Qed.

Lemma fresh_flag o : fresh o -> flagCurrent o.
Proof.
  intros (F & W & V & N). unfold flagCurrent, currentFlag. rewrite F.
  rewrite forallb_app in W. apply andb_prop in W as [Ws Wa].
  rewrite flat_map_app in V. apply Forall_app in V as [Vs Va].
  assert (P : forall l, Forall (fun iv : RegisterIdent * RegisterValue => iv.2 = newValue) l ->
                        forallb (fun iv => rvReadOk iv.2) l = true).
  { intros l Fl. apply forallb_forall. intros iv Hiv. rewrite Forall_forall in Fl.
    by rewrite (Fl iv) by (by apply list_elem_of_In). }
  rewrite !stateIsPolling_leaves, !P by done. cbn [negb orb].
  rewrite !stateHasAllValues_leaves by done. cbn [obind].
  destruct (forallb _ (flat_map leaves (stNodes (mAvailability o)))); cbn [negb]; [|done].
  destruct (flat_map leaves (stNodes (mState o))) as [|iv l]; [done|].
  apply Forall_cons in Vs as [Viv _]. cbn [forallb]. by rewrite Viv.
Qed.

(** All registers of an object. *)
Definition objectLeaves (o : MqttObject) : list (RegisterIdent * RegisterValue) :=
  flat_map leaves (stNodes (mAvailability o)) ++ flat_map leaves (stNodes (mState o)).

(** The availability the registers of an object call for. *)
Definition calledFor (o : MqttObject) (f : AvailableFlag) : Prop :=
  (Exists (fun iv => rvReadOk iv.2 = false) (objectLeaves o) /\ f = AFalse)
  \/ (Forall (fun iv => rvReadOk iv.2 = true) (objectLeaves o)
      /\ Exists (fun iv => rvHasValue iv.2 = false) (objectLeaves o) /\ f = NotSet)
  \/ (Forall (fun iv => rvReadOk iv.2 = true /\ rvHasValue iv.2 = true) (objectLeaves o)
      /\ match stNodes (mAvailability o) with
         | [] => f = ATrue
         | n :: _ => exists v i e, getConvertedValue n = Ret v /\ MqttValue.getInt v = Ret i
             /\ MqttValue.getInt (mAvailableValue o) = Ret e /\ f = if decide (i = e) then ATrue else AFalse
         end).

Lemma currentFlag_calledFor o f : wfObject o -> currentFlag o = Ret f -> calledFor o f.
Proof.
  intros [Ws Wa]. unfold currentFlag, availabilityFlag, calledFor, objectLeaves.
  rewrite !stateIsPolling_leaves, !stateHasAllValues_leaves by done. cbn [obind].
  rewrite <- negb_andb, <- forallb_app. intros C.
  set (regs := (flat_map leaves (stNodes (mAvailability o)) ++ flat_map leaves (stNodes (mState o)))%list) in *.
  destruct (forallb (fun iv => rvReadOk iv.2) regs) eqn:P; cbn [negb] in C; last first.
  { left. injection C as <-. split; [|done]. by apply forallb_Exists. }
  right. apply forallb_Forall in P. destruct (forallb (fun iv => rvHasValue iv.2) regs) eqn:V.
  - right. apply forallb_Forall in V. split; [by apply Forall_and|].
    assert (V' := V). unfold regs in V. apply Forall_app in V as [Va Vs].
    apply forallb_Forall in Va, Vs. rewrite Va, Vs in C. cbn [negb] in C.
    destruct (stNodes (mAvailability o)) as [|n l]; [by injection C|].
    apply Forall_app in P as [Pa _]. apply forallb_Forall in Pa. rewrite Pa in C. cbn [negb orb] in C.
    destruct (getConvertedValue n) as [v|]; cbn [obind] in C; [|done].
    destruct (MqttValue.getInt v) as [i|] eqn:Ei; cbn [obind] in C; [|done].
    destruct (MqttValue.getInt (mAvailableValue o)) as [e|] eqn:Ee; cbn [obind] in C; [|done].
    exists v, i, e. split_and!; try done. injection C as <-.
    destruct (Z.eqb_spec i e), (decide (i = e)); done.
  - left. split; [done|]. split; [by apply forallb_Exists|]. unfold regs in V. rewrite forallb_app in V.
    destruct (forallb _ (flat_map leaves (stNodes (mAvailability o)))); cbn [negb andb] in C, V; [|by injection C].
    rewrite V in C. by injection C.
Qed.

(** C38: whatever register values, read errors and network states an object
    receives, its availability is always the one its registers call for: False
    while one of them cannot be read, unknown while all are read but one has no
    value yet, and otherwise True, or, with availability registers, the comparison
    of their value with the expected one. *)
Theorem availability_current o o' : fresh o -> rtc ostep o o' -> calledFor o' (mIsAvailable o').
Proof.
  intros F S. assert (W : wfObject o).
  { destruct F as (_ & W & _). rewrite forallb_app in W. by apply andb_prop in W. }
  apply fresh_flag in F. apply currentFlag_calledFor.
  - induction S as [o|o x o' S _ IH]; [done|]. apply IH; [by eapply ostep_flag|by eapply ostep_wf].
  - change (flagCurrent o'). clear W. induction S as [o|o x o' S _ IH]; [done|]. apply IH. by eapply ostep_flag.
Qed.

End object.

Arguments DataNode D : clear implicits.
Arguments ObjectState D : clear implicits.
Arguments MqttObject D : clear implicits.

(** * Witnesses *)

Definition demoIdent (a : Z) : RegisterIdent := mkIdent "net" 1 a HOLDING.
Definition demoLeaf (a : Z) : DataNode Z := setScalarNode (demoIdent a) newNode.
Definition demoTree : DataNode Z := addChildDataNode (demoLeaf 3) false (addChildDataNode (demoLeaf 2) false newNode).
Definition demoObject : MqttObject Z :=
  withStates (addDataNode demoTree false newState) (addDataNode (demoLeaf 4) false newState)
    (newObject "dev" ON_CHANGE 1000).
Definition demoMsg : MsgRegisterValues := newMsgRegisterValues 1 HOLDING 2 [20; 30; 1] 0 AUTO 0.

Lemma node_refines_registers_witness :
  exists n', updateNode (valueLeaf "net" demoMsg) demoTree = Ret (true, n')
    /\ leaves n' = [(demoIdent 2, mkValue true true 20); (demoIdent 3, mkValue true true 30)].
Proof.
  destruct (node_refines_registers "net" demoMsg demoTree) as [(n' & U & L & _) _];
    [reflexivity|split; [reflexivity|vm_compute; discriminate]|].
  exists n'. split; [exact U|exact L].
Defined.

(** With all its registers read the object is available, and a read error of one of
    them makes it unavailable. *)
Lemma availability_current_witness :
  exists o1 o2, updateRegisterValues "net" demoMsg demoObject = Ret o1 /\ mIsAvailable o1 = ATrue
    /\ updateRegistersReadFailed "net" (newMsgFailed 1 HOLDING 3 1 0) o1 = Ret o2 /\ mIsAvailable o2 = AFalse
    /\ calledFor o2 (mIsAvailable o2).
Proof.
  eexists _, _. split; [reflexivity|]. split; [reflexivity|]. split; [reflexivity|]. split; [reflexivity|].
  apply (availability_current demoObject).
  - split; [reflexivity|]. split; [reflexivity|]. split; [repeat constructor|discriminate].
  - eapply rtc_l; [by apply (ostep_values "net" demoMsg)|].
    eapply rtc_l; [by apply (ostep_failed "net" (newMsgFailed 1 HOLDING 3 1 0))|]. apply rtc_refl.
Defined.

(** A read failure of a range also hits the registers as far below it as the range
    is long. *)
Theorem read_failure_below_range :
  covered "net" (newMsgFailed 1 HOLDING 10 3 0) (demoIdent 8, newValue) = false
  /\ failedLeaf "net" (newMsgFailed 1 HOLDING 10 3 0) (demoIdent 8) newValue
     = Ret (true, setReadError true newValue).
Proof. vm_compute. auto. Qed.

End MqttObject.
