(* ===== verification/MqttPayload.v ===== *)
(** Payloads: libmodmqttsrv/mqttpayload.cpp, and the conversion of a command
    payload without a converter, default_command_converter.cpp. *)

From stdpp Require Import base list strings.
From Stdlib Require Import ZArith Lia String.
From S2P Require Import Prelude ModbusTypes Commands ConvTools ConvArgs StdConv Converters MqttObject.

#[local] Open Scope string_scope.
#[local] Open Scope Z_scope.

Import MqttObject.

Section payload.
Context {D : Type} `{CDouble D} `{Rapidjson D}.

(** * mqttpayload.cpp *)

(** createConvertedValue *)
Definition createConvertedValue (value : MqttValue D) : outcome (list (WriterCall D)) :=
  match value with
  | VInt v => Ret [WInt v]
  | VDouble d prec =>
      let places := if 0 <? prec then [WSetMaxDecimalPlaces prec]
                    else if prec =? NO_PRECISION then [WSetMaxDecimalPlaces 6] else [] in
      if prec =? 0 then let! i := MqttValue.getInt64 value in Ret (places ++ [WInt64 i])%list
      else Ret (places ++ [WDouble d])%list
  | VBinary s => Ret [WString s]
  | VInt64 v => Ret [WInt64 v]
  end.

(** isMap and isList, with the front of the list. *)
Definition isMap (front : DataNode D) : bool := negb (isUnnamed front).
Definition isList (nodes : list (DataNode D)) (force : bool) (front : DataNode D) : bool :=
  force || ((1 <? Z.of_nat (Datatypes.length nodes)) && isUnnamed front).

Definition scalarCalls (n : DataNode D) : outcome (list (WriterCall D)) :=
  let! v := getConvertedValue n in createConvertedValue v.

(** The calls for the elements of an object or an array. *)
Definition elementCalls (named : bool) (f : DataNode D -> outcome (list (WriterCall D)))
  : list (DataNode D) -> outcome (list (WriterCall D)) :=
  fix go l :=
    match l with
    | [] => Ret []
    | n :: l' =>
        let! c := f n in
        let! cs := go l' in
        Ret ((if named then [WKey (cstr (nodeName n))] else []) ++ c ++ cs)%list
    end.

(** generateJson on a list of nodes, given what it does on each of them. *)
Definition listCalls (f : DataNode D -> outcome (list (WriterCall D))) (nodes : list (DataNode D))
    (force : bool) : outcome (list (WriterCall D)) :=
  match nodes with
  | [] => Fault UndefinedBehaviour
  | front :: _ =>
      if isMap front then
        let! c := elementCalls true f nodes in Ret ([WStartObject] ++ c ++ [WEndObject])%list
      else if isList nodes force front then
        let! c := elementCalls false f nodes in Ret ([WStartArray] ++ c ++ [WEndArray])%list
      else scalarCalls front
  end.

Fixpoint nodeCalls (n : DataNode D) : outcome (list (WriterCall D)) :=
  match n with
  | mkNode _ nodes force _ _ _ =>
      if isScalar n || hasConverter n then scalarCalls n else listCalls nodeCalls nodes force
  end.

Definition generateJson (nodes : list (DataNode D)) (force : bool) : outcome (list (WriterCall D)) :=
  listCalls nodeCalls nodes force.

(** MqttPayload::generate *)
Definition generate (o : MqttObject D) : outcome string :=
  let nodes := stNodes (mState o) in
  let force := stForceList (mState o) in
  let json := (let! calls := generateJson nodes force in Ret (writerText calls)) in
  if negb force then
    match nodes with
    | [] => Fault UndefinedBehaviour
    | single :: _ =>
        if isUnnamed single && (isScalar single || hasConverter single)
        then let! v := getConvertedValue single in Ret (MqttValue.getString v)
        else json
    end
  else json.

(** * default_command_converter.cpp *)

(** The checks of rapidjson::Value on the type of a number. *)
Definition jsonInt (j : Json D) : option Z :=
  match j with JInt z => if (INT_MIN <=? z) && (z <=? INT_MAX) then Some z else None | _ => None end.

(** to_uint16 *)
Definition to_uint16 (val : Z) : outcome Z :=
  if (val <=? UINT16_MAX) && (0 <=? val) then Ret val
  else Fault (ConvException ("Conversion failed, register value " +:+ Numbers.to_string val +:+ " out of range")).

(** [GetInt] asserts that the value is an int. *)
Fixpoint arrayValues (l : list (Json D)) : outcome (list Z) :=
  match l with
  | [] => Ret []
  | j :: l' =>
      match jsonInt j with
      | None => Fault AssertionFailed
      | Some z => let! v := to_uint16 z in let! vs := arrayValues l' in Ret (v :: vs)
      end
  end.

(** parseAsJson; a document that could not be parsed is null. *)
Definition parseAsJson (jsonData : string) (registerCount : Z) : outcome (list Z) :=
  match parseDocument (cstr jsonData) with
  | inl (JArray l) =>
      if negb (Z.of_nat (Datatypes.length l) =? registerCount)
      then Fault (ConvException ("Wrong json array size (" +:+ Numbers.to_string (Z.of_nat (Datatypes.length l))
                                 +:+ "), need " +:+ Numbers.to_string registerCount))
      else arrayValues l
  | _ => Fault (ConvException "Only json array is supported when converting to multiple registers")
  end.

(** DefaultCommandConverter::toModbus *)
Definition defaultToModbus (value : MqttValue D) (registerCount : Z) : outcome (list Z) :=
  if 1 <? registerCount then parseAsJson (MqttValue.getString value) registerCount
  else
    let! temp := MqttValue.getInt value in
    if (temp <=? UINT16_MAX) && (0 <=? temp) then Ret [temp]
    else Fault (ConvException ("Conversion failed, value " +:+ Numbers.to_string temp +:+ " out of range")).

(** * What is written *)

(** The calls left open after a sequence of calls: the brackets, innermost first. *)
Inductive bracket : Type := Obj | Arr.
Definition closes (c : WriterCall D) (st : list bracket) : option (list bracket) :=
  match c, st with
  | WStartObject, _ => Some (Obj :: st)
  | WStartArray, _ => Some (Arr :: st)
  | WEndObject, Obj :: st' => Some st'
  | WEndArray, Arr :: st' => Some st'
  | WEndObject, _ | WEndArray, _ => None
  | _, _ => Some st
  end.
Fixpoint brackets (l : list (WriterCall D)) (st : list bracket) : option (list bracket) :=
  match l with
  | [] => Some st
  | c :: l' => match closes c st with Some st' => brackets l' st' | None => None end
  end.

Lemma brackets_app l1 l2 st :
  brackets (l1 ++ l2) st = match brackets l1 st with Some st' => brackets l2 st' | None => None end.
Proof. revert st. induction l1 as [|c l IH]; intros st; cbn; [done|]. by destruct (closes c st). Qed.

Definition balanced (l : list (WriterCall D)) : Prop := forall st, brackets l st = Some st.

Lemma balanced_app l1 l2 : balanced l1 -> balanced l2 -> balanced (l1 ++ l2).
Proof. intros B1 B2 st. by rewrite brackets_app, B1, B2. Qed.

Lemma createConvertedValue_balanced v l : createConvertedValue v = Ret l -> balanced l.
Proof.
  destruct v as [v|d prec|s|v]; cbn [createConvertedValue]; [by intros [= <-] st| |by intros [= <-] st..].
  destruct (0 <? prec), (prec =? NO_PRECISION), (prec =? 0); cbn; by intros [= <-] st.
Qed.

Lemma scalarCalls_balanced n l : scalarCalls n = Ret l -> balanced l.
Proof.
  unfold scalarCalls. destruct (getConvertedValue n); cbn [obind]; [|done]. apply createConvertedValue_balanced.
Qed.

Lemma elementCalls_balanced named f nodes l :
  Forall (fun n => forall c, f n = Ret c -> balanced c) nodes -> elementCalls named f nodes = Ret l -> balanced l.
Proof.
  revert l. induction nodes as [|n nodes IH]; intros l F; [by intros [= <-] st|].
  apply Forall_cons in F as [Fn F].
  change (elementCalls named f (n :: nodes))
    with (let! c := f n in let! cs := elementCalls named f nodes in
          Ret ((if named then [WKey (cstr (nodeName n))] else []) ++ c ++ cs)%list).
  destruct (f n) as [c|]; cbn [obind]; [|done].
  destruct (elementCalls named f nodes) as [cs|] eqn:E; cbn [obind]; [|done]. intros [= <-].
  apply balanced_app; [by destruct named|]. apply balanced_app; [by apply Fn|]. by apply IH.
Qed.

Lemma listCalls_balanced f nodes force l :
  Forall (fun n => forall c, f n = Ret c -> balanced c) nodes -> listCalls f nodes force = Ret l -> balanced l.
Proof.
  intros F. unfold listCalls. destruct nodes as [|front nodes]; [done|].
  destruct (isMap front); [|destruct (isList _ _ _); [|apply scalarCalls_balanced]].
  - destruct (elementCalls true f (front :: nodes)) as [c|] eqn:E; cbn [obind]; [|done]. intros [= <-] st.
    apply elementCalls_balanced in E; [|done]. cbn. by rewrite brackets_app, E.
  - destruct (elementCalls false f (front :: nodes)) as [c|] eqn:E; cbn [obind]; [|done]. intros [= <-] st.
    apply elementCalls_balanced in E; [|done]. cbn. by rewrite brackets_app, E.
Qed.

(** Every object and array the payload of an object opens is closed in order. *)
Theorem generateJson_balanced nodes force l : generateJson nodes force = Ret l -> balanced l.
Proof.
  apply listCalls_balanced, Forall_forall. intros n _.
  induction n as [name f i v c|name x k f i v c IH] using DataNode_nested_ind; intros l'; cbn [nodeCalls].
  - change (isScalar _) with true. cbn [orb]. apply scalarCalls_balanced.
  - destruct (_ || _); [apply scalarCalls_balanced|]. by apply listCalls_balanced.
Qed.

End payload.

(** An element that is not an integer is an assertion of rapidjson, not an error
    reported to the sender. *)
Theorem default_converter_asserts :
  arrayValues (D := Z) [JInt 1; JString "2"] = Fault AssertionFailed.
Proof. reflexivity. Qed.
