(* ===== verification/MqttClient.v ===== *)
(** The MQTT side: libmodmqttsrv/mqttclient.cpp with mqttcommand.hpp,
    pending_rpc_request.hpp and imqttimpl.hpp, ConfigTools::registerNumberFromString
    of config.hpp, and ModMqtt::processModbusMessages of modmqtt.cpp.

    The client is a state that its handlers transform; what the MQTT library and the
    modbus threads have accepted from it is a log of effects, kept when a handler
    throws. *)

From stdpp Require Import base gmap list strings.
From Stdlib Require Import ZArith Lia Ascii String.
From S2P Require Import Prelude ModbusTypes Commands Config ModbusThread ConvTools.
From S2P Require Import ConvArgs StdConv Converters MqttObject MqttPayload.

#[local] Open Scope string_scope.
#[local] Open Scope Z_scope.

Import MqttObject.

(** * Data *)

(** MqttClient::State *)
Inductive ConnectionState : Type := DISCONNECTED | CONNECTING | CONNECTED | DISCONNECTING.

#[export] Instance ConnectionState_eq_dec : EqDecision ConnectionState.
Proof. solve_decision. Defined.

Section data.
Context {D : Type}.

(** class MqttObjectCommand; its only payload type is STRING. *)
Record MqttObjectCommand : Type := mkObjectCommand {
  commandBase : ModbusMessageBase;
  commandTopic : string;
  commandNetwork : string;
  commandWriteMode : ModbusWriteMode;
  commandConverter : option (DataConverter D)
}.

(** struct PendingRpcRequest; the correlation data are its bytes. *)
Record PendingRpcRequest : Type := mkPending {
  rpcNetwork : string;
  rpcResponseTopic : string;
  rpcCorrelation : string;
  rpcSlave : Z;
  rpcRegister : Z;
  rpcDisplayAddress : string;
  rpcType : RegisterType;
  rpcCount : Z;
  rpcIsWrite : bool;
  rpcConverter : option (DataConverter D)
}.

(** The calls of IMqttImpl and the messages to the modbus threads; a payload of
    [None] is the null pointer. *)
Inductive Effect : Type :=
| EInit (clientId : string)
| EConnect (config : MqttBrokerConfig)
| EReconnect
| EDisconnect
| EStop
| ESubscribe (topic : string)
| EPublish (topic : string) (payload : option string) (retain : bool)
| EResponse (topic : string) (payload : option string) (correlation : string)
    (properties : list (string * string))
| EToModbus (network : string) (m : ToModbus)
| ENotifyQueues.

(** class MqttClient.  The objects are shared between the lists of mObjects and
    mCommandObjects: they are in a store, the lists hold pointers.  [cTick] counts
    the questions asked of the environment. *)
Record Client : Type := mkClient {
  cConnection : ConnectionState;
  cStarted : bool;
  cBroker : MqttBrokerConfig;
  cNetworks : list string;
  cObjects : list (RegisterIdent * list ptr);
  cCommandObjects : list (Z * list ptr);
  cStore : ptr -> MqttObject D;
  cCommands : list (string * MqttObjectCommand);
  cRpcMode : RpcMode;
  cRpcTopic : string;
  cNextRpcId : Z;
  cPending : gmap Z PendingRpcRequest;
  cTick : nat;
  cOut : list Effect
}.

(** The answers of the environment: the steady clock, and whether a call of the
    MQTT library throws. *)
Record ClientEnv : Type := mkClientEnv {
  envNow : nat -> Z;
  envFails : nat -> bool
}.

End data.
Arguments MqttObjectCommand D : clear implicits.
Arguments PendingRpcRequest D : clear implicits.
Arguments Client D : clear implicits.

Module MqttClient.

Section client.
Context {D : Type} `{CDouble D} `{Rapidjson D}.
Variable env : ClientEnv.
Variable plugins : list (ConverterPlugin D).
(** Whether the code was compiled for musl. *)
Variable musl : bool.

(** Setters *)
Definition withConnection v (c : Client D) : Client D :=
  mkClient v (cStarted c) (cBroker c) (cNetworks c) (cObjects c) (cCommandObjects c) (cStore c) (cCommands c)
    (cRpcMode c) (cRpcTopic c) (cNextRpcId c) (cPending c) (cTick c) (cOut c).
Definition withStarted v (c : Client D) : Client D :=
  mkClient (cConnection c) v (cBroker c) (cNetworks c) (cObjects c) (cCommandObjects c) (cStore c) (cCommands c)
    (cRpcMode c) (cRpcTopic c) (cNextRpcId c) (cPending c) (cTick c) (cOut c).
Definition withBroker v (c : Client D) : Client D :=
  mkClient (cConnection c) (cStarted c) v (cNetworks c) (cObjects c) (cCommandObjects c) (cStore c) (cCommands c)
    (cRpcMode c) (cRpcTopic c) (cNextRpcId c) (cPending c) (cTick c) (cOut c).
Definition withNetworks v (c : Client D) : Client D :=
  mkClient (cConnection c) (cStarted c) (cBroker c) v (cObjects c) (cCommandObjects c) (cStore c) (cCommands c)
    (cRpcMode c) (cRpcTopic c) (cNextRpcId c) (cPending c) (cTick c) (cOut c).
Definition withObject (p : ptr) (o : MqttObject D) (c : Client D) : Client D :=
  mkClient (cConnection c) (cStarted c) (cBroker c) (cNetworks c) (cObjects c) (cCommandObjects c)
    (fun q => if decide (q = p) then o else cStore c q) (cCommands c)
    (cRpcMode c) (cRpcTopic c) (cNextRpcId c) (cPending c) (cTick c) (cOut c).
Definition withCommands v (c : Client D) : Client D :=
  mkClient (cConnection c) (cStarted c) (cBroker c) (cNetworks c) (cObjects c) (cCommandObjects c) (cStore c) v
    (cRpcMode c) (cRpcTopic c) (cNextRpcId c) (cPending c) (cTick c) (cOut c).
Definition withRpcMode v (c : Client D) : Client D :=
  mkClient (cConnection c) (cStarted c) (cBroker c) (cNetworks c) (cObjects c) (cCommandObjects c) (cStore c)
    (cCommands c) v (cRpcTopic c) (cNextRpcId c) (cPending c) (cTick c) (cOut c).
Definition withObjects objects commandObjects store (c : Client D) : Client D :=
  mkClient (cConnection c) (cStarted c) (cBroker c) (cNetworks c) objects commandObjects store
    (cCommands c) (cRpcMode c) (cRpcTopic c) (cNextRpcId c) (cPending c) (cTick c) (cOut c).
Definition withRpcTopic v (c : Client D) : Client D :=
  mkClient (cConnection c) (cStarted c) (cBroker c) (cNetworks c) (cObjects c) (cCommandObjects c) (cStore c)
    (cCommands c) (cRpcMode c) v (cNextRpcId c) (cPending c) (cTick c) (cOut c).
Definition withRpc id pending (c : Client D) : Client D :=
  mkClient (cConnection c) (cStarted c) (cBroker c) (cNetworks c) (cObjects c) (cCommandObjects c) (cStore c)
    (cCommands c) (cRpcMode c) (cRpcTopic c) id pending (cTick c) (cOut c).
Definition withTick (c : Client D) : Client D :=
  mkClient (cConnection c) (cStarted c) (cBroker c) (cNetworks c) (cObjects c) (cCommandObjects c) (cStore c)
    (cCommands c) (cRpcMode c) (cRpcTopic c) (cNextRpcId c) (cPending c) (S (cTick c)) (cOut c).
Definition withEffect e (c : Client D) : Client D :=
  mkClient (cConnection c) (cStarted c) (cBroker c) (cNetworks c) (cObjects c) (cCommandObjects c) (cStore c)
    (cCommands c) (cRpcMode c) (cRpcTopic c) (cNextRpcId c) (cPending c) (cTick c) (cOut c ++ [e])%list.

(** * Handlers as computations

    A computation transforms the client and returns or throws; what it did before
    it threw remains. *)

Definition comp (A : Type) : Type := Client D -> Client D * outcome A.

Definition ret {A} (a : A) : comp A := fun c => (c, Ret a).
Definition bind {A B} (m : comp A) (k : A -> comp B) : comp B :=
  fun c => match m c with
           | (c', Ret a) => k a c'
           | (c', Fault f) => (c', Fault f)
           end.
Definition lift {A} (m : outcome A) : comp A := fun c => (c, m).
Definition gets {A} (f : Client D -> A) : comp A := fun c => (c, Ret (f c)).
Definition modify (f : Client D -> Client D) : comp unit := fun c => (f c, Ret tt).
Definition effect (e : Effect) : comp unit := modify (withEffect e).

(** try/catch: the handler runs for the faults it accepts. *)
Definition tryCatch {A} (m : comp A) (handler : fault -> option (comp A)) : comp A :=
  fun c => match m c with
           | (c', Ret a) => (c', Ret a)
           | (c', Fault f) => match handler f with Some h => h c' | None => (c', Fault f) end
           end.

Notation "'let*' x ':=' m 'in' k" := (bind m (fun x => k))
  (at level 10, x pattern, m at level 100, k at level 200).
Notation "m ;; k" := (bind m (fun _ => k)) (at level 100, right associativity).

Definition when (b : bool) (m : comp unit) : comp unit := if b then m else ret tt.

Fixpoint forEach {A} (l : list A) (f : A -> comp unit) : comp unit :=
  match l with
  | [] => ret tt
  | x :: l' => f x ;; forEach l' f
  end.

(** A call of the MQTT library; a call that throws has no effect. *)
Definition implCall (e : Effect) : comp unit :=
  fun c => if envFails env (cTick c) then (withTick c, Fault (MosquittoException "libmosquitto"))
           else (withTick (withEffect e c), Ret tt).

(** std::chrono::steady_clock::now() *)
Definition readClock : comp Z := fun c => (withTick c, Ret (envNow env (cTick c))).

(** The subclasses of std::exception, and their text. *)
Definition exceptionText (f : fault) : option string :=
  match f with
  | ConvException w | StdException w | MosquittoException w | PayloadException w => Some w
  | _ => None
  end.
Definition catchMosquitto (f : fault) : option (comp unit) :=
  match f with MosquittoException _ => Some (ret tt) | _ => None end.

(** ModbusClient::sendMqttNetworkIsUp on every client. *)
Definition sendMqttNetworkIsUp (up : bool) : comp unit :=
  let* nets := gets cNetworks in
  forEach nets (fun n => effect (EToModbus n (MqttNetworkState up))).

(** * Connection *)

(** setBrokerConfig *)
Definition setBrokerConfig (config : MqttBrokerConfig) : comp unit :=
  let* old := gets cBroker in
  when (negb (brokerIsSameAs old config)) (modify (withBroker config)).

(** setClientId *)
Definition setClientId (clientId : string) : comp unit :=
  let* started := gets cStarted in
  if started then lift (Fault (MosquittoException "Cannot change client id when started"))
  else modify (withRpcTopic (clientId +:+ "/rpc/modbus_request")) ;; implCall (EInit clientId).

(** start *)
Definition start : comp unit :=
  let* st := gets cConnection in
  if bool_decide (st = CONNECTED) then ret tt
  else
    modify (withStarted true) ;;
    modify (withConnection CONNECTING) ;;
    let* config := gets cBroker in
    implCall (EConnect config).

(** shutdown *)
Definition shutdown : comp unit :=
  modify (withNetworks []) ;;
  let* st := gets cConnection in
  match st with
  | CONNECTED => modify (withConnection DISCONNECTING) ;; implCall EDisconnect
  | CONNECTING => modify (withStarted false)
  | DISCONNECTING => ret tt
  | DISCONNECTED => modify (withStarted false) ;; modify (withConnection DISCONNECTED)
  end.

(** onDisconnect *)
Definition onDisconnect : comp unit :=
  modify (fun c => withRpc (cNextRpcId c) ∅ c) ;;
  sendMqttNetworkIsUp false ;;
  let* st := gets cConnection in
  match st with
  | CONNECTED | CONNECTING => implCall EReconnect
  | DISCONNECTING =>
      modify (withConnection DISCONNECTED) ;;
      when (negb musl) (implCall EStop) ;;
      modify (withStarted false) ;;
      effect ENotifyQueues
  | DISCONNECTED => ret tt
  end.

(** * Publishing *)

Definition getObject (p : ptr) : comp (MqttObject D) := gets (fun c => cStore c p).

(** Changes to the object at a pointer; an update that may throw returns the old
    object and the new one.  When it throws the model keeps the old object, where the
    code may have changed some of its registers already: nothing looks at the object
    again, as no caller catches the exception and it ends the program. *)
Definition setObject (p : ptr) (f : MqttObject D -> MqttObject D) : comp unit :=
  modify (fun c => withObject p (f (cStore c p)) c).
Definition updateAt (p : ptr) (f : MqttObject D -> outcome (MqttObject D))
  : comp (MqttObject D * MqttObject D) :=
  fun c => match f (cStore c p) with
           | Ret o => (withObject p o c, Ret (cStore c p, o))
           | Fault e => (c, Fault e)
           end.

(** publishState *)
Definition publishState (p : ptr) (force : bool) : comp unit :=
  let* obj := getObject p in
  if negb (bool_decide (mIsAvailable obj = ATrue)) then ret tt
  else if bool_decide (mPublishMode obj = ONCE) && bool_decide (is_Some (mLastPublishTime obj)) then ret tt
  else
    let* messageData := lift (generate obj) in
    when (negb (bool_decide (messageData = mLastPublishedPayload obj)) || force)
      (implCall (EPublish (getStateTopic obj) (Some messageData) (mRetain obj)) ;;
       setObject p (setLastPublishedPayload messageData) ;;
       let* now := readClock in
       setObject p (setLastPublishTime now)).

(** publishAvailabilityChange *)
Definition publishAvailabilityChange (p : ptr) : comp unit :=
  let* obj := getObject p in
  if bool_decide (mIsAvailable obj = NotSet) then ret tt
  else
    let msg := if bool_decide (mIsAvailable obj = ATrue) then "1" else "0" in
    tryCatch (implCall (EPublish (getAvailabilityTopic obj) (Some msg) true)) catchMosquitto.

(** The objects of a map of lists, each of them once, in order of appearance. *)
Fixpoint once (seen : list ptr) (l : list ptr) : list ptr :=
  match l with
  | [] => []
  | p :: l' => if bool_decide (p ∈ seen) then once seen l' else p :: once (p :: seen) l'
  end.

(** publishAll *)
Definition publishAll : comp unit :=
  let* objects := gets cObjects in
  forEach (once [] (mjoin objects.*2)) (fun p =>
    let* obj := getObject p in
    when (bool_decide (mIsAvailable obj = ATrue)) (publishState p true) ;;
    publishAvailabilityChange p).

(** onConnect *)
Definition onConnect : comp unit :=
  let* cmds := gets cCommands in
  forEach cmds (fun cmd => implCall (ESubscribe (commandTopic cmd.2))) ;;
  let* mode := gets cRpcMode in
  let* topic := gets cRpcTopic in
  when (negb (bool_decide (mode = DISABLED))) (implCall (ESubscribe topic)) ;;
  modify (withConnection CONNECTED) ;;
  publishAll ;;
  sendMqttNetworkIsUp true.

(** std::map::find on mObjects and mCommandObjects *)
Definition findObjects (i : RegisterIdent) (c : Client D) : option (list ptr) :=
  snd <$> find (fun e => bool_decide (e.1 = i)) (cObjects c).
Definition findCommandObjects (id : Z) (c : Client D) : option (list ptr) :=
  snd <$> find (fun e => e.1 =? id) (cCommandObjects c).

(** * RPC replies *)

(** The second publishRpcError: an empty payload with an error property. *)
Definition publishRpcErrorTo (topic correlation errorMsg : string) : comp unit :=
  tryCatch (implCall (EResponse topic None correlation [("error", errorMsg)]))
    (fun f => match exceptionText f with Some _ => Some (ret tt) | None => None end).

Definition erasePending (id : Z) (c : Client D) : Client D := withRpc (cNextRpcId c) (delete id (cPending c)) c.

(** publishRpcError *)
Definition publishRpcError (m : ModbusMessageBase) : comp unit :=
  let* pend := gets cPending in
  match pend !! mCommandId m with
  | None => ret tt
  | Some pending =>
      modify (erasePending (mCommandId m)) ;;
      publishRpcErrorTo (rpcResponseTopic pending) (rpcCorrelation pending)
        (if rpcIsWrite pending then "modbus write failed" else "modbus read failed")
  end.

(** The payload of publishRpcResponse. *)
Definition rpcPayload (pending : PendingRpcRequest D) (regs : list Z) : outcome string :=
  match rpcIsWrite pending, rpcConverter pending with
  | false, Some conv => let! v := toMqtt conv regs in Ret (MqttValue.getString v)
  | _, _ =>
      if ModbusRegisters.getCount regs =? 1
      then let! v := ModbusRegisters.getValue regs 0 in Ret (Numbers.to_string v)
      else Ret (writerText ([WStartArray] ++ (WUint <$> regs) ++ [WEndArray])%list)
  end.

(** publishRpcResponse *)
Definition publishRpcResponse (m : MsgRegisterValues) : comp unit :=
  let id := mCommandId (msgBase m) in
  let* pend := gets cPending in
  match pend !! id with
  | None => ret tt
  | Some pending =>
      modify (erasePending id) ;;
      match rpcPayload pending (msgRegisters m) with
      | Fault f =>
          match exceptionText f with
          | Some _ => publishRpcErrorTo (rpcResponseTopic pending) (rpcCorrelation pending) "internal error"
          | None => lift (Fault f)
          end
      | Ret payload =>
          tryCatch (implCall (EResponse (rpcResponseTopic pending)
                      (if bool_decide (payload = "") then None else Some payload)
                      (rpcCorrelation pending) []))
            (fun f => match exceptionText f with Some _ => Some (ret tt) | None => None end)
      end
  end.

(** * Messages from modbus *)

(** The loop of processRegisterValues on one object. *)
Definition updateOne (net : string) (m : MsgRegisterValues) (p : ptr) : comp unit :=
  let* (obj, obj') := updateAt p (updateRegisterValues net m) in
  let oldAvail := mIsAvailable obj in
  let newAvail := mIsAvailable obj' in
  if negb (bool_decide (oldAvail = newAvail)) then
    when (bool_decide (newAvail = ATrue))
      (if mRetain obj' then publishState p true
       else
         when (bool_decide (oldAvail = NotSet))
           (implCall (EPublish (getStateTopic obj') None true) ;;
            let* payload := lift (generate obj') in
            setObject p (setLastPublishedPayload payload)) ;;
         when (bool_decide (mPublishMode obj' = EVERY_POLL)) (publishState p true)) ;;
    publishAvailabilityChange p
  else
    (* the clock is read only for an object that has been published *)
    match mPublishMode obj', mLastPublishTime obj' with
    | EVERY_POLL, Some _ =>
        let* now := readClock in publishState p (needStateRepublish now obj')
    | _, _ => publishState p (needStateRepublish 0 obj')
    end.

(** The objects a message is for: those of the command that caused it, or those
    that poll its registers. *)
Definition affectedObjects (net : string) (m : MsgRegisterValues) : comp (option (list ptr)) :=
  let b := msgBase m in
  if hasCommandId b then
    let* byCommand := gets (findCommandObjects (mCommandId b)) in
    match byCommand with
    | Some l => ret (Some l)
    | None => if isRpc b then publishRpcResponse m ;; gets (findObjects (identOf net b)) else ret None
    end
  else
    let* l := gets (findObjects (identOf net b)) in
    match l with
    | Some l => ret (Some l)
    | None => lift (Fault AssertionFailed)
    end.

(** processRegisterValues *)
Definition processRegisterValues (net : string) (m : MsgRegisterValues) : comp unit :=
  let* st := gets cConnection in
  if negb (bool_decide (st = CONNECTED)) then ret tt
  else
    let* objs := affectedObjects net m in
    match objs with
    | None => ret tt
    | Some l => tryCatch (forEach l (updateOne net m)) catchMosquitto
    end.

(** processRegistersOperationFailed *)
Definition processRegistersOperationFailed (net : string) (m : ModbusMessageBase) : comp unit :=
  let* l := gets (findObjects (identOf net m)) in
  match l with
  | None => ret tt
  | Some l =>
      forEach l (fun p =>
        let* (obj, obj') := updateAt p (updateRegistersReadFailed net m) in
        publishState p false ;;
        when (negb (bool_decide (mIsAvailable obj = mIsAvailable obj'))) (publishAvailabilityChange p))
  end.

(** processModbusNetworkState *)
Definition processModbusNetworkState (net : string) (isUp : bool) : comp unit :=
  if isUp then ret tt
  else
    let* objects := gets cObjects in
    let lists := filter (fun e => idNetwork e.1 = net) objects in
    forEach (once [] (mjoin lists.*2)) (fun p =>
      let* (obj, obj') := updateAt p (fun o => let! r := setModbusNetworkState net isUp o in Ret r.2) in
      when (negb (bool_decide (mIsAvailable obj = mIsAvailable obj'))) (publishAvailabilityChange p)).

(** One message of ModMqtt::processModbusMessages. *)
Definition processModbusMessage (net : string) (item : FromModbus) : comp unit :=
  match item with
  | RegisterValues m => processRegisterValues net m
  | RegisterReadFailed m | RegisterWriteFailed m =>
      if isRpc m then publishRpcError m else processRegistersOperationFailed net m
  | ModbusNetworkState name isUp => processModbusNetworkState name isUp
  end.

(** processModbusMessages: the queues of the clients in order. *)
Definition processModbusMessages (queues : list (string * list FromModbus)) : comp unit :=
  forEach queues (fun q => forEach q.2 (processModbusMessage q.1)).

(** * Messages from MQTT *)

(** addCommand: std::map::insert keeps the first command of a topic; the map is
    ordered by topic. *)
Fixpoint insertCommand (cmd : MqttObjectCommand D) (l : list (string * MqttObjectCommand D))
  : list (string * MqttObjectCommand D) :=
  match l with
  | [] => [(commandTopic cmd, cmd)]
  | (t, x) :: l' =>
      if bool_decide (commandTopic cmd = t) then l
      else if String.ltb (commandTopic cmd) t then (commandTopic cmd, cmd) :: l
      else (t, x) :: insertCommand cmd l'
  end.
Definition addCommand (cmd : MqttObjectCommand D) : comp unit :=
  modify (fun c => withCommands (insertCommand cmd (cCommands c)) c).

(** findCommand *)
Definition findCommand (topic : string) (c : Client D) : option (MqttObjectCommand D) :=
  snd <$> find (fun e => bool_decide (e.1 = topic)) (cCommands c).

(** createMqttValue *)
Definition createMqttValue (data : string) : MqttValue D := MqttValue.fromBinary data.

(** ModbusClient::sendCommand *)
Definition sendCommand (command : MqttObjectCommand D) (regs : list Z) : comp unit :=
  let b := commandBase command in
  let* now := readClock in
  effect (EToModbus (commandNetwork command)
            (WriteValues (newMsgRegisterValues (mSlaveId b) (mRegisterType (mRange b)) (mRegister (mRange b))
                            regs (mCommandId b) (commandWriteMode command) now))).

(** The command branch of onMessage. *)
Definition executeCommand (command : MqttObjectCommand D) (payload : string) : comp unit :=
  let* nets := gets cNetworks in
  if negb (bool_decide (commandNetwork command ∈ nets)) then ret tt
  else
    let count := mCount (mRange (commandBase command)) in
    let tmpval := createMqttValue payload in
    let* regs := lift (match commandConverter command with
                       | Some conv => toModbus conv tmpval count
                       | None => defaultToModbus tmpval count
                       end) in
    if negb (ModbusRegisters.getCount regs =? count)
    then lift (Fault (PayloadException ("Conversion failed, expecting " +:+ Numbers.to_string count
                +:+ " register values, got " +:+ Numbers.to_string (ModbusRegisters.getCount regs))))
    else sendCommand command regs.

(** * RPC requests *)

(** ConfigTools::registerNumberFromString *)
Definition registerNumberFromString (pRegStr : string) : outcome Z :=
  if bool_decide (pRegStr = "") then Fault (StdException "Empty register number")
  else
    let! (val, pos) := Numbers.stoi 0 pRegStr in
    if negb (pos =? Z.of_nat (String.length pRegStr))
    then Fault (StdException ("Invalid register number: " +:+ pRegStr))
    else
      let isHex := match pRegStr with
                   | String _ (String x _) => (Numbers.code x =? 120) || (Numbers.code x =? 88)
                   | _ => false
                   end in
      if negb isHex then
        if val =? 0 then Fault (StdException "Use hex address for 0-based register number")
        else Ret (val - 1)
      else Ret val.

Definition invalid {A} (what : string) : outcome A := Fault (StdException what).

(** Members of a JSON object: the first one with the name. *)
Definition member (name : string) (doc : list (string * Json D)) : option (Json D) :=
  snd <$> find (fun e => bool_decide (e.1 = name)) doc.

Definition uint16Json (j : Json D) : option Z :=
  match j with JInt z => if (0 <=? z) && (z <=? UINT16_MAX) then Some z else None | _ => None end.

(** rpcWriteValueFromJson *)
Definition rpcWriteValueFromJson (j : Json D) : outcome (MqttValue D) :=
  match j with
  | JString s => Ret (MqttValue.fromString s)
  | JDouble d => Ret (MqttValue.fromDouble d NO_PRECISION)
  | JInt z =>
      if (INT_MIN <=? z) && (z <=? INT_MAX) then Ret (MqttValue.fromInt z)
      else if (INT64_MIN <=? z) && (z <=? INT64_MAX) then Ret (MqttValue.fromInt64 z)
      else invalid "value out of range"
  | _ => invalid "converter write requires a scalar value (number or string)"
  end.

(** The line and the column of an offset. *)
Fixpoint lineCol (off : nat) (s : string) (line col : Z) : Z * Z :=
  match off, s with
  | S off', String c s' =>
      if Numbers.code c =? 10 then lineCol off' s' (line + 1) 1 else lineCol off' s' line (col + 1)
  | _, _ => (line, col)
  end.

(** What handleRpcRequest reads from a request. *)
Record Request : Type := mkRequest {
  rqNetwork : string;
  rqSlave : Z;
  rqRegister : Z;
  rqRegisterText : string;
  rqType : RegisterType;
  rqConverter : option (DataConverter D);
  rqIsWrite : bool;
  rqCount : Z;
  rqValues : list Z
}.

Definition readRegisterType (doc : list (string * Json D)) : outcome RegisterType :=
  match member "register_type" doc with
  | None => Ret HOLDING
  | Some (JString t) =>
      if bool_decide (t = "coil") then Ret COIL
      else if bool_decide (t = "input") then Ret INPUT
      else if bool_decide (t = "bit") then Ret BIT
      else if bool_decide (t = "holding") then Ret HOLDING
      else invalid ("unknown register_type: " +:+ t)
  | Some _ => invalid "invalid field: register_type"
  end.

Definition readConverter (doc : list (string * Json D)) : outcome (option (DataConverter D)) :=
  match member "converter" doc with
  | None => Ret None
  | Some (JString spec) =>
      if bool_decide (spec = "") || bool_decide (spec = "none") then Ret None
      else let! c := createConverterFromString plugins spec in Ret (Some c)
  | Some _ => invalid "invalid field: converter"
  end.

Fixpoint rawValuesOf (l : list (Json D)) : outcome (list Z) :=
  match l with
  | [] => Ret []
  | j :: l' =>
      match uint16Json j with
      | None => invalid "value elements must be uint16 integers"
      | Some z => let! vs := rawValuesOf l' in Ret (z :: vs)
      end
  end.

(** The count and the values of a raw write, without a converter. *)
Definition rawWrite (val : Json D) : outcome (Z * list Z) :=
  match uint16Json val, val with
  | Some z, _ => Ret (1, [z])
  | None, JArray l => let! vs := rawValuesOf l in Ret (Z.of_nat (Datatypes.length vs), vs)
  | None, _ => invalid "value must be a uint16 integer or an array of uint16 values"
  end.

(** The count of a read or of a write with a converter. *)
Definition readCount (doc : list (string * Json D)) (maxCount : Z) : outcome Z :=
  match member "count" doc with
  | None => Ret 1
  | Some j =>
      match jsonInt j with
      | None => invalid "invalid field: count"
      | Some count =>
          if (count <? 1) || (maxCount <? count)
          then invalid ("count out of range [1, " +:+ Numbers.to_string maxCount +:+ "]")
          else Ret count
      end
  end.

(** The part of handleRpcRequest that validates the document. *)
Definition readRequest (nets : list string) (mode : RpcMode) (doc : list (string * Json D)) : outcome Request :=
  let! networkName := (match member "network" doc with
                       | Some (JString s) => Ret (cstr s)
                       | _ => invalid "missing or invalid field: network"
                       end) in
  let! slaveId := (match member "slave" doc ≫= jsonInt with
                   | Some z => Ret z
                   | None => invalid "missing or invalid field: slave"
                   end) in
  let! regStr := (match member "register" doc with
                  | Some (JString s) => Ret (cstr s)
                  | _ => invalid "missing or invalid field: register"
                  end) in
  let! regNum := registerNumberFromString regStr in
  let! regType := readRegisterType doc in
  let! converter := readConverter doc in
  if negb (bool_decide (networkName ∈ nets)) then invalid ("network not found: " +:+ networkName)
  else
    let value := member "value" doc in
    let isWrite := bool_decide (is_Some value) in
    if isWrite && negb (bool_decide (mode = READ_WRITE)) then invalid "writes are disabled (mode: read)"
    else if isWrite && bool_decide (regType = BIT \/ regType = INPUT) then invalid "register_type is read-only"
    else
      let maxCount := if bool_decide (regType = COIL \/ regType = BIT) then 2000 else 125 in
      let! (count, values) :=
        (match value, converter with
         | Some val, None => rawWrite val
         | Some val, Some conv =>
             let! count := readCount doc maxCount in
             let! v := rpcWriteValueFromJson val in
             let! regs := toModbus conv v count in
             if negb (ModbusRegisters.getCount regs =? count)
             then invalid ("converter produced " +:+ Numbers.to_string (ModbusRegisters.getCount regs)
                           +:+ " register(s), expected " +:+ Numbers.to_string count)
             else Ret (count, regs)
         | None, _ => let! count := readCount doc maxCount in Ret (count, [])
         end) in
      Ret (mkRequest networkName slaveId regNum regStr regType converter isWrite count values).

(** Parsing the payload of a request. *)
Definition parseRequest (nets : list string) (mode : RpcMode) (payload : string) : outcome Request :=
  match parseDocument payload with
  | inr e =>
      let '(line, col) := lineCol (Z.to_nat (peOffset e)) payload 1 1 in
      invalid ("JSON parse error at " +:+ Numbers.to_string line +:+ ":" +:+ Numbers.to_string col
               +:+ ": " +:+ peText e)
  | inl (JObject doc) => readRequest nets mode doc
  | inl _ => invalid "object expected"
  end.

(** The id of a request, and the request handed to its network. *)
Definition submitRequest (respTopic correlation : string) (rq : Request) : comp unit :=
  let* next := gets cNextRpcId in
  let next := if next =? INT_MIN then 0 else next in
  let id := next - 1 in
  let pending := mkPending (rqNetwork rq) respTopic correlation (rqSlave rq) (rqRegister rq)
                   (rqRegisterText rq) (rqType rq) (rqCount rq) (rqIsWrite rq) (rqConverter rq) in
  modify (fun c => withRpc id (<[id := pending]> (cPending c)) c) ;;
  if rqIsWrite rq then
    let* now := readClock in
    effect (EToModbus (rqNetwork rq)
              (WriteValues (newMsgRegisterValues (rqSlave rq) (rqType rq) (rqRegister rq) (rqValues rq) id AUTO now)))
  else
    effect (EToModbus (rqNetwork rq)
              (ReadRequest (newMsgFailed (rqSlave rq) (rqType rq) (rqRegister rq) (rqCount rq) id))).

(** handleRpcRequest; the response topic may be a null pointer. *)
Definition handleRpcRequest (payload : string) (responseTopic : option string) (correlation : string)
  : comp unit :=
  match responseTopic with
  | None => ret tt
  | Some respTopic =>
      if bool_decide (respTopic = "") then ret tt
      else
        let* nets := gets cNetworks in
        let* mode := gets cRpcMode in
        tryCatch
          (let* rq := lift (parseRequest nets mode payload) in submitRequest respTopic correlation rq)
          (fun f => match exceptionText f with
                    | Some what => Some (publishRpcErrorTo respTopic correlation what)
                    | None => None
                    end)
  end.

(** onMessage: exceptions of the conversion of a command are logged. *)
Definition onMessage (topic payload : string) (responseTopic : option string) (correlation : string)
  : comp unit :=
  let* cmd := gets (findCommand topic) in
  match cmd with
  | None =>
      let* mode := gets cRpcMode in
      let* rpcTopic := gets cRpcTopic in
      when (negb (bool_decide (mode = DISABLED)) && bool_decide (rpcTopic = topic))
        (handleRpcRequest payload responseTopic correlation)
  | Some command =>
      tryCatch (executeCommand command payload)
        (fun f => match f with ConvException _ | PayloadException _ => Some (ret tt) | _ => None end)
  end.

End client.
End MqttClient.
