(* ===== verification/MqttClientProps.v ===== *)
(** What the MQTT client guarantees: every RPC request is answered once, and an
    object in publish mode once is published once. *)

From stdpp Require Import base gmap list strings.
From Stdlib Require Import ZArith Lia Ascii String.
From S2P Require Import Prelude ModbusTypes Commands Config ModbusThread ConvTools.
From S2P Require Import ConvArgs StdConv Converters MqttObject MqttPayload MqttClient.

#[local] Open Scope string_scope.
#[local] Open Scope Z_scope.

Import MqttObject MqttClient.

Create HintDb client discriminated.

(** * Computations that respect a relation *)

Section preserves.
Context {D : Type} `{CDouble D} `{Rapidjson D}.
Context (R : Client D -> Client D -> Prop) `{!PreOrder R}.

(** A computation that returns, or throws an exception that could be caught. *)
Definition noCrash {A} (o : outcome A) : Prop :=
  match o with Ret _ => True | Fault f => is_Some (exceptionText f) end.

(** Before and after such a computation are related. *)
Definition preserves {A} (m : comp A) : Prop := forall c, noCrash (m c).2 -> R c (m c).1.

Lemma preserves_ret {A} (a : A) : preserves (ret a).
Proof. intros c _. cbn. reflexivity. Qed.

Lemma preserves_lift {A} (m : outcome A) : preserves (lift m).
Proof. intros c _. cbn. reflexivity. Qed.

Lemma preserves_gets {A} (f : Client D -> A) : preserves (gets f).
Proof. intros c _. cbn. reflexivity. Qed.

Lemma preserves_bind {A B} (m : comp A) (k : A -> comp B) :
  preserves m -> (forall a, preserves (k a)) -> preserves (bind m k).
Proof.
  intros Hm Hk c. unfold bind. specialize (Hm c). destruct (m c) as [c' [a|f]]; [|exact Hm].
  cbn [fst snd] in *. intros N. etransitivity; [by apply Hm|by apply Hk].
Qed.

Lemma preserves_when b m : preserves m -> preserves (when b m).
Proof. destruct b; [done|]. intros _. apply preserves_ret. Qed.

Lemma preserves_forEach {A} (l : list A) f : (forall x, preserves (f x)) -> preserves (forEach l f).
Proof.
  intros Hf. induction l as [|x l IH]; cbn [forEach]; [apply preserves_ret|].
  apply preserves_bind; [apply Hf|]. done.
Qed.

Lemma preserves_tryCatch {A} (m : comp A) h :
  preserves m -> (forall f m', h f = Some m' -> is_Some (exceptionText f) /\ preserves m') ->
  preserves (tryCatch m h).
Proof.
  intros Hm Hh c. unfold tryCatch. specialize (Hm c). destruct (m c) as [c' [a|f]]; [exact Hm|].
  cbn [fst snd] in *. destruct (h f) as [m'|] eqn:E; [|exact Hm]. intros N.
  destruct (Hh f m' E) as [X P]. etransitivity; [by apply Hm|by apply P].
Qed.

Lemma preserves_catchMosquitto m : preserves m -> preserves (tryCatch m catchMosquitto).
Proof.
  intros Hm. apply preserves_tryCatch; [done|]. intros [] m'; cbn; try done. intros [= <-].
  split; [by eexists|apply preserves_ret].
Qed.

(** Handlers that catch every exception, and those that catch conversion errors. *)
Lemma preserves_catchStd (m : comp (D := D) unit) (h : string -> comp (D := D) unit) :
  preserves m -> (forall what, preserves (h what)) ->
  preserves (tryCatch m (fun f => match exceptionText f with Some what => Some (h what) | None => None end)).
Proof.
  intros Hm Hh. apply preserves_tryCatch; [done|]. intros f m'.
  destruct (exceptionText f) as [w|]; [|done]. intros [= <-]. split; [by eexists|apply Hh].
Qed.

Lemma preserves_catchConversion (m : comp (D := D) unit) :
  preserves m ->
  preserves (tryCatch m (fun f => match f with ConvException _ | PayloadException _ => Some (ret tt) | _ => None end)).
Proof.
  intros Hm. apply preserves_tryCatch; [done|].
  intros [] m'; try done; intros [= <-]; (split; [by eexists|apply preserves_ret]).
Qed.

Lemma preserves_modify f : (forall c, R c (f c)) -> preserves (modify f).
Proof. intros Hf c _. apply Hf. Qed.

End preserves.

#[export] Hint Resolve preserves_ret preserves_lift preserves_gets preserves_bind preserves_when
  preserves_forEach preserves_catchMosquitto : client.

(** Splits a handler into its steps; what is left are the changes of the client. *)
Ltac handler :=
  repeat match goal with
  | |- preserves _ (bind _ _) => apply preserves_bind; [typeclasses eauto| |intros]
  | |- preserves _ (ret _) => apply preserves_ret; typeclasses eauto
  | |- preserves _ (lift _) => apply preserves_lift; typeclasses eauto
  | |- preserves _ (gets _) => apply preserves_gets; typeclasses eauto
  | |- preserves _ (when _ _) => apply preserves_when; [typeclasses eauto|]
  | |- preserves _ (forEach _ _) => apply preserves_forEach; [typeclasses eauto|intros]
  | |- preserves _ (tryCatch _ catchMosquitto) => apply preserves_catchMosquitto; [typeclasses eauto|]
  | |- preserves _ (tryCatch _ (fun _ => match exceptionText _ with _ => _ end)) =>
      apply preserves_catchStd; [typeclasses eauto| |intros]
  | |- preserves _ (tryCatch _ _) => apply preserves_catchConversion; [typeclasses eauto|]
  | |- preserves _ (let '(_, _) := ?x in _) => destruct x
  | |- preserves _ (if ?b then _ else _) => destruct b
  | |- preserves _ (match ?x with _ => _ end) => destruct x
  | |- preserves _ _ => solve [auto with client]
  end.

(** * RPC *)

Section rpc.
Context {D : Type} `{CDouble D} `{Rapidjson D}.
Variable env : ClientEnv.
Variable plugins : list (ConverterPlugin D).
Variable musl : bool.

Definition isResponse (e : Effect) : bool := match e with EResponse _ _ _ _ => true | _ => false end.

(** The response topic and the correlation data of every reply, and of every open
    request. *)
Definition replyOf (e : Effect) : list (string * string) :=
  match e with EResponse topic _ correlation _ => [(topic, correlation)] | _ => [] end.
Definition replies (c : Client D) : list (string * string) := flat_map replyOf (cOut c).
Definition addressee (r : PendingRpcRequest D) : string * string := (rpcResponseTopic r, rpcCorrelation r).
Definition openRequests (c : Client D) : list (string * string) :=
  (addressee ∘ snd) <$> map_to_list (cPending c).

(** The requests that are answered or open. *)
Definition served (c : Client D) : list (string * string) := (replies c ++ openRequests c)%list.

(** The ids of open requests are below zero, and not below the last one given. *)
Definition idsOk (c : Client D) : Prop :=
  cNextRpcId c <= 0 /\ forall id, is_Some (cPending c !! id) -> cNextRpcId c <= id < 0.

(** The requests of [l] are among those of [l'], and are exactly these while the MQTT
    library accepts every call. *)
Definition accounts (l l' : list (string * string)) : Prop :=
  l ⊆+ l' /\ ((forall k, envFails env k = false) -> l ≡ₚ l').

#[local] Instance accounts_preorder : PreOrder accounts.
Proof.
  split; [by intros l|]. intros l1 l2 l3 (S1 & P1) (S2 & P2). split; [by etrans|].
  intros F. by rewrite P1, P2.
Qed.

#[local] Instance accounts_proper : Proper ((≡ₚ) ==> (≡ₚ) ==> iff) accounts.
Proof. intros l1 l2 E l1' l2' E'. unfold accounts. by setoid_rewrite E; setoid_rewrite E'. Qed.

Lemma accounts_perm l l' : l ≡ₚ l' -> accounts l l'.
Proof. intros P. split; [by rewrite P|done]. Qed.

Lemma accounts_app l l1 l2 : accounts l1 l2 -> accounts (l ++ l1)%list (l ++ l2)%list.
Proof. intros [S P]. split; [by apply submseteq_app|]. intros F. by rewrite (P F). Qed.

(** Nothing of the requests changes but that open ones are answered, or lost when
    the library refuses the answer. *)
Definition accounted (c c' : Client D) : Prop :=
  (idsOk c -> idsOk c') /\ cNextRpcId c' = cNextRpcId c /\ accounts (served c') (served c).

#[local] Instance accounted_preorder : PreOrder accounted.
Proof.
  split; [by intros c|]. intros c1 c2 c3 (I1 & N1 & B1) (I2 & N2 & B2).
  split; [auto|]. split; [congruence|]. by etrans.
Qed.

Lemma accounted_same (c c' : Client D) :
  cPending c' = cPending c -> cNextRpcId c' = cNextRpcId c -> replies c' = replies c -> accounted c c'.
Proof.
  intros P N S. unfold accounted, idsOk, served, openRequests. rewrite P, N, S. done.
Qed.

Lemma replies_effect e c : replies (withEffect e c) = (replies c ++ replyOf e)%list.
Proof. unfold replies. cbn [cOut withEffect]. rewrite flat_map_app. cbn [flat_map]. by rewrite app_nil_r. Qed.

Lemma replyOf_none e : isResponse e = false -> replyOf e = [].
Proof. by destruct e. Qed.

Lemma accounted_effect e : isResponse e = false -> preserves accounted (effect e).
Proof.
  intros E. apply preserves_modify. intros c. apply accounted_same; [done..|].
  by rewrite replies_effect, replyOf_none, app_nil_r.
Qed.

Lemma accounted_implCall e : isResponse e = false -> preserves accounted (implCall env e).
Proof.
  intros E c _. unfold implCall. destruct (envFails env (cTick c)); cbn [fst]; apply accounted_same; try done.
  change (replies (withTick (withEffect e c))) with (replies (withEffect e c)).
  by rewrite replies_effect, replyOf_none, app_nil_r.
Qed.

Lemma accounted_readClock : preserves accounted (readClock env).
Proof. intros c _. by apply accounted_same. Qed.

Lemma accounted_setObject p f : preserves accounted (setObject p f).
Proof. apply preserves_modify. intros c. by apply accounted_same. Qed.

Lemma accounted_updateAt p f : preserves accounted (updateAt p f).
Proof. intros c _. unfold updateAt. destruct (f (cStore c p)); by apply accounted_same. Qed.

#[local] Hint Resolve accounted_effect accounted_implCall accounted_readClock accounted_setObject
  accounted_updateAt : client.

Lemma accounted_publishState p force : preserves accounted (publishState env p force).
Proof. unfold publishState, getObject. handler. Qed.

Lemma accounted_publishAvailability p : preserves accounted (publishAvailabilityChange env p).
Proof. unfold publishAvailabilityChange, getObject. handler. Qed.

#[local] Hint Resolve accounted_publishState accounted_publishAvailability : client.

Lemma accounted_publishAll : preserves accounted (publishAll env).
Proof. unfold publishAll, getObject. handler. Qed.

Lemma accounted_updateOne net m p : preserves accounted (updateOne env net m p).
Proof. unfold updateOne, getObject. handler. Qed.

#[local] Hint Resolve accounted_publishAll accounted_updateOne : client.

(** A reply whose exception does not leave the handler. *)
Definition reply (topic : string) (payload : option string) (corr : string) props : comp (D := D) unit :=
  tryCatch (implCall env (EResponse topic payload corr props))
    (fun f => match exceptionText f with Some _ => Some (ret tt) | None => None end).

Lemma reply_sent topic payload corr props c :
  reply topic payload corr props c
  = (withTick (if envFails env (cTick c) then c else withEffect (EResponse topic payload corr props) c), Ret tt).
Proof. unfold reply, tryCatch, implCall. by destruct (envFails env (cTick c)). Qed.

(** Erasing a request and replying to its sender. *)
Lemma answer_accounted id r c payload props :
  cPending c !! id = Some r ->
  accounted c (withTick (if envFails env (cTick c) then erasePending id c
                         else withEffect (EResponse (rpcResponseTopic r) payload (rpcCorrelation r) props)
                                (erasePending id c))).
Proof.
  intros E.
  assert (O : openRequests c ≡ₚ addressee r :: openRequests (erasePending id c)).
  { unfold openRequests. cbn [cPending erasePending withRpc].
    by rewrite <- (map_to_list_delete (cPending c) id r) by done. }
  split; [|split; [by destruct (envFails _ _)|]].
  - intros [N I]. assert (Id : idsOk (erasePending id c)).
    { split; [done|]. intros j. cbn [cPending erasePending withRpc cNextRpcId].
      intros [x Hx]. apply lookup_delete_Some in Hx as [_ Hx]. apply I. by eexists. }
    by destruct (envFails _ _).
  - unfold served. change (replies (withTick ?x)) with (replies x). change (openRequests (withTick ?x)) with (openRequests x).
    rewrite O. destruct (envFails env (cTick c)) eqn:F.
    + split; [|intros A; by rewrite A in F]. change (replies (erasePending id c)) with (replies c).
      apply submseteq_app; [done|]. by apply submseteq_cons.
    + apply accounts_perm. rewrite replies_effect. change (replies (erasePending id c)) with (replies c).
      change (openRequests (withEffect ?e ?x)) with (openRequests x). cbn [replyOf]. fold (addressee r).
      by rewrite <- (assoc_L (++)%list).
Qed.

Lemma accounted_publishRpcResponse m : preserves accounted (publishRpcResponse env m).
Proof.
  intros c N. unfold publishRpcResponse, bind, gets in *. cbn [fst snd] in *.
  destruct (cPending c !! mCommandId (msgBase m)) as [r|] eqn:E; [|reflexivity].
  cbn [modify fst snd] in *. destruct (rpcPayload r (msgRegisters m)) as [payload|f].
  - change (tryCatch _ _) with (reply (rpcResponseTopic r) (if bool_decide (payload = "") then None else Some payload)
                                  (rpcCorrelation r) []) in *.
    rewrite reply_sent. exact (answer_accounted _ _ _ _ _ E).
  - destruct (exceptionText f) eqn:X; [|exfalso; cbn in N; destruct N; congruence].
    unfold publishRpcErrorTo. change (tryCatch _ _)
      with (reply (rpcResponseTopic r) None (rpcCorrelation r) [("error", "internal error")]).
    rewrite reply_sent. exact (answer_accounted _ _ _ _ _ E).
Qed.

Lemma accounted_publishRpcError m : preserves accounted (publishRpcError env m).
Proof.
  intros c N. unfold publishRpcError, bind, gets in *. cbn [fst snd] in *.
  destruct (cPending c !! mCommandId m) as [r|] eqn:E; [|reflexivity]. cbn [modify fst snd] in *.
  unfold publishRpcErrorTo. change (tryCatch _ _)
    with (reply (rpcResponseTopic r) None (rpcCorrelation r)
            [("error", if rpcIsWrite r then "modbus write failed" else "modbus read failed")]).
  rewrite reply_sent. exact (answer_accounted _ _ _ _ _ E).
Qed.

#[local] Hint Resolve accounted_publishRpcResponse accounted_publishRpcError : client.

Lemma accounted_affectedObjects net m : preserves accounted (affectedObjects env net m).
Proof. unfold affectedObjects. handler. Qed.

#[local] Hint Resolve accounted_affectedObjects : client.

Lemma accounted_processModbusMessage net item : preserves accounted (processModbusMessage env net item).
Proof.
  unfold processModbusMessage, processRegisterValues, processRegistersOperationFailed,
    processModbusNetworkState. handler.
Qed.

Lemma accounted_executeCommand cmd payload : preserves accounted (executeCommand env cmd payload).
Proof. unfold executeCommand, sendCommand. handler. Qed.

Lemma accounted_onConnect : preserves accounted (onConnect env).
Proof.
  unfold onConnect, sendMqttNetworkIsUp. handler.
Qed.

(** Losing the broker drops the open requests. *)
Lemma onDisconnect_served c c' :
  onDisconnect env musl c = (c', Ret tt) -> idsOk c ->
  idsOk c' /\ cNextRpcId c - 1 <= cNextRpcId c' /\ accounts (served c' ++ openRequests c)%list (served c).
Proof.
  unfold onDisconnect at 1, bind at 1. cbn [modify]. set (c0 := withRpc (cNextRpcId c) ∅ c).
  intros E [N I]. match type of E with ?m c0 = _ => set (m0 := m) in E end.
  assert (P : preserves accounted m0) by (unfold m0, sendMqttNetworkIsUp; handler).
  specialize (P c0). rewrite E in P. destruct (P Logic.I) as (A & B & (C1 & C2)). cbn [fst] in *.
  split; [apply A; split; [done|]; by intros id [x Hx]|]. split; [unfold c0 in B; cbn in B; lia|].
  assert (S0 : served c0 = replies c) by (unfold served, openRequests, c0; cbn [cPending withRpc]; by rewrite map_to_list_empty, app_nil_r).
  rewrite S0 in *. unfold served at 2. split; [by apply submseteq_app|]. intros F. by rewrite (C2 F).
Qed.

(** A request is answered at once or becomes an open one with a new id. *)
Lemma handleRpcRequest_served payload topic corr c c' :
  topic <> "" -> idsOk c -> INT_MIN < cNextRpcId c ->
  handleRpcRequest env plugins payload (Some topic) corr c = (c', Ret tt) ->
  idsOk c' /\ cNextRpcId c - 1 <= cNextRpcId c' /\ accounts (served c') ((topic, corr) :: served c).
Proof.
  intros T [N0 I] Nx. unfold handleRpcRequest. rewrite bool_decide_false by done.
  unfold bind, gets, tryCatch. cbn [lift].
  destruct (parseRequest plugins (cNetworks c) (cRpcMode c) payload) as [rq|f].
  - unfold submitRequest, bind, gets. destruct (Z.eqb_spec (cNextRpcId c) INT_MIN) as [X|_]; [lia|].
    set (id := cNextRpcId c - 1). set (r := mkPending _ topic corr _ _ _ _ _ _ _).
    assert (F : cPending c !! id = None).
    { destruct (cPending c !! id) eqn:E; [|done]. assert (is_Some (cPending c !! id)) as S by (by eexists).
      apply I in S. unfold id in S. lia. }
    assert (G : forall e n, replyOf e = [] -> let c2 := withEffect e (n (withRpc id (<[id := r]> (cPending c)) c)) in
      n = (fun x => x) \/ n = withTick ->
      idsOk c2 /\ cNextRpcId c - 1 <= cNextRpcId c2 /\ accounts (served c2) ((topic, corr) :: served c)).
    { intros e n Re c2 Hn.
      assert (P2 : cPending c2 = <[id := r]> (cPending c) /\ cNextRpcId c2 = id /\ replies c2 = replies c).
      { unfold c2. rewrite replies_effect, Re, app_nil_r. by destruct Hn as [-> | ->]. }
      destruct P2 as (P2 & N2 & R2). unfold idsOk, served, openRequests. rewrite P2, N2, R2.
      split; [split; [unfold id; lia|]|split; [unfold id; lia|]].
      - intros j [x Hx]. apply lookup_insert_Some in Hx as [[<- _]|[_ Hx]]; [unfold id; lia|].
        assert (S : is_Some (cPending c !! j)) by (by eexists). apply I in S. unfold id. lia.
      - apply accounts_perm. rewrite map_to_list_insert by done. rewrite fmap_cons. cbn [compose snd].
        rewrite Permutation_app_comm. cbn [app]. by rewrite Permutation_app_comm. }
    destruct (rqIsWrite rq); cbn; intros [= <-]; [apply (G _ withTick)|apply (G _ (fun x => x))]; auto.
  - destruct (exceptionText f) as [what|]; [|done]. unfold publishRpcErrorTo.
    change (tryCatch _ _) with (reply topic None corr [("error", what)]). rewrite reply_sent.
    intros [= <-]. destruct (envFails env (cTick c)) eqn:F; (split; [split; [done|exact I]|]; split; [cbn; lia|]);
      unfold served; change (replies (withTick ?x)) with (replies x); change (openRequests (withTick ?x)) with (openRequests x).
    + split; [by apply submseteq_cons|intros A; by rewrite A in F].
    + apply accounts_perm. rewrite replies_effect. change (openRequests (withEffect ?e ?x)) with (openRequests x). cbn [replyOf].
      by rewrite <- (assoc_L (++)%list), Permutation_middle.
Qed.

(** What reaches the client. *)
Inductive event : Type :=
| ModbusMessage (net : string) (item : FromModbus)
| MqttMessage (topic payload : string) (responseTopic : option string) (correlation : string)
| BrokerConnected
| BrokerDisconnected.

Definition handle (e : event) : comp (D := D) unit :=
  match e with
  | ModbusMessage net item => processModbusMessage env net item
  | MqttMessage topic payload resp corr => onMessage env plugins topic payload resp corr
  | BrokerConnected => onConnect env
  | BrokerDisconnected => onDisconnect env musl
  end.

(** The RPC request an event is, if it is one: its response topic and correlation
    data. *)
Definition requestOf (e : event) (c : Client D) : list (string * string) :=
  match e with
  | MqttMessage topic _ (Some resp) corr =>
      if bool_decide (findCommand topic c = None) && negb (bool_decide (cRpcMode c = DISABLED))
         && bool_decide (cRpcTopic c = topic) && negb (bool_decide (resp = ""))
      then [(resp, corr)] else []
  | _ => []
  end.

(** The open requests that an event drops: those at the loss of the broker. *)
Definition droppedBy (e : event) (c : Client D) : list (string * string) :=
  match e with BrokerDisconnected => openRequests c | _ => [] end.

(** A history of events, all handled, with the requests among them and the open
    requests that were dropped. *)
Inductive history : Client D -> list (string * string) -> list (string * string) -> nat -> Client D -> Prop :=
| history_nil c : history c [] [] 0 c
| history_step c e c1 reqs dropped n c2 :
    handle e c = (c1, Ret tt) -> history c1 reqs dropped n c2 ->
    history c (requestOf e c ++ reqs) (droppedBy e c ++ dropped) (S n) c2.

Lemma accounted_served (m : comp (D := D) unit) c c' :
  preserves accounted m -> m c = (c', Ret tt) -> idsOk c ->
  idsOk c' /\ cNextRpcId c - 1 <= cNextRpcId c' /\ accounts (served c' ++ [])%list (served c).
Proof.
  intros P E I. specialize (P c). rewrite E in P. destruct (P Logic.I) as (A & B & C). cbn [fst] in *.
  rewrite app_nil_r. split; [auto|]. split; [lia|done].
Qed.

Lemma accounted_command cmd payload :
  preserves accounted (tryCatch (executeCommand env cmd payload)
    (fun f => match f with ConvException _ | PayloadException _ => Some (ret tt) | _ => None end)).
Proof.
  apply preserves_catchConversion; [typeclasses eauto|apply accounted_executeCommand].
Qed.

Lemma handle_served e c c' :
  handle e c = (c', Ret tt) -> idsOk c -> INT_MIN < cNextRpcId c ->
  idsOk c' /\ cNextRpcId c - 1 <= cNextRpcId c'
  /\ accounts (served c' ++ droppedBy e c)%list (requestOf e c ++ served c)%list.
Proof.
  intros E I Nx. destruct e as [net item|topic payload resp corr| |]; cbn [handle requestOf droppedBy] in *.
  - by eapply accounted_served; [apply accounted_processModbusMessage| |].
  - unfold onMessage, bind, gets in E. destruct (findCommand topic c) as [cmd|] eqn:F.
    + eapply accounted_served in E; [|apply accounted_command|done]. by destruct resp.
    + unfold when in E. rewrite app_nil_r. destruct resp as [resp|].
      * rewrite bool_decide_true by done. cbn [andb].
        destruct (negb (bool_decide (cRpcMode c = DISABLED)) && bool_decide (cRpcTopic c = topic)); cbn [andb].
        -- case_bool_decide as T; cbn [negb].
           ++ subst resp. unfold handleRpcRequest in E. rewrite bool_decide_true in E by done.
              injection E as <-. split; [done|]. split; [lia|done].
           ++ by eapply handleRpcRequest_served.
        -- injection E as <-. split; [done|]. split; [lia|done].
      * assert (c' = c) as ->.
        { destruct (negb _ && _); cbn in E; by injection E as <-. }
        split; [done|]. split; [lia|done].
  - by eapply accounted_served; [apply accounted_onConnect| |].
  - by eapply onDisconnect_served.
Qed.

Lemma history_served c reqs dropped n c' :
  history c reqs dropped n c' -> idsOk c -> Z.of_nat n <= cNextRpcId c - INT_MIN ->
  accounts (served c' ++ dropped)%list (reqs ++ served c)%list.
Proof.
  induction 1 as [c|c e c1 reqs dropped n c2 E Hs IH]; intros I L; [by rewrite app_nil_r|].
  destruct (handle_served e c c1 E I ltac:(lia)) as (I1 & N1 & S1).
  assert (A : accounts (droppedBy e c ++ (served c2 ++ dropped))%list (droppedBy e c ++ (reqs ++ served c1))%list)
    by (apply accounts_app, IH; [done|lia]).
  rewrite (Permutation_app_comm (droppedBy e c) (served c2 ++ dropped)), <- (assoc_L (++)%list) in A.
  rewrite (Permutation_app_comm dropped) in A. etransitivity; [exact A|].
  rewrite (Permutation_app_comm (droppedBy e c)), <- !(assoc_L (++)%list), (Permutation_app_comm (requestOf e c)).
  rewrite <- (assoc_L (++)%list), (Permutation_app_comm (served c)). by apply accounts_app.
Qed.

(** C39: over any history of MQTT messages, modbus messages, connections to the
    broker and losses of it, of at most as many events as there are request ids left
    (2^31 for a new client): the replies that the MQTT library accepted, the
    requests that are still open and those that were open when the broker was lost
    are among the RPC requests that arrived, each counted once: a request is
    answered at most once, on its own response topic and with its own correlation
    data.  And while the library accepts every call they are exactly the requests
    that arrived: none is forgotten but by the loss of the broker. *)
Theorem rpc_answered_once c reqs dropped n c' :
  history c reqs dropped n c' -> idsOk c -> Z.of_nat n <= cNextRpcId c - INT_MIN ->
  ((replies c' ++ openRequests c') ++ dropped)%list ⊆+ (reqs ++ replies c ++ openRequests c)%list
  /\ ((forall k, envFails env k = false) ->
        ((replies c' ++ openRequests c') ++ dropped)%list ≡ₚ (reqs ++ replies c ++ openRequests c)%list).
Proof. apply history_served. Qed.

End rpc.

(** * Publish mode once *)

Lemma length_app_s (s t : string) : String.length (s +:+ t) = (String.length s + String.length t)%nat.
Proof. induction s as [|c s IH]; [done|]. change (String c s +:+ t) with (String c (s +:+ t)). cbn. by rewrite IH. Qed.

Lemma app_inj_r_s (s t u : string) : s +:+ u = t +:+ u -> s = t.
Proof.
  revert t. induction s as [|c s IH]; intros [|d t]; [done|..]; intros E.
  - apply (f_equal String.length) in E. rewrite !length_app_s in E. cbn in E. lia.
  - apply (f_equal String.length) in E. rewrite !length_app_s in E. cbn in E. lia.
  - change (String ?x ?s +:+ ?t) with (String x (s +:+ t)) in E. injection E as -> E. by rewrite (IH t E).
Qed.

Section publishing.
Context {D : Type} `{CDouble D} `{Rapidjson D}.
Variable env : ClientEnv.
Variable plugins : list (ConverterPlugin D).
Variable musl : bool.
Hypothesis noFail : forall n, envFails env n = false.
Variable p : ptr.

(** State messages with a payload on a topic. *)
Definition isStateOn (topic : string) (e : Effect) : bool :=
  match e with EPublish t (Some _) _ => bool_decide (t = topic) | _ => false end.
Definition stateCount (c : Client D) : nat :=
  Datatypes.length (List.filter (isStateOn (getStateTopic (cStore c p))) (cOut c)).

Definition meta (o : MqttObject D) : string * PublishMode := (mTopic o, mPublishMode o).
Definition timesPublished (c : Client D) : nat :=
  match mLastPublishTime (cStore c p) with Some _ => 1 | None => 0 end.

(** No other object has the topic. *)
Definition ownTopic (c : Client D) : Prop := forall q, q <> p -> mTopic (cStore c q) <> mTopic (cStore c p).

(** Topics and modes stay, and the first state message of the object is recorded in
    its publish time, after which there are no others. *)
Definition publishedOnce (c c' : Client D) : Prop :=
  (forall q, meta (cStore c' q) = meta (cStore c q))
  /\ (ownTopic c -> mPublishMode (cStore c p) = ONCE ->
      (stateCount c' + timesPublished c = stateCount c + timesPublished c'
       /\ timesPublished c <= timesPublished c')%nat).

Lemma ownTopic_meta c c' :
  (forall q, meta (cStore c' q) = meta (cStore c q)) -> ownTopic c -> ownTopic c'.
Proof.
  intros M O q Nq E. apply (O q Nq).
  assert (T : forall r, mTopic (cStore c' r) = mTopic (cStore c r)) by (intros r; by injection (M r)).
  by rewrite <- !T.
Qed.

#[local] Instance publishedOnce_preorder : PreOrder publishedOnce.
Proof.
  split; [by intros c|]. intros c1 c2 c3 (M1 & P1) (M2 & P2). split; [intros q; by rewrite M2|].
  intros O U. destruct (P1 O U) as [C1 T1].
  destruct (P2 (ownTopic_meta c1 c2 M1 O)) as [C2 T2]; [injection (M1 p) as _ ->; done|]. lia.
Qed.

(** A change that leaves the log and the publish time of the object alone. *)
Lemma publishedOnce_same (c c' : Client D) :
  (forall q, meta (cStore c' q) = meta (cStore c q)) ->
  mLastPublishTime (cStore c' p) = mLastPublishTime (cStore c p) ->
  List.filter (isStateOn (getStateTopic (cStore c p))) (cOut c')
    = List.filter (isStateOn (getStateTopic (cStore c p))) (cOut c) ->
  publishedOnce c c'.
Proof.
  intros M L F. split; [done|]. intros _ _. unfold stateCount, timesPublished. rewrite L.
  replace (getStateTopic (cStore c' p)) with (getStateTopic (cStore c p)); [by rewrite F|].
  unfold getStateTopic. by injection (M p) as ->.
Qed.

(** Effects that are no state message of any object. *)
Definition otherEffect (e : Effect) : Prop := forall o : MqttObject D, isStateOn (getStateTopic o) e = false.

Lemma filter_effect t e (c : Client D) :
  isStateOn t e = false ->
  List.filter (isStateOn t) (cOut (withEffect e c)) = List.filter (isStateOn t) (cOut c).
Proof. intros E. cbn [cOut withEffect]. rewrite List.filter_app. cbn [List.filter]. by rewrite E, app_nil_r. Qed.

Lemma once_effect e : otherEffect e -> preserves publishedOnce (effect e).
Proof. intros E. apply preserves_modify. intros c. apply publishedOnce_same; [done..|]. by apply filter_effect. Qed.

Lemma once_implCall e : otherEffect e -> preserves publishedOnce (implCall env e).
Proof.
  intros E c _. unfold implCall. rewrite noFail. cbn [fst]. apply publishedOnce_same; [done..|].
  change (cOut (withTick ?x)) with (cOut x). by apply filter_effect.
Qed.

Lemma once_readClock : preserves publishedOnce (readClock env).
Proof. intros c _. by apply publishedOnce_same. Qed.

(** An object whose topic, mode and publish time are kept. *)
Definition sameObject (o o' : MqttObject D) : Prop :=
  meta o' = meta o /\ mLastPublishTime o' = mLastPublishTime o.

Lemma once_store c q o : sameObject (cStore c q) o -> publishedOnce c (withObject q o c).
Proof.
  intros [M L]. apply publishedOnce_same; [| |done]; cbn [cStore withObject].
  - intros r. by destruct (decide (r = q)) as [->|].
  - by destruct (decide (p = q)) as [<-|].
Qed.

Lemma once_setPayload q payload : preserves publishedOnce (setObject q (setLastPublishedPayload payload)).
Proof. apply preserves_modify. intros c. by apply once_store. Qed.

Lemma once_updateAt q f :
  (forall o o', f o = Ret o' -> sameObject o o') -> preserves publishedOnce (updateAt q f).
Proof.
  intros F c _. unfold updateAt. destruct (f (cStore c q)) as [o|] eqn:E; [|reflexivity].
  apply once_store. by apply F.
Qed.

Lemma updateObject_same leaf rc o r o' : updateObject leaf rc o = Ret (r, o') -> sameObject o o'.
Proof.
  unfold updateObject. destruct (updateState leaf (mState o)) as [[r1 s1]|]; cbn [obind]; [|done].
  destruct (updateState leaf (mAvailability o)) as [[r2 s2]|]; cbn [obind]; [|done].
  destruct (rc _ _); [|by intros [= _ <-]]. unfold updateAvailablityFlag.
  destruct (currentFlag _); cbn [obind]; [|done]. by intros [= _ <-].
Qed.

Lemma once_values net m q : preserves publishedOnce (updateAt q (updateRegisterValues net m)).
Proof.
  apply once_updateAt. intros o o'. unfold updateRegisterValues.
  destruct (updateObject _ _ o) as [[r x]|] eqn:E; cbn [obind]; [|done]. intros [= <-].
  by eapply updateObject_same.
Qed.

Lemma once_failed net m q : preserves publishedOnce (updateAt q (updateRegistersReadFailed net m)).
Proof.
  apply once_updateAt. intros o o'. unfold updateRegistersReadFailed.
  destruct (updateObject _ _ o) as [[r x]|] eqn:E; cbn [obind]; [|done]. intros [= <-].
  by eapply updateObject_same.
Qed.

Lemma once_network net b q :
  preserves publishedOnce (updateAt q (fun o => let! r := setModbusNetworkState net b o in Ret r.2)).
Proof.
  apply once_updateAt. intros o o'. unfold setModbusNetworkState.
  destruct (updateObject _ _ o) as [[r x]|] eqn:E; cbn [obind]; [|done]. intros [= <-].
  by eapply updateObject_same.
Qed.

Lemma availability_other t msg b : otherEffect (EPublish (t +:+ "/availability") msg b).
Proof.
  intros o. cbn [isStateOn]. destruct msg; [|done]. apply bool_decide_eq_false. unfold getStateTopic. intros E.
  assert (S : forall s, s +:+ "/availability" = (s +:+ "/availabilit") +:+ String "y"%char EmptyString)
    by (intros x; by rewrite app_assoc_s).
  assert (S2 : forall s, s +:+ "/state" = (s +:+ "/stat") +:+ String "e"%char EmptyString)
    by (intros x; by rewrite app_assoc_s).
  rewrite S, S2 in E. apply (f_equal splitLast) in E. by rewrite !splitLast_app in E.
Qed.

#[local] Hint Resolve once_effect once_implCall once_readClock once_setPayload once_values once_failed
  once_network availability_other : client.
#[local] Hint Extern 1 (otherEffect _) => (intros ?; reflexivity) : client.

(** Publishing the state of an object. *)
Lemma once_publishState q force : preserves publishedOnce (publishState env q force).
Proof.
  intros c _. unfold publishState, getObject, bind, gets.
  destruct (negb (bool_decide (mIsAvailable (cStore c q) = ATrue))); [reflexivity|].
  destruct (bool_decide (mPublishMode (cStore c q) = ONCE)
            && bool_decide (is_Some (mLastPublishTime (cStore c q)))) eqn:B; [reflexivity|].
  destruct (lift (generate (cStore c q)) c) as [c1 [payload|f]] eqn:G; injection G as <- G; [|reflexivity].
  unfold when. destruct (_ || force); [|reflexivity].
  unfold implCall. rewrite noFail. cbn [fst snd setObject modify readClock].
  set (e := EPublish _ _ _).
  set (c2 := withObject q _ (withTick (withObject q _ (withTick (withEffect e c))))).
  assert (S : forall r, r <> q -> cStore c2 r = cStore c r).
  { intros r Nr. unfold c2. cbn [cStore withObject withTick withEffect]. by rewrite !decide_False. }
  assert (Q : meta (cStore c2 q) = meta (cStore c q) /\ is_Some (mLastPublishTime (cStore c2 q))).
  { unfold c2. cbn [cStore withObject withTick withEffect]. rewrite !decide_True by done.
    split; [done|by eexists]. }
  assert (M : forall r, meta (cStore c2 r) = meta (cStore c r)).
  { intros r. destruct (decide (r = q)) as [->|Nr]; [apply Q|by rewrite S]. }
  change (publishedOnce c c2). split; [exact M|]. intros O U.
  assert (T : getStateTopic (cStore c2 p) = getStateTopic (cStore c p))
    by (unfold getStateTopic; by rewrite (f_equal fst (M p) : mTopic (cStore c2 p) = mTopic (cStore c p))).
  assert (F : stateCount c2 = (stateCount c
              + if isStateOn (getStateTopic (cStore c p)) e then 1 else 0)%nat).
  { unfold stateCount. rewrite T. change (cOut c2) with (cOut c ++ [e])%list.
    rewrite List.filter_app, length_app. cbn [List.filter]. by destruct (isStateOn _ e). }
  rewrite F. unfold timesPublished. destruct (decide (p = q)) as [<-|Nq].
  - rewrite bool_decide_true in B by done. cbn [andb] in B. apply bool_decide_eq_false in B.
    destruct (mLastPublishTime (cStore c p)); [by destruct B; eexists|].
    destruct Q as [_ [t ->]]. unfold e. cbn [isStateOn]. rewrite bool_decide_true by done. lia.
  - rewrite S by done. replace (isStateOn (getStateTopic (cStore c p)) e) with false; [lia|].
    unfold e. cbn [isStateOn]. symmetry. apply bool_decide_eq_false. intros E.
    apply (O q); [done|]. by eapply app_inj_r_s.
Qed.

#[local] Hint Resolve once_publishState : client.

Lemma once_modify f :
  (forall c, cStore (f c) = cStore c) -> (forall c, cOut (f c) = cOut c) -> preserves publishedOnce (modify f).
Proof.
  intros S O. apply preserves_modify. intros c. apply publishedOnce_same; by rewrite ?S, ?O.
Qed.
#[local] Hint Extern 2 (preserves publishedOnce (modify _)) => (apply once_modify; intros; reflexivity) : client.

Lemma once_availability q : preserves publishedOnce (publishAvailabilityChange env q).
Proof.
  unfold publishAvailabilityChange, getObject, getAvailabilityTopic. handler.
Qed.
#[local] Hint Resolve once_availability : client.

Lemma once_errorTo topic corr msg : preserves publishedOnce (publishRpcErrorTo env topic corr msg).
Proof. unfold publishRpcErrorTo. handler. Qed.
#[local] Hint Resolve once_errorTo : client.

Lemma once_rpcResponse m : preserves publishedOnce (publishRpcResponse env m).
Proof. unfold publishRpcResponse. handler. Qed.
Lemma once_rpcError m : preserves publishedOnce (publishRpcError env m).
Proof. unfold publishRpcError. handler. Qed.
Lemma once_updateOne net m q : preserves publishedOnce (updateOne env net m q).
Proof. unfold updateOne, getObject. handler. Qed.
#[local] Hint Resolve once_rpcResponse once_rpcError once_updateOne : client.

Lemma once_modbusMessage net item : preserves publishedOnce (processModbusMessage env net item).
Proof.
  unfold processModbusMessage, processRegisterValues, processRegistersOperationFailed,
    processModbusNetworkState, affectedObjects. handler.
Qed.

Lemma once_onConnect : preserves publishedOnce (onConnect env).
Proof. unfold onConnect, publishAll, sendMqttNetworkIsUp, getObject. handler. Qed.

Lemma once_onMessage topic payload resp corr : preserves publishedOnce (onMessage env plugins topic payload resp corr).
Proof.
  unfold onMessage, executeCommand, sendCommand, handleRpcRequest, submitRequest. handler.
Qed.

Lemma once_onDisconnect : preserves publishedOnce (onDisconnect env musl).
Proof. unfold onDisconnect, sendMqttNetworkIsUp. handler. Qed.

Lemma history_once c reqs dropped n c' : history env plugins musl c reqs dropped n c' -> publishedOnce c c'.
Proof.
  induction 1 as [c|c e c1 reqs dropped n c2 E _ IH]; [reflexivity|]. etransitivity; [|exact IH].
  assert (P : preserves publishedOnce (handle env plugins musl e)).
  { destruct e; [apply once_modbusMessage|apply once_onMessage|apply once_onConnect|apply once_onDisconnect]. }
  specialize (P c). rewrite E in P. by apply P.
Qed.

End publishing.

(** C40: while the MQTT library accepts what is published, an object in publish
    mode once, with a topic of its own, publishes its state at most once, whatever
    register values, read errors, commands, RPC requests, losses of the broker and
    reconnections follow; and never again once it has been published. *)
Theorem once_published_once {D} `{CDouble D} `{Rapidjson D} env plugins musl (p : ptr) (c : Client D) reqs dropped n c' :
  (forall k, envFails env k = false) -> history env plugins musl c reqs dropped n c' ->
  ownTopic p c -> mPublishMode (cStore c p) = ONCE ->
  (stateCount p c' <= stateCount p c + 1)%nat
  /\ (is_Some (mLastPublishTime (cStore c p)) -> stateCount p c' = stateCount p c).
Proof.
  intros F Hs O U. destruct (history_once env plugins musl F p c reqs dropped n c' Hs) as [_ P].
  destruct (P O U) as [C T]. unfold timesPublished in *. split.
  - destruct (mLastPublishTime (cStore c' p)), (mLastPublishTime (cStore c p)); lia.
  - intros [t E]. rewrite E in *. destruct (mLastPublishTime (cStore c' p)); lia.
Qed.

(** * Witnesses *)

Module ClientScenario.

Definition env : ClientEnv := mkClientEnv (fun n => Z.of_nat n) (fun _ => false).
Definition plugins : list (ConverterPlugin Z) := [stdPlugin (D := Z) true].

(** An object in publish mode once at pointer 1. *)
Definition object (q : ptr) : MqttObject Z :=
  if decide (q = 1) then withStates (mState demoObject) (mAvailability demoObject) (newObject "dev" ONCE 1000)
  else newObject "other" ON_CHANGE 1000.

Definition client : Client Z :=
  mkClient CONNECTED true defaultBrokerConfig ["net"] [(demoIdent 2, [1])] [] object [] READ
    "gw/rpc/modbus_request" 0 ∅ 0 [].

Definition rpc (payload resp corr : string) : event :=
  MqttMessage "gw/rpc/modbus_request" payload (Some resp) corr.
Definition values (regs : list Z) (id : Z) : event :=
  ModbusMessage "net" (RegisterValues (newMsgRegisterValues 1 HOLDING 2 regs id AUTO 0)).

(** Two requests, one of them not a JSON document, the values of the other, and a
    request that is open when the broker is lost. *)
Definition requests : list event :=
  [rpc "request" "reply/1" "a"; rpc "{" "reply/2" "b"; values [7; 8; 9] (-1); rpc "request" "reply/3" "c"; BrokerDisconnected].

(** Two polls of the registers of the object. *)
Definition polls : list event := [values [20; 30; 1] 0; values [21; 30; 1] 0].

Fixpoint run (evs : list event) (c : Client Z) : Client Z :=
  match evs with [] => c | e :: l => run l (handle env plugins false e c).1 end.

Lemma step e c reqs dropped n c2 :
  (handle env plugins false e c).2 = Ret tt -> history env plugins false (handle env plugins false e c).1 reqs dropped n c2 ->
  history env plugins false c (requestOf e c ++ reqs) (droppedBy e c ++ dropped) (S n) c2.
Proof.
  intros E Hs. eapply history_step; [|exact Hs]. destruct (handle env plugins false e c). cbn in *. by subst.
Qed.

End ClientScenario.

#[local] Ltac next_event e reqs dropped n :=
  match goal with
  | |- history _ _ _ ?c _ _ _ _ => refine (ClientScenario.step e c reqs dropped n _ _ _); [vm_compute; reflexivity|]
  end.

Lemma rpc_answered_once_witness :
  let c' := ClientScenario.run ClientScenario.requests ClientScenario.client in
  replies c' = [("reply/2", "b"); ("reply/1", "a")] /\ openRequests c' = []
  /\ ((replies c' ++ openRequests c') ++ [("reply/3", "c")])%list
     ≡ₚ ([("reply/1", "a"); ("reply/2", "b"); ("reply/3", "c")]
        ++ replies ClientScenario.client ++ openRequests ClientScenario.client)%list.
Proof.
  split; [vm_compute; reflexivity|]. split; [vm_compute; reflexivity|].
  apply (rpc_answered_once ClientScenario.env ClientScenario.plugins false ClientScenario.client
           [("reply/1", "a"); ("reply/2", "b"); ("reply/3", "c")] [("reply/3", "c")] 5).
  - next_event (ClientScenario.rpc "request" "reply/1" "a") [("reply/2", "b"); ("reply/3", "c")] [("reply/3", "c")] 4%nat.
    next_event (ClientScenario.rpc "{" "reply/2" "b") [("reply/3", "c")] [("reply/3", "c")] 3%nat.
    next_event (ClientScenario.values [7; 8; 9] (-1)) [("reply/3", "c")] [("reply/3", "c")] 2%nat.
    next_event (ClientScenario.rpc "request" "reply/3" "c") (@nil (string * string)) [("reply/3", "c")] 1%nat.
    next_event BrokerDisconnected (@nil (string * string)) (@nil (string * string)) 0%nat.
    unfold ClientScenario.requests; cbn [ClientScenario.run]; apply history_nil.
  - split; [vm_compute; discriminate|]. intros id [x Hx]. done.
  - vm_compute. discriminate.
  - done.
Defined.

Lemma once_published_once_witness :
  let c' := ClientScenario.run ClientScenario.polls ClientScenario.client in
  stateCount 1%Z c' = 1%nat /\ (stateCount 1%Z c' <= stateCount 1%Z ClientScenario.client + 1)%nat.
Proof.
  split; [vm_compute; reflexivity|].
  apply (once_published_once ClientScenario.env ClientScenario.plugins false 1 ClientScenario.client [] [] 2).
  - done.
  - next_event (ClientScenario.values [20; 30; 1] 0) (@nil (string * string)) (@nil (string * string)) 1%nat.
    next_event (ClientScenario.values [21; 30; 1] 0) (@nil (string * string)) (@nil (string * string)) 0%nat.
    unfold ClientScenario.polls, ClientScenario.requests; cbn [ClientScenario.run]; apply history_nil.
  - intros q Hq. cbn. unfold ClientScenario.object. rewrite decide_False by done. vm_compute. discriminate.
  - vm_compute. reflexivity.
Defined.

(** * What the handlers let through *)

(** A command whose converter cannot write lets an exception out of the callback of
    the MQTT library: only conversion errors are caught. *)
Theorem read_only_converter_escapes :
  let command := mkObjectCommand (mkBase (mkRange 1 1 HOLDING) 1 1) "dev/set" "net" AUTO
                   (Some (readOnly (D := Z) (bitToMqtt 1))) in
  let c := withCommands [("dev/set", command)] ClientScenario.client in
  (onMessage ClientScenario.env ClientScenario.plugins "dev/set" "1" None "" c).2
  = Fault (StdException "Conversion to modbus register values is not implemented").
Proof. vm_compute. reflexivity. Qed.

(** After the broker is lost the client reconnects, but still counts as connected. *)
Theorem lost_broker_still_connected :
  cConnection (onDisconnect ClientScenario.env false ClientScenario.client).1 = CONNECTED.
Proof. reflexivity. Qed.
