(* ===== verification/PublishedState.v ===== *)
(** What the broker shows: the last message on the state topic of an available object
    is the payload of the values its registers have, and the last one on its
    availability topic is its availability.

    A handler of the client is split into what it does to other objects, which leaves
    the object and its topics alone ([framed]), and what it does to the object itself,
    after which the invariant [shown] holds again ([safe]). *)

From stdpp Require Import base gmap list strings.
From Stdlib Require Import ZArith Lia Ascii String.
From S2P Require Import Prelude ModbusTypes Commands Config ModbusThread ConvTools.
From S2P Require Import ConvArgs StdConv Converters MqttObject MqttPayload MqttClient MqttClientProps.

#[local] Open Scope string_scope.
#[local] Open Scope Z_scope.

Import MqttObject MqttClient.

(** * Payloads do not throw the exception of the MQTT library *)

Definition calm {A} (m : outcome A) : Prop := forall w, m <> Fault (MosquittoException w).

Lemma calm_ret {A} (a : A) : calm (Ret a).
Proof. done. Qed.

Lemma calm_bind {A B} (m : outcome A) (k : A -> outcome B) :
  calm m -> (forall a, calm (k a)) -> calm (obind m k).
Proof. intros Hm Hk w. destruct m as [a|f]; cbn; [apply Hk|]. intros [= ->]. by apply (Hm w). Qed.

Section converters.
Context {D : Type} `{CDouble D} `{Rapidjson D}.

(** The converters of a tree. *)
Fixpoint nodeConverters (n : DataNode D) : list (DataConverter D) :=
  match n with
  | mkNode _ nodes _ _ _ conv => (option_list conv ++ flat_map nodeConverters nodes)%list
  end.
Definition stateConverters (s : ObjectState D) : list (DataConverter D) := flat_map nodeConverters (stNodes s).

(** Converters throw conversion errors, not the exception of the MQTT wrapper. *)
Definition calmConverter (conv : DataConverter D) : Prop := forall data, calm (toMqtt conv data).
Definition calmNode (n : DataNode D) : Prop := Forall calmConverter (nodeConverters n).
Definition calmObject (o : MqttObject D) : Prop := Forall calmConverter (stateConverters (mState o)).

Lemma calm_rawValues (l : list (DataNode D)) : calm (rawValues l).
Proof.
  induction l as [|n l IH]; cbn [rawValues]; [done|]. apply calm_bind; [|intros v; by apply calm_bind].
  unfold getRawValue. by destruct (isScalar n).
Qed.

Lemma calm_converted (n : DataNode D) : calmNode n -> calm (getConvertedValue n).
Proof.
  intros C. unfold getConvertedValue. destruct (nodeConverter n) as [conv|] eqn:E; [|done].
  apply calm_bind; [destruct (isScalar n); apply calm_rawValues|]. intros data.
  destruct n as [name nodes f i v c]. cbn in E. subst c. apply Forall_app in C as [C _].
  by apply Forall_cons in C as [C _].
Qed.

Lemma calm_scalarCalls (n : DataNode D) : calmNode n -> calm (scalarCalls n).
Proof.
  intros C. apply calm_bind; [by apply calm_converted|]. intros [v|d prec|s|v]; cbn; try done.
  destruct (prec =? 0); done.
Qed.

Lemma calm_elementCalls named (f : DataNode D -> outcome (list (WriterCall D))) l :
  Forall (fun n => calm (f n)) l -> calm (elementCalls named f l).
Proof.
  induction 1 as [|n l Hn _ IH]; [done|]. change (elementCalls named f (n :: l)) with
    (let! c := f n in let! cs := elementCalls named f l in Ret ((if named then [WKey (cstr (nodeName n))] else []) ++ c ++ cs)%list).
  apply calm_bind; [done|]. intros c. by apply calm_bind.
Qed.

Lemma calm_listCalls (f : DataNode D -> outcome (list (WriterCall D))) l force :
  Forall calmNode l -> Forall (fun n => calm (f n)) l -> calm (listCalls f l force).
Proof.
  intros C F. unfold listCalls. destruct l as [|front l]; [done|].
  destruct (isMap front); [by apply calm_bind; [apply calm_elementCalls|]|].
  destruct (isList _ _ _); [by apply calm_bind; [apply calm_elementCalls|]|].
  apply calm_scalarCalls. by apply Forall_cons in C as [C _].
Qed.

Lemma calmNode_children name (l : list (DataNode D)) f i v c : calmNode (mkNode name l f i v c) -> Forall calmNode l.
Proof.
  intros C. unfold calmNode in C. cbn [nodeConverters] in C. apply Forall_app in C as [_ C].
  induction l as [|n l IH]; [done|]. cbn [flat_map] in C. apply Forall_app in C as [Cn C]. constructor; [done|by apply IH].
Qed.

Lemma calm_nodeCalls (n : DataNode D) : calmNode n -> calm (nodeCalls n).
Proof.
  induction n as [name f i v c|name x l f i v c IH] using DataNode_nested_ind; intros C.
  - by apply calm_scalarCalls.
  - cbn [nodeCalls]. destruct (_ || _); [by apply calm_scalarCalls|]. pose proof (calmNode_children _ _ _ _ _ _ C) as Cl.
    apply calm_listCalls; [done|]. rewrite Forall_forall in IH, Cl |- *. auto.
Qed.

Lemma calm_generate (o : MqttObject D) : calmObject o -> calm (generate o).
Proof.
  intros C. assert (Forall calmNode (stNodes (mState o))) as F.
  { unfold calmObject, stateConverters in C. induction (stNodes (mState o)) as [|n l IH]; [done|].
    cbn [flat_map] in C. apply Forall_app in C as [Cn C]. constructor; [done|by apply IH]. }
  assert (calm (let! calls := generateJson (stNodes (mState o)) (stForceList (mState o)) in Ret (writerText calls))) as J.
  { apply calm_bind; [|done]. apply calm_listCalls; [done|]. eapply Forall_impl; [exact F|]. apply calm_nodeCalls. }
  unfold generate. destruct (negb _); [|done]. destruct (stNodes (mState o)) as [|single l]; [done|].
  destruct (_ && _); [|done]. apply calm_bind; [|done]. apply calm_converted. by apply Forall_cons in F as [F _].
Qed.

(** Updates keep the converters. *)
Lemma updateNode_converters leaf (n : DataNode D) r n' :
  updateNode leaf n = Ret (r, n') -> nodeConverters n' = nodeConverters n.
Proof.
  revert r n'. induction n as [name f i v c|name x l f i v c IH] using DataNode_nested_ind; intros r n' U.
  - cbn [updateNode] in U. destruct i as [i|]; [|done]. destruct (leaf i v) as [[r1 v']|]; cbn [obind] in U; [|done].
    by injection U as <- <-.
  - cbn [updateNode] in U. destruct (updateList _ (x :: l)) as [[r1 l']|] eqn:E; cbn [obind] in U; [|done].
    injection U as <- <-. cbn [nodeConverters]. f_equal. remember (x :: l) as L eqn:EL. clear EL x l.
    revert r1 l' E. induction IH as [|y l0 Hy _ IHl]; intros r1 l' E; [by injection E as <- <-|].
    rewrite updateList_cons in E. destruct (updateNode leaf y) as [[r2 y']|] eqn:E1; cbn [obind] in E; [|done].
    destruct (updateList (updateNode leaf) l0) as [[r3 l2]|]; cbn [obind] in E; [|done]. injection E as <- <-.
    cbn [flat_map]. by rewrite (Hy _ _ eq_refl), (IHl _ _ eq_refl).
Qed.

Lemma updateState_converters leaf (s : ObjectState D) r s' :
  updateState leaf s = Ret (r, s') -> stateConverters s' = stateConverters s.
Proof.
  unfold updateState, stateConverters. destruct (updateList _ (stNodes s)) as [[r1 l']|] eqn:E; cbn [obind]; [|done].
  intros [= <- <-]. cbn [stNodes]. revert r1 l' E. induction (stNodes s) as [|n l IH]; intros r1 l' E; [by injection E as <- <-|].
  rewrite updateList_cons in E. destruct (updateNode leaf n) as [[r2 n']|] eqn:E1; cbn [obind] in E; [|done].
  destruct (updateList (updateNode leaf) l) as [[r3 l2]|]; cbn [obind] in E; [|done]. injection E as <- <-.
  cbn [flat_map]. by rewrite (updateNode_converters _ _ _ _ E1), (IH _ _ eq_refl).
Qed.

End converters.

(** * Updates of an object *)

Section objects.
Context {D : Type} `{CDouble D} `{Rapidjson D}.

(** What is configured about an object, and what has been published of it. *)
Definition kept (o o' : MqttObject D) : Prop :=
  mTopic o' = mTopic o /\ mRetain o' = mRetain o /\ mPublishMode o' = mPublishMode o
  /\ mLastPublishedPayload o' = mLastPublishedPayload o /\ mLastPublishTime o' = mLastPublishTime o
  /\ stateConverters (mState o') = stateConverters (mState o).

Lemma updateObject_kept leaf rc (o : MqttObject D) r o' : updateObject leaf rc o = Ret (r, o') -> kept o o'.
Proof.
  unfold updateObject. destruct (updateState leaf (mState o)) as [[r1 s]|] eqn:E; cbn [obind]; [|done].
  apply updateState_converters in E. destruct (updateState leaf (mAvailability o)) as [[r2 a]|]; cbn [obind]; [|done].
  destruct (rc _ _); [|by intros [= _ <-]]. unfold updateAvailablityFlag. destruct (currentFlag _); cbn [obind]; [|done].
  by intros [= _ <-].
Qed.

(** An update that marks every register it changes as failed. *)
Definition breaks (leaf : RegisterIdent -> RegisterValue -> outcome (bool * RegisterValue)) : Prop :=
  forall i v v', leaf i v = Ret (true, v') -> rvReadOk v' = false.

Lemma updateNode_breaks leaf (n : DataNode D) n' : breaks leaf -> updateNode leaf n = Ret (true, n') -> isPolling n' = false.
Proof.
  intros B. revert n'. induction n as [name f i v c|name x l f i v c IH] using DataNode_nested_ind; intros n' U.
  - cbn [updateNode] in U. destruct i as [i|]; [|done]. destruct (leaf i v) as [[r v']|] eqn:E; cbn [obind] in U; [|done].
    injection U as -> <-. by apply (B i v).
  - cbn [updateNode] in U. destruct (updateList _ (x :: l)) as [[r l']|] eqn:E; cbn [obind] in U; [|done].
    injection U as -> <-. assert (l' <> []) as N.
    { intros ->. rewrite updateList_cons in E. destruct (updateNode leaf x) as [[? ?]|]; cbn [obind] in E; [|done].
      by destruct (updateList _ l) as [[? ?]|]. }
    assert (forallb isPolling l' = false) as P; [|by destruct l'].
    clear N. remember (x :: l) as L eqn:EL. clear EL x l. revert l' E.
    induction IH as [|y l0 Hy _ IHl]; intros l' E; [done|].
    rewrite updateList_cons in E. destruct (updateNode leaf y) as [[r1 y']|] eqn:E1; cbn [obind] in E; [|done].
    destruct (updateList (updateNode leaf) l0) as [[r2 l2]|] eqn:E2; cbn [obind] in E; [|done].
    injection E as Er <-. cbn [forallb]. destruct r1; [by rewrite (Hy y')|]. cbn [orb] in Er. subst r2.
    rewrite (IHl l2) by done. apply andb_false_r.
Qed.

Lemma updateState_breaks leaf (s : ObjectState D) s' : breaks leaf -> updateState leaf s = Ret (true, s') -> stateIsPolling s' = false.
Proof.
  intros B. unfold updateState, stateIsPolling. destruct (updateList _ (stNodes s)) as [[r l']|] eqn:E; cbn [obind]; [|done].
  intros [= -> <-]. cbn [stNodes]. revert l' E. induction (stNodes s) as [|n l IH]; intros l' E; [done|].
  rewrite updateList_cons in E. destruct (updateNode leaf n) as [[r1 n']|] eqn:E1; cbn [obind] in E; [|done].
  destruct (updateList (updateNode leaf) l) as [[r2 l2]|]; cbn [obind] in E; [|done]. injection E as Er <-. cbn [forallb].
  destruct r1; [by rewrite (updateNode_breaks leaf n n' B E1)|]. cbn [orb] in Er. subst r2. rewrite (IH l2) by done. apply andb_false_r.
Qed.

(** Such an update leaves the object as it is, or unavailable. *)
Lemma updateObject_breaks leaf (o : MqttObject D) r o' :
  breaks leaf -> quiet false leaf -> updateObject leaf (fun _ changed => changed) o = Ret (r, o') ->
  o' = o \/ mIsAvailable o' = AFalse.
Proof.
  intros B Q. unfold updateObject. destruct (updateState leaf (mState o)) as [[r1 s]|] eqn:E1; cbn [obind]; [|done].
  destruct (updateState leaf (mAvailability o)) as [[r2 a]|] eqn:E2; cbn [obind]; [|done].
  destruct (r1 || r2) eqn:R.
  - intros U. right. unfold updateAvailablityFlag, currentFlag in U. cbn [mAvailability mState withStates] in U.
    assert (negb (stateIsPolling a) || negb (stateIsPolling s) = true) as Np.
    { destruct r1; [apply (updateState_breaks _ _ _ B) in E1 as ->; by rewrite orb_true_r|]. cbn [orb] in R. subst r2.
      by apply (updateState_breaks _ _ _ B) in E2 as ->. }
    rewrite Np in U. by injection U as _ <-.
  - intros [= _ <-]. left. apply orb_false_elim in R as [-> ->].
    apply (updateState_quiet false) in E1 as ->; [|done..]. apply (updateState_quiet false) in E2 as ->; [|done..].
    apply withStates_same.
Qed.

Lemma failedLeaf_breaks net m : breaks (failedLeaf net m).
Proof. intros i v v'. unfold failedLeaf. destruct (_ && _); by intros [= <-]. Qed.
Lemma networkLeaf_breaks net : breaks (networkLeaf net false).
Proof. intros i v v'. unfold networkLeaf. destruct (_ && _); by intros [= <-]. Qed.

Lemma updateValues_kept net m (o o' : MqttObject D) : updateRegisterValues net m o = Ret o' -> kept o o'.
Proof.
  unfold updateRegisterValues. destruct (updateObject _ _ o) as [[r x]|] eqn:E; cbn [obind]; [|done]. intros [= <-].
  by eapply updateObject_kept.
Qed.
Lemma updateFailed_kept net m (o o' : MqttObject D) :
  updateRegistersReadFailed net m o = Ret o' -> kept o o' /\ (o' = o \/ mIsAvailable o' = AFalse).
Proof.
  unfold updateRegistersReadFailed. destruct (updateObject _ _ o) as [[r x]|] eqn:E; cbn [obind]; [|done]. intros [= <-].
  split; [by eapply updateObject_kept|]. eapply updateObject_breaks; [..|exact E]; [apply failedLeaf_breaks|apply failedLeaf_quiet].
Qed.
Lemma updateNetwork_kept net (o o' : MqttObject D) :
  (let! r := setModbusNetworkState net false o in Ret r.2) = Ret o' -> kept o o' /\ (o' = o \/ mIsAvailable o' = AFalse).
Proof.
  unfold setModbusNetworkState. destruct (updateObject _ _ o) as [[r x]|] eqn:E; cbn [obind]; [|done]. intros [= <-].
  split; [by eapply updateObject_kept|]. eapply updateObject_breaks; [..|exact E]; [apply networkLeaf_breaks|apply networkLeaf_quiet].
Qed.

End objects.

(** The payload of the last message on a topic; an empty one is [None]. *)
Definition lastOn (topic : string) (log : list Effect) : option string :=
  foldl (fun acc e => match e with EPublish t payload _ => if bool_decide (t = topic) then payload else acc | _ => acc end)
    None log.

Lemma lastOn_snoc topic log e :
  lastOn topic (log ++ [e]) =
  match e with EPublish t payload _ => if bool_decide (t = topic) then payload else lastOn topic log | _ => lastOn topic log end.
Proof. unfold lastOn. by rewrite foldl_app. Qed.

(** Topics of states and of availabilities differ. *)
Lemma state_not_availability (s t : string) : s +:+ "/availability" <> t +:+ "/state".
Proof.
  intros E.
  assert (S : forall s, s +:+ "/availability" = (s +:+ "/availabilit") +:+ String "y"%char EmptyString)
    by (intros x; by rewrite app_assoc_s).
  assert (S2 : forall s, s +:+ "/state" = (s +:+ "/stat") +:+ String "e"%char EmptyString)
    by (intros x; by rewrite app_assoc_s).
  rewrite S, S2 in E. apply (f_equal splitLast) in E. by rewrite !splitLast_app in E.
Qed.

(** * The object of a pointer and its topics *)

Section shown.
Context {D : Type} `{CDouble D} `{Rapidjson D}.
Variable env : ClientEnv.
Variable plugins : list (ConverterPlugin D).
Hypothesis noFail : forall n, envFails env n = false.
Variable p : ptr.
Variable topicOf : ptr -> string.
Hypothesis own : forall q, q <> p -> topicOf q <> topicOf p.

Definition stateTopic : string := topicOf p +:+ "/state".
Definition availabilityTopic : string := topicOf p +:+ "/availability".
Definition topicsOk (c : Client D) : Prop := forall q, mTopic (cStore c q) = topicOf q.

(** The object stays as it is, and so do its topics. *)
Definition framed (c c' : Client D) : Prop :=
  topicsOk c ->
  topicsOk c' /\ cStore c' p = cStore c p
  /\ lastOn stateTopic (cOut c') = lastOn stateTopic (cOut c)
  /\ lastOn availabilityTopic (cOut c') = lastOn availabilityTopic (cOut c).

#[local] Instance framed_preorder : PreOrder framed.
Proof.
  split; [by intros c|]. intros c1 c2 c3 F1 F2 T. destruct (F1 T) as (T2 & E2 & S2 & A2).
  destruct (F2 T2) as (T3 & E3 & S3 & A3). split; [done|]. by rewrite E3, S3, A3.
Qed.

Definition elsewhere (e : Effect) : Prop :=
  match e with EPublish t _ _ => t <> stateTopic /\ t <> availabilityTopic | _ => True end.

Lemma framed_log e (c : Client D) : elsewhere e -> framed c (withEffect e c).
Proof.
  intros E T. split; [done|]. split; [done|]. cbn [cOut withEffect]. rewrite !lastOn_snoc.
  destruct e; try done. destruct E as [E1 E2]. by rewrite !bool_decide_false.
Qed.

Lemma framed_effect e : elsewhere e -> preserves framed (effect e).
Proof. intros E. apply preserves_modify. intros c. by apply framed_log. Qed.
Lemma framed_implCall e : elsewhere e -> preserves framed (implCall env e).
Proof.
  intros E c _. unfold implCall. destruct (envFails env (cTick c)); [by intros T|exact (framed_log e c E)].
Qed.
Lemma framed_readClock : preserves framed (readClock env).
Proof. intros c _ T. done. Qed.
Lemma framed_modify f :
  (forall c, cStore (f c) = cStore c) -> (forall c, cOut (f c) = cOut c) -> preserves framed (modify f).
Proof.
  intros S O. apply preserves_modify. intros c T. split; [intros q; by rewrite S|]. by rewrite S, !O.
Qed.

#[local] Hint Resolve framed_effect framed_implCall framed_readClock : client.
#[local] Hint Extern 1 (elsewhere _) => exact Logic.I : client.
#[local] Hint Extern 2 (preserves framed (modify _)) => (apply framed_modify; intros; reflexivity) : client.

Lemma other_state q o b payload : q <> p -> mTopic o = topicOf q -> elsewhere (EPublish (getStateTopic (D := D) o) payload b).
Proof.
  intros N E. cbn. unfold getStateTopic, stateTopic, availabilityTopic. rewrite E. split.
  - intros X. apply app_inj_r_s in X. by apply (own q).
  - intros X. symmetry in X. by apply state_not_availability in X.
Qed.
Lemma other_availability q o b payload :
  q <> p -> mTopic o = topicOf q -> elsewhere (EPublish (getAvailabilityTopic (D := D) o) payload b).
Proof.
  intros N E. cbn. unfold getAvailabilityTopic, stateTopic, availabilityTopic. rewrite E. split.
  - intros X. by apply state_not_availability in X.
  - intros X. apply app_inj_r_s in X. by apply (own q).
Qed.

(** Another object is read or changed. *)
Lemma framed_getObject {A} q (k : MqttObject D -> comp A) :
  (forall o, mTopic o = topicOf q -> preserves framed (k o)) -> preserves framed (bind (getObject q) k).
Proof. intros K c N T. unfold bind, getObject, gets in *. cbn [fst snd] in *. exact (K _ (T q) c N T). Qed.

Lemma framed_store q (o : MqttObject D) c : q <> p -> mTopic o = topicOf q -> framed c (withObject q o c).
Proof.
  intros N E T. split; [|split; [cbn; by rewrite decide_False|done]].
  intros r. cbn. destruct (decide (r = q)) as [->|]; [done|apply T].
Qed.

Lemma framed_updateAt {A} q f (k : MqttObject D * MqttObject D -> comp A) :
  q <> p -> (forall o o', f o = Ret o' -> mTopic o' = mTopic o) ->
  (forall o o', mTopic o' = topicOf q -> preserves framed (k (o, o'))) -> preserves framed (bind (updateAt q f) k).
Proof.
  intros Nq F K c N T. unfold bind, updateAt in *. destruct (f (cStore c q)) as [o|] eqn:E; [|done].
  assert (mTopic o = topicOf q) as To by (rewrite (F _ _ E); apply T).
  destruct (framed_store q o c Nq To T) as (T1 & E1 & S1 & A1).
  destruct (K (cStore c q) o To (withObject q o c) N T1) as (T2 & E2 & S2 & A2).
  split; [done|]. by rewrite E2, S2, A2.
Qed.

Lemma framed_setObject q f :
  q <> p -> (forall o : MqttObject D, mTopic (f o) = mTopic o) -> preserves framed (setObject q f).
Proof. intros N F. apply preserves_modify. intros c T. apply framed_store; [done|rewrite F; apply T|done]. Qed.

Lemma framed_publishState q force : q <> p -> preserves framed (publishState env q force).
Proof.
  intros N. unfold publishState. apply framed_getObject. intros o To.
  pose proof (framed_implCall _ (other_state q o (mRetain o) None N To)).
  assert (forall payload, preserves framed (implCall env (EPublish (getStateTopic o) payload (mRetain o))))
    by (intros; apply framed_implCall; by eapply other_state).
  assert (forall x, preserves framed (setObject q (setLastPublishedPayload (D := D) x))) by (intros; by apply framed_setObject).
  assert (forall x, preserves framed (setObject q (setLastPublishTime (D := D) x))) by (intros; by apply framed_setObject).
  handler.
Qed.

Lemma framed_availability q : q <> p -> preserves framed (publishAvailabilityChange env q).
Proof.
  intros N. unfold publishAvailabilityChange. apply framed_getObject. intros o To.
  assert (forall payload, preserves framed (implCall env (EPublish (getAvailabilityTopic o) payload true)))
    by (intros; apply framed_implCall; by eapply other_availability).
  handler.
Qed.

#[local] Hint Resolve framed_publishState framed_availability : client.

Lemma framed_updateOne net m q : q <> p -> preserves framed (updateOne env net m q).
Proof.
  intros N. unfold updateOne. apply framed_updateAt; [done|intros o o' E; by apply updateValues_kept in E as [E _]|].
  intros o o' To.
  assert (preserves framed (implCall env (EPublish (getStateTopic o') None true)))
    by (apply framed_implCall; by eapply other_state).
  assert (forall x, preserves framed (setObject q (setLastPublishedPayload (D := D) x))) by (intros; by apply framed_setObject).
  handler.
Qed.

(** Handlers that touch no object. *)
Lemma framed_errorTo topic corr msg : preserves framed (publishRpcErrorTo env topic corr msg).
Proof. unfold publishRpcErrorTo. handler. Qed.
#[local] Hint Resolve framed_errorTo : client.
Lemma framed_rpcResponse m : preserves framed (publishRpcResponse env m).
Proof. unfold publishRpcResponse. handler. Qed.
Lemma framed_rpcError m : preserves framed (publishRpcError env m).
Proof. unfold publishRpcError. handler. Qed.
#[local] Hint Resolve framed_rpcResponse framed_rpcError : client.
Lemma framed_affected net m : preserves framed (affectedObjects env net m).
Proof. unfold affectedObjects. handler. Qed.
Lemma framed_onMessage topic payload resp corr : preserves framed (onMessage env plugins topic payload resp corr).
Proof. unfold onMessage, executeCommand, sendCommand, handleRpcRequest, submitRequest. handler. Qed.

(** * The invariant *)

Definition config (c : Client D) : Prop :=
  topicsOk c /\ mRetain (cStore c p) = true /\ mPublishMode (cStore c p) <> ONCE /\ calmObject (cStore c p).

(** The payload last published is that of the registers, while the object is available. *)
Definition stateShown (c : Client D) : Prop :=
  mIsAvailable (cStore c p) = ATrue ->
  is_Some (mLastPublishTime (cStore c p)) /\ generate (cStore c p) = Ret (mLastPublishedPayload (cStore c p)).

(** The payload the object remembers is the last one on its topic. *)
Definition logged (c : Client D) : Prop :=
  is_Some (mLastPublishTime (cStore c p)) -> lastOn stateTopic (cOut c) = Some (mLastPublishedPayload (cStore c p)).

Definition flagText (f : AvailableFlag) : option string :=
  match f with ATrue => Some "1" | AFalse => Some "0" | NotSet => None end.

Definition availabilityShown (c : Client D) : Prop :=
  forall msg, flagText (mIsAvailable (cStore c p)) = Some msg -> lastOn availabilityTopic (cOut c) = Some msg.

Definition shown (c : Client D) : Prop := config c /\ stateShown c /\ logged c /\ availabilityShown c.

(** The invariant holds when the computation returns, and when it throws what the
    handlers catch. *)
Definition keeps {A} (Q : Client D -> Prop) (r : Client D * outcome A) : Prop :=
  match r.2 with Ret _ | Fault (MosquittoException _) => Q r.1 | Fault _ => True end.
Definition safe {A} (m : comp A) : Prop := forall c, shown c -> keeps shown (m c).

Lemma shown_framed c c' : framed c c' -> shown c -> shown c'.
Proof.
  intros F (C & S & L & A). destruct C as (T & C). destruct (F T) as (T' & E & ES & EA).
  unfold shown, config, stateShown, logged, availabilityShown. rewrite E, ES, EA. done.
Qed.

Lemma safe_framed {A} (m : comp A) : preserves framed m -> safe m.
Proof.
  intros P c Sh. specialize (P c). unfold keeps. destruct (m c) as [c' [a|f]]; cbn in *; [by eapply shown_framed; [apply P|]|].
  destruct f; try done. eapply shown_framed; [|done]. apply P. by eexists.
Qed.

Lemma safe_bind {A B} (m : comp A) (k : A -> comp B) : safe m -> (forall a, safe (k a)) -> safe (bind m k).
Proof.
  intros Hm Hk c Sh. specialize (Hm c Sh). unfold bind, keeps in *. destruct (m c) as [c' [a|f]]; cbn in *; [by apply Hk|].
  by destruct f.
Qed.

Lemma safe_ret {A} (a : A) : safe (ret a).
Proof. by intros c Sh. Qed.
Lemma safe_gets {A} (f : Client D -> A) : safe (gets f).
Proof. by intros c Sh. Qed.
Lemma safe_when b m : safe m -> safe (when b m).
Proof. destruct b; [done|]. intros _. apply safe_ret. Qed.
Lemma safe_forEach {A} (l : list A) f : (forall x, safe (f x)) -> safe (forEach l f).
Proof. intros Hf. induction l as [|x l IH]; cbn [forEach]; [apply safe_ret|]. by apply safe_bind. Qed.
Lemma safe_catch m : safe m -> safe (tryCatch m catchMosquitto).
Proof.
  intros Hm c Sh. specialize (Hm c Sh). unfold tryCatch, keeps in *. destruct (m c) as [c' [a|f]]; cbn in *; [done|].
  by destruct f.
Qed.

(** * What happens to the object itself *)

(** No exception of the library is thrown. *)
Definition establishes {A} (Q : Client D -> Prop) (r : Client D * outcome A) : Prop :=
  match r.2 with Ret _ => Q r.1 | Fault (MosquittoException _) => False | Fault _ => True end.

(** Publishing its state. *)
Lemma publishState_shows force c :
  config c -> logged c -> (mIsAvailable (cStore c p) = ATrue -> force = true \/ is_Some (mLastPublishTime (cStore c p))) ->
  establishes (fun c' => config c' /\ stateShown c' /\ logged c' /\ mIsAvailable (cStore c' p) = mIsAvailable (cStore c p)
                   /\ lastOn availabilityTopic (cOut c') = lastOn availabilityTopic (cOut c)) (publishState env p force c).
Proof.
  intros C L Av. pose proof C as (T & R & M & Cm). unfold publishState, bind, getObject, gets.
  destruct (bool_decide (mIsAvailable (cStore c p) = ATrue)) eqn:Ba; cbn [negb].
  2: { apply bool_decide_eq_false in Ba. cbn. split; [done|]. split; [by intros|done]. }
  apply bool_decide_eq_true in Ba. rewrite (bool_decide_false (mPublishMode _ = ONCE)) by done. cbn [andb].
  pose proof (calm_generate _ Cm) as Cg. unfold lift. destruct (generate (cStore c p)) as [payload|f] eqn:G;
    [|cbn; destruct f; try done; by destruct (Cg what)].
  unfold when. destruct (_ || force) eqn:Bf.
  - unfold implCall. rewrite noFail. unfold establishes, setObject, modify, readClock. cbn [fst snd].
    set (e := EPublish _ _ _). set (c2 := withObject p _ (withTick (withObject p _ (withTick (withEffect e c))))).
    assert (cStore c2 p = setLastPublishTime (envNow env (S (cTick c))) (setLastPublishedPayload payload (cStore c p))) as E2.
    { unfold c2. cbn [cStore withObject withTick withEffect]. by rewrite !decide_True. }
    assert (cOut c2 = cOut c ++ [e])%list as O2 by done.
    assert (topicsOk c2) as T2.
    { intros q. destruct (decide (q = p)) as [->|N]; [rewrite E2; apply T|]. unfold c2. cbn [cStore withObject withTick withEffect].
      rewrite !decide_False by done. apply T. }
    unfold config, stateShown, logged. rewrite E2, O2, !lastOn_snoc. unfold e, stateTopic, getStateTopic.
    rewrite (T p), bool_decide_true, bool_decide_false by (done || (unfold availabilityTopic; intros X; symmetry in X;
      by apply state_not_availability in X)). cbn. done.
  - apply orb_false_elim in Bf as [Bp ->]. apply negb_false_iff, bool_decide_eq_true in Bp. subst payload.
    destruct (Av Ba) as [|St]; [done|]. cbn. split; [done|]. split; [by intros|done].
Qed.

Lemma publishState_shown force c :
  config c -> logged c -> availabilityShown c ->
  (mIsAvailable (cStore c p) = ATrue -> force = true \/ is_Some (mLastPublishTime (cStore c p))) ->
  keeps shown (publishState env p force c).
Proof.
  intros C L A Av. pose proof (publishState_shows force c C L Av) as P.
  unfold establishes, keeps in *. destruct (publishState env p force c) as [c' r]. cbn in *.
  enough (config c' /\ stateShown c' /\ logged c' /\ mIsAvailable (cStore c' p) = mIsAvailable (cStore c p)
    /\ lastOn availabilityTopic (cOut c') = lastOn availabilityTopic (cOut c) -> shown c') by (destruct r as [|[]]; naive_solver).
  intros (C' & S' & L' & E & EA). split; [done|]. split; [done|]. split; [done|]. unfold availabilityShown. by rewrite E, EA.
Qed.

Lemma safe_publishState force : safe (publishState env p force).
Proof. intros c (C & S & L & A). apply publishState_shown; try done. intros E. right. by apply S. Qed.

(** Publishing its availability. *)
Lemma publishAvailability_shows c :
  config c -> stateShown c -> logged c ->
  (mIsAvailable (cStore c p) = NotSet -> availabilityShown c) ->
  keeps shown (publishAvailabilityChange env p c).
Proof.
  intros C S L A. pose proof C as (T & _). unfold publishAvailabilityChange, bind, getObject, gets.
  case_bool_decide as Bn; [exact (conj C (conj S (conj L (A Bn))))|]. unfold tryCatch, implCall. rewrite noFail.
  set (msg := if bool_decide _ then "1" else "0"). set (c' := withTick _).
  assert (cOut c' = cOut c ++ [EPublish (getAvailabilityTopic (cStore c p)) (Some msg) true])%list as O by done.
  assert (cStore c' = cStore c) as E by done.
  unfold keeps, shown, config, stateShown, logged, availabilityShown, topicsOk. cbn [fst snd]. rewrite E, O, !lastOn_snoc.
  unfold getAvailabilityTopic, availabilityTopic. rewrite (T p).
  rewrite bool_decide_false, bool_decide_true by (done || apply state_not_availability).
  split; [done|]. split; [done|]. split; [done|]. intros m Em. f_equal. unfold msg.
  destruct (mIsAvailable (cStore c p)); [done|by injection Em as <-|by injection Em as <-].
Qed.

Lemma safe_availability : safe (publishAvailabilityChange env p).
Proof. intros c (C & S & L & A). by apply publishAvailability_shows. Qed.


(** The object is updated. *)
Lemma updated_config c o' :
  kept (cStore c p) o' -> config c -> logged c -> config (withObject p o' c) /\ logged (withObject p o' c).
Proof.
  intros (K1 & K2 & K3 & K4 & K5 & K6) (T & R & M & Cm) L.
  assert (cStore (withObject p o' c) p = o') as E by (cbn; by rewrite decide_True).
  unfold config, logged, calmObject. rewrite E, K2, K3, K4, K5, K6. split; [|exact L]. split; [|done].
  intros q. cbn. destruct (decide (q = p)) as [->|]; [by rewrite K1|apply T].
Qed.

Lemma availability_same c c' :
  mIsAvailable (cStore c' p) = mIsAvailable (cStore c p) -> cOut c' = cOut c -> availabilityShown c -> availabilityShown c'.
Proof. unfold availabilityShown. by intros -> ->. Qed.

(** A poll: the flag changes, and both topics are written, or the state alone. *)
Lemma safe_updateOne net m : safe (updateOne env net m p).
Proof.
  intros c (C & S & L & A). unfold updateOne, bind at 1, updateAt.
  destruct (updateRegisterValues net m (cStore c p)) as [o'|f] eqn:U; [|by destruct f].
  pose proof (updateValues_kept _ _ _ _ U) as K. destruct (updated_config c o' K C L) as [C1 L1].
  assert (cStore (withObject p o' c) p = o') as E by (cbn; by rewrite decide_True).
  pose proof C1 as (_ & R & _). rewrite E in R. rewrite R. set (c1 := withObject p o' c) in *.
  case_bool_decide as Ba; cbn [negb].
  - assert (availabilityShown c1) as A1 by (apply (availability_same c); [by rewrite E|done|done]).
    assert (mIsAvailable o' = ATrue -> is_Some (mLastPublishTime o')) as Av.
    { intros E1. destruct K as (_ & _ & _ & _ & -> & _). apply S. congruence. }
    assert (forall b, keeps shown (publishState env p b c1)) as Pb
      by (intros b; apply publishState_shown; try done; rewrite E; auto).
    assert (forall b, keeps shown (publishState env p b (withTick c1))) as Pt
      by (intros b; apply publishState_shown; try done; change (cStore (withTick c1) p) with (cStore c1 p); rewrite E; auto).
    destruct (mPublishMode o'), (mLastPublishTime o'); try apply Pb. apply Pt.
  - unfold when at 1. case_bool_decide as Bt.
    + pose proof (publishState_shows true c1 C1 L1 (fun _ => or_introl eq_refl)) as P. unfold bind, establishes, keeps in *.
      destruct (publishState env p true c1) as [c2 [a|f]]; cbn [fst snd] in P |- *; [|by destruct f].
      destruct P as (C2 & S2 & L2 & E2 & _). apply publishAvailability_shows; try done. rewrite E2, E, Bt. done.
    + unfold bind, ret. apply publishAvailability_shows; try done.
      * intros X. by rewrite E in X.
      * intros X msg. by rewrite X.
Qed.


(** A failure leaves the object as it is, or makes it unavailable. *)
Lemma failed_stateShown c o' : o' = cStore c p \/ mIsAvailable o' = AFalse -> stateShown c -> stateShown (withObject p o' c).
Proof.
  intros F S. unfold stateShown. replace (cStore (withObject p o' c) p) with o' by (cbn; by rewrite decide_True).
  destruct F as [-> | ->]; [exact S|done].
Qed.

Definition failedBody net (m : ModbusMessageBase) (q : ptr) : comp (D := D) unit :=
  bind (updateAt q (updateRegistersReadFailed net m)) (fun '(obj, obj') =>
    bind (publishState env q false) (fun _ =>
      when (negb (bool_decide (mIsAvailable obj = mIsAvailable obj'))) (publishAvailabilityChange env q))).

Lemma safe_failedBody net m q : safe (failedBody net m q).
Proof.
  destruct (decide (q = p)) as [->|N].
  2: { apply safe_framed, framed_updateAt; [done|intros o o' E; by apply updateFailed_kept in E as [[E _] _]|].
    intros o o' To. handler. }
  intros c (C & S & L & A). unfold failedBody, bind at 1, updateAt.
  destruct (updateRegistersReadFailed net m (cStore c p)) as [o'|f] eqn:U; [|by destruct f].
  destruct (updateFailed_kept _ _ _ _ U) as [K F]. destruct (updated_config c o' K C L) as [C1 L1].
  pose proof (failed_stateShown c o' F S) as S1.
  assert (cStore (withObject p o' c) p = o') as E by (cbn; by rewrite decide_True). set (c1 := withObject p o' c) in *.
  pose proof (publishState_shows false c1 C1 L1 (fun X => or_intror (proj1 (S1 X)))) as P. unfold bind, establishes, keeps in *.
  destruct (publishState env p false c1) as [c2 [a|f]]; cbn [fst snd] in P |- *; [|by destruct f].
  destruct P as (C2 & S2 & L2 & E2 & EA). unfold when. case_bool_decide as Ba; cbn [negb].
  - change (shown c2). split; [done|]. split; [done|]. split; [done|]. unfold availabilityShown. rewrite E2, EA, E, <- Ba. exact A.
  - apply publishAvailability_shows; try done. intros X msg. by rewrite X.
Qed.

Definition networkBody net (q : ptr) : comp (D := D) unit :=
  bind (updateAt q (fun o => let! r := setModbusNetworkState net false o in Ret r.2)) (fun '(obj, obj') =>
    when (negb (bool_decide (mIsAvailable obj = mIsAvailable obj'))) (publishAvailabilityChange env q)).

Lemma safe_networkBody net q : safe (networkBody net q).
Proof.
  destruct (decide (q = p)) as [->|N].
  2: { apply safe_framed, framed_updateAt; [done|intros o o' E; by apply updateNetwork_kept in E as [[E _] _]|].
    intros o o' To. handler. }
  intros c (C & S & L & A). unfold networkBody, bind, updateAt.
  destruct (let! r := setModbusNetworkState net false (cStore c p) in Ret r.2) as [o'|f] eqn:U; [|by destruct f].
  destruct (updateNetwork_kept _ _ _ U) as [K F]. destruct (updated_config c o' K C L) as [C1 L1].
  pose proof (failed_stateShown c o' F S) as S1.
  assert (cStore (withObject p o' c) p = o') as E by (cbn; by rewrite decide_True). set (c1 := withObject p o' c) in *.
  unfold when. case_bool_decide as Ba; cbn [negb].
  - change (shown c1). split; [done|]. split; [done|]. split; [done|]. apply (availability_same c); [by rewrite E|done|done].
  - apply publishAvailability_shows; try done. intros X msg. by rewrite X.
Qed.

(** * Events *)

Lemma safe_any_publishState q force : safe (publishState env q force).
Proof. destruct (decide (q = p)) as [->|N]; [apply safe_publishState|]. by apply safe_framed, framed_publishState. Qed.
Lemma safe_any_availability q : safe (publishAvailabilityChange env q).
Proof. destruct (decide (q = p)) as [->|N]; [apply safe_availability|]. by apply safe_framed, framed_availability. Qed.
Lemma safe_any_updateOne net m q : safe (updateOne env net m q).
Proof. destruct (decide (q = p)) as [->|N]; [apply safe_updateOne|]. by apply safe_framed, framed_updateOne. Qed.

Lemma safe_modbusMessage net item : safe (processModbusMessage env net item).
Proof.
  assert (forall m, safe (processRegistersOperationFailed env net m)) as Failed.
  { intros m. unfold processRegistersOperationFailed. apply safe_bind; [apply safe_gets|]. intros [l|]; [|apply safe_ret].
    apply (safe_forEach l (failedBody net m)). intros q. apply safe_failedBody. }
  destruct item as [m|m|m|name isUp]; cbn.
  - unfold processRegisterValues. apply safe_bind; [apply safe_gets|]. intros st. destruct (negb _); [apply safe_ret|].
    apply safe_bind; [apply safe_framed, framed_affected|]. intros [l|]; [|apply safe_ret].
    apply safe_catch, safe_forEach. intros q. apply safe_any_updateOne.
  - destruct (isRpc m); [apply safe_framed, framed_rpcError|apply Failed].
  - destruct (isRpc m); [apply safe_framed, framed_rpcError|apply Failed].
  - unfold processModbusNetworkState. destruct isUp; [apply safe_ret|]. apply safe_bind; [apply safe_gets|]. intros objects.
    apply (safe_forEach _ (networkBody name)). intros q. apply safe_networkBody.
Qed.

Lemma safe_onConnect : safe (onConnect env).
Proof.
  unfold onConnect. apply safe_bind; [apply safe_gets|]. intros cmds.
  apply safe_bind; [apply safe_framed; handler|]. intros _. apply safe_bind; [apply safe_gets|]. intros mode.
  apply safe_bind; [apply safe_gets|]. intros topic. apply safe_bind; [apply safe_framed; handler|]. intros _.
  apply safe_bind; [apply safe_framed; handler|]. intros _. apply safe_bind; [|intros _; apply safe_framed; unfold sendMqttNetworkIsUp; handler].
  unfold publishAll. apply safe_bind; [apply safe_gets|]. intros objects. apply safe_forEach. intros q.
  apply safe_bind; [apply safe_gets|]. intros obj. apply safe_bind; [|intros _; apply safe_any_availability].
  apply safe_when, safe_any_publishState.
Qed.

Lemma framed_onDisconnect musl : preserves framed (onDisconnect env musl).
Proof. unfold onDisconnect, sendMqttNetworkIsUp. handler. Qed.

Lemma history_shown musl c reqs dropped n c' : history env plugins musl c reqs dropped n c' -> shown c -> shown c'.
Proof.
  induction 1 as [c|c e c1 reqs dropped n c2 E _ IH]; [done|]. intros Sh. apply IH.
  assert (safe (handle env plugins musl e)) as Sf
    by (destruct e; [apply safe_modbusMessage|apply safe_framed, framed_onMessage|apply safe_onConnect
                    |apply safe_framed, framed_onDisconnect]).
  specialize (Sf c Sh). by rewrite E in Sf.
Qed.

End shown.

(** C6: the broker shows what the devices say, for an object that is retained, not in
    publish mode once, has a topic of its own and converters that do not throw the
    exception of the MQTT library, from the start on (it has not been read or
    published yet): over any history of handled register values, read errors, lost
    networks, commands, RPC requests, losses of the broker and reconnections, while
    the MQTT library accepts what is published, the last message on the state topic
    of the object, whenever it is available, is the payload of the values its
    registers have then, and the last message on its availability topic is its
    availability.  (An object in publish mode once keeps its first payload: C40.) *)
Theorem published_state_current {D} `{CDouble D} `{Rapidjson D} env plugins musl (p : ptr) (c : Client D) reqs dropped n c' :
  (forall k, envFails env k = false) -> history env plugins musl c reqs dropped n c' -> ownTopic p c ->
  mRetain (cStore c p) = true -> mPublishMode (cStore c p) <> ONCE -> calmObject (cStore c p) ->
  mIsAvailable (cStore c p) = NotSet -> mLastPublishTime (cStore c p) = None ->
  (mIsAvailable (cStore c' p) = ATrue ->
   exists payload, generate (cStore c' p) = Ret payload
     /\ lastOn (getStateTopic (cStore c' p)) (cOut c') = Some payload)
  /\ (forall msg, flagText (mIsAvailable (cStore c' p)) = Some msg ->
      lastOn (getAvailabilityTopic (cStore c' p)) (cOut c') = Some msg).
Proof.
  intros F Hs O R M Cm Av Ti. set (topicOf := fun q => mTopic (cStore c q)).
  destruct (history_shown env plugins F p topicOf O musl c reqs dropped n c' Hs) as ((T & _) & S & L & A).
  - split; [by split|]. unfold stateShown, logged, availabilityShown. rewrite Av, Ti. split; [done|].
    split; [by intros []|done].
  - unfold getStateTopic, getAvailabilityTopic. rewrite (T p). split; [|exact A].
    intros E. destruct (S E) as [St G]. eexists. split; [exact G|exact (L St)].
Qed.

(** * A history: a poll, a read error, the loss of the broker, and a poll with another value *)

Module ShownScenario.

Definition object (q : ptr) : MqttObject Z :=
  if decide (q = 1)
  then withStates (addDataNode (demoLeaf 2) false newState) (addDataNode (demoLeaf 4) false newState)
         (newObject "dev" ON_CHANGE 1000)
  else newObject "other" ON_CHANGE 1000.
Definition client : Client Z :=
  mkClient CONNECTED true defaultBrokerConfig ["net"] [(demoIdent 2, [1])] [] object [] READ
    "gw/rpc/modbus_request" 0 ∅ 0 [].
Definition failure : event := ModbusMessage "net" (RegisterReadFailed (newMsgFailed 1 HOLDING 2 3 0)).
Definition events : list event :=
  [ClientScenario.values [20; 30; 1] 0; failure; BrokerDisconnected; ClientScenario.values [21; 30; 1] 0].
Definition final : Client Z := ClientScenario.run events client.

End ShownScenario.

Lemma published_state_current_witness :
  mIsAvailable (cStore ShownScenario.final 1) = ATrue
  /\ (exists payload, generate (cStore ShownScenario.final 1) = Ret payload
        /\ lastOn "dev/state" (cOut ShownScenario.final) = Some payload)
  /\ lastOn "dev/availability" (cOut ShownScenario.final) = Some "1".
Proof.
  assert (H : (mIsAvailable (cStore ShownScenario.final 1) = ATrue ->
     exists payload, generate (cStore ShownScenario.final 1) = Ret payload
       /\ lastOn (getStateTopic (cStore ShownScenario.final 1)) (cOut ShownScenario.final) = Some payload)
    /\ (forall msg, flagText (mIsAvailable (cStore ShownScenario.final 1)) = Some msg ->
        lastOn (getAvailabilityTopic (cStore ShownScenario.final 1)) (cOut ShownScenario.final) = Some msg)).
  { apply (published_state_current ClientScenario.env ClientScenario.plugins false 1 ShownScenario.client [] [] 4); try reflexivity.
    - refine (ClientScenario.step (ClientScenario.values [20; 30; 1] 0) _ [] [] 3 _ _ _); [vm_compute; reflexivity|].
      refine (ClientScenario.step ShownScenario.failure _ [] [] 2 _ _ _); [vm_compute; reflexivity|].
      refine (ClientScenario.step BrokerDisconnected _ [] [] 1 _ _ _); [vm_compute; reflexivity|].
      refine (ClientScenario.step (ClientScenario.values [21; 30; 1] 0) _ [] [] 0 _ _ _); [vm_compute; reflexivity|].
      unfold ShownScenario.final, ShownScenario.events; cbn [ClientScenario.run]; apply history_nil.
    - intros q Hq. cbn. unfold ShownScenario.object. rewrite decide_False by done. vm_compute. discriminate.
    - vm_compute. discriminate.
    - constructor. }
  assert (E : mIsAvailable (cStore ShownScenario.final 1) = ATrue) by (vm_compute; reflexivity).
  split; [exact E|]. split; [exact (proj1 H E)|]. apply (proj2 H). by rewrite E.
Defined.

(** The messages of the history. *)
Example shown_messages :
  cOut ShownScenario.final
  = [EPublish "dev/state" (Some "20") true; EPublish "dev/availability" (Some "1") true;
     EPublish "dev/availability" (Some "0") true; EToModbus "net" (MqttNetworkState false); EReconnect;
     EPublish "dev/state" (Some "21") true; EPublish "dev/availability" (Some "1") true].
Proof. vm_compute. reflexivity. Qed.
