(* ===== verification/PollPath.v ===== *)
(** The way of a value: from the device that answers a poll through the message of the
    executor to the registers of the MQTT objects and the message the broker shows. *)

From stdpp Require Import base gmap list strings.
From Stdlib Require Import ZArith Lia String.
From S2P Require Import Prelude ModbusTypes PollSpec Commands ModbusContext Config Executor ExecutorProps ModbusThread.
From S2P Require Import ConvTools ConvArgs StdConv Converters MqttObject MqttPayload MqttClient MqttClientProps PublishedState.

#[local] Open Scope string_scope.
#[local] Open Scope Z_scope.

Import MqttObject MqttClient.

(** * The registers of an object *)

(** What a message makes of a register. *)
Definition received (net : string) (m : MsgRegisterValues) (iv : RegisterIdent * RegisterValue)
  : RegisterIdent * RegisterValue :=
  if covered net (msgBase m) iv then (iv.1, mkValue true true (registerAt m (idRegister iv.1))) else iv.

Lemma received_twice net m iv : received net m (received net m iv) = received net m iv.
Proof.
  destruct iv as [i v]. unfold received at 2 3. destruct (covered net (msgBase m) (i, v)) eqn:E; unfold received, covered in *; cbn in *;
    by rewrite E.
Qed.

Section objects.
Context {D : Type} `{CDouble D} `{Rapidjson D}.

Lemma valueLeaf_received net m i v r v' :
  valuesOk m -> valueLeaf net m i v = Ret (r, v') -> (i, v') = received net m (i, v).
Proof.
  intros V E. pose proof (valueLeaf_acts net m (i, v) V) as A. unfold acts in A. cbn [fst snd] in A. rewrite E in A.
  assert ((valueOf net m (i, v)).2 = v') as <- by (by injection A as <-). unfold valueOf, received. by destruct (covered _ _ _).
Qed.

Lemma updateList_leaves (f : DataNode D -> outcome (bool * DataNode D)) g (l : list (DataNode D)) r l' :
  Forall (fun n => forall r n', f n = Ret (r, n') -> leaves n' = g <$> leaves n) l ->
  updateList f l = Ret (r, l') -> flat_map leaves l' = g <$> flat_map leaves l.
Proof.
  intros F. revert r l'. induction F as [|n l Hn _ IH]; intros r l' U; [by injection U as <- <-|].
  rewrite updateList_cons in U. destruct (f n) as [[r1 n']|] eqn:E1; cbn [obind] in U; [|done].
  destruct (updateList f l) as [[r2 l2]|]; cbn [obind] in U; [|done]. injection U as <- <-.
  cbn [flat_map]. by rewrite fmap_app, (Hn _ _ eq_refl), (IH _ _ eq_refl).
Qed.

Lemma updateNode_leaves net m (n : DataNode D) r n' :
  valuesOk m -> updateNode (valueLeaf net m) n = Ret (r, n') -> leaves n' = received net m <$> leaves n.
Proof.
  intros V. revert r n'. induction n as [name f i v c|name x l f i v c IH] using DataNode_nested_ind; intros r n' U.
  - cbn [updateNode] in U. destruct i as [i|]; [|done]. destruct (valueLeaf net m i v) as [[r1 v']|] eqn:E; cbn [obind] in U; [|done].
    injection U as <- <-. cbn [leaves]. cbn. by rewrite (valueLeaf_received _ _ _ _ _ _ V E).
  - cbn [updateNode] in U. destruct (updateList _ (x :: l)) as [[r1 l']|] eqn:E; cbn [obind] in U; [|done].
    injection U as <- <-. pose proof (updateList_leaves _ _ _ _ _ IH E) as L. rewrite updateList_cons in E.
    destruct (updateNode _ x) as [[r2 y]|]; cbn [obind] in E; [|done].
    destruct (updateList _ l) as [[r3 l2]|]; cbn [obind] in E; [|done]. by injection E as <- <-.
Qed.

(** A message sets the registers of an object that it has values for. *)
Lemma updateRegisterValues_leaves net m (o o' : MqttObject D) :
  valuesOk m -> updateRegisterValues net m o = Ret o' -> objectLeaves o' = received net m <$> objectLeaves o.
Proof.
  intros V. unfold updateRegisterValues, updateObject, updateState, updateAvailablityFlag.
  assert (forall l r (l' : list (DataNode D)), updateList (updateNode (valueLeaf net m)) l = Ret (r, l') ->
            flat_map leaves l' = received net m <$> flat_map leaves l) as Lv.
  { intros l r l'. apply updateList_leaves, Forall_forall. intros n _ r1 n'. by apply updateNode_leaves. }
  destruct (updateList _ (stNodes (mState o))) as [[r1 s]|] eqn:Es; cbn [obind]; [|done].
  destruct (updateList _ (stNodes (mAvailability o))) as [[r2 a]|] eqn:Ea; cbn [obind]; [|done].
  assert (forall fl (x : MqttObject D), mState x = mState (withStates (mkState s (stForceList (mState o)))
     (mkState a (stForceList (mAvailability o))) o) -> mAvailability x = mkState a fl ->
     objectLeaves x = received net m <$> objectLeaves o) as G.
  { intros fl x E1 E2. unfold objectLeaves. rewrite E1, E2, fmap_app. cbn. by rewrite (Lv _ _ _ Es), (Lv _ _ _ Ea). }
  destruct (_ || bool_decide _); cbn [obind]; [destruct (currentFlag _); cbn [obind]; [|done]|]; intros [= <-]; by eapply G.
Qed.

(** * No exception of the MQTT library comes from the objects *)

Definition allCalm (o : MqttObject D) : Prop :=
  calmObject o /\ Forall calmConverter (stateConverters (mAvailability o)).

Lemma calm_updateList (f : DataNode D -> outcome (bool * DataNode D)) l :
  Forall (fun n => calm (f n)) l -> calm (updateList f l).
Proof.
  induction 1 as [|n l Hn _ IH]; [done|]. rewrite updateList_cons. apply calm_bind; [done|]. intros [r n'].
  apply calm_bind; [done|]. by intros [].
Qed.

Lemma calm_updateNode net m (n : DataNode D) : calm (updateNode (valueLeaf net m) n).
Proof.
  induction n as [name f i v c|name x l f i v c IH] using DataNode_nested_ind; cbn [updateNode].
  - destruct i as [i|]; [|done]. apply calm_bind; [|by intros []]. unfold valueLeaf. destruct (_ && _); [|done].
    apply calm_bind; [|intros val; by destruct (setValue val v)]. unfold ModbusRegisters.getValue.
    destruct (_ <? _); [done|]. by destruct (_ !! _).
  - apply calm_bind; [by apply calm_updateList|]. by intros [].
Qed.

Lemma calm_getInt (v : MqttValue D) : calm (MqttValue.getInt v).
Proof. destruct v; cbn; try done. destruct (Numbers.strtol _ _). by destruct (negb _). Qed.

Lemma calm_hasAllValues (n : DataNode D) : calm (hasAllValues n).
Proof.
  induction n as [name f i v c|name x l f i v c IH] using DataNode_nested_ind; cbn [hasAllValues]; [by destruct i|].
  induction IH as [|y l' Hy _ IHl]; [done|]. cbn. apply calm_bind; [done|]. by intros [].
Qed.

Lemma calm_stateHasAllValues (s : ObjectState D) : calm (stateHasAllValues s).
Proof.
  unfold stateHasAllValues. induction (stNodes s) as [|y l IH]; [done|]. cbn. apply calm_bind; [apply calm_hasAllValues|].
  by intros [].
Qed.

Lemma calm_currentFlag (o : MqttObject D) : Forall calmConverter (stateConverters (mAvailability o)) -> calm (currentFlag o).
Proof.
  intros C. unfold currentFlag. destruct (_ || _); [done|]. apply calm_bind; [apply calm_stateHasAllValues|]. intros [|]; [|done].
  apply calm_bind; [apply calm_stateHasAllValues|]. intros [|]; [|done]. cbn [negb].
  unfold availabilityFlag. destruct (stNodes (mAvailability o)) as [|n l] eqn:E; [done|].
  apply calm_bind; [apply calm_stateHasAllValues|]. intros all. destruct (_ || _); [done|].
  apply calm_bind; [apply calm_converted; unfold stateConverters in C; rewrite E in C; by apply Forall_app in C as [C _]|].
  intros v. apply calm_bind; [apply calm_getInt|]. intros i. by apply calm_bind; [apply calm_getInt|].
Qed.

Lemma updateRegisterValues_calm net m (o : MqttObject D) :
  allCalm o ->
  match updateRegisterValues net m o with
  | Ret o' => allCalm o'
  | Fault f => calm (Fault (A := unit) f)
  end.
Proof.
  intros [Cs Ca]. unfold updateRegisterValues, updateObject.
  assert (forall s : ObjectState D, calm (updateState (valueLeaf net m) s)) as Cu.
  { intros s. apply calm_bind; [|by intros []]. apply calm_updateList, Forall_forall. intros n _. apply calm_updateNode. }
  assert (forall A (x : outcome A) f, calm x -> x = Fault f -> calm (Fault (A := unit) f)) as Cf.
  { intros A x f Cx ->. intros w [= ->]. by apply (Cx w). }
  destruct (updateState _ (mState o)) as [[r1 s]|f] eqn:E1; cbn [obind]; [|by eapply Cf].
  destruct (updateState _ (mAvailability o)) as [[r2 a]|f] eqn:E2; cbn [obind]; [|by eapply Cf].
  apply updateState_converters in E1, E2.
  assert (allCalm (withStates s a o)) as Ao by (unfold allCalm, calmObject; cbn; by rewrite E1, E2).
  destruct (_ || bool_decide _); cbn [obind]; [|exact Ao]. unfold updateAvailablityFlag.
  destruct (currentFlag (withStates s a o)) as [fl|f] eqn:E3; cbn [obind]; [exact Ao|].
  eapply Cf; [|exact E3]. apply calm_currentFlag, Ao.
Qed.

End objects.

(** * The client *)

Section client.
Context {D : Type} `{CDouble D} `{Rapidjson D}.
Variable env : ClientEnv.
Hypothesis noFail : forall n, envFails env n = false.
Implicit Types c : Client D.

Definition calmClient c : Prop := forall q, allCalm (cStore c q).

(** A computation throws no exception of the library. *)
Definition calmly {A} (m : comp (D := D) A) : Prop := forall c, calmClient c -> establishes calmClient (m c).

Lemma calmly_bind {A B} (m : comp A) (k : A -> comp B) : calmly m -> (forall a, calmly (k a)) -> calmly (bind m k).
Proof.
  intros Hm Hk c Cc. specialize (Hm c Cc). unfold bind, establishes in *. destruct (m c) as [c' [a|f]]; cbn in *; [by apply Hk|done].
Qed.
Lemma calmly_ret {A} (a : A) : calmly (ret a).
Proof. by intros c Cc. Qed.
Lemma calmly_when b m : calmly m -> calmly (when b m).
Proof. destruct b; [done|]. intros _. apply calmly_ret. Qed.
Lemma calmly_forEach {A} (l : list A) f : (forall x, calmly (f x)) -> calmly (forEach l f).
Proof. intros Hf. induction l as [|x l IH]; cbn [forEach]; [apply calmly_ret|]. by apply calmly_bind. Qed.
Lemma calmly_implCall e : calmly (implCall env e).
Proof. intros c Cc. unfold implCall, establishes. by rewrite noFail. Qed.
Lemma calmly_readClock : calmly (readClock env).
Proof. by intros c Cc. Qed.
Lemma calmly_setObject q f : (forall o : MqttObject D, allCalm o -> allCalm (f o)) -> calmly (setObject q f).
Proof.
  intros Hf c Cc r. unfold setObject, modify. cbn. destruct (decide (r = q)) as [->|]; [apply Hf|]; apply Cc.
Qed.
Lemma calmly_getObject {A} q (k : MqttObject D -> comp A) :
  (forall o, allCalm o -> calmly (k o)) -> calmly (bind (getObject q) k).
Proof. intros K c Cc. exact (K _ (Cc q) c Cc). Qed.
Lemma calmly_generate {A} (o : MqttObject D) (k : string -> comp A) :
  allCalm o -> (forall s, calmly (k s)) -> calmly (bind (lift (generate o)) k).
Proof.
  intros [Co _] K. apply calmly_bind; [|done]. intros c Cc. unfold lift, establishes. cbn. pose proof (calm_generate o Co) as G.
  destruct (generate o) as [s|f]; [done|]. destruct f; try done. by destruct (G what).
Qed.

Lemma calmly_publishState q force : calmly (publishState env q force).
Proof.
  unfold publishState. apply calmly_getObject. intros o Co. destruct (negb _); [apply calmly_ret|].
  destruct (_ && _); [apply calmly_ret|]. apply calmly_generate; [done|]. intros s. apply calmly_when.
  apply calmly_bind; [apply calmly_implCall|intros _]. apply calmly_bind; [by apply calmly_setObject|intros _].
  apply calmly_bind; [apply calmly_readClock|intros now]. by apply calmly_setObject.
Qed.

Lemma calmly_availability q : calmly (publishAvailabilityChange env q).
Proof.
  unfold publishAvailabilityChange. apply calmly_getObject. intros o Co. destruct (bool_decide _); [apply calmly_ret|].
  intros c Cc. unfold tryCatch, implCall. rewrite noFail. exact Cc.
Qed.

Lemma calmly_updateOne net m q : calmly (updateOne env net m q).
Proof.
  intros c Cc. unfold updateOne, bind at 1, updateAt. pose proof (updateRegisterValues_calm net m _ (Cc q)) as U.
  destruct (updateRegisterValues net m (cStore c q)) as [o'|f]; [|destruct f; try done; by destruct (U what)].
  assert (calmClient (withObject q o' c)) as C1 by (intros r; cbn; destruct (decide (r = q)); [exact U|apply Cc]).
  revert C1. generalize (withObject q o' c). intros c1. apply (fun K : calmly _ => K c1).
  destruct (negb _).
  - apply calmly_bind; [|intros _; apply calmly_availability]. apply calmly_when. destruct (mRetain o'); [apply calmly_publishState|].
    apply calmly_bind; [|intros _; apply calmly_when, calmly_publishState]. apply calmly_when.
    apply calmly_bind; [apply calmly_implCall|intros _]. apply calmly_generate; [done|]. intros s. by apply calmly_setObject.
  - destruct (mPublishMode o'), (mLastPublishTime o'); try apply calmly_publishState.
    apply calmly_bind; [apply calmly_readClock|intros now]. apply calmly_publishState.
Qed.

(** ** The registers of the object [p] *)

Variable p : ptr.
Variable topicOf : ptr -> string.
Hypothesis own : forall q, q <> p -> topicOf q <> topicOf p.

Definition registers c : list (RegisterIdent * RegisterValue) := objectLeaves (cStore c p).
Definition sameRegisters c c' : Prop := registers c' = registers c.

#[local] Instance sameRegisters_preorder : PreOrder sameRegisters.
Proof. split; [by intros c|]. unfold sameRegisters. intros c1 c2 c3 -> <-. by symmetry. Qed.

Lemma same_implCall e : preserves sameRegisters (implCall env e).
Proof. intros c _. unfold implCall. by destruct (envFails env (cTick c)). Qed.
Lemma same_readClock : preserves sameRegisters (readClock env).
Proof. by intros c _. Qed.
Lemma same_setObject q f : (forall o : MqttObject D, objectLeaves (f o) = objectLeaves o) -> preserves sameRegisters (setObject q f).
Proof.
  intros F. apply preserves_modify. intros c. unfold sameRegisters, registers. cbn. destruct (decide (p = q)) as [->|]; [apply F|done].
Qed.
#[local] Hint Resolve same_implCall same_readClock : client.
#[local] Hint Extern 2 (preserves sameRegisters (setObject _ _)) => (apply same_setObject; intros; reflexivity) : client.

Lemma same_publishState q force : preserves sameRegisters (publishState env q force).
Proof. unfold publishState, getObject. handler. Qed.
Lemma same_availability q : preserves sameRegisters (publishAvailabilityChange env q).
Proof. unfold publishAvailabilityChange, getObject. handler. Qed.
#[local] Hint Resolve same_publishState same_availability : client.

(** The object gets the values of the message. *)
Lemma updateOne_registers net m c c' :
  valuesOk m -> updateOne env net m p c = (c', Ret tt) -> registers c' = received net m <$> registers c.
Proof.
  intros V. unfold updateOne, bind at 1, updateAt.
  destruct (updateRegisterValues net m (cStore c p)) as [o'|f] eqn:U; [|done]. apply updateRegisterValues_leaves in U; [|done].
  fold (registers c) in U. rewrite <- U. intros E.
  assert (registers (withObject p o' c) = objectLeaves o') as <- by (unfold registers; cbn; by rewrite decide_True).
  match type of E with ?k _ = _ => assert (preserves sameRegisters k) as Pk end; [handler|].
  specialize (Pk (withObject p o' c)). rewrite E in Pk. by apply Pk.
Qed.

(** Another object leaves [p] alone. *)
Lemma updateOne_other net m q c c' :
  q <> p -> topicsOk topicOf c -> updateOne env net m q c = (c', Ret tt) -> topicsOk topicOf c' /\ registers c' = registers c.
Proof.
  intros N T E. pose proof (framed_updateOne env p topicOf own net m q N c) as F. rewrite E in F.
  destruct (F Logic.I T) as (T' & Es & _). split; [done|]. unfold registers. cbn in Es. by rewrite Es.
Qed.

(** All objects of a list get the message, [p] among them. *)
Lemma forEach_registers net m l c c' :
  valuesOk m -> shown p topicOf c -> forEach l (updateOne env net m) c = (c', Ret tt) ->
  (registers c' = registers c \/ registers c' = received net m <$> registers c)
  /\ (p ∈ l -> registers c' = received net m <$> registers c).
Proof.
  intros V. assert (forall x : list (RegisterIdent * RegisterValue), received net m <$> (received net m <$> x) = received net m <$> x) as Tw.
  { intros x. rewrite <- list_fmap_compose. apply list_fmap_ext. intros _ iv _. apply received_twice. }
  revert c. induction l as [|q l IH]; intros c Sh E; cbn [forEach] in E.
  { injection E as <-. split; [by left|]. by intros ?%elem_of_nil. }
  unfold bind in E. pose proof (safe_any_updateOne env noFail p topicOf own net m q c Sh) as Sf.
  destruct (updateOne env net m q c) as [c1 [[]|f]] eqn:E1; [|done]. cbn in Sf.
  destruct (IH c1 Sf E) as [Or In]. destruct (decide (q = p)) as [->|N].
  - pose proof (updateOne_registers net m c c1 V E1) as R1. rewrite R1, Tw in Or. split; [right|intros _]; by destruct Or.
  - destruct (updateOne_other net m q c c1 N (proj1 (proj1 Sh)) E1) as [_ R1]. rewrite R1 in Or, In.
    split; [done|]. intros [->|Hp]%elem_of_cons; [done|auto].
Qed.

(** processRegisterValues, for a message of a poll. *)
Lemma processRegisterValues_calm net m l c :
  calmClient c -> cConnection c = CONNECTED -> hasCommandId (msgBase m) = false ->
  findObjects (identOf net (msgBase m)) c = Some l ->
  processRegisterValues env net m c = forEach l (updateOne env net m) c
  /\ establishes calmClient (processRegisterValues env net m c).
Proof.
  intros Cc Co Id Fo. unfold processRegisterValues, affectedObjects, bind, gets.
  rewrite Co, Id, bool_decide_true by done. cbn. rewrite Fo. cbn.
  unfold tryCatch. pose proof (calmly_forEach l _ (calmly_updateOne net m) c Cc) as Ca.
  destruct (forEach l (updateOne env net m) c) as [c1 [[]|f]] eqn:E; cbn in Ca; [done|by destruct f].
Qed.

Lemma processRegisterValues_registers net m l c c' :
  valuesOk m -> shown p topicOf c -> calmClient c -> cConnection c = CONNECTED -> hasCommandId (msgBase m) = false ->
  findObjects (identOf net (msgBase m)) c = Some l -> p ∈ l ->
  processRegisterValues env net m c = (c', Ret tt) -> registers c' = received net m <$> registers c.
Proof.
  intros V Sh Cc Co Id Fo Hp. destruct (processRegisterValues_calm net m l c Cc Co Id Fo) as [-> _].
  intros E. by apply (forEach_registers net m l c c').
Qed.

End client.

(** * The whole way *)

(** What the broker shows of an object. *)
Definition brokerShows {D} `{CDouble D} `{Rapidjson D} (c : Client D) (p : ptr) : Prop :=
  mIsAvailable (cStore c p) = ATrue ->
  exists payload, generate (cStore c p) = Ret payload /\ lastOn (getStateTopic (cStore c p)) (cOut c) = Some payload.

(** The registers of an object that a poll of [values] from [b] on covers hold these
    values. *)
Definition holdsValues {D} `{CDouble D} (net : string) (b : ModbusMessageBase) (values : list Z) (o : MqttObject D) : Prop :=
  Forall (fun iv =>
    idNetwork iv.1 = net -> idSlave iv.1 = mSlaveId b -> idType iv.1 = mRegisterType (mRange b) ->
    0 <= idRegister iv.1 - mRegister (mRange b) < ModbusRegisters.getCount values ->
    rvReadOk iv.2 = true /\ rvHasValue iv.2 = true
    /\ values !! Z.to_nat (idRegister iv.1 - mRegister (mRange b)) = Some (rvValue iv.2)) (objectLeaves o).

Lemma received_holds {D} `{CDouble D} net m (o o' : MqttObject D) b :
  valuesOk m -> identOf net (msgBase m) = identOf net b -> objectLeaves o' = received net m <$> objectLeaves o ->
  holdsValues net b (msgRegisters m) o'.
Proof.
  intros [Vc _] E L. unfold holdsValues. rewrite L. apply Forall_fmap, Forall_forall. intros [i v] _. cbn.
  unfold identOf in E. injection E as Es Er Et. unfold received, covered, sameSlave. cbn [fst].
  rewrite Es, Er, Et. destruct ((mSlaveId b =? idSlave i) && _ && _ && _ && _) eqn:Cv; cbn [fst snd rvReadOk rvHasValue rvValue].
  - intros _ _ _ R. split; [done|]. split; [done|]. unfold registerAt. rewrite Er.
    destruct (lookup_lt_is_Some_2 (msgRegisters m) (Z.to_nat (idRegister i - mRegister (mRange b)))) as [x ->]; [unfold ModbusRegisters.getCount in R; lia|done].
  - intros En Esl Ety R. exfalso. apply not_true_iff_false in Cv. apply Cv. unfold ModbusRange.lastRegister.
    rewrite Vc, Er. rewrite !andb_true_iff, Z.eqb_eq, !bool_decide_eq_true, !Z.leb_le. repeat split; (done || lia).
Qed.

(** What a successful read makes the executor send. *)
Definition pollMessage (eenv : ExecEnv) (b : ModbusMessageBase) (values : list Z) : MsgRegisterValues :=
  newMsgRegisterValues (mSlaveId b) (mRegisterType (mRange b)) (mRegister (mRange b)) values (mCommandId b) AUTO (clkSend eenv).

Lemma pollRegisters_sends {C} `{IModbusContext C} eenv pp force e (w : World C) e' w' values :
  Executor.pollRegisters eenv pp force e w = Ret (e', w') -> readResult eenv pp w = ReadOk values ->
  (wOut w' = wOut w /\ values = mLastValues (polls (wStore w) pp))
  \/ wOut w' = (wOut w ++ [RegisterValues (pollMessage eenv (cmdBase (pollCmd (polls (wStore w) pp))) values)])%list.
Proof.
  unfold Executor.pollRegisters, readResult. set (r := setReadTimes _ _ (polls (wStore w) pp)).
  change (cmdBase (pollCmd r)) with (cmdBase (pollCmd (polls (wStore w) pp))). cbn [Executor.putPoll wCtx].
  destruct (readModbusRegisters _ _ _) as [ctx [vs| |]]; cbn [obind snd]; try done. intros [= <- <-] [= <-].
  unfold Executor.pollSucceeded. cbn [Executor.putCtx Executor.putPoll wStore]. rewrite polls_setPoll_eq.
  destruct (negb _ || _ || _) eqn:B; [by right|]. left. split; [done|].
  apply orb_false_iff in B as [B _]. apply orb_false_iff in B as [B _]. by apply negb_false_iff, bool_decide_eq_true in B.
Qed.

(** C36: a value arrives: when a device answers a poll (not one of an RPC request or
    a command, and of at most 65536 registers), either the values are the ones it
    gave the last time and nothing is sent, or the executor sends exactly one message.
    When the client handles that message while it is connected, after any history
    from the start, with a MQTT library that accepts every call and converters that
    do not throw the exception of that library, then for every object in the list of
    the poll that is retained, not in publish mode once, and has a topic of its own:
    every register of it that lies in the polled range holds the value the device gave
    for it, and if the object is available, the last message on its state topic is the
    payload of these values, and the last one on its availability topic says that it is
    available. *)
Theorem poll_reaches_broker {D C} `{CDouble D} `{Rapidjson D} `{IModbusContext C}
    eenv pp force e (w : World C) e' w' values net env plugins musl (p : ptr) (c0 c : Client D) reqs dropped n l :
  let b := cmdBase (pollCmd (polls (wStore w) pp)) in
  Executor.pollRegisters eenv pp force e w = Ret (e', w') -> readResult eenv pp w = ReadOk values ->
  mCommandId b = 0 -> ModbusRegisters.getCount values <= 65536 ->
  (forall k, envFails env k = false) -> history env plugins musl c0 reqs dropped n c -> ownTopic p c0 ->
  mRetain (cStore c0 p) = true -> mPublishMode (cStore c0 p) <> ONCE -> calmObject (cStore c0 p) ->
  mIsAvailable (cStore c0 p) = NotSet -> mLastPublishTime (cStore c0 p) = None ->
  calmClient c -> cConnection c = CONNECTED -> findObjects (identOf net b) c = Some l -> p ∈ l ->
  (wOut w' = wOut w /\ values = mLastValues (polls (wStore w) pp))
  \/ exists msg, wOut w' = (wOut w ++ [RegisterValues msg])%list
     /\ forall c', handle env plugins musl (ModbusMessage net (RegisterValues msg)) c = (c', Ret tt) ->
          holdsValues net b values (cStore c' p) /\ brokerShows c' p
          /\ (mIsAvailable (cStore c' p) = ATrue -> lastOn (getAvailabilityTopic (cStore c' p)) (cOut c') = Some "1").
Proof.
  intros b Ex Rd Id Cn F Hs O R M Cm Av Ti Cc Co Fo Hp.
  destruct (pollRegisters_sends _ _ _ _ _ _ _ _ Ex Rd) as [|Out]; [by left|right]. eexists. split; [exact Out|]. fold b.
  set (msg := pollMessage eenv b values). intros c' Hd. set (topicOf := fun q => mTopic (cStore c0 q)).
  assert (shown p topicOf c) as Sh.
  { apply (history_shown env plugins F p topicOf O musl c0 reqs dropped n c Hs). split; [by split|].
    unfold stateShown, logged, availabilityShown. rewrite Av, Ti. split; [done|]. split; [by intros []|done]. }
  pose proof (safe_modbusMessage env F p topicOf O net (RegisterValues msg) c Sh) as Sf. cbn [handle] in Hd.
  rewrite Hd in Sf. unfold keeps in Sf. cbn [fst snd] in Sf.
  destruct Sf as ((T & _) & S' & L & A). split; [|split].
  - refine (received_holds net msg (cStore c p) (cStore c' p) b _ _ _); [by split|done|].
    apply (processRegisterValues_registers env F p topicOf O net msg l c c'); try done.
    unfold hasCommandId. by rewrite (Id : mCommandId (msgBase msg) = 0).
  - intros E. destruct (S' E) as [St G]. eexists. split; [exact G|]. unfold getStateTopic. rewrite (T p). exact (L St).
  - intros E. unfold getAvailabilityTopic. rewrite (T p). apply A. by rewrite E.
Qed.

(** * A poll of the object of [ShownScenario]: register 2 has become 21 *)

Module PollScenario.

Definition device : Device.state := fun a => if a =? 2 then 21 else if a =? 3 then 30 else 1.
Definition pollOf (q : ptr) : RegisterPoll := newRegisterPoll 1 2 HOLDING 3 1000 ON_CHANGE 0 0 0.
Definition store : Store := mkStore pollOf Scenario.writeOf 100.
Definition world : World (ModbusContext Device.state) := mkWorld store (mkContext true device) [].

(** The executor after the poll, and what it has sent. *)
Definition polled : outcome (Executor * World (ModbusContext Device.state)) :=
  Executor.pollRegisters (Scenario.env 2) 1 false Scenario.busy world.
Definition sent : list FromModbus := match polled with Ret (_, w) => wOut w | Fault _ => [] end.

(** The client before and after the message. *)
Definition before : Client Z := ClientScenario.run [ClientScenario.values [20; 30; 1] 0] ShownScenario.client.
Definition after : Client Z :=
  match sent with
  | [m] => (handle ClientScenario.env ClientScenario.plugins false (ModbusMessage "net" m) before).1
  | _ => before
  end.

End PollScenario.

Lemma scenario_calm : calmClient PollScenario.before.
Proof.
  assert (calmClient ShownScenario.client) as C0.
  { intros q. cbn. unfold ShownScenario.object. destruct (decide (q = 1)); split; constructor. }
  destruct (processRegisterValues_calm ClientScenario.env (fun _ => eq_refl) "net"
    (newMsgRegisterValues 1 HOLDING 2 [20; 30; 1] 0 AUTO 0) [1] ShownScenario.client C0) as [_ E]; try reflexivity.
  unfold PollScenario.before. cbn [ClientScenario.run ClientScenario.values handle processModbusMessage].
  assert (is_ret (processRegisterValues ClientScenario.env "net"
    (newMsgRegisterValues 1 HOLDING 2 [20; 30; 1] 0 AUTO 0) ShownScenario.client).2 = true) as R by (vm_compute; reflexivity).
  by destruct (processRegisterValues ClientScenario.env _ _ _) as [c' [[]|f]].
Qed.

Lemma returned {A} (r : A * outcome unit) : is_ret r.2 = true -> r = (r.1, Ret tt).
Proof. by destruct r as [a [[]|f]]. Qed.

Lemma poll_reaches_broker_witness :
  lastOn "dev/state" (cOut PollScenario.after) = Some "21"
  /\ holdsValues "net" (cmdBase (pollCmd (PollScenario.pollOf 1))) [21; 30; 1] (cStore PollScenario.after 1)
  /\ brokerShows PollScenario.after 1.
Proof.
  split; [vm_compute; reflexivity|].
  assert (is_ret PollScenario.polled = true) as Rp by (vm_compute; reflexivity).
  assert (PollScenario.sent = [RegisterValues (newMsgRegisterValues 1 HOLDING 2 [21; 30; 1] 0 AUTO 2)]) as Es
    by (vm_compute; reflexivity).
  assert (handle ClientScenario.env ClientScenario.plugins false (ModbusMessage "net" (RegisterValues
    (newMsgRegisterValues 1 HOLDING 2 [21; 30; 1] 0 AUTO 2))) PollScenario.before = (PollScenario.after, Ret tt)) as Eh.
  { unfold PollScenario.after. rewrite Es. apply returned. vm_compute. reflexivity. }
  unfold PollScenario.sent in Es. destruct PollScenario.polled as [[e' w']|] eqn:Ep; [|done].
  destruct (poll_reaches_broker (Scenario.env 2) 1 false Scenario.busy PollScenario.world e' w' [21; 30; 1] "net"
              ClientScenario.env ClientScenario.plugins false 1 ShownScenario.client PollScenario.before [] [] 1 [1])
    as [[E _]|(msg & E & P)]; [exact Ep|vm_compute; reflexivity|vm_compute; reflexivity|vm_compute; discriminate|reflexivity|..].
  - unfold PollScenario.before; cbn [ClientScenario.run].
    refine (ClientScenario.step (ClientScenario.values [20; 30; 1] 0) _ [] [] 0 _ _ _); [vm_compute; reflexivity|apply history_nil].
  - intros q Hq. cbn. unfold ShownScenario.object. rewrite decide_False by done. vm_compute. discriminate.
  - reflexivity.
  - vm_compute. discriminate.
  - constructor.
  - reflexivity.
  - reflexivity.
  - exact scenario_calm.
  - vm_compute. reflexivity.
  - vm_compute. reflexivity.
  - by apply list_elem_of_here.
  - rewrite Es in E. discriminate E.
  - rewrite Es in E. injection E as <-. destruct (P PollScenario.after Eh) as (Hv & Sh & _). split; [exact Hv|exact Sh].
Defined.
