(* ===== verification/Logging.v ===== *)
(** Log levels: libmodmqttsrv/logging.hpp and logging.cpp.

    How a level is read from the configuration, printed and translated, what spdlog is
    set up with, and the names of threads (threadutils.hpp).  spdlog itself is the
    sequence of calls made to it, each of which may throw. *)

From stdpp Require Import base list strings.
From Stdlib Require Import ZArith Lia Ascii String.
From S2P Require Import Prelude ConvTools.

#[local] Open Scope string_scope.
#[local] Open Scope Z_scope.

Module Log.

(** enum Log::severity *)
Inductive severity : Type := none | critical | error | warn | info | debug | trace.

#[export] Instance severity_eq_dec : EqDecision severity.
Proof. solve_decision. Defined.

Definition severity_int (s : severity) : Z :=
  match s with
  | none => 0 | critical => 1 | error => 2 | warn => 3 | info => 4 | debug => 5 | trace => 6
  end.

(** (severity)lvlnum, for a number of the enumeration. *)
Definition severity_of (n : Z) : option severity :=
  find (fun s => severity_int s =? n) [none; critical; error; warn; info; debug; trace].

(** operator<< *)
Definition severity_text (s : severity) : string :=
  match s with
  | none => "NONE" | critical => "CRITICAL" | error => "ERROR" | warn => "WARN "
  | info => "INFO " | debug => "DEBUG" | trace => "TRACE"
  end.

(** spdlog::level::level_enum *)
Inductive level_enum : Type := LTrace | LDebug | LInfo | LWarn | LErr | LCritical | LOff.

(** to_spdlog_level *)
Definition to_spdlog_level (s : severity) : level_enum :=
  match s with
  | none => LOff
  | critical => LCritical
  | error => LErr
  | warn => LWarn
  | info => LInfo
  | debug => LDebug
  | trace => LTrace
  end.

(** uppercase_level_flag::format *)
Definition level_text (l : level_enum) : string :=
  match l with
  | LTrace => "TRACE" | LDebug => "DEBUG" | LInfo => "INFO " | LWarn => "WARN "
  | LErr => "ERROR" | LCritical => "CRIT " | LOff => "OFF  "
  end.

(** The names parse_severity knows. *)
Definition severity_named (val : string) : option severity :=
  if bool_decide (val = "off") then Some none
  else if bool_decide (val = "critical") then Some critical
  else if bool_decide (val = "error") then Some error
  else if bool_decide (val = "warning") then Some warn
  else if bool_decide (val = "info") then Some info
  else if bool_decide (val = "debug") then Some debug
  else if bool_decide (val = "trace") then Some trace
  else None.

Definition unknownLevel (val : string) : outcome severity :=
  Fault (StdException ("unknown log level '" +:+ val
           +:+ "', valid values: none,critical,error,warning,info,debug,trace")).

(** The handler of std::invalid_argument in parse_severity. *)
Definition parseSeverityName (val : string) : outcome severity :=
  match severity_named val with Some s => Ret s | None => unknownLevel val end.

(** Log::parse_severity: a number out of the range of int escapes as
    std::out_of_range, one that is no level is thrown as the std::invalid_argument
    the handler catches. *)
Definition parse_severity (val : string) : outcome severity :=
  match Numbers.parseInt 10 val with
  | None => parseSeverityName val
  | Some (lvlnum, rest) =>
      if (lvlnum <? INT_MIN) || (INT_MAX <? lvlnum) then Fault (StdException "stoi")
      else if bool_decide (rest = "") then
        if (lvlnum <? 0) || (6 <? lvlnum) then parseSeverityName val
        else match severity_of lvlnum with Some s => Ret s | None => Fault UndefinedBehaviour end
      else unknownLevel val
  end.

(** log_timestamp: [js] is the variable JOURNAL_STREAM, [inode] the inode of the
    error stream when fstat succeeds; it is kept in an int. *)
Definition log_timestamp (js : option string) (inode : option Z) : bool :=
  match js with
  | None => true
  | Some jstr =>
      match String.index 0 ":" jstr with
      | Some O => true
      | t =>
          if Nat.leb (String.length jstr) 2 then true
          else
            let from := match t with Some i => S i | None => O end in
            let env_inode := String.substring from (String.length jstr) jstr in
            if bool_decide (env_inode = "") then true
            else match inode with
                 | None => true
                 | Some i => negb (bool_decide (Numbers.to_string (to_i32 i) = env_inode))
                 end
      end
  end.

(** A level survives printing its number and parsing it again, and a level has a
    name that is parsed to it. *)
Lemma parse_severity_number s : parse_severity (Numbers.to_string (severity_int s)) = Ret s.
Proof. by destruct s. Qed.

Lemma parse_severity_named val s : severity_named val = Some s -> parse_severity val = Ret s.
Proof.
  unfold severity_named.
  repeat (case_bool_decide as E; [intros [= <-]; subst val; vm_compute; reflexivity | clear E]). done.
Qed.

(** What parse_severity accepts is a name or the number of a level. *)
Lemma parse_severity_sound val s :
  parse_severity val = Ret s ->
  severity_named val = Some s \/ Numbers.parseInt 10 val = Some (severity_int s, "").
Proof.
  unfold parse_severity. destruct (Numbers.parseInt 10 val) as [[v rest]|] eqn:P.
  - destruct (_ || _); [done|]. case_bool_decide as R; [subst rest|done].
    destruct ((v <? 0) || (6 <? v)) eqn:B.
    + unfold parseSeverityName. destruct (severity_named val); [intros [= ->]; by left|done].
    + destruct (severity_of v) as [s'|] eqn:S; [|done]. intros [= ->]. right.
      unfold severity_of in S. apply find_some in S as [_ S]. apply Z.eqb_eq in S. by rewrite S.
  - unfold parseSeverityName. destruct (severity_named val); [intros [= ->]; by left|done].
Qed.

(** * Setting up spdlog *)

(** The flags a pattern is given: thread_name_flag and uppercase_level_flag. *)
Inductive CustomFlag : Type := thread_name_flag | uppercase_level_flag.

(** The calls of spdlog. *)
Inductive SpdCall : Type :=
| MakeSink
| MakeLogger (name : string)
| SetDefaultLogger (name : string)
| MakeFormatter
| AddFlag (flag : ascii) (f : CustomFlag)
| SetPattern (pattern : string)
| SetFormatter
| SetLevel (l : level_enum).

Definition loggerName : string := "modmqttd".

(** std::string::find and replace of what was found. *)
Definition replaceFirst (what by_ s : string) : string :=
  match String.index 0 what s with
  | Some pos => String.substring 0 pos s +:+ by_
      +:+ String.substring (pos + String.length what) (String.length s) s
  | None => s
  end.

(** The pattern of a line; [hasSetName] is HAVE_PTHREAD_SETNAME_NP. *)
Definition linePattern (hasSetName : bool) : string :=
  let pattern := "[%l] %t: %v" in
  if hasSetName then replaceFirst "%t" "%T" pattern else pattern.

Definition timestampPattern (timestamp : bool) (pattern : string) : string :=
  if timestamp then "%Y-%m-%d %H:%M:%S.%f " +:+ pattern else pattern.

(** The body of the try block. *)
Definition setupCalls (hasSetName timestamp : bool) : list SpdCall :=
  [MakeSink; MakeLogger loggerName; SetDefaultLogger loggerName; MakeFormatter;
   AddFlag "T" thread_name_flag; AddFlag "l" uppercase_level_flag;
   SetPattern (timestampPattern timestamp (linePattern hasSetName)); SetFormatter].

(** Calls up to the first one that throws, and what it throws. *)
Fixpoint tryCalls (throws : SpdCall -> option string) (calls : list SpdCall) : list SpdCall * option string :=
  match calls with
  | [] => ([], None)
  | c :: rest =>
      match throws c with
      | Some what => ([c], Some what)
      | None => let '(made, e) := tryCalls throws rest in (c :: made, e)
      end
  end.

(** Log::init_spdlog_logging and Log::init_logging: the calls, and what is written to the
    error stream. *)
Definition init_spdlog_logging (throws : SpdCall -> option string) (hasSetName timestamp : bool)
    (level : severity) : list SpdCall * list string :=
  if bool_decide (level = none) then ([SetLevel LOff], [])
  else
    let '(made, e) := tryCalls throws (setupCalls hasSetName timestamp) in
    ((made ++ [SetLevel (to_spdlog_level level)])%list,
     match e with Some what => ["Cannot configure spdlog:" +:+ what] | None => [] end).

(** Log::set_level *)
Definition set_level (level : severity) : list SpdCall := [SetLevel (to_spdlog_level level)].

(** The level spdlog logs with after some calls. *)
Definition levelAfter (calls : list SpdCall) (l0 : level_enum) : level_enum :=
  fold_left (fun l c => match c with SetLevel l' => l' | _ => l end) calls l0.

(** Whatever goes wrong, the level asked for is set, and spdlog writes no message of a
    level above it. *)
Lemma init_logging_level throws hasSetName timestamp level l0 :
  levelAfter (init_spdlog_logging throws hasSetName timestamp level).1 l0 = to_spdlog_level level.
Proof.
  unfold init_spdlog_logging. case_bool_decide as E; [by rewrite E|].
  destruct (tryCalls _ _) as [made e]. unfold levelAfter. cbn [fst]. by rewrite fold_left_app.
Qed.

(** When nothing throws, the lines have a time exactly when journald does not add one,
    and the name of the thread where there are names. *)
Lemma init_logging_pattern throws (hasSetName timestamp : bool) level :
  (forall c, throws c = None) -> level <> none ->
  In (SetPattern ((if timestamp then "%Y-%m-%d %H:%M:%S.%f " else "")
                  +:+ (if hasSetName then "[%l] %T: %v" else "[%l] %t: %v")))
     (init_spdlog_logging throws hasSetName timestamp level).1
  /\ (init_spdlog_logging throws hasSetName timestamp level).2 = [].
Proof.
  intros Th N. unfold init_spdlog_logging. rewrite bool_decide_eq_false_2 by done.
  cbn [setupCalls tryCalls]. rewrite !Th. split; [|done]. destruct timestamp, hasSetName; cbn; tauto.
Qed.

(** * Names of threads *)

Section names.
Context {Thread : Type} {threadEq : EqDecision Thread}.
(** std::hash of a thread's id. *)
Variable hash : Thread -> Z.

(** g_thread_name, which every thread has its own of. *)
Definition Names : Type := Thread -> string.

(** ThreadUtils::set_thread_name: without pthread_setname_np the name is only logged. *)
Definition set_thread_name (hasSetName : bool) (t : Thread) (threadName : string) (names : Names) : Names :=
  if hasSetName then fun t' => if bool_decide (t' = t) then threadName else names t' else names.

(** thread_name_flag::format *)
Definition threadText (names : Names) (t : Thread) : string :=
  if bool_decide (names t = "") then "tid:" +:+ Numbers.to_string (hash t) else names t.

(** A thread that has named itself is logged with its name, and the others as before. *)
Lemma set_thread_name_text t t' n names :
  n <> "" ->
  threadText (set_thread_name true t n names) t' = if bool_decide (t' = t) then n else threadText names t'.
Proof.
  intros N. unfold threadText, set_thread_name. destruct (bool_decide (t' = t)); [|done].
  by rewrite bool_decide_eq_false_2.
Qed.

End names.

End Log.
