(* ===== verification/YamlConfig.v ===== *)
(** Reading the configuration file: ConfigTools and ConfigurationException of
    config.hpp, yaml_converters.hpp, and the constructors of config.cpp and
    modbus_slave.cpp.

    yaml-cpp is an interface: a document is an abstract type of nodes with the
    operations the sources use.  Every operation may throw, as the library does for
    a node that was looked up in vain. *)

From stdpp Require Import base list strings.
From Stdlib Require Import ZArith Lia Ascii String.
From S2P Require Import Prelude ModbusTypes Commands Config ConvTools ConvArgs Converters.

#[local] Open Scope string_scope.
#[local] Open Scope Z_scope.

(** YAML::NodeType *)
Inductive NodeType : Type := NUndefined | NNull | NScalar | NSequence | NMap.

#[export] Instance NodeType_eq_dec : EqDecision NodeType.
Proof. solve_decision. Defined.

(** YAML::Node: IsDefined, Type, the two subscript operators, size, Mark (the line
    from 0, [None] for a null mark), and as<T> for the types yaml-cpp converts
    itself; [badConversion] is the text of a TypedBadConversion. *)
Class Yaml (N : Type) : Type := {
  isDefined : N -> bool;
  nodeType : N -> outcome NodeType;
  child : N -> string -> outcome N;
  nodeSize : N -> outcome nat;
  item : N -> nat -> outcome N;
  nodeMark : N -> outcome (option Z);
  as_string : N -> outcome string;
  as_int : N -> outcome Z;
  as_ushort : N -> outcome Z;
  as_bool : N -> outcome bool;
  as_char : N -> outcome Z;
  badConversion : N -> string
}.

(** A conversion yields a value of its type, and every operation returns or throws. *)
Class YamlLaws (N : Type) `{Yaml N} : Prop := {
  as_int_range : forall n v, as_int n = Ret v -> INT_MIN <= v <= INT_MAX;
  as_ushort_range : forall n v, as_ushort n = Ret v -> 0 <= v <= UINT16_MAX;
  nodeType_halts : forall n, halts (nodeType n);
  child_halts : forall n k, halts (child n k);
  nodeSize_halts : forall n, halts (nodeSize n);
  item_halts : forall n i, halts (item n i);
  nodeMark_halts : forall n, halts (nodeMark n);
  as_string_halts : forall n, halts (as_string n);
  as_int_halts : forall n, halts (as_int n);
  as_ushort_halts : forall n, halts (as_ushort n);
  as_bool_halts : forall n, halts (as_bool n);
  as_char_halts : forall n, halts (as_char n)
}.

(** * Documents

    What a configuration document may have to be: the operations of a node do not make it
    so, and the readers do not check it. *)

Section documents.
Context {N : Type} `{Yaml N}.

(** The nodes of a document: those the subscript operators reach. *)
Inductive within (root : N) : N -> Prop :=
| within_root : within root root
| within_child n k c : within root n -> child n k = Ret c -> within root c
| within_item n i c : within root n -> item n i = Ret c -> within root c.

(** Sequences are nested at most [d] deep: a finite document, in which no alias refers to
    a node it is inside of. *)
Inductive nested : nat -> N -> Prop :=
| nested_node d n :
    (forall k c, child n k = Ret c -> nested d c) ->
    (forall i x, item n i = Ret x -> exists d', (d' < d)%nat /\ nested d' x) ->
    nested d n.

(** Every count of a document is at least 1, and no list of registers is empty. *)
Record positiveCounts (root : N) : Prop := mkPositiveCounts {
  counts_positive : forall n c v, within root n -> child n "count" = Ret c -> as_int c = Ret v -> 1 <= v;
  lists_nonempty : forall n c k, within root n -> child n "registers" = Ret c -> nodeSize c = Ret k -> k <> 0%nat
}.

End documents.

#[export] Hint Constructors within : within.

#[export] Hint Resolve nodeType_halts child_halts nodeSize_halts item_halts nodeMark_halts : halts.
#[export] Hint Resolve as_string_halts as_int_halts as_ushort_halts as_bool_halts as_char_halts : halts.

Section reading.
Context {N : Type} `{Yaml N}.

Definition isType (t : NodeType) (n : N) : outcome bool :=
  let! t' := nodeType n in Ret (bool_decide (t' = t)).

(** * config.hpp *)

(** The text of a ConfigurationException. *)
Definition configText (mark : option Z) (what : string) : string :=
  "config error" +:+ match mark with
                     | None => ": "
                     | Some line => "(line " +:+ Numbers.to_string (line + 1) +:+ "): "
                     end +:+ what.

(** throw ConfigurationException(node.Mark(), what) *)
Definition configError {A} (n : N) (what : string) : outcome A :=
  let! mark := nodeMark n in Fault (StdException (configText mark what)).

(** readRequiredValue on a node *)
Definition readScalar {T} (as_ : N -> outcome T) (node : N) : outcome T :=
  let! scalar := isType NScalar node in
  if negb scalar then configError node "string expected, list/null found" else as_ node.

(** readRequiredValue *)
Definition readRequiredValue {T} (as_ : N -> outcome T) (parent : N) (name : string) : outcome T :=
  let! node := child parent name in
  if negb (isDefined node) then configError parent ("Missing reqired property '" +:+ name +:+ "'")
  else readScalar as_ node.

(** readRequiredString *)
Definition readRequiredString (parent : N) (name : string) : outcome string :=
  let! ret := readRequiredValue as_string parent name in
  if bool_decide (ret = "") then configError parent (name +:+ " is an empty string") else Ret ret.

(** setOptionalValueFromNode: the value, if there is one, and the node. *)
Definition setOptionalValueFromNode {T} (as_ : N -> outcome T) (parent : N) (name : string)
  : outcome (option T * N) :=
  let! node := child parent name in
  if isDefined node then
    let! scalar := isType NScalar node in
    if negb scalar then configError parent (name +:+ " must have a single value. List/null found")
    else let! v := as_ node in Ret (Some v, node)
  else Ret (None, node).

(** readOptionalValue *)
Definition readOptionalValue {T} (as_ : N -> outcome T) (parent : N) (name : string)
  : outcome (option T) :=
  let! (v, _) := setOptionalValueFromNode as_ parent name in Ret v.

(** * yaml_converters.hpp *)

(** A decode function that returned false. *)
Definition decodeFailed {A} (node : N) : outcome A := Fault (StdException (badConversion node)).

Definition as_serialMode (node : N) : outcome RtuSerialMode :=
  let! str := as_string node in
  if bool_decide (str = "rs232") then Ret RS232
  else if bool_decide (str = "rs485") then Ret RS485
  else decodeFailed node.

Definition as_rtsMode (node : N) : outcome RtuRtsMode :=
  let! str := as_string node in
  if bool_decide (str = "down") then Ret RtsDOWN
  else if bool_decide (str = "up") then Ret RtsUP
  else decodeFailed node.

Definition as_writeMode (node : N) : outcome ModbusWriteMode :=
  let! str := as_string node in
  if bool_decide (str = "auto") then Ret AUTO
  else if bool_decide (str = "force_multiple_registers") then Ret FORCE_MULTIPLE_REGISTERS
  else decodeFailed node.

(** [0-9] *)
Definition decimalChar (c : ascii) : bool := Numbers.isDigit 10 c.

(** regex_match with ([0-9]+)(ms|s|min): the number, and the milliseconds of the
    unit. *)
Definition timeUnit (unit : string) : option Z :=
  if bool_decide (unit = "ms") then Some 1
  else if bool_decide (unit = "s") then Some 1000
  else if bool_decide (unit = "min") then Some (1000 * 60)
  else None.
Definition matchTime (s : string) : option (string * Z) :=
  let '(num, unit) := spanChars decimalChar s in
  if bool_decide (num = "") then None else factor ← timeUnit unit; Some (num, factor).

(** A result of an int operation. *)
Definition checkedInt (v : Z) : outcome Z :=
  if (INT_MIN <=? v) && (v <=? INT_MAX) then Ret v else Fault UndefinedBehaviour.

(** decode of std::chrono::milliseconds *)
Definition as_millis (node : N) : outcome Z :=
  let! strval := as_string node in
  match matchTime (cstr strval) with
  | None => configError node "Invalid time specification"
  | Some (num, factor) => let! (mval, _) := Numbers.stoi 10 num in checkedInt (mval * factor)
  end.

(** std::getline with a comma as the delimiter, until the stream is used up. *)
Fixpoint splitComma (s : string) : list string :=
  match s with
  | EmptyString => []
  | String c s' =>
      if bool_decide (c = ","%char) then EmptyString :: splitComma s'
      else match splitComma s' with
           | [] => [String c EmptyString]
           | seg :: rest => String c seg :: rest
           end
  end.

(** toNumber *)
Definition toNumber (node : N) (val : string) : outcome Z :=
  match Numbers.parseInt 10 val with
  | None => configError node ("Conversion to number or number list failed for [" +:+ val +:+ "]")
  | Some (v, rest) =>
      if (v <? INT_MIN) || (INT_MAX <? v)
      then configError node "Conversion to number or number list contains number that is out of range"
      else if negb (bool_decide (rest = ""))
      then configError node ("Conversion to number failed, unknown char at "
             +:+ Numbers.to_string (Z.of_nat (String.length val) - Z.of_nat (String.length rest))
             +:+ " position in " +:+ val)
      else Ret v
  end.

(** regex_match with \s*([0-9]+)-([0-9]+)\s* *)
Definition matchRange (s : string) : option (string * string) :=
  let '(a, s) := spanChars decimalChar (Numbers.skipSpaces s) in
  s ← expectChar "-" s;
  let '(b, s) := spanChars decimalChar s in
  if bool_decide (a = "") || bool_decide (b = "") || negb (bool_decide (Numbers.skipSpaces s = "")) then None
  else Some (a, b).

(** decode of std::vector<std::pair<int,int>> *)
Definition decodeSegment (node : N) (segment : string) : outcome (Z * Z) :=
  match matchRange (cstr segment) with
  | Some (a, b) => let! x := toNumber node a in let! y := toNumber node b in Ret (x, y)
  | None => let! x := toNumber node segment in Ret (x, x)
  end.
Definition as_ranges (node : N) : outcome (list (Z * Z)) :=
  let! sval := as_string node in
  foldM (fun value segment => let! it := decodeSegment node segment in Ret (value ++ [it])%list)
    (splitComma sval) [].

(** decode of std::vector<std::string> *)
Definition as_strings (node : N) : outcome (list string) :=
  let! sval := as_string node in Ret (trim <$> splitComma sval).

(** * config.cpp *)

Definition MAX_RESPONSE_TIMEOUT : Z := 999.

(** An optional timeout, checked. *)
Definition readTimeout (source : N) (name : string) (dflt : Z) : outcome Z :=
  let! (v, node) := setOptionalValueFromNode as_millis source name in
  let value := default dflt v in
  if isDefined node && ((value <? 0) || (MAX_RESPONSE_TIMEOUT <? value))
  then configError node (name +:+ " value must be in range 0-999ms")
  else Ret value.

Definition readFlag (source : N) (name : string) : outcome bool :=
  let! node := child source name in Ret (isDefined node).

(** The last value read into a variable. *)
Definition overwrite {A} (new old : option A) : option A :=
  match new with Some v => Some v | None => old end.

(** The part of the constructor that determines the network type. *)
Definition readNetworkType (source : N) (c : ModbusNetworkConfig) : outcome ModbusNetworkConfig :=
  let! rtu := readFlag source "device" in
  if rtu then
    let! device := readRequiredString source "device" in
    let! baud := readRequiredValue as_int source "baud" in
    let! parity := readRequiredValue as_char source "parity" in
    let! dataBit := readRequiredValue as_int source "data_bit" in
    let! stopBit := readRequiredValue as_int source "stop_bit" in
    let! serialMode := readOptionalValue as_serialMode source "rtu_serial_mode" in
    let! rtsMode := readOptionalValue as_rtsMode source "rtu_rts_mode" in
    let! rtsDelay := readOptionalValue as_int source "rtu_rts_delay_us" in
    Ret (mkNetworkConfig RTU (netName c) (mResponseTimeout c) (mResponseDataTimeout c)
           (netDelayBeforeCommand c) (netDelayBeforeFirstCommand c) (netMaxWriteRetryCount c)
           (netMaxReadRetryCount c) device baud parity dataBit stopBit
           (default (mRtuSerialMode c) serialMode) (default (mRtsMode c) rtsMode)
           (default (mRtsDelayUs c) rtsDelay) (netAddress c) (netPort c)
           (mkWatchdogConfig (mAutoWatchPeriod (mWatchdogConfig c)) (mWatchPeriod (mWatchdogConfig c)) device))
  else
    let! tcp := readFlag source "address" in
    if tcp then
      let! address := readRequiredString source "address" in
      let! port := readRequiredValue as_int source "port" in
      Ret (mkNetworkConfig TCPIP (netName c) (mResponseTimeout c) (mResponseDataTimeout c)
             (netDelayBeforeCommand c) (netDelayBeforeFirstCommand c) (netMaxWriteRetryCount c)
             (netMaxReadRetryCount c) (mDevice c) (mBaud c) (mParity c) (mDataBit c) (mStopBit c)
             (mRtuSerialMode c) (mRtsMode c) (mRtsDelayUs c) address port (mWatchdogConfig c))
    else configError source "Cannot determine modbus network type: missing 'device' or 'address'".

(** The watchdog section; [tmpval] is the variable the delays were read into, which
    has no value before the first of them. *)
Definition readWatchdog (source : N) (tmpval : option Z) (c : ModbusNetworkConfig)
  : outcome ModbusNetworkConfig :=
  let! watchdog := child source "watchdog" in
  if isDefined watchdog then
    let! v := readOptionalValue as_millis watchdog "watch_period" in
    match overwrite v tmpval with
    | None => Fault UndefinedBehaviour
    | Some period =>
        Ret (mkNetworkConfig (netType c) (netName c) (mResponseTimeout c) (mResponseDataTimeout c)
               (netDelayBeforeCommand c) (netDelayBeforeFirstCommand c) (netMaxWriteRetryCount c)
               (netMaxReadRetryCount c) (mDevice c) (mBaud c) (mParity c) (mDataBit c) (mStopBit c)
               (mRtuSerialMode c) (mRtsMode c) (mRtsDelayUs c) (netAddress c) (netPort c)
               (mkWatchdogConfig false (period * MSEC) (mDevicePath (mWatchdogConfig c))))
    end
  else Ret c.

(** ModbusNetworkConfig(const YAML::Node&) *)
Definition parseNetworkConfig (source : N) : outcome ModbusNetworkConfig :=
  let! name := readRequiredString source "name" in
  let! responseTimeout := readTimeout source "response_timeout" 500 in
  let! responseDataTimeout := readTimeout source "response_data_timeout" 0 in
  let! old := readOptionalValue as_millis source "min_delay_before_poll" in
  let! delay := readOptionalValue as_millis source "delay_before_command" in
  let! first := readOptionalValue as_millis source "delay_before_first_command" in
  let! writes := readOptionalValue as_ushort source "write_retries" in
  let! reads := readOptionalValue as_ushort source "read_retries" in
  let c := mkNetworkConfig RTU name responseTimeout responseDataTimeout (overwrite delay old) first
             (default 2 writes) (default 1 reads) "" 0 0 0 0 UNSPECIFIED RtsNONE 0 "" 0
             defaultWatchdogConfig in
  let! c := readNetworkType source c in
  readWatchdog source (overwrite first (overwrite delay old)) c.

(** MqttBrokerConfig(const YAML::Node&); [readable] tells which paths exist and are
    not directories. *)
Definition parseBrokerConfig (readable : string -> bool) (source : N) : outcome MqttBrokerConfig :=
  let! host := readRequiredString source "host" in
  let! tls := child source "tls" in
  let! (useTls, cafile) :=
    (if isDefined tls then
       let! (v, node) := setOptionalValueFromNode as_string tls "cafile" in
       let path := default "" v in
       if isDefined node && negb (readable path)
       then configError node ("CA file '" +:+ path +:+ "' is not a readable file")
       else Ret (true, path)
     else Ret (false, "")) in
  let! port := readOptionalValue as_int source "port" in
  let! keepalive := readOptionalValue as_int source "keepalive" in
  let! username := readOptionalValue as_string source "username" in
  let! password := readOptionalValue as_string source "password" in
  Ret (mkBrokerConfig host (default (if useTls then 8883 else 1883) port) (default 60 keepalive)
         (default "" username) (default "" password) useTls cafile false).

(** * modbus_slave.cpp *)

(** ModbusSlaveConfig(int, const YAML::Node&) *)
Definition parseSlaveConfig (address : Z) (data : N) : outcome ModbusSlaveConfig :=
  let! name := readOptionalValue as_string data "name" in
  let! oldDelay := readOptionalValue as_millis data "delay_before_poll" in
  let! delay := readOptionalValue as_millis data "delay_before_command" in
  let! oldFirst := readOptionalValue as_millis data "delay_before_first_poll" in
  let! first := readOptionalValue as_millis data "delay_before_first_command" in
  let! writes := readOptionalValue as_ushort data "write_retries" in
  let! reads := readOptionalValue as_ushort data "read_retries" in
  let! mode := readOptionalValue as_writeMode data "write_mode" in
  Ret (mkSlaveConfig address (default "" name) (default AUTO mode) (overwrite delay oldDelay)
         (overwrite first oldFirst) (default 0 writes) (default 0 reads)).

End reading.
