(* ===== verification/ObjectConfig.v ===== *)
(** MQTT objects and commands from the configuration: RegisterConfigName, the parse
    functions and initObjects of libmodmqttsrv/modmqtt.cpp.

    The functions thread what the source passes by reference: the poll
    specifications collected so far, the shortest refresh period of an object, and
    the commands of the client. *)

From stdpp Require Import base gmap list strings.
From Stdlib Require Import ZArith Lia Ascii String.
From S2P Require Import Prelude ModbusTypes PollSpec Commands Config ConvTools ConvArgs.
From S2P Require Import Converters MqttObject MqttClient YamlConfig.

#[local] Open Scope string_scope.
#[local] Open Scope Z_scope.

(** * Register names *)

(** [a-zA-Z], [a-zA-Z0-9] and [0-9a-fA-F] *)
Definition letterChar (c : ascii) : bool :=
  let n := Numbers.code c in ((97 <=? n) && (n <=? 122)) || ((65 <=? n) && (n <=? 90)).
Definition alnumChar (c : ascii) : bool := letterChar c || decimalChar c.
Definition hexChar (c : ascii) : bool := Numbers.isDigit 16 c.

(** The text of a string between its dots. *)
Fixpoint splitDots (s : string) : list string :=
  match s with
  | EmptyString => [EmptyString]
  | String c s' =>
      if bool_decide (c = "."%char) then EmptyString :: splitDots s'
      else match splitDots s' with
           | [] => [String c EmptyString]
           | seg :: rest => String c seg :: rest
           end
  end.

(** The three groups of the regular expression, without their dots. *)
Definition networkPart (s : string) : bool :=
  match s with
  | String c s' => letterChar c && negb (bool_decide (s' = "")) && ArgParser.allChars alnumChar s'
  | EmptyString => false
  end.
Definition slavePart (s : string) : bool :=
  negb (bool_decide (s = "")) && ArgParser.allChars decimalChar s.
Definition isXChar (c : ascii) : bool := (Numbers.code c =? 120) || (Numbers.code c =? 88).
Definition numberPart (s : string) : bool :=
  let digits := match s with
                | String z (String x s') => if bool_decide (z = "0"%char) && isXChar x then s' else s
                | _ => s
                end in
  negb (bool_decide (digits = "")) && ArgParser.allChars hexChar digits.

(** regex_match with
    ^([a-zA-Z][a-zA-Z0-9]+\.)?([0-9]+\.)?((0[xX])?[0-9a-fA-F]+)$: a dot only ends
    one of the first two groups, and their first characters tell them apart. *)
Definition matchRegister (s : string) : option (string * string * string) :=
  match splitDots s with
  | [num] => if numberPart num then Some ("", "", num) else None
  | [a; num] =>
      if negb (numberPart num) then None
      else if networkPart a then Some (a, "", num)
      else if slavePart a then Some ("", a, num) else None
  | [net; slave; num] =>
      if networkPart net && slavePart slave && numberPart num then Some (net, slave, num) else None
  | _ => None
  end.

(** Whether the number has a hexadecimal prefix. *)
Definition hexNumber (num : string) : bool :=
  match num with String _ (String x _) => isXChar x | _ => false end.

(** class RegisterConfigName *)
Record RegisterConfigName : Type := mkRegisterName {
  rnNetwork : string;
  rnSlave : Z;
  rnRegister : Z
}.

Section config.
Context {N : Type} `{Yaml N}.
Context {D : Type} `{CDouble D}.

(** throw ConfigurationException(parent[name].Mark(), what) *)
Definition errorAt {A} (parent : N) (name what : string) : outcome A :=
  let! n := child parent name in configError n what.

(** The constructor of RegisterConfigName *)
Definition parseRegisterName (data : N) (default_network : string) (default_slave : Z)
  : outcome RegisterConfigName :=
  let! str := readRequiredString data "register" in
  match matchRegister (cstr (trim str)) with
  | None => errorAt data "register" "Invalid register specification"
  | Some (network, slave, num) =>
      let! net :=
        (if negb (bool_decide (network = "")) then Ret network
         else if negb (bool_decide (default_network = "")) then Ret default_network
         else errorAt data "register" "Unknown network in register specification") in
      let! slaveId :=
        (if negb (bool_decide (slave = "")) then let! (v, _) := Numbers.stoi 10 slave in Ret v
         else if negb (default_slave =? -1) then Ret default_slave
         else errorAt data "register" "Unknown slave id in register specification") in
      let! (v, _) := Numbers.stoi 0 num in
      if hexNumber num then Ret (mkRegisterName net slaveId v)
      else if v =? 0 then errorAt data "register" "Use hex address for 0-based register number"
      else Ret (mkRegisterName net slaveId (v - 1))
  end.

(** parseRegisterType *)
Definition parseRegisterType (data : N) : outcome RegisterType :=
  let! v := readOptionalValue as_string data "register_type" in
  let rtype := default "holding" v in
  if bool_decide (rtype = "coil") then Ret COIL
  else if bool_decide (rtype = "input") then Ret INPUT
  else if bool_decide (rtype = "holding") then Ret HOLDING
  else if bool_decide (rtype = "bit") then Ret BIT
  else configError data ("Unknown register type " +:+ rtype).

(** parsePublishMode *)
Definition parsePublishMode (data : N) (dflt : PublishMode) : outcome PublishMode :=
  let! v := readOptionalValue as_string data "publish_mode" in
  match v with
  | None => Ret dflt
  | Some pmode =>
      if bool_decide (pmode = "on_change") then Ret ON_CHANGE
      else if bool_decide (pmode = "every_poll") then Ret EVERY_POLL
      else if bool_decide (pmode = "once") then Ret ONCE
      else configError data ("Invalid publish mode '" +:+ pmode +:+ "', valid values are: on_change, every_poll")
  end.

(** parsePayloadType; STRING is the only one. *)
Definition parsePayloadType (data : N) : outcome unit :=
  let! v := readOptionalValue as_string data "payload_type" in
  let ptype := default "string" v in
  if bool_decide (ptype = "string") then Ret tt
  else configError data ("Unknown payload type " +:+ ptype).

(** * Poll specifications *)

(** The specification of a network found and merged with a poll. *)
Fixpoint mergeInto (net : string) (poll : MsgRegisterPoll) (specs : list PollSpec.MsgRegisterPollSpecification)
  : option (list PollSpec.MsgRegisterPollSpecification) :=
  match specs with
  | [] => None
  | s :: specs' =>
      if bool_decide (PollSpec.mNetworkName s = net) then Some (PollSpec.merge s poll :: specs')
      else cons s <$> mergeInto net poll specs'
  end.
Definition mergeSpecs (net : string) (poll : MsgRegisterPoll)
    (specs : list PollSpec.MsgRegisterPollSpecification) : list PollSpec.MsgRegisterPollSpecification :=
  match mergeInto net poll specs with
  | Some specs' => specs'
  | None => PollSpec.merge (PollSpec.newSpec net) poll :: specs
  end.

(** updateSpecification *)
Definition updateSpecification (data : N) (count refresh : Z) (default_network : string) (default_slave : Z)
    (mode : PublishMode) (specs : list PollSpec.MsgRegisterPollSpecification)
  : outcome (RegisterIdent * list PollSpec.MsgRegisterPollSpecification) :=
  let! rname := parseRegisterName data default_network default_slave in
  let! ty := parseRegisterType data in
  let poll := mkMsgPoll (pollBase (PollSpec.newMsgRegisterPoll (rnSlave rname) (rnRegister rname) ty count))
                refresh mode in
  Ret (mkIdent (rnNetwork rname) (rnSlave rname) (rnRegister rname) ty,
       mergeSpecs (rnNetwork rname) poll specs).

(** * Data nodes *)

Variable plugins : list (ConverterPlugin D).

(** A fault that is a std::exception, thrown again with a mark. *)
Definition rethrowAt {A} (n : N) (m : outcome A) : outcome A :=
  match m with
  | Ret a => Ret a
  | Fault f => match MqttClient.exceptionText f with
               | Some what => configError n what
               | None => Fault f
               end
  end.

(** createConverter *)
Definition createConverter (node : N) : outcome (DataConverter D) :=
  let! scalar := isType NScalar node in
  if negb scalar then configError node "converter must be a string"
  else
    let! line := readScalar as_string node in
    rethrowAt node (createConverterFromString plugins line).

Import MqttObject.

Definition setName (name : string) (n : DataNode D) : DataNode D :=
  mkNode name (getChildNodes n) (childrenAsList n) (nodeIdent n) (nodeValue n) (nodeConverter n).
Definition setConverter (c : DataConverter D) (n : DataNode D) : DataNode D :=
  mkNode (nodeName n) (getChildNodes n) (childrenAsList n) (nodeIdent n) (nodeValue n) (Some c).

(** The children a count asks for: one register each. *)
Definition addRegisters (first : RegisterIdent) (count : Z) (node : DataNode D) : DataNode D :=
  foldl (fun n i => addChildDataNode (setScalarNode (mkIdent (idNetwork first) (idSlave first) i (idType first))
                                        newNode) false n)
    node (seqZ (idRegister first) count).

(** What the parser of data nodes changes: the shortest refresh period seen, and
    the specifications. *)
Definition NodeState : Type := Z * list PollSpec.MsgRegisterPollSpecification.

(** The end of parseObjectDataNode without a list of registers. *)
Definition parseRegisters (pNode : N) (net : string) (slave refresh : Z) (mode : PublishMode)
    (node : DataNode D) (st : NodeState) : outcome (DataNode D * NodeState) :=
  let! c := readOptionalValue as_int pNode "count" in
  let count := default 1 c in
  let! (first, specs) := updateSpecification pNode count refresh net slave mode st.2 in
  if count =? 1 then Ret (setScalarNode first node, (st.1, specs))
  else
    let! _ := checkedInt (idRegister first + count) in
    Ret (addRegisters first count node, (st.1, specs)).

(** One round of the loop over a list of registers; [parse] is the recursive call.
    The variable isUnnamed is set from the node itself, as the source does. *)
Definition registersRound (parse : N -> NodeState -> outcome (DataNode D * NodeState)) (yRegisters : N)
    (acc : DataNode D * bool * NodeState) (i : nat) : outcome (DataNode D * bool * NodeState) :=
  let '(node, isUnnamed0, st) := acc in
  let! yData := item yRegisters i in
  let! (childNode, st') := parse yData st in
  let unnamed0 := match i with O => isUnnamed node | _ => isUnnamed0 end in
  if match i with O => false | _ => xorb (isUnnamed node) isUnnamed0 end
  then configError yData "All list elements must be named or unnamed"
  else Ret (addChildDataNode childNode true node, unnamed0, st').

(** parseObjectDataNode; [fuel] bounds the nesting of registers lists. *)
Fixpoint parseObjectDataNode (fuel : nat) (pNode : N) (net : string) (slave refresh : Z) (mode : PublishMode)
    (st : NodeState) : outcome (DataNode D * NodeState) :=
  match fuel with
  | O => Fault Diverges
  | S fuel' =>
      let! name := readOptionalValue as_string pNode "name" in
      let node := match name with Some n => setName n newNode | None => newNode end in
      let! r := readOptionalValue as_millis pNode "refresh" in
      let refresh' := default refresh r in
      let everyPoll := match r with Some v => if v <? st.1 then v else st.1 | None => st.1 end in
      let! conv := child pNode "converter" in
      let! node := (if isDefined conv then let! c := createConverter conv in Ret (setConverter c node)
                    else Ret node) in
      let! yRegisters := child pNode "registers" in
      if isDefined yRegisters then
        let! list := isType NSequence yRegisters in
        if negb list then configError yRegisters "'registers' must be a list"
        else
          let! size := nodeSize yRegisters in
          let! (node, _, st') :=
            foldM (registersRound (fun yData => parseObjectDataNode fuel' yData net slave refresh' mode) yRegisters)
              (seq 0 size) (node, false, (everyPoll, st.2)) in
          Ret (node, st')
      else parseRegisters pNode net slave refresh' mode node (everyPoll, st.2)
  end.

(** * Objects *)

(** topic.replace at the first occurrence of a placeholder. *)
Definition replaceFirst (ph value topic : string) : string :=
  match String.index 0 ph topic with
  | Some i => String.substring 0 i topic +:+ value
              +:+ String.substring (i + String.length ph) (String.length topic) topic
  | None => topic
  end.
Definition contains (ph topic : string) : bool := bool_decide (is_Some (String.index 0 ph topic)).

(** The placeholders of parseObject *)
Definition fillTopic (pData : N) (net : string) (slave : Z) (slaveName topic : string) : outcome string :=
  let! topic :=
    (if contains "${network}" topic then
       if bool_decide (net = "")
       then errorAt pData "topic" ("default network name must be set for topic " +:+ topic)
       else Ret (replaceFirst "${network}" net topic)
     else Ret topic) in
  let! topic :=
    (if contains "${slave_address}" topic then
       if slave =? -1
       then errorAt pData "topic" ("default slave address must be set for topic " +:+ topic)
       else Ret (replaceFirst "${slave_address}" (Numbers.to_string slave) topic)
     else Ret topic) in
  if contains "${slave_name}" topic then
    if slave =? -1
    then errorAt pData "topic" ("cannot find slave name, default slave address must be set for topic" +:+ topic)
    else if bool_decide (net = "")
    then errorAt pData "topic" ("default network name must be set for topic " +:+ topic)
    else if bool_decide (slaveName = "")
    then errorAt pData "topic" ("missing name for slave id=" +:+ Numbers.to_string slave
                                +:+ " needed for placeholder in topic " +:+ topic)
    else Ret (replaceFirst "${slave_name}" slaveName topic)
  else Ret topic.

(** One round of the loop over a list of registers of a state. *)
Definition stateRound (parse : N -> NodeState -> outcome (DataNode D * NodeState)) (yState : N)
    (acc : ObjectState D * bool * NodeState) (i : nat) : outcome (ObjectState D * bool * NodeState) :=
  let '(state, isUnnamed0, st) := acc in
  let! yData := item yState i in
  let! (node, st') := parse yData st in
  let unnamed0 := match i with O => isUnnamed node | _ => isUnnamed0 end in
  if match i with O => false | _ => xorb (isUnnamed node) isUnnamed0 end
  then configError yData "All list elements must be named or unnamed"
  else Ret (addDataNode node unnamed0 state, unnamed0, st').

(** The state of an object. *)
Definition parseState (fuel : nat) (yState : N) (net : string) (slave refresh : Z) (mode : PublishMode)
    (st : NodeState) : outcome (ObjectState D * NodeState) :=
  if isDefined yState then
    let! map := isType NMap yState in
    if map then
      let! (node, st') := parseObjectDataNode fuel yState net slave refresh mode st in
      Ret (if negb (hasConverter node) && isUnnamed node && negb (isScalar node)
           then foldl (fun s n => addDataNode n true s) newState (getChildNodes node)
           else addDataNode node false newState, st')
    else
      let! list := isType NSequence yState in
      if list then
        let! size := nodeSize yState in
        let! (state, _, st') :=
          foldM (stateRound (fun yData => parseObjectDataNode fuel yData net slave refresh mode) yState)
            (seq 0 size) (newState, false, st) in
        Ret (state, st')
      else configError yState "state must be a list or a single register data"
  else Ret (newState, st).

(** The availability of an object: its value and its node. *)
Definition parseAvailability (fuel : nat) (yState yAvail : N) (net : string) (slave refresh : Z)
    (mode : PublishMode) (specs : list PollSpec.MsgRegisterPollSpecification)
  : outcome (option string * ObjectState D * list PollSpec.MsgRegisterPollSpecification) :=
  let! availValue := readOptionalValue as_string yAvail "available_value" in
  let! map := isType NMap yAvail in
  if map then
    let! (node, st') := parseObjectDataNode fuel yAvail net slave refresh mode (0, specs) in
    if negb (isScalar node) && negb (hasConverter node)
    then configError yAvail "multiple registers availability must use a converter"
    else Ret (availValue, addDataNode node false newState, st'.2)
  else configError yState "availability must be a single register or a list with converter".

(** An object with its state, availability, retain flag and expected value. *)
Definition buildObject (topic : string) (mode : PublishMode) (everyPoll : Z) (retain : bool)
    (state avail : ObjectState D) (availValue : option string) : MqttObject D :=
  mkMqttObject topic state avail
    (match availValue with Some v => MqttValue.fromString v | None => VInt 1 end)
    NotSet retain mode "" None everyPoll.

(** parseObject *)
Definition parseObject (fuel : nat) (pData : N) (net : string) (slave : Z) (slaveName : string) (refresh : Z)
    (dfltMode : PublishMode) (specs : list PollSpec.MsgRegisterPollSpecification)
  : outcome (MqttObject D * list PollSpec.MsgRegisterPollSpecification) :=
  let! topic := readRequiredString pData "topic" in
  let! topic := fillTopic pData net slave slaveName topic in
  let! retain := readOptionalValue as_bool pData "retain" in
  let! yState := child pData "state" in
  let! mode := parsePublishMode pData dfltMode in
  let! (state, st) := parseState fuel yState net slave refresh mode (refresh, specs) in
  let! yAvail := child pData "availability" in
  if negb (isDefined yAvail)
  then Ret (buildObject topic mode st.1 (default true retain) state newState None, st.2)
  else
    let! (availValue, avail, specs') := parseAvailability fuel yState yAvail net slave refresh mode st.2 in
    Ret (buildObject topic mode st.1 (default true retain) state avail availValue, specs').

(** * Commands *)

(** parseObjectCommand *)
Definition parseObjectCommand (prefix : string) (id : Z) (node : N) (net : string) (slave : Z)
  : outcome (MqttObjectCommand D) :=
  let! name := readRequiredString node "name" in
  let! rname := parseRegisterName node net slave in
  let! ty := parseRegisterType node in
  let! _ := parsePayloadType node in
  let! count := readOptionalValue as_int node "count" in
  let! writeMode := readOptionalValue as_writeMode node "write_mode" in
  let! yConv := child node "converter" in
  let! conv := (if isDefined yConv then let! c := createConverter yConv in Ret (Some c) else Ret None) in
  Ret (mkObjectCommand (mkBase (mkRange (rnRegister rname) (default 1 count) ty) (rnSlave rname) id)
         (prefix +:+ "/" +:+ name) (rnNetwork rname) (default AUTO writeMode) conv).

(** The next command id and the commands of the client. *)
Definition CommandState : Type := Z * list (string * MqttObjectCommand D).

Definition addParsedCommand (prefix : string) (net : string) (slave : Z) (st : CommandState) (node : N)
  : outcome CommandState :=
  let! cmd := parseObjectCommand prefix st.1 node net slave in
  Ret (st.1 + 1, MqttClient.insertCommand cmd st.2).

(** parseObjectCommands *)
Definition parseObjectCommands (prefix : string) (commands : N) (net : string) (slave : Z) (st : CommandState)
  : outcome CommandState :=
  if isDefined commands then
    let! map := isType NMap commands in
    if map then addParsedCommand prefix net slave st commands
    else
      let! list := isType NSequence commands in
      if list then
        let! size := nodeSize commands in
        foldM (fun st i => let! node := item commands i in addParsedCommand prefix net slave st node)
          (seq 0 size) st
      else Ret st
  else Ret st.

(** * initObjects *)

(** What initObjects collects. *)
Record ObjectsInit : Type := mkObjectsInit {
  oiObjects : list (MqttObject D);
  oiCommands : CommandState;
  oiSpecs : list PollSpec.MsgRegisterPollSpecification
}.

(** The body of the innermost loop: one object for a network and a slave. *)
Definition initObject (fuel : nat) (objdata : N) (net : string) (slaveName : string) (refresh : Z)
    (mode : PublishMode) (slave : Z) (st : ObjectsInit) : outcome ObjectsInit :=
  let! (object, specs) := parseObject fuel objdata net slave slaveName refresh mode (oiSpecs st) in
  let baseTopic := mTopic object in
  if existsb (fun old => bool_decide (mTopic old = baseTopic)) (oiObjects st)
  then configError objdata ("Topic " +:+ baseTopic
                            +:+ " already defined. Missing network or slave placeholder?")
  else
    let! commands := child objdata "commands" in
    let! cmds := parseObjectCommands baseTopic commands net slave (oiCommands st) in
    Ret (mkObjectsInit (oiObjects st ++ [object])%list cmds specs).

(** The slaves of a range; [created] are those of the ranges before. *)
Definition initSlaveRange (fuel : nat) (slaveName : string -> Z -> string) (objdata : N) (net : string)
    (refresh : Z) (mode : PublishMode) (acc : list Z * ObjectsInit) (range : Z * Z)
  : outcome (list Z * ObjectsInit) :=
  let '(first, last) := range in
  if negb (first =? -1) && ((first <? 0) || (256 <? last) || (last <? first))
  then errorAt objdata "slave" ("Invalid slave range " +:+ Numbers.to_string first +:+ "-"
                                +:+ Numbers.to_string last)
  else
    foldM (fun acc slave =>
             let '(created, st) := acc in
             if bool_decide (slave ∈ created)
             then errorAt objdata "slave" ("Slave with id=" +:+ Numbers.to_string slave
                                           +:+ " is duplicated in the list")
             else
               let! st' := initObject fuel objdata net (slaveName net slave) refresh mode slave st in
               Ret (slave :: created, st'))
      (seqZ first (last - first + 1)) acc.

Definition initObjectNetwork (fuel : nat) (networks : list string) (slaveName : string -> Z -> string)
    (objdata : N) (slaves : list (Z * Z)) (refresh : Z) (mode : PublishMode) (st : ObjectsInit) (net : string)
  : outcome ObjectsInit :=
  if negb (bool_decide (net = "")) && negb (bool_decide (net ∈ networks))
  then errorAt objdata "network" ("Unknown modbus network " +:+ net)
  else
    let! (_, st') := foldM (initSlaveRange fuel slaveName objdata net refresh mode) slaves ([], st) in
    Ret st'.

(** One element of mqtt.objects; [networks] are the names of the modbus clients. *)
Definition initObjectEntry (fuel : nat) (networks : list string) (slaveName : string -> Z -> string)
    (dfltRefresh : Z) (mode : PublishMode) (st : ObjectsInit) (objdata : N) : outcome ObjectsInit :=
  let! r := readOptionalValue as_millis objdata "refresh" in
  let! ns := readOptionalValue as_strings objdata "network" in
  let nets := match default [] ns with [] => [""] | l => l end in
  let! ss := readOptionalValue as_ranges objdata "slave" in
  let slaves := match default [] ss with [] => [(-1, -1)] | l => l end in
  foldM (initObjectNetwork fuel networks slaveName objdata slaves (default dfltRefresh r) mode) nets st.

(** initObjects; [commands] are those the client has. *)
Definition initObjects (fuel : nat) (networks : list string) (slaveName : string -> Z -> string)
    (commands : list (string * MqttObjectCommand D)) (config : N) : outcome ObjectsInit :=
  let! mqtt := child config "mqtt" in
  if negb (isDefined mqtt) then configError config "mqtt section is missing"
  else
    let! r := readOptionalValue as_millis mqtt "refresh" in
    let! mode := parsePublishMode mqtt ON_CHANGE in
    let! objects := child mqtt "objects" in
    if negb (isDefined objects) then configError mqtt "objects section is missing"
    else
      let! list := isType NSequence objects in
      if negb list then configError mqtt "mqtt.objects must be a list"
      else
        let! size := nodeSize objects in
        foldM (fun st i => let! objdata := item objects i in
                           initObjectEntry fuel networks slaveName (default 5000 r) mode st objdata)
          (seq 0 size) (mkObjectsInit [] (1, commands) []).

End config.
