(* ===== verification/YamlProps.v ===== *)
(** What the configuration readers accept: times, number lists and register names
    (yaml_converters.hpp, RegisterConfigName of modmqtt.cpp), and network
    configurations (config.cpp). *)

From stdpp Require Import base gmap list strings.
From Stdlib Require Import ZArith Lia Ascii String.
From S2P Require Import Prelude ModbusTypes PollSpec Commands Config ConvTools ConvArgs.
From S2P Require Import Converters MqttObject MqttClient YamlConfig ObjectConfig.

#[local] Open Scope string_scope.
#[local] Open Scope Z_scope.

(** * Decimal numbers *)

(** The value of a string of digits. *)
Definition decValue (s : string) : Z := (Numbers.readDigits 10 s 0).1.

Definition allDecimal (s : string) : Prop := ArgParser.allChars decimalChar s = true.

Lemma digitVal_decimal c : decimalChar c = true -> 0 <= default 0 (Numbers.digitVal c) < 10.
Proof.
  unfold decimalChar, Numbers.isDigit, Numbers.digitVal.
  destruct (_ && _) eqn:E1; [apply andb_prop in E1 as [?%Z.leb_le ?%Z.leb_le]; cbn; lia|].
  destruct ((97 <=? _) && _) eqn:E2; [apply andb_prop in E2 as [?%Z.leb_le ?%Z.leb_le]; cbn; intros ?%Z.ltb_lt; lia|].
  destruct ((65 <=? _) && _) eqn:E3; [apply andb_prop in E3 as [?%Z.leb_le ?%Z.leb_le]; cbn; intros ?%Z.ltb_lt; lia|].
  done.
Qed.

Lemma readDigits_decimal s acc :
  allDecimal s -> 0 <= acc -> exists v, Numbers.readDigits 10 s acc = (v, "") /\ acc <= v.
Proof.
  unfold allDecimal. revert acc. induction s as [|c s IH]; intros acc A P; cbn; [by exists acc|].
  cbn in A. apply andb_prop in A as [Ac A]. unfold decimalChar in Ac at 1. rewrite Ac.
  pose proof (digitVal_decimal c Ac).
  destruct (IH (acc * 10 + default 0 (Numbers.digitVal c)) A) as (v & -> & ?); [lia|].
  exists v. split; [done|lia].
Qed.

Lemma decimal_code c : decimalChar c = true -> 48 <= Numbers.code c <= 57.
Proof.
  unfold decimalChar, Numbers.isDigit, Numbers.digitVal.
  destruct ((48 <=? _) && _) eqn:E1; [apply andb_prop in E1 as [?%Z.leb_le ?%Z.leb_le]; lia|].
  destruct ((97 <=? _) && _) eqn:E2; [apply andb_prop in E2 as [?%Z.leb_le ?%Z.leb_le]; intros ?%Z.ltb_lt; lia|].
  destruct ((65 <=? _) && _) eqn:E3; [apply andb_prop in E3 as [?%Z.leb_le ?%Z.leb_le]; intros ?%Z.ltb_lt; lia|].
  done.
Qed.

(** A digit is neither a space nor a sign, so the number starts with it. *)
Lemma decimal_first c s :
  decimalChar c = true ->
  Numbers.skipSpaces (String c s) = String c s /\ Numbers.readSign (String c s) = (1, String c s)
  /\ (Numbers.readPrefix 10 (String c s)) = (10, String c s).
Proof.
  intros Dc. pose proof (decimal_code c Dc) as B.
  destruct c as [[] [] [] [] [] [] [] []]; vm_compute in B; try (exfalso; lia || (destruct B; congruence));
    (split; [done|split; [done|]]); destruct s as [|? [|? ?]]; done.
Qed.

Lemma parseInt_decimal s :
  s <> "" -> allDecimal s -> Numbers.parseInt 10 s = Some (decValue s, "") /\ 0 <= decValue s.
Proof.
  intros NE A. destruct s as [|c s]; [done|].
  destruct (readDigits_decimal (String c s) 0 A) as (v & E & P); [lia|].
  assert (Dc : decimalChar c = true) by (unfold allDecimal in A; cbn in A; by apply andb_prop in A as [? _]).
  destruct (decimal_first c s Dc) as (S1 & S2 & S3).
  unfold Numbers.parseInt, decValue. rewrite S1, S2, S3. unfold decimalChar in Dc. rewrite Dc, E.
  cbn [fst]. split; [f_equal; f_equal; lia|done].
Qed.

Lemma decValue_to_string n : 0 <= n -> decValue (Numbers.to_string n) = n.
Proof.
  intros H. unfold decValue, Numbers.to_string. destruct (Z.ltb_spec n 0); [lia|].
  rewrite Numbers.readDigits_digits; [done|split; [done|by apply Numbers.digitFuel_enough]|unfold Numbers.digitFuel; lia].
Qed.

Lemma digits_decimal fuel n rest : allDecimal rest -> 0 <= n -> allDecimal (Numbers.digits fuel n rest).
Proof.
  revert n rest. induction fuel as [|fuel IH]; intros n rest A P; cbn; [done|].
  assert (A' : allDecimal (String (Numbers.digitChar (n mod 10)) rest)).
  { unfold allDecimal. cbn. rewrite A, andb_true_r. apply Numbers.isDigit_10. apply Z.mod_pos_bound. lia. }
  destruct (n <? 10); [done|]. apply IH; [done|]. apply Z.div_pos; lia.
Qed.

Lemma to_string_decimal n : 0 <= n -> allDecimal (Numbers.to_string n) /\ Numbers.to_string n <> "".
Proof.
  intros H. unfold Numbers.to_string. destruct (Z.ltb_spec n 0); [lia|].
  split; [by apply digits_decimal|].
  destruct (Numbers.digits_head (Numbers.digitFuel n) n "") as (d & s & -> & _); [|unfold Numbers.digitFuel; lia|done].
  split; [done|by apply Numbers.digitFuel_enough].
Qed.

Lemma spanChars_spec P s : exists a b, spanChars P s = (a, b) /\ s = a +:+ b /\ ArgParser.allChars P a = true.
Proof.
  induction s as [|c s IH]; cbn; [by exists "", ""|].
  destruct (P c) eqn:E; [|by exists "", (String c s)].
  destruct IH as (a & b & -> & -> & A). exists (String c a), b. split; [done|]. split; [done|]. cbn. by rewrite E.
Qed.

Lemma allChars_concat P a b : ArgParser.allChars P (a +:+ b) = ArgParser.allChars P a && ArgParser.allChars P b.
Proof.
  induction a as [|c a IH]; [done|]. change (String c a +:+ b) with (String c (a +:+ b)). cbn.
  by rewrite IH, andb_assoc.
Qed.

Lemma stoi_decimal s :
  s <> "" -> allDecimal s ->
  Numbers.stoi 10 s = if INT_MAX <? decValue s then Fault (StdException "stoi")
                      else Ret (decValue s, Z.of_nat (String.length s)).
Proof.
  intros NE A. unfold Numbers.stoi. destruct (parseInt_decimal s NE A) as [-> P].
  destruct (Z.ltb_spec (decValue s) INT_MIN) as [L|L]; [unfold INT_MIN in L; lia|]. cbn [orb].
  destruct (INT_MAX <? decValue s); [done|]. cbn [String.length]. by rewrite Z.sub_0_r.
Qed.

Lemma cstr_decimal s t : allDecimal s -> cstr (s +:+ t) = s +:+ cstr t.
Proof.
  unfold allDecimal. induction s as [|c s IH]; intros A; [done|]. cbn in A. apply andb_prop in A as [Ac A].
  change (String c s +:+ t) with (String c (s +:+ t)). cbn [cstr].
  pose proof (decimal_code c Ac). destruct (Z.eqb_spec (Numbers.code c) 0); [lia|].
  rewrite IH by done. done.
Qed.

(** * Times *)

Section times.
Context {N : Type} `{Yaml N}.

Lemma configError_Ret {A} (n : N) what (v : A) : configError n what = Ret v -> False.
Proof. unfold configError. by destruct (nodeMark n). Qed.

Lemma as_millis_nonneg node v : as_millis node = Ret v -> 0 <= v <= INT_MAX.
Proof.
  unfold as_millis. intros E. bind_inv E. unfold matchTime in E.
  destruct (spanChars_spec decimalChar (cstr x)) as (num & unit & Sp & _ & A). rewrite Sp in E.
  case_bool_decide as NE; [by apply configError_Ret in E|].
  destruct (timeUnit unit) as [f|] eqn:U; cbn in E; [|by apply configError_Ret in E].
  rewrite stoi_decimal in E by done. destruct (INT_MAX <? decValue num); [done|]. cbn [obind] in E.
  unfold checkedInt in E. destruct (_ && _) eqn:B; [|done]. injection E as <-.
  apply andb_prop in B as [_ B%Z.leb_le]. destruct (parseInt_decimal num NE A) as [_ P].
  assert (0 <= f) by (unfold timeUnit in U; repeat case_bool_decide; try done; injection U as <-; lia). nia.
Qed.

(** A time is a number followed by ms, s or min, and is read as exactly that many
    milliseconds; the values it yields fit an int, and every time that fits one is
    read. *)
Theorem as_millis_exact node s :
  as_string node = Ret s ->
  (forall v, as_millis node = Ret v ->
     exists num unit f, cstr s = num +:+ unit /\ num <> "" /\ allDecimal num /\ timeUnit unit = Some f
       /\ v = decValue num * f /\ 0 <= v <= INT_MAX)
  /\ (forall n unit f, s = Numbers.to_string n +:+ unit -> timeUnit unit = Some f -> 0 <= n ->
        n * f <= INT_MAX -> as_millis node = Ret (n * f)).
Proof.
  intros S. split.
  - intros v E. pose proof (as_millis_nonneg _ _ E) as B. unfold as_millis in E. rewrite S in E.
    cbn [obind] in E. unfold matchTime in E.
    destruct (spanChars_spec decimalChar (cstr s)) as (num & unit & Sp & Es & A). rewrite Sp in E.
    case_bool_decide as NE; [by apply configError_Ret in E|].
    destruct (timeUnit unit) as [f|] eqn:U; cbn in E; [|by apply configError_Ret in E].
    rewrite stoi_decimal in E by done. destruct (INT_MAX <? decValue num); [done|]. cbn [obind] in E.
    unfold checkedInt in E. destruct (_ && _); [|done]. injection E as <-. by exists num, unit, f.
  - intros n unit f -> U P B. unfold as_millis. rewrite S. cbn [obind].
    destruct (to_string_decimal n P) as [A NE]. rewrite cstr_decimal by done.
    assert (F : 1 <= f /\ cstr unit = unit
                /\ exists c t, unit = String c t /\ decimalChar c = false).
    { unfold timeUnit in U. repeat case_bool_decide; try done; injection U as <-; subst unit;
        (split; [lia|split; [done|]]); eauto. }
    destruct F as (F1 & -> & c & t & -> & Dc).
    unfold matchTime. rewrite spanChars_app by done. rewrite bool_decide_false by done. rewrite U. cbn [mbind option_bind].
    rewrite stoi_decimal, decValue_to_string by done.
    assert (n <= INT_MAX) by nia. destruct (Z.ltb_spec INT_MAX n); [lia|]. cbn [obind].
    unfold checkedInt. destruct (Z.leb_spec INT_MIN (n * f)) as [?|L]; [|unfold INT_MIN in L; nia].
    by destruct (Z.leb_spec (n * f) INT_MAX); [|lia].
Qed.

End times.

(** * Number lists *)

Section ranges.
Context {N : Type} `{Yaml N}.

Definition printRange (r : Z * Z) : string :=
  if r.1 =? r.2 then Numbers.to_string r.1 else Numbers.to_string r.1 +:+ "-" +:+ Numbers.to_string r.2.
Fixpoint printRanges (l : list (Z * Z)) : string :=
  match l with
  | [] => ""
  | [r] => printRange r
  | r :: l' => printRange r +:+ "," +:+ printRanges l'
  end.

(** A range of two numbers has no signs; a single number may have one. *)
Definition printable (r : Z * Z) : Prop :=
  (r.1 = r.2 /\ INT_MIN <= r.1 <= INT_MAX) \/ (0 <= r.1 <= INT_MAX /\ 0 <= r.2 <= INT_MAX).

Definition notComma (c : ascii) : bool := negb (bool_decide (c = ","%char)).

Lemma splitComma_app a b :
  ArgParser.allChars notComma a = true -> splitComma (a +:+ String "," b) = a :: splitComma b.
Proof.
  induction a as [|c a IH]; intros A; [done|]. cbn in A. apply andb_prop in A as [Ac A].
  change (String c a +:+ ?t) with (String c (a +:+ t)). cbn [splitComma]. rewrite IH by done.
  unfold notComma in Ac. by destruct (bool_decide (c = ","%char)).
Qed.

Lemma splitComma_one a : a <> "" -> ArgParser.allChars notComma a = true -> splitComma a = [a].
Proof.
  induction a as [|c a IH]; intros NE A; [done|]. cbn in A. apply andb_prop in A as [Ac A]. cbn [splitComma].
  unfold notComma in Ac. destruct (bool_decide (c = ","%char)); [done|].
  destruct a as [|d a]; [done|]. by rewrite IH.
Qed.

Lemma allChars_weaken (P Q : ascii -> bool) s :
  (forall c, P c = true -> Q c = true) -> ArgParser.allChars P s = true -> ArgParser.allChars Q s = true.
Proof.
  intros I. induction s as [|c s IH]; [done|]. cbn. intros [Pc A]%andb_prop. by rewrite I, IH.
Qed.

Lemma decimal_notComma c : decimalChar c = true -> notComma c = true.
Proof.
  intros D%decimal_code. unfold notComma. case_bool_decide as E; [|done].
  rewrite E in D. change (Numbers.code ",") with 44 in D. lia.
Qed.

Lemma to_string_sign n : n < 0 -> Numbers.to_string n = String "-" (Numbers.to_string (- n)).
Proof.
  intros L. unfold Numbers.to_string. destruct (Z.ltb_spec n 0); [|lia]. by destruct (Z.ltb_spec (- n) 0); [lia|].
Qed.

Lemma to_string_notComma n :
  ArgParser.allChars notComma (Numbers.to_string n) = true /\ Numbers.to_string n <> ""
  /\ cstr (Numbers.to_string n) = Numbers.to_string n.
Proof.
  assert (P : forall m, 0 <= m -> ArgParser.allChars notComma (Numbers.to_string m) = true
                /\ cstr (Numbers.to_string m) = Numbers.to_string m).
  { intros m Hm. destruct (to_string_decimal m Hm) as [A _].
    split; [apply (allChars_weaken decimalChar); [exact decimal_notComma|done]|].
    rewrite <- (app_nil_s (Numbers.to_string m)) at 1. rewrite cstr_decimal by done. apply app_nil_s. }
  destruct (Z_lt_le_dec n 0) as [L|L].
  - rewrite to_string_sign by done. destruct (P (- n)) as [P1 P2]; [lia|]. split; [exact P1|]. split; [done|].
    cbn [cstr]. change (Numbers.code "-" =? 0) with false. cbn iota. by rewrite P2.
  - destruct (P n L). split; [done|]. split; [by apply to_string_decimal|done].
Qed.

Lemma toNumber_to_string (node : N) n : INT_MIN <= n <= INT_MAX -> toNumber node (Numbers.to_string n) = Ret n.
Proof.
  intros B. unfold toNumber. rewrite Numbers.parseInt_to_string by auto.
  destruct (Z.ltb_spec n INT_MIN); [lia|]. by destruct (Z.ltb_spec INT_MAX n); [lia|].
Qed.

Lemma skipSpaces_decimal s t : s <> "" -> allDecimal s -> Numbers.skipSpaces (s +:+ t) = s +:+ t.
Proof.
  intros NE A. destruct s as [|c s]; [done|]. unfold allDecimal in A. cbn in A. apply andb_prop in A as [Dc _].
  change (String c s +:+ t) with (String c (s +:+ t)). by apply decimal_first.
Qed.

Lemma spanChars_all P s : ArgParser.allChars P s = true -> spanChars P s = (s, "").
Proof. induction s as [|c s IH]; [done|]. cbn. intros [-> A]%andb_prop. by rewrite IH. Qed.

Lemma matchRange_single n : matchRange (Numbers.to_string n) = None.
Proof.
  unfold matchRange. destruct (Z_lt_le_dec n 0) as [L|L].
  - rewrite to_string_sign by done. destruct (to_string_decimal (- n)) as [A NE]; [lia|].
    cbn [Numbers.skipSpaces]. change (Numbers.isSpace "-") with false. cbn iota. cbn [spanChars].
    change (decimalChar "-") with false. cbn iota. cbn [expectChar mbind option_bind].
    rewrite !bool_decide_true by done. cbn [mbind option_bind].
    by destruct (spanChars decimalChar (Numbers.to_string (- n))).
  - destruct (to_string_decimal n L) as [A NE]. rewrite <- (app_nil_s (Numbers.to_string n)).
    rewrite skipSpaces_decimal, app_nil_s by done. by rewrite spanChars_all.
Qed.

Lemma matchRange_pair a b :
  0 <= a -> 0 <= b ->
  matchRange (Numbers.to_string a +:+ "-" +:+ Numbers.to_string b)
  = Some (Numbers.to_string a, Numbers.to_string b).
Proof.
  intros Ha Hb. destruct (to_string_decimal a Ha) as [Aa Na]. destruct (to_string_decimal b Hb) as [Ab Nb].
  unfold matchRange. rewrite skipSpaces_decimal by done.
  change ("-" +:+ Numbers.to_string b) with (String "-" (Numbers.to_string b)).
  rewrite spanChars_app by done. cbn [expectChar].
  rewrite (bool_decide_true ("-"%char = "-"%char)) by done. cbn [mbind option_bind].
  rewrite spanChars_all by done. by rewrite (bool_decide_false (Numbers.to_string a = "")), (bool_decide_false (Numbers.to_string b = "")).
Qed.

Lemma decodeSegment_print (node : N) r : printable r -> decodeSegment node (printRange r) = Ret r.
Proof.
  destruct r as [a b]. unfold printable, printRange, decodeSegment. cbn [fst snd]. intros P.
  destruct (Z.eqb_spec a b) as [->|NE].
  - destruct (to_string_notComma b) as (_ & _ & ->). rewrite matchRange_single, toNumber_to_string; [done|].
    unfold INT_MIN in *. lia.
  - destruct P as [P|[Pa Pb]]; [lia|]. rewrite cstr_decimal by (apply to_string_decimal; lia).
    change ("-" +:+ Numbers.to_string b) with (String "-" (Numbers.to_string b)). cbn [cstr].
    change (Numbers.code "-" =? 0) with false. cbn iota.
    destruct (to_string_notComma b) as (_ & _ & ->).
    change (String "-" (Numbers.to_string b)) with ("-" +:+ Numbers.to_string b).
    rewrite matchRange_pair by lia. rewrite !toNumber_to_string by (unfold INT_MIN; lia). done.
Qed.

Lemma printRange_notComma r : ArgParser.allChars notComma (printRange r) = true /\ printRange r <> "".
Proof.
  unfold printRange. destruct (to_string_notComma r.1) as (A1 & N1 & _), (to_string_notComma r.2) as (A2 & _ & _).
  destruct (r.1 =? r.2); [done|]. rewrite !allChars_concat, A1, A2. split; [done|].
  destruct (Numbers.to_string r.1); done.
Qed.

Lemma splitComma_print r l : splitComma (printRanges (r :: l)) = printRange <$> r :: l.
Proof.
  revert r. induction l as [|r' l IH]; intros r; destruct (printRange_notComma r) as [A NE].
  - by apply splitComma_one.
  - change (printRanges (r :: r' :: l)) with (printRange r +:+ String "," (printRanges (r' :: l))).
    rewrite splitComma_app by done. by rewrite IH.
Qed.


Lemma as_ranges_print (node : N) l :
  Forall printable l -> as_string node = Ret (printRanges l) -> as_ranges node = Ret l.
Proof.
  intros F S. unfold as_ranges. rewrite S. cbn [obind]. destruct l as [|r l]; [done|].
  rewrite splitComma_print. revert F. generalize (r :: l). clear. intros l F.
  assert (G : forall acc, foldM (fun value segment => let! it := decodeSegment node segment in Ret (value ++ [it])%list)
                      (printRange <$> l) acc = Ret (acc ++ l)%list); [|by rewrite G].
  induction F as [|r l P F IH]; intros acc; [by rewrite app_nil_r|]. cbn [fmap list_fmap foldM].
  rewrite decodeSegment_print by done. cbn [obind]. rewrite IH. by rewrite <- app_assoc.
Qed.

End ranges.

(** * Register names *)

Fixpoint joinDots (l : list string) : string :=
  match l with
  | [] => ""
  | [a] => a
  | a :: l' => a +:+ "." +:+ joinDots l'
  end.

Definition notDot (c : ascii) : bool := negb (bool_decide (c = "."%char)).

Lemma splitDots_join s : splitDots s <> [] /\ joinDots (splitDots s) = s.
Proof.
  induction s as [|c s [NE IH]]; [done|]. cbn [splitDots].
  case_bool_decide as E; (split; [by destruct (splitDots s)|]).
  - destruct (splitDots s) as [|x l]; [done|].
    change (joinDots ("" :: x :: l)) with (String "." (joinDots (x :: l))). rewrite IH. by rewrite E.
  - destruct (splitDots s) as [|x [|y l]]; [done| |].
    + cbn in IH |- *. by rewrite IH.
    + change (joinDots (String c x :: y :: l)) with (String c (joinDots (x :: y :: l))). by rewrite IH.
Qed.

Lemma splitDots_one a : ArgParser.allChars notDot a = true -> splitDots a = [a].
Proof.
  induction a as [|c a IH]; intros A; [done|]. cbn in A. apply andb_prop in A as [Ac A]. cbn [splitDots].
  rewrite IH by done. unfold notDot in Ac. by destruct (bool_decide (c = "."%char)).
Qed.

Lemma splitDots_app a b :
  ArgParser.allChars notDot a = true -> splitDots (a +:+ "." +:+ b) = a :: splitDots b.
Proof.
  induction a as [|c a IH]; intros A; [done|]. cbn in A. apply andb_prop in A as [Ac A].
  change (String c a +:+ ?t) with (String c (a +:+ t)). cbn [splitDots]. rewrite IH by done.
  unfold notDot in Ac. by destruct (bool_decide (c = "."%char)).
Qed.

(** The characters of a register name: no dot, no space, not the end of a string. *)
Definition wordChar (c : ascii) : bool := alnumChar c.

Lemma wordChar_facts c : wordChar c = true ->
  notDot c = true /\ Numbers.isSpace c = false /\ (Numbers.code c =? 0) = false.
Proof.
  unfold wordChar, alnumChar, letterChar. intros W.
  assert (B : 48 <= Numbers.code c).
  { apply orb_prop in W as [W|W]; [|apply decimal_code in W; lia].
    apply orb_prop in W as [W|W]; apply andb_prop in W as [?%Z.leb_le _]; lia. }
  split; [|split].
  - unfold notDot. case_bool_decide as E; [|done]. rewrite E in B. change (Numbers.code ".") with 46 in B. lia.
  - unfold Numbers.isSpace. destruct (Z.eqb_spec (Numbers.code c) 32); [lia|]. cbn [orb].
    destruct (Z.leb_spec (Numbers.code c) 13); [lia|]. apply andb_false_r.
  - apply Z.eqb_neq. lia.
Qed.

Lemma hexChar_word c : hexChar c = true -> wordChar c = true.
Proof.
  unfold hexChar, wordChar, alnumChar, letterChar, decimalChar, Numbers.isDigit, Numbers.digitVal.
  destruct ((48 <=? _) && _) eqn:E1.
  { apply andb_prop in E1 as [?%Z.leb_le ?%Z.leb_le]. intros _.
    destruct (Z.ltb_spec (Numbers.code c - 48) 10); [apply orb_true_r|lia]. }
  destruct ((97 <=? _) && _) eqn:E2; [done|]. destruct ((65 <=? _) && _) eqn:E3; [|done].
  by rewrite orb_true_r.
Qed.

Lemma decimal_word c : decimalChar c = true -> wordChar c = true.
Proof. unfold wordChar, alnumChar. intros ->. apply orb_true_r. Qed.

Definition word (s : string) : Prop := ArgParser.allChars wordChar s = true.

Lemma networkPart_word s : networkPart s = true -> word s.
Proof.
  unfold word. destruct s as [|c s]; [done|]. cbn. intros [[L _]%andb_prop A]%andb_prop.
  unfold wordChar at 1, alnumChar at 1. rewrite L. exact A.
Qed.

Lemma slavePart_word s : slavePart s = true -> word s.
Proof. unfold slavePart, word. intros [_ A]%andb_prop. by apply (allChars_weaken decimalChar); [apply decimal_word|]. Qed.

Lemma numberPart_word s : numberPart s = true -> word s.
Proof.
  assert (W : forall t, negb (bool_decide (t = "")) && ArgParser.allChars hexChar t = true -> word t).
  { unfold word. intros t [_ A]%andb_prop. by apply (allChars_weaken hexChar); [apply hexChar_word|]. }
  unfold numberPart. destruct s as [|z [|x s]]; [apply W..|].
  destruct (bool_decide (z = "0"%char) && isXChar x) eqn:E; [|apply W].
  intros A%W. apply andb_prop in E as [->%bool_decide_eq_true X]. unfold word. cbn.
  unfold word in A. rewrite A, andb_true_r. unfold isXChar in X. unfold wordChar, alnumChar, letterChar.
  apply orb_prop in X as [X%Z.eqb_eq|X%Z.eqb_eq]; rewrite X; done.
Qed.

Lemma word_notDot s : word s -> ArgParser.allChars notDot s = true.
Proof. unfold word. apply allChars_weaken. intros c W. by apply wordChar_facts. Qed.

Lemma slavePart_network s : slavePart s = true -> networkPart s = false.
Proof.
  unfold slavePart, networkPart. destruct s as [|c s]; [done|]. cbn [ArgParser.allChars].
  intros [_ [D _]%andb_prop]%andb_prop. apply decimal_code in D. unfold letterChar.
  destruct (Z.leb_spec 97 (Numbers.code c)); [lia|]. by destruct (Z.leb_spec 65 (Numbers.code c)); [lia|].
Qed.

(** A register name: the network and the slave may be missing. *)
Definition part (s : string) : string := if bool_decide (s = "") then "" else s +:+ ".".
Definition registerText (net slave num : string) : string := part net +:+ part slave +:+ num.

Lemma matchRegister_complete net slave num :
  net = "" \/ networkPart net = true -> slave = "" \/ slavePart slave = true -> numberPart num = true ->
  matchRegister (registerText net slave num) = Some (net, slave, num).
Proof.
  intros Hn Hs Hd. pose proof (word_notDot _ (numberPart_word _ Hd)) as Dd.
    assert (Pn : forall x, x <> "" -> part x = x +:+ ".")
      by (intros x Hx; unfold part; by rewrite bool_decide_false).
    unfold matchRegister, registerText. destruct Hn as [->|Hn], Hs as [->|Hs]; cbn [part];
      change (part "") with ""; repeat (change ("" +:+ num) with num); change ("" +:+ ?x) with x.
    + rewrite splitDots_one by done. by rewrite Hd.
    + assert (slave <> "") by (by destruct slave). rewrite Pn, app_assoc_s by done.
      rewrite splitDots_app, splitDots_one by (done || by apply word_notDot, slavePart_word).
      by rewrite Hd, slavePart_network, Hs.
    + assert (net <> "") by (by destruct net). rewrite Pn, app_assoc_s by done.
      rewrite splitDots_app, splitDots_one by (done || by apply word_notDot, networkPart_word).
      by rewrite Hd, Hn.
    + assert (net <> "") by (by destruct net). assert (slave <> "") by (by destruct slave).
      rewrite !Pn, !app_assoc_s by done.
      rewrite !splitDots_app, splitDots_one
        by first [done | by apply word_notDot, networkPart_word | by apply word_notDot, slavePart_word].
      by rewrite Hn, Hs, Hd.
Qed.

Lemma matchRegister_parts s net slave num :
  matchRegister s = Some (net, slave, num) <->
  s = registerText net slave num /\ (net = "" \/ networkPart net = true)
  /\ (slave = "" \/ slavePart slave = true) /\ numberPart num = true.
Proof.
  unfold registerText. split.
  - unfold matchRegister. destruct (splitDots_join s) as [_ J]. destruct (splitDots s) as [|a [|b [|c [|]]]]; try done;
      cbn [joinDots] in J.
    + destruct (numberPart a) eqn:Na; [|done]. intros [= <- <- <-]. auto.
    + destruct (numberPart b) eqn:Nb; [cbn [negb]|done].
      destruct (networkPart a) eqn:A; [|destruct (slavePart a) eqn:S; [|done]]; intros [= <- <- <-];
        (assert (a <> "") by (by destruct a)); unfold part; rewrite (bool_decide_false (a = "")) by done;
        rewrite bool_decide_true by done; (split; [|auto]); rewrite <- J; [|change ("" +:+ ?x) with x];
        by rewrite app_assoc_s.
    + destruct (networkPart a) eqn:A; [|done]. destruct (slavePart b) eqn:S; [|done].
      destruct (numberPart c) eqn:Nc; [|done]. intros [= <- <- <-].
      assert (a <> "") by (by destruct a). assert (b <> "") by (by destruct b). unfold part.
      rewrite !bool_decide_false by done. split; [|auto]. rewrite <- J. by rewrite !app_assoc_s.
  - intros (-> & Hn & Hs & Hd). by apply matchRegister_complete.
Qed.

(** * The regular expression of register names

    The syntax that the expression of RegisterConfigName uses: character classes,
    sequences, the operators ? and +, and capture groups.  A match lists the groups
    that took part, with their texts, in the order in which they open. *)

Inductive regex : Type :=
| RClass (ranges : list (ascii * ascii))
| RCat (r1 r2 : regex)
| ROpt (r : regex)
| RPlus (r : regex)
| RGroup (n : nat) (r : regex).

(** A character lies in one of the ranges of a class. *)
Definition inClass (ranges : list (ascii * ascii)) (c : ascii) : bool :=
  existsb (fun r => (Numbers.code r.1 <=? Numbers.code c) && (Numbers.code c <=? Numbers.code r.2)) ranges.

Inductive matches : regex -> string -> list (nat * string) -> Prop :=
| m_class l c : inClass l c = true -> matches (RClass l) (String c EmptyString) []
| m_cat r1 r2 s1 s2 g1 g2 :
    matches r1 s1 g1 -> matches r2 s2 g2 -> matches (RCat r1 r2) (s1 +:+ s2) (g1 ++ g2)%list
| m_none r : matches (ROpt r) "" []
| m_some r s g : matches r s g -> matches (ROpt r) s g
| m_one r s g : matches r s g -> matches (RPlus r) s g
| m_more r s1 s2 g1 g2 :
    matches r s1 g1 -> matches (RPlus r) s2 g2 -> matches (RPlus r) (s1 +:+ s2) (g1 ++ g2)%list
| m_group n r s g : matches r s g -> matches (RGroup n r) s ((n, s) :: g).

(** matches[n]: the text of a group, empty when it took no part. *)
Definition capture (n : nat) (g : list (nat * string)) : string :=
  match find (fun x => (x.1 =? n)%nat) g with Some x => x.2 | None => "" end.

(** ^([a-zA-Z][a-zA-Z0-9]+\.)?([0-9]+\.)?((0[xX])?[0-9a-fA-F]+)$ *)
Definition registerRegex : regex :=
  let letters := [("a", "z"); ("A", "Z")]%char in
  let digits := [("0", "9")]%char in
  let hexDigits := [("0", "9"); ("a", "f"); ("A", "F")]%char in
  let dot := RClass [(".", ".")]%char in
  RCat (ROpt (RGroup 1 (RCat (RClass letters) (RCat (RPlus (RClass (letters ++ digits)%list)) dot))))
    (RCat (ROpt (RGroup 2 (RCat (RPlus (RClass digits)) dot)))
       (RGroup 3 (RCat (ROpt (RGroup 4 (RCat (RClass [("0", "0")]%char) (RClass [("x", "x"); ("X", "X")]%char))))
                    (RPlus (RClass hexDigits))))).

(** ** Inversion of each construct *)

Lemma matches_class l s g : matches (RClass l) s g <-> exists c, s = String c EmptyString /\ g = [] /\ inClass l c = true.
Proof. split; [intros M; inversion M; eauto|]. intros (c & -> & -> & I). by constructor. Qed.

Lemma matches_cat r1 r2 s g :
  matches (RCat r1 r2) s g
  <-> exists s1 s2 g1 g2, s = s1 +:+ s2 /\ g = (g1 ++ g2)%list /\ matches r1 s1 g1 /\ matches r2 s2 g2.
Proof. split; [intros M; inversion M; subst; eauto 10|]. intros (s1 & s2 & g1 & g2 & -> & -> & ? & ?). by constructor. Qed.

Lemma matches_opt r s g : matches (ROpt r) s g <-> (s = "" /\ g = []) \/ matches r s g.
Proof. split; [intros M; inversion M; auto|]. intros [[-> ->]|?]; [constructor|by apply m_some]. Qed.

Lemma matches_group n r s g : matches (RGroup n r) s g <-> exists g', g = (n, s) :: g' /\ matches r s g'.
Proof. split; [intros M; inversion M; eauto|]. intros (g' & -> & ?). by constructor. Qed.

Lemma matches_plus l s g :
  matches (RPlus (RClass l)) s g <-> g = [] /\ s <> "" /\ ArgParser.allChars (inClass l) s = true.
Proof.
  split.
  - remember (RPlus (RClass l)) as r eqn:E. intros M. induction M as [| | | |r s g M _|r s1 s2 g1 g2 M _ M' IH|]; try discriminate E.
    + injection E as ->. apply matches_class in M as (c & -> & -> & I). cbn. by rewrite I.
    + specialize (IH E). injection E as ->. apply matches_class in M as (c & -> & -> & I). destruct IH as (-> & _ & A).
      change (String c "" +:+ s2) with (String c s2). cbn. by rewrite I.
  - intros (-> & NE & A). destruct s as [|c s]; [done|]. clear NE. revert c A.
    induction s as [|c' s IH]; intros c A; cbn [ArgParser.allChars] in A; apply andb_prop in A as [I A].
    + apply m_one, matches_class. eauto.
    + change (String c (String c' s)) with (String c "" +:+ String c' s). change (@nil (nat * string)) with ([] ++ @nil (nat * string))%list.
      apply m_more; [apply matches_class; eauto|by apply IH].
Qed.

(** The classes of the expression are the character tests of the matcher. *)
Lemma class_letters c : inClass [("a", "z"); ("A", "Z")]%char c = letterChar c.
Proof. destruct c as [[] [] [] [] [] [] [] []]; reflexivity. Qed.
Lemma class_alnum c : inClass [("a", "z"); ("A", "Z"); ("0", "9")]%char c = alnumChar c.
Proof. destruct c as [[] [] [] [] [] [] [] []]; reflexivity. Qed.
Lemma class_digits c : inClass [("0", "9")]%char c = decimalChar c.
Proof. destruct c as [[] [] [] [] [] [] [] []]; reflexivity. Qed.
Lemma class_hex c : inClass [("0", "9"); ("a", "f"); ("A", "F")]%char c = hexChar c.
Proof. destruct c as [[] [] [] [] [] [] [] []]; reflexivity. Qed.
Lemma class_x c : inClass [("x", "x"); ("X", "X")]%char c = isXChar c.
Proof. destruct c as [[] [] [] [] [] [] [] []]; reflexivity. Qed.
Lemma class_one x c : inClass [(x, x)] c = true <-> c = x.
Proof.
  cbn. rewrite orb_false_r, andb_true_iff, !Z.leb_le. split; [|intros ->; lia].
  intros [? ?]. assert (E : N_of_ascii c = N_of_ascii x) by (unfold Numbers.code in *; lia).
  rewrite <- (ascii_N_embedding c), <- (ascii_N_embedding x). by rewrite E.
Qed.

Lemma allChars_ext P Q s : (forall c, P c = Q c) -> ArgParser.allChars P s = ArgParser.allChars Q s.
Proof. intros E. induction s as [|c s IH]; [done|]. cbn. by rewrite E, IH. Qed.

(** ** The groups of the expression *)

Lemma matches_network s g :
  matches (RCat (RClass [("a", "z"); ("A", "Z")]%char)
             (RCat (RPlus (RClass [("a", "z"); ("A", "Z"); ("0", "9")]%char)) (RClass [(".", ".")]%char))) s g
  <-> g = [] /\ exists net, s = net +:+ "." /\ networkPart net = true.
Proof.
  rewrite matches_cat. setoid_rewrite matches_cat. setoid_rewrite matches_class. setoid_rewrite matches_plus. split.
  - intros (s1 & s2 & g1 & g2 & -> & -> & (c & -> & -> & I) & t1 & t2 & h1 & h2 & -> & -> & (-> & NE & A) & d & -> & -> & ->%class_one).
    split; [done|]. exists (String c t1). split; [done|]. cbn. rewrite class_letters in I. rewrite I, bool_decide_false by done.
    by rewrite <- (allChars_ext _ _ t1 class_alnum).
  - intros (-> & net & -> & P). destruct net as [|c t]; [done|]. cbn in P. apply andb_prop in P as [P A]. apply andb_prop in P as [L NE].
    apply negb_true_iff, bool_decide_eq_false in NE.
    exists (String c ""), (t +:+ "."), [], []. split; [done|]. split; [done|]. split; [exists c; by rewrite class_letters|].
    exists t, ".", [], []. split; [done|]. split; [done|]. split; [|by exists "."%char].
    by rewrite (allChars_ext _ _ t class_alnum).
Qed.

Lemma matches_slave s g :
  matches (RCat (RPlus (RClass [("0", "9")]%char)) (RClass [(".", ".")]%char)) s g
  <-> g = [] /\ exists slave, s = slave +:+ "." /\ slavePart slave = true.
Proof.
  rewrite matches_cat. setoid_rewrite matches_class. setoid_rewrite matches_plus. unfold slavePart. split.
  - intros (s1 & s2 & g1 & g2 & -> & -> & (-> & NE & A) & d & -> & -> & ->%class_one). split; [done|]. exists s1.
    split; [done|]. rewrite bool_decide_false by done. by rewrite <- (allChars_ext _ _ s1 class_digits).
  - intros (-> & slave & -> & P). apply andb_prop in P as [NE A]. apply negb_true_iff, bool_decide_eq_false in NE.
    exists slave, ".", [], []. split; [done|]. split; [done|]. split; [|by exists "."%char].
    by rewrite (allChars_ext _ _ slave class_digits).
Qed.

Lemma x_not_hex c : isXChar c = true -> hexChar c = false.
Proof. destruct c as [[] [] [] [] [] [] [] []]; (done || by vm_compute). Qed.

Lemma matches_number s :
  (exists g, matches (RCat (ROpt (RGroup 4 (RCat (RClass [("0", "0")]%char) (RClass [("x", "x"); ("X", "X")]%char))))
                        (RPlus (RClass [("0", "9"); ("a", "f"); ("A", "F")]%char))) s g)
  <-> numberPart s = true.
Proof.
  setoid_rewrite matches_cat. setoid_rewrite matches_opt. setoid_rewrite matches_group. setoid_rewrite matches_cat.
  setoid_rewrite matches_class. setoid_rewrite matches_plus. unfold numberPart. split.
  - intros (g & s1 & s2 & g1 & g2 & -> & _ & P & (_ & NE & A)). rewrite (allChars_ext _ _ s2 class_hex) in A.
    destruct P as [[-> _]|(g' & _ & t1 & t2 & h1 & h2 & -> & _ & (c & -> & _ & ->%class_one) & x & -> & _ & X)].
    + change ("" +:+ s2) with s2. destruct s2 as [|z [|x s']]; [done|by rewrite A|].
      destruct (bool_decide (z = "0"%char) && isXChar x) eqn:B; [|by rewrite A].
      apply andb_prop in B as [_ X]. cbn in A. rewrite (x_not_hex x X) in A. by rewrite andb_false_r in A.
    + rewrite class_x in X. change ((String "0" "" +:+ String x "") +:+ s2) with (String "0" (String x s2)).
      cbv iota. rewrite (bool_decide_true ("0"%char = "0"%char)), X by done. cbn [andb]. by rewrite bool_decide_false, A by done.
  - intros P. set (digits := match s with String z (String x s') => _ | _ => _ end) in P.
    apply andb_prop in P as [NE A]. apply negb_true_iff, bool_decide_eq_false in NE.
    assert (D : digits = s \/ exists x, s = String "0" (String x digits) /\ isXChar x = true).
    { subst digits. destruct s as [|z [|x s']]; [by left..|].
      destruct (bool_decide (z = "0"%char) && isXChar x) eqn:B; [right|by left].
      apply andb_prop in B as [->%bool_decide_eq_true X]. by exists x. }
    clearbody digits. rewrite <- (allChars_ext _ _ digits class_hex) in A. destruct D as [->|(x & -> & X)].
    + exists [], "", s, [], []. split; [done|]. split; [done|]. split; [by left|done].
    + exists ([(4%nat, String "0" (String x ""))] ++ [])%list, (String "0" (String x "")), digits, [(4%nat, String "0" (String x ""))], [].
      split; [done|]. split; [done|]. split; [right|done]. exists []. split; [done|].
      exists (String "0" ""), (String x ""), [], []. split; [done|]. split; [done|].
      split; [by exists "0"%char|]. exists x. by rewrite class_x.
Qed.

(** An optional group that ends in a dot, as the text of the group. *)
Lemma part_dot s : s <> "" -> part s = s +:+ ".".
Proof. intros N. unfold part. by rewrite bool_decide_false. Qed.

Lemma part_inj s t : part s = part t -> s = t.
Proof.
  destruct (decide (s = "")) as [->|Ns], (decide (t = "")) as [->|Nt]; rewrite ?part_dot by done; intros E; [done|..].
  - change (part "") with "" in E. destruct t; [done|discriminate E].
  - change (part "") with "" in E. destruct s; [done|discriminate E].
  - apply (f_equal splitLast) in E. rewrite !splitLast_app in E. by injection E.
Qed.

(** The matches of the expression. *)
Lemma matches_register s g :
  matches registerRegex s g ->
  exists net slave num, s = registerText net slave num /\ (net = "" \/ networkPart net = true)
    /\ (slave = "" \/ slavePart slave = true) /\ numberPart num = true
    /\ capture 1 g = part net /\ capture 2 g = part slave /\ capture 3 g = num.
Proof.
  unfold registerRegex. cbv zeta. cbn [app]. rewrite matches_cat. intros (s1 & s' & g1 & g' & -> & -> & M1 & M).
  apply matches_cat in M as (s2 & s3 & g2 & g3 & -> & -> & M2 & M3).
  apply matches_group in M3 as (h3 & -> & M3). assert (N3 : numberPart s3 = true) by (apply matches_number; eauto).
  assert (P1 : exists net, s1 = part net /\ (net = "" \/ networkPart net = true)
            /\ (g1 = [] /\ net = "" \/ g1 = [(1%nat, s1)])).
  { apply matches_opt in M1 as [[-> ->]|M1]; [exists ""; auto|].
    apply matches_group in M1 as (h & -> & M1). apply matches_network in M1 as (-> & net & -> & P).
    exists net. rewrite part_dot by (by destruct net). auto. }
  assert (P2 : exists slave, s2 = part slave /\ (slave = "" \/ slavePart slave = true)
            /\ (g2 = [] /\ slave = "" \/ g2 = [(2%nat, s2)])).
  { apply matches_opt in M2 as [[-> ->]|M2]; [exists ""; auto|].
    apply matches_group in M2 as (h & -> & M2). apply matches_slave in M2 as (-> & slave & -> & P).
    exists slave. rewrite part_dot by (by destruct slave). auto. }
  assert (G4 : forall k, (k < 4)%nat -> find (fun x : nat * string => (x.1 =? k)%nat) h3 = None).
  { intros k Hk. assert (G4 : h3 = [] \/ exists x, h3 = [(4%nat, x)]).
    { apply matches_cat in M3 as (? & ? & ga & gb & _ & -> & Ma & (-> & _)%matches_plus).
      apply matches_opt in Ma as [[_ ->]|Ma]; [by left|right]. apply matches_group in Ma as (? & -> & Ma).
      apply matches_cat in Ma as (? & ? & ? & ? & _ & -> & (? & _ & -> & _)%matches_class & (? & _ & -> & _)%matches_class).
      by eexists. }
    destruct G4 as [->|[x ->]]; [done|]. cbn [find fst]. destruct (Nat.eqb_spec 4 k); [lia|done]. }
  destruct P1 as (net & -> & Pn & G1), P2 as (slave & -> & Ps & G2). exists net, slave, s3.
  split; [done|]. split; [done|]. split; [done|]. split; [done|]. unfold capture.
  destruct G1 as [[-> ->]| ->], G2 as [[-> ->]| ->]; cbn [app find fst Nat.eqb]; rewrite ?G4 by lia; done.
Qed.

Lemma register_matches net slave num :
  net = "" \/ networkPart net = true -> slave = "" \/ slavePart slave = true -> numberPart num = true ->
  exists g, matches registerRegex (registerText net slave num) g.
Proof.
  intros Hn Hs [g3 M3]%matches_number. unfold registerRegex, registerText. cbv zeta. cbn [app].
  assert (M1 : forall r, (net <> "" -> networkPart net = true -> exists g, matches r (part net) g) ->
                 exists g, matches (ROpt r) (part net) g).
  { intros r M. destruct Hn as [->|Hn]; [exists []; apply m_none|].
    destruct M as [g M]; [by destruct net|done|]. exists g. by apply m_some. }
  assert (M2 : forall r, (slave <> "" -> slavePart slave = true -> exists g, matches r (part slave) g) ->
                 exists g, matches (ROpt r) (part slave) g).
  { intros r M. destruct Hs as [->|Hs]; [exists []; apply m_none|].
    destruct M as [g M]; [by destruct slave|done|]. exists g. by apply m_some. }
  edestruct M1 as [g1 G1]; [|edestruct M2 as [g2 G2]; [|eexists; apply m_cat; [exact G1|]; apply m_cat; [exact G2|]; apply m_group; exact M3]].
  - intros NE P. eexists. apply m_group, matches_network. split; [done|]. exists net. by rewrite part_dot.
  - intros NE P. eexists. apply m_group, matches_slave. split; [done|]. exists slave. by rewrite part_dot.
Qed.

(** C31: the matcher of register names is the regular expression of the code: it
    accepts a text exactly when the whole text matches the expression, and then, for
    every way in which it matches, the first two groups are the network and the slave
    it returns, each with its dot (empty when it is missing), and the third group is
    the number. *)
Theorem matchRegister_grammar s net slave num :
  matchRegister s = Some (net, slave, num) <->
  (exists g, matches registerRegex s g)
  /\ forall g, matches registerRegex s g ->
       capture 1 g = part net /\ capture 2 g = part slave /\ capture 3 g = num.
Proof.
  split.
  - intros E. pose proof E as (-> & Hn & Hs & Hd)%matchRegister_parts. split; [by apply register_matches|].
    intros g (net' & slave' & num' & Et & Hn' & Hs' & Hd' & C1 & C2 & C3)%matches_register.
    assert (E' : matchRegister (registerText net slave num) = Some (net', slave', num')) by (by apply matchRegister_parts).
    rewrite E in E'. injection E' as -> -> ->. done.
  - intros [[g M] A]. destruct (A g M) as (C1 & C2 & C3).
    apply matches_register in M as (net' & slave' & num' & -> & Hn & Hs & Hd & C1' & C2' & C3').
    assert (net' = net) as -> by (apply part_inj; congruence). assert (slave' = slave) as -> by (apply part_inj; congruence).
    assert (num' = num) as -> by congruence. by apply matchRegister_complete.
Qed.

Definition nameChar (c : ascii) : bool := negb (Numbers.isSpace c) && negb (Numbers.code c =? 0).

Lemma rtrim_id s : ArgParser.allChars nameChar s = true -> rtrim s = s.
Proof.
  induction s as [|c s IH]; [done|]. cbn. intros [C A]%andb_prop. apply andb_prop in C as [C _].
  rewrite IH by done. by destruct (Numbers.isSpace c).
Qed.

Lemma trim_cstr_id s : ArgParser.allChars nameChar s = true -> cstr (trim s) = s.
Proof.
  intros A. unfold trim, ltrim. rewrite rtrim_id by done.
  assert (E : Numbers.skipSpaces s = s).
  { destruct s as [|c s]; [done|]. cbn in A |- *. unfold nameChar in A. by destruct (Numbers.isSpace c) eqn:Sp. }
  rewrite E. clear E. induction s as [|c s IH]; [done|]. cbn in A |- *.
  apply andb_prop in A as [C A]. apply andb_prop in C as [_ C]. destruct (Numbers.code c =? 0); [done|]. by rewrite IH.
Qed.

Lemma word_name s : word s -> ArgParser.allChars nameChar s = true.
Proof.
  unfold word. apply allChars_weaken. intros c W. destruct (wordChar_facts c W) as (_ & S & Z).
  unfold nameChar. by rewrite S, Z.
Qed.

Lemma part_name s : word s -> ArgParser.allChars nameChar (part s) = true.
Proof. intros W. unfold part. case_bool_decide; [done|]. by rewrite allChars_concat, word_name. Qed.

(** The text of a register: an optional network, an optional slave, and the number
    counted from 1. *)
Definition registerName (net : option string) (slave : option Z) (reg : Z) : string :=
  registerText (default "" net) (match slave with Some s => Numbers.to_string s | None => "" end)
    (Numbers.to_string (reg + 1)).

Lemma to_string_parts n :
  0 <= n -> slavePart (Numbers.to_string n) = true /\ numberPart (Numbers.to_string n) = true.
Proof.
  intros P. destruct (to_string_decimal n P) as [A NE]. unfold allDecimal in A.
  assert (Hx : ArgParser.allChars hexChar (Numbers.to_string n) = true).
  { apply (allChars_weaken decimalChar); [|done]. intros c. unfold decimalChar, hexChar, Numbers.isDigit.
    destruct (Numbers.digitVal c); [|done]. rewrite !Z.ltb_lt. lia. }
  unfold slavePart, numberPart. rewrite bool_decide_false, A by done. split; [done|].
  destruct (Numbers.to_string n) as [|z [|x t]]; [done|done|].
  cbn in A. apply andb_prop in A as [_ A]. apply andb_prop in A as [Dx _]. apply decimal_code in Dx.
  assert (X : isXChar x = false).
  { unfold isXChar. destruct (Z.eqb_spec (Numbers.code x) 120); [lia|]. by destruct (Z.eqb_spec (Numbers.code x) 88); [lia|]. }
  rewrite X, andb_false_r. by rewrite bool_decide_false, Hx.
Qed.

Lemma to_string_not_hex n : 0 <= n -> hexNumber (Numbers.to_string n) = false.
Proof.
  intros P. destruct (to_string_decimal n P) as [A NE]. unfold allDecimal in A. unfold hexNumber.
  destruct (Numbers.to_string n) as [|z [|x t]]; [done|done|].
  cbn in A. apply andb_prop in A as [_ A]. apply andb_prop in A as [Dx _]. apply decimal_code in Dx.
  unfold isXChar. destruct (Z.eqb_spec (Numbers.code x) 120); [lia|]. by destruct (Z.eqb_spec (Numbers.code x) 88); [lia|].
Qed.

Lemma stoi_to_string base n :
  base = 0 \/ base = 10 -> INT_MIN <= n <= INT_MAX -> exists k, Numbers.stoi base (Numbers.to_string n) = Ret (n, k).
Proof.
  intros B R. unfold Numbers.stoi. rewrite Numbers.parseInt_to_string by done.
  destruct (Z.ltb_spec n INT_MIN); [lia|]. destruct (Z.ltb_spec INT_MAX n); [lia|]. eauto.
Qed.

Section names.
Context {N : Type} `{Yaml N}.

(** A register written with its number counted from 1 is read as the register
    counted from 0, with the network and the slave of the name, or the defaults of
    the object when the name has none. *)
Theorem register_name_read (data : N) net slave reg dnet dslave :
  readRequiredString data "register" = Ret (registerName net slave reg) ->
  match net with Some n => networkPart n = true | None => dnet <> "" end ->
  match slave with Some s => 0 <= s <= INT_MAX | None => dslave <> -1 end ->
  0 <= reg < INT_MAX ->
  parseRegisterName data dnet dslave = Ret (mkRegisterName (default dnet net) (default dslave slave) reg).
Proof.
  intros E Hn Hs Hr. unfold parseRegisterName. rewrite E. cbn [obind].
  set (nt := default "" net). set (sl := match slave with Some s => Numbers.to_string s | None => "" end).
  set (num := Numbers.to_string (reg + 1)).
  destruct (to_string_parts (reg + 1)) as [_ Pn]; [lia|].
  assert (Gn : nt = "" \/ networkPart nt = true) by (destruct net; cbn; auto).
  assert (Gs : sl = "" \/ slavePart sl = true)
    by (subst sl; destruct slave as [s|]; [right; apply to_string_parts; lia|auto]).
  assert (M : matchRegister (cstr (trim (registerName net slave reg))) = Some (nt, sl, num)).
  { assert (Wn : word nt) by (destruct Gn as [->|?]; [done|by apply networkPart_word]).
    assert (Ws : word sl) by (destruct Gs as [->|?]; [done|by apply slavePart_word]).
    rewrite trim_cstr_id; [by apply matchRegister_complete|].
    unfold registerName, registerText. rewrite !allChars_concat, !part_name, word_name; [done|..]; try done.
    by apply numberPart_word. }
  rewrite M.
  assert (En : (if negb (bool_decide (nt = "")) then Ret nt
                else if negb (bool_decide (dnet = "")) then Ret dnet
                else errorAt data "register" "Unknown network in register specification")
               = Ret (default dnet net)).
  { subst nt. destruct net as [n|]; cbn [default from_option id].
    - rewrite bool_decide_false by (by destruct n). done.
    - rewrite bool_decide_true by done. cbn [negb]. by rewrite bool_decide_false. }
  rewrite En. cbn [obind].
  assert (Es : (if negb (bool_decide (sl = "")) then let! (v, _) := Numbers.stoi 10 sl in Ret v
                else if negb (dslave =? -1) then Ret dslave
                else errorAt data "register" "Unknown slave id in register specification")
               = Ret (default dslave slave)).
  { subst sl. destruct slave as [s|]; cbn [default from_option id].
    - destruct (to_string_decimal s) as [_ NE]; [lia|]. rewrite bool_decide_false by done. cbn [negb].
      destruct (stoi_to_string 10 s) as [k ->]; [auto|unfold INT_MIN; lia|done].
    - rewrite bool_decide_true by done. cbn [negb]. by destruct (Z.eqb_spec dslave (-1)). }
  rewrite Es. cbn [obind]. subst num.
  destruct (stoi_to_string 0 (reg + 1)) as [k ->]; [auto|unfold INT_MIN; lia|]. cbn [obind].
  rewrite to_string_not_hex by lia. destruct (Z.eqb_spec (reg + 1) 0); [lia|].
  by replace (reg + 1 - 1) with reg by lia.
Qed.

End names.

(** * Network configurations *)

Section networks.
Context {N : Type} `{YamlLaws N}.

Definition delayOk (d : option Z) : Prop := match d with Some v => 0 <= v <= INT_MAX | None => True end.

(** What the program relies on in the configuration of a network. *)
Record networkOk (c : ModbusNetworkConfig) : Prop := mkNetworkOk {
  ok_name : netName c <> "";
  ok_timeout : 0 <= mResponseTimeout c <= MAX_RESPONSE_TIMEOUT;
  ok_data_timeout : 0 <= mResponseDataTimeout c <= MAX_RESPONSE_TIMEOUT;
  ok_delays : delayOk (netDelayBeforeCommand c) /\ delayOk (netDelayBeforeFirstCommand c);
  ok_retries : 0 <= netMaxWriteRetryCount c <= UINT16_MAX /\ 0 <= netMaxReadRetryCount c <= UINT16_MAX;
  ok_type : match netType c with
            | RTU => mDevice c <> "" /\ mDevicePath (mWatchdogConfig c) = mDevice c
                     /\ INT_MIN <= mBaud c <= INT_MAX
            | TCPIP => netAddress c <> "" /\ mDevicePath (mWatchdogConfig c) = "" /\ INT_MIN <= netPort c <= INT_MAX
            end;
  ok_watch : 0 <= mWatchPeriod (mWatchdogConfig c)
}.

Lemma readRequiredString_nonempty (n : N) k v : readRequiredString n k = Ret v -> v <> "".
Proof.
  unfold readRequiredString. intros E. bind_inv E.
  case_bool_decide; [by apply configError_Ret in E|]. by injection E as <-.
Qed.

Lemma readOptional_sound {T} (P : T -> Prop) (as_ : N -> outcome T) n k v :
  (forall x y, as_ x = Ret y -> P y) -> readOptionalValue as_ n k = Ret (Some v) -> P v.
Proof.
  unfold readOptionalValue, setOptionalValueFromNode. intros A E. bind_inv E. destruct x as [v' c].
  injection E as ->. bind_inv E0. destruct (isDefined x); [|done]. bind_inv E0.
  destruct x0; [|by apply configError_Ret in E0]. cbn [negb] in E0. bind_inv E0. injection E0 as -> _. eauto.
Qed.

Lemma readRequired_sound {T} (P : T -> Prop) (as_ : N -> outcome T) n k v :
  (forall x y, as_ x = Ret y -> P y) -> readRequiredValue as_ n k = Ret v -> P v.
Proof.
  unfold readRequiredValue, readScalar. intros A E. bind_inv E.
  destruct (isDefined x); [|by apply configError_Ret in E]. cbn [negb] in E. bind_inv E.
  destruct x0; [|by apply configError_Ret in E]. cbn [negb] in E. eauto.
Qed.

Lemma readDelay (n : N) k d : readOptionalValue as_millis n k = Ret d -> delayOk d.
Proof.
  destruct d as [v|]; [|done]. apply (readOptional_sound (fun v => 0 <= v <= INT_MAX)). intros x y. apply as_millis_nonneg.
Qed.

Lemma overwrite_delay a b : delayOk a -> delayOk b -> delayOk (overwrite a b).
Proof. by destruct a. Qed.

Lemma readTimeout_range (n : N) k dflt v :
  0 <= dflt <= MAX_RESPONSE_TIMEOUT -> readTimeout n k dflt = Ret v -> 0 <= v <= MAX_RESPONSE_TIMEOUT.
Proof.
  unfold readTimeout, setOptionalValueFromNode. intros B E. bind_inv E. destruct x as [d c]. bind_inv E0.
  destruct (isDefined x) eqn:Dx.
  - bind_inv E0. destruct x0; [|by apply configError_Ret in E0]. cbn [negb] in E0. bind_inv E0. injection E0 as <- <-.
    rewrite Dx in E. cbn [andb default from_option id] in E.
    destruct ((x0 <? 0) || (MAX_RESPONSE_TIMEOUT <? x0)) eqn:R; [by apply configError_Ret in E|].
    injection E as <-. apply orb_false_elim in R as [?%Z.ltb_ge ?%Z.ltb_ge]. done.
  - injection E0 as <- <-. rewrite Dx in E. cbn in E. by injection E as <-.
Qed.

Lemma readUshort (n : N) k d v :
  readOptionalValue as_ushort n k = Ret d -> 0 <= v <= UINT16_MAX -> 0 <= default v d <= UINT16_MAX.
Proof.
  destruct d as [x|]; [|done]. intros E _. revert E.
  apply (readOptional_sound (fun v => 0 <= v <= UINT16_MAX)). apply as_ushort_range.
Qed.

Lemma readNetworkType_ok (source : N) c c' :
  mDevicePath (mWatchdogConfig c) = "" -> readNetworkType source c = Ret c' ->
  match netType c' with
  | RTU => mDevice c' <> "" /\ mDevicePath (mWatchdogConfig c') = mDevice c' /\ INT_MIN <= mBaud c' <= INT_MAX
  | TCPIP => netAddress c' <> "" /\ mDevicePath (mWatchdogConfig c') = "" /\ INT_MIN <= netPort c' <= INT_MAX
  end
  /\ netName c' = netName c /\ mResponseTimeout c' = mResponseTimeout c
  /\ mResponseDataTimeout c' = mResponseDataTimeout c
  /\ netDelayBeforeCommand c' = netDelayBeforeCommand c
  /\ netDelayBeforeFirstCommand c' = netDelayBeforeFirstCommand c
  /\ netMaxWriteRetryCount c' = netMaxWriteRetryCount c /\ netMaxReadRetryCount c' = netMaxReadRetryCount c
  /\ mWatchPeriod (mWatchdogConfig c') = mWatchPeriod (mWatchdogConfig c).
Proof.
  intros W E. unfold readNetworkType in E. bind_inv E. destruct x.
  - repeat bind_inv E. injection E as <-. split; [|by repeat split]. cbn.
    split; [by eapply readRequiredString_nonempty|]. split; [done|].
    by eapply (readRequired_sound (fun v => INT_MIN <= v <= INT_MAX)); [apply as_int_range|].
  - bind_inv E. destruct x; [|by apply configError_Ret in E]. repeat bind_inv E. injection E as <-.
    split; [|by repeat split]. cbn. split; [by eapply readRequiredString_nonempty|]. split; [done|].
    by eapply (readRequired_sound (fun v => INT_MIN <= v <= INT_MAX)); [apply as_int_range|].
Qed.

(** C12: the configuration of a network that the parser returns has a name, timeouts
    between 0 and 999 ms, delays and retry counts in the range of their types, the
    address of its kind of network, and the watchdog watches the device of a serial
    network and none of a TCP network. *)
Theorem parseNetworkConfig_ok (source : N) c : parseNetworkConfig source = Ret c -> networkOk c.
Proof.
  intros E. unfold parseNetworkConfig in E.
  apply obind_Ret in E as (name & E1 & E). apply obind_Ret in E as (rt & E2 & E).
  apply obind_Ret in E as (rdt & E3 & E). apply obind_Ret in E as (old & E4 & E).
  apply obind_Ret in E as (delay & E5 & E). apply obind_Ret in E as (first & E6 & E).
  apply obind_Ret in E as (writes & E7 & E). apply obind_Ret in E as (reads & E8 & E).
  apply obind_Ret in E as (c1 & E9 & E).
  apply readRequiredString_nonempty in E1.
  apply readTimeout_range in E2; [|unfold MAX_RESPONSE_TIMEOUT; lia].
  apply readTimeout_range in E3; [|unfold MAX_RESPONSE_TIMEOUT; lia].
  apply readDelay in E4, E5, E6.
  apply (readUshort _ _ _ 2) in E7; [|unfold UINT16_MAX; lia].
  apply (readUshort _ _ _ 1) in E8; [|unfold UINT16_MAX; lia].
  apply readNetworkType_ok in E9 as (T & S1 & S2 & S3 & S4 & S5 & S6 & S7 & S8); [|done]. cbn in *.
  unfold readWatchdog in E. apply obind_Ret in E as (wd & Ew & E).
  assert (Dl : delayOk (overwrite delay old)) by (by apply overwrite_delay).
  destruct (isDefined wd).
  - apply obind_Ret in E as (v & Ev & E). apply readDelay in Ev.
    assert (Dv : delayOk (overwrite v (overwrite first (overwrite delay old)))) by (by repeat apply overwrite_delay).
    destruct (overwrite v _) as [p|]; [|done]. injection E as <-. cbn in Dv.
    split; cbn; rewrite ?S1, ?S2, ?S3, ?S4, ?S5, ?S6, ?S7; try done. unfold MSEC. lia.
  - injection E as <-. split; rewrite ?S1, ?S2, ?S3, ?S4, ?S5, ?S6, ?S7, ?S8; try done.
Qed.

End networks.
