(* ===== verification/YamlTree.v ===== *)
(** Documents as trees: an instance of the interface the configuration readers use,
    and a configuration to run them on. *)

From stdpp Require Import base gmap list strings.
From Stdlib Require Import ZArith Lia Ascii String.
From S2P Require Import Prelude ModbusTypes PollSpec Commands Config ConvTools ConvArgs StdConv.
From S2P Require Import Converters MqttObject MqttClient YamlConfig ObjectConfig YamlProps.

#[local] Open Scope string_scope.
#[local] Open Scope Z_scope.

Inductive YNode : Type :=
| YUndef
| YScalar (s : string)
| YSeq (l : list YNode)
| YMap (l : list (string * YNode)).

Fixpoint depthOf (n : YNode) : nat :=
  match n with
  | YUndef | YScalar _ => 0
  | YSeq l => S (list_max (map depthOf l))
  | YMap l => S (list_max (map (fun kv => depthOf kv.2) l))
  end%nat.

Definition invalidNode {A} : outcome A := Fault (StdException "invalid node").
Definition scalarOf (n : YNode) : outcome string :=
  match n with YScalar s => Ret s | YUndef => invalidNode | _ => Fault (StdException "bad conversion") end.

(** A scalar that is a number of an interval. *)
Definition numberIn (lo hi : Z) (n : YNode) : outcome Z :=
  let! s := scalarOf n in
  match Numbers.parseInt 10 s with
  | Some (v, "") => if (lo <=? v) && (v <=? hi) then Ret v else Fault (StdException "bad conversion")
  | _ => Fault (StdException "bad conversion")
  end.

#[export] Instance YNode_yaml : Yaml YNode := {
  isDefined n := match n with YUndef => false | _ => true end;
  nodeType n := match n with YUndef => invalidNode | YScalar _ => Ret NScalar | YSeq _ => Ret NSequence | YMap _ => Ret NMap end;
  child n k := match n with
               | YMap l => Ret (default YUndef (snd <$> find (fun kv => bool_decide (kv.1 = k)) l))
               | YUndef => invalidNode
               | _ => Fault (StdException "bad subscript")
               end;
  nodeSize n := match n with YSeq l => Ret (List.length l) | YMap l => Ret (List.length l) | YScalar _ => Ret 0%nat | YUndef => invalidNode end;
  item n i := match n with YSeq l => match l !! i with Some x => Ret x | None => invalidNode end | _ => invalidNode end;
  nodeMark n := match n with YUndef => invalidNode | _ => Ret None end;
  as_string := scalarOf;
  as_int := numberIn INT_MIN INT_MAX;
  as_ushort := numberIn 0 UINT16_MAX;
  as_bool n := let! s := scalarOf n in
               if bool_decide (s = "true") then Ret true
               else if bool_decide (s = "false") then Ret false else Fault (StdException "bad conversion");
  as_char n := let! s := scalarOf n in
               match s with String c EmptyString => Ret (to_i8 (Numbers.code c)) | _ => Fault (StdException "bad conversion") end;
  badConversion _ := "bad conversion"
}.

Lemma numberIn_range lo hi n v : numberIn lo hi n = Ret v -> lo <= v <= hi.
Proof.
  unfold numberIn. intros E. bind_inv E. destruct (Numbers.parseInt 10 x) as [[w []]|]; try done.
  destruct (_ && _) eqn:B; [|done]. injection E as <-. by apply andb_prop in B as [?%Z.leb_le ?%Z.leb_le].
Qed.

Lemma numberIn_halts lo hi n : halts (numberIn lo hi n).
Proof. unfold numberIn. destruct n; [done|cbn [scalarOf obind]; halts_tac|done..]. Qed.

Lemma list_max_elem l x : x ∈ l -> (x <= list_max l)%nat.
Proof.
  intros Hx. assert (F : Forall (fun k => (k <= list_max l)%nat) l) by (by apply list_max_le).
  rewrite Forall_forall in F. by apply F.
Qed.

#[export] Instance YNode_laws : YamlLaws YNode.
Proof.
  split.
  - intros n v. apply numberIn_range.
  - intros n v. apply numberIn_range.
  - by intros [].
  - by intros [].
  - by intros [].
  - intros [] i; cbn; try done. by destruct (_ !! i).
  - by intros [].
  - by intros [].
  - intros n. apply numberIn_halts.
  - intros n. apply numberIn_halts.
  - intros [| s | |]; cbn; try done. by repeat case_bool_decide.
  - intros [|[|? []]| |]; by cbn.
Qed.

(** * What these documents are *)

Lemma child_depth n k c : child n k = Ret c -> c = YUndef \/ (depthOf c < depthOf n)%nat.
Proof.
  destruct n as [| |l|l]; try done. cbn. intros [= <-].
  destruct (find _ l) as [kv|] eqn:F; [|by left]. right. apply find_some in F as [I _].
  cbn [fmap option_fmap option_map default from_option id]. apply Nat.lt_succ_r.
  apply list_max_elem, list_elem_of_In. by apply (in_map (fun kv => depthOf kv.2)).
Qed.

Lemma item_depth n i x : item n i = Ret x -> (depthOf x < depthOf n)%nat.
Proof.
  destruct n as [| |l|l]; try done. cbn. destruct (l !! i) as [y|] eqn:F; [|done]. intros [= <-]. apply Nat.lt_succ_r.
  apply list_max_elem, list_elem_of_In, in_map, list_elem_of_In. by eapply list_elem_of_lookup_2.
Qed.

(** They are finite. *)
Lemma tree_nested d n : (depthOf n <= d)%nat -> nested d n.
Proof.
  revert d. induction n as [n IH] using (induction_ltof1 _ depthOf). unfold ltof in IH. intros d Le. constructor.
  - intros k c E. destruct (child_depth n k c E) as [->|Lt]; [by constructor|]. apply IH; lia.
  - intros i x E%item_depth. exists (depthOf x). split; [lia|]. apply IH; lia.
Qed.

(** The check of the counts and of the lists of registers. *)
Definition goodEntry (k : string) (c : YNode) : bool :=
  negb (bool_decide (k = "count") && match as_int c with Ret v => v <? 1 | Fault _ => false end)
  && negb (bool_decide (k = "registers") && match nodeSize c with Ret 0%nat => true | _ => false end).
Fixpoint goodCounts (n : YNode) : bool :=
  match n with
  | YUndef | YScalar _ => true
  | YSeq l => forallb goodCounts l
  | YMap l => forallb (fun kv => goodEntry kv.1 kv.2 && goodCounts kv.2) l
  end.

Lemma goodCounts_child n k c :
  goodCounts n = true -> child n k = Ret c -> goodCounts c = true /\ (c = YUndef \/ goodEntry k c = true).
Proof.
  destruct n as [| |l|l]; try done. cbn [goodCounts child YNode_yaml]. intros G [= <-].
  destruct (find _ l) as [[k' v]|] eqn:F; [|by split; [|left]]. apply find_some in F as [I K].
  apply bool_decide_eq_true in K. cbn in K. subst k'. rewrite forallb_forall in G. apply G, andb_prop in I as [? ?].
  cbn in *. auto.
Qed.

Lemma goodCounts_within root n : goodCounts root = true -> within root n -> goodCounts n = true.
Proof.
  intros G. induction 1 as [|n k c _ IH E|n i c _ IH E]; [done|by eapply goodCounts_child|].
  destruct n as [| |l|l]; try done. cbn in E. destruct (l !! i) as [x|] eqn:F; [|done]. injection E as <-.
  cbn in IH. rewrite forallb_forall in IH. apply IH, list_elem_of_In. by eapply list_elem_of_lookup_2.
Qed.

Lemma tree_positiveCounts root : goodCounts root = true -> positiveCounts root.
Proof.
  intros G. split.
  - intros n c v Hn Ec Ev. destruct (goodCounts_child n _ c (goodCounts_within _ _ G Hn) Ec) as [_ [->|E]]; [done|].
    apply andb_prop in E as [E _]. rewrite bool_decide_true, Ev in E by done. cbn in E.
    apply negb_true_iff, Z.ltb_ge in E. lia.
  - intros n c k Hn Ec Ek ->. destruct (goodCounts_child n _ c (goodCounts_within _ _ G Hn) Ec) as [_ [->|E]]; [done|].
    apply andb_prop in E as [_ E]. rewrite bool_decide_true, Ek in E by done. done.
Qed.

(** * A configuration *)

Definition demoNetwork : YNode :=
  YMap [("name", YScalar "net1"); ("address", YScalar "localhost"); ("port", YScalar "502");
        ("response_timeout", YScalar "50ms"); ("delay_before_command", YScalar "10ms");
        ("slaves", YSeq [YMap [("address", YScalar "1-2"); ("name", YScalar "meter");
                               ("poll_groups", YSeq [YMap [("register", YScalar "1"); ("count", YScalar "10")];
                                                     YMap [("register", YScalar "0x100"); ("count", YScalar "2")]])]])].
Definition demoObjectNode : YNode :=
  YMap [("topic", YScalar "meter"); ("network", YScalar "net1"); ("slave", YScalar "1");
        ("refresh", YScalar "2s");
        ("state", YMap [("register", YScalar "5"); ("count", YScalar "2")]);
        ("commands", YSeq [YMap [("name", YScalar "set"); ("register", YScalar "5")]])].
Definition demoObjectNode2 : YNode :=
  YMap [("topic", YScalar "single"); ("network", YScalar "net1");
        ("state", YMap [("register", YScalar "2.20")]);
        ("availability", YMap [("register", YScalar "2.21"); ("available_value", YScalar "3")])].
Definition demoConfig : YNode :=
  YMap [("modbus", YMap [("networks", YSeq [demoNetwork])]);
        ("mqtt", YMap [("client_id", YScalar "gw"); ("broker", YMap [("host", YScalar "localhost")]);
                       ("objects", YSeq [demoObjectNode; demoObjectNode2])])].

(** * Times, number lists, names and networks *)

Lemma as_millis_exact_witness : as_millis (YScalar "12s") = Ret 12000.
Proof.
  destruct (as_millis_exact (YScalar "12s") "12s") as [_ Complete]; [reflexivity|].
  apply (Complete 12 "s" 1000); [reflexivity..|lia|unfold INT_MAX; lia].
Defined.

Lemma register_name_read_witness :
  parseRegisterName (YMap [("register", YScalar "net1.7.100")]) "" (-1) = Ret (mkRegisterName "net1" 7 99).
Proof.
  apply (register_name_read (YMap [("register", YScalar "net1.7.100")]) (Some "net1") (Some 7) 99 "" (-1));
    [reflexivity|reflexivity|unfold INT_MAX; lia|unfold INT_MAX; lia].
Defined.

Lemma parseNetworkConfig_ok_witness :
  match parseNetworkConfig demoNetwork with Ret c => networkOk c | Fault _ => False end.
Proof.
  destruct (parseNetworkConfig demoNetwork) as [c|f] eqn:E.
  - exact (parseNetworkConfig_ok demoNetwork c E).
  - vm_compute in E. discriminate E.
Defined.
