(* ===== verification/InitTermination.v ===== *)
(** Reading a configuration ends: the readers return or throw, and the recursion of
    parseObjectDataNode is bounded by the nesting of the document. *)

From stdpp Require Import base gmap list strings.
From Stdlib Require Import ZArith Lia Ascii String.
From S2P Require Import Prelude ModbusTypes PollSpec Commands Config ConvTools ConvArgs StdConv.
From S2P Require Import MapConv Converters MqttObject MqttClient YamlConfig ObjectConfig YamlTree.

#[local] Open Scope string_scope.
#[local] Open Scope Z_scope.

Import MqttObject.

(** * Converters *)

(** The parser of arguments has always a state on its stack. *)
Definition stackOk (st : list aState) : bool :=
  match st with [SCAN] | [ARGVALUE; SCAN] | [ESCAPE; SCAN] => true | _ => false end.

Lemma takeName_halts p : halts (ArgParser.takeName p).
Proof. unfold ArgParser.takeName, ArgParser.parserError. halts_tac. Qed.

Lemma valueSet_halts m name value : halts (ArgValues.setArgValue m name value).
Proof. unfold ArgValues.setArgValue. halts_tac. Qed.

Lemma setArgValue_state p :
  halts (ArgParser.setArgValue p)
  /\ forall p', ArgParser.setArgValue p = Ret p' -> ArgParser.pState p' = ArgParser.pState p.
Proof.
  unfold ArgParser.setArgValue, ArgParser.settingError, ArgParser.parserError.
  pose proof (takeName_halts p) as T. destruct (ArgParser.takeName p) as [[[name order] rest]|[]]; try done.
  case_bool_decide; [done|]. pose proof (valueSet_halts (ArgParser.pRet p) name (ArgParser.pArgValue p)) as V.
  destruct (ArgValues.setArgValue _ _ _) as [ret|[]]; try done. split; [done|]. by intros p' [= <-].
Qed.

Lemma step_state p c :
  stackOk (ArgParser.pState p) = true ->
  halts (ArgParser.step p c)
  /\ forall p', ArgParser.step p c = Ret p' -> stackOk (ArgParser.pState p') = true.
Proof.
  intros S. destruct (setArgValue_state p) as [H1 H2]. unfold ArgParser.step, ArgParser.parserError.
  destruct (ArgParser.pState p) as [|[] [|[] []]] eqn:E; try done;
    repeat case_match; split; try done; try (by intros p' [= <-]; cbn; rewrite E); try (intros p' [= <-]; exact S);
    by intros p' ->%H2.
Qed.

Lemma parseArgs_halts args text : halts (ArgParser.parseArgs args text).
Proof.
  unfold ArgParser.parseArgs. assert (S : stackOk (ArgParser.pState (ArgParser.start args)) = true) by done.
  revert S. generalize (ArgParser.start args) as p. induction text as [|c text IH]; intros p S; cbn [ArgParser.steps].
  - cbn [obind]. unfold ArgParser.finish, ArgParser.parserError. destruct (setArgValue_state p) as [Hs _].
    destruct (ArgParser.pState p) as [|[] l]; try done. case_match; [|done]. by apply halts_bind.
  - destruct (step_state p c S) as [Hs Ss]. destruct (ArgParser.step p c) as [p'|f]; [|exact Hs]. cbn [obind].
    by apply IH, Ss.
Qed.

Section converters.
Context {D : Type} `{CDouble D}.

(** Setting the arguments of a converter of the plugin ends. *)
Definition pluginHalts (p : ConverterPlugin D) : Prop :=
  forall name conv values, pluginConverter p name = Some conv -> halts (setArgValues conv values).

Lemma createConverterFromString_halts plugins spec :
  Forall pluginHalts plugins -> halts (createConverterFromString plugins spec).
Proof.
  intros F. unfold createConverterFromString, parseSpec, ArgParser.parserError.
  apply halts_bind; [halts_tac|]. intros parsed _.
  destruct (createConverterInstance plugins _ _) as [conv|] eqn:E; [|done].
  assert (G : forall values, halts (setArgValues conv values)).
  { clear -F E. induction F as [|p l Hp F IH]; [done|]. cbn in E. case_bool_decide; [|by apply IH].
    intros values. by eapply Hp. }
  case_match; [|done]. apply halts_bind; [apply parseArgs_halts|auto].
Qed.

End converters.

Section termination.
Context {N : Type} `{YamlLaws N}.
Context {D : Type} `{CDouble D}.
Variable plugins : list (ConverterPlugin D).

Hypothesis Plugins : Forall pluginHalts plugins.

Lemma configError_halts {A} (n : N) what : halts (A := A) (configError n what).
Proof. unfold configError. halts_tac. Qed.
#[local] Hint Resolve configError_halts : halts.

Lemma errorAt_halts {A} (n : N) k what : halts (A := A) (errorAt n k what).
Proof. unfold errorAt. halts_tac. Qed.
#[local] Hint Resolve errorAt_halts : halts.

Lemma isType_halts t (n : N) : halts (isType t n).
Proof. unfold isType. halts_tac. Qed.
#[local] Hint Resolve isType_halts : halts.

Lemma readScalar_halts {T} (as_ : N -> outcome T) n : (forall n, halts (as_ n)) -> halts (readScalar as_ n).
Proof. intros A. unfold readScalar. halts_tac. Qed.
#[local] Hint Resolve readScalar_halts : halts.

Lemma readRequiredValue_halts {T} (as_ : N -> outcome T) n k :
  (forall n, halts (as_ n)) -> halts (readRequiredValue as_ n k).
Proof. intros A. unfold readRequiredValue. halts_tac. Qed.
#[local] Hint Resolve readRequiredValue_halts : halts.

Lemma readRequiredString_halts (n : N) k : halts (readRequiredString n k).
Proof. unfold readRequiredString. halts_tac. Qed.
#[local] Hint Resolve readRequiredString_halts : halts.

Lemma setOptionalValueFromNode_halts {T} (as_ : N -> outcome T) n k :
  (forall n, halts (as_ n)) -> halts (setOptionalValueFromNode as_ n k).
Proof. intros A. unfold setOptionalValueFromNode. halts_tac. Qed.
#[local] Hint Resolve setOptionalValueFromNode_halts : halts.

Lemma readOptionalValue_halts {T} (as_ : N -> outcome T) n k :
  (forall n, halts (as_ n)) -> halts (readOptionalValue as_ n k).
Proof. intros A. unfold readOptionalValue. halts_tac. Qed.
#[local] Hint Resolve readOptionalValue_halts : halts.

Lemma stoi_halts base s : halts (Numbers.stoi base s).
Proof. unfold Numbers.stoi. halts_tac. Qed.
#[local] Hint Resolve stoi_halts : halts.

Lemma checkedInt_halts v : halts (checkedInt v).
Proof. unfold checkedInt. halts_tac. Qed.
#[local] Hint Resolve checkedInt_halts : halts.

Lemma as_millis_halts (n : N) : halts (as_millis n).
Proof. unfold as_millis. halts_tac. Qed.
#[local] Hint Resolve as_millis_halts : halts.

Lemma toNumber_halts (n : N) s : halts (toNumber n s).
Proof. unfold toNumber. halts_tac. Qed.
#[local] Hint Resolve toNumber_halts : halts.

Lemma as_ranges_halts (n : N) : halts (as_ranges n).
Proof. unfold as_ranges, decodeSegment. halts_tac. Qed.
#[local] Hint Resolve as_ranges_halts : halts.

Lemma as_strings_halts (n : N) : halts (as_strings n).
Proof. unfold as_strings. halts_tac. Qed.
#[local] Hint Resolve as_strings_halts : halts.

Lemma as_writeMode_halts (n : N) : halts (as_writeMode n).
Proof. unfold as_writeMode, decodeFailed. halts_tac. Qed.
#[local] Hint Resolve as_writeMode_halts : halts.

Lemma parseRegisterName_halts (n : N) net slave : halts (parseRegisterName n net slave).
Proof. unfold parseRegisterName. halts_tac. Qed.
#[local] Hint Resolve parseRegisterName_halts : halts.

Lemma parseRegisterType_halts (n : N) : halts (parseRegisterType n).
Proof. unfold parseRegisterType. halts_tac. Qed.
#[local] Hint Resolve parseRegisterType_halts : halts.

Lemma parsePublishMode_halts (n : N) d : halts (parsePublishMode n d).
Proof. unfold parsePublishMode. halts_tac. Qed.
#[local] Hint Resolve parsePublishMode_halts : halts.

Lemma createConverter_halts (n : N) : halts (createConverter plugins n).
Proof.
  unfold createConverter, rethrowAt. halts_tac.
  match goal with E : createConverterFromString _ ?spec = Fault _ |- _ =>
    pose proof (createConverterFromString_halts plugins spec Plugins) as C; by rewrite E in C end.
Qed.
#[local] Hint Resolve createConverter_halts : halts.

Lemma parseRegisters_halts (n : N) net slave refresh mode (node : DataNode D) st :
  halts (parseRegisters n net slave refresh mode node st).
Proof. unfold parseRegisters, updateSpecification. halts_tac. Qed.
#[local] Hint Resolve parseRegisters_halts : halts.





Lemma fillTopic_halts (n : N) net slave name topic : halts (fillTopic n net slave name topic).
Proof. unfold fillTopic. halts_tac. Qed.
#[local] Hint Resolve fillTopic_halts : halts.


Lemma parseObjectCommands_halts prefix (n : N) net slave st :
  halts (parseObjectCommands plugins prefix n net slave st).
Proof. unfold parseObjectCommands, addParsedCommand, parseObjectCommand, parsePayloadType. halts_tac. Qed.
#[local] Hint Resolve parseObjectCommands_halts : halts.



End termination.

(** * The plugin of standard converters *)

Section std.
Context {D : Type} `{CDouble D} `{Rapidjson D}.

Lemma getArgValue_halts m name : halts (ArgValues.getArgValue m name).
Proof. unfold ArgValues.getArgValue. halts_tac. Qed.
#[local] Hint Resolve getArgValue_halts : halts.

Lemma rethrow_halts {A} prefix (m : outcome A) : halts m -> halts (ArgValue.rethrow prefix m).
Proof. destruct m as [a|[]]; done. Qed.
#[local] Hint Resolve rethrow_halts : halts.

Lemma toInt_halts s base : halts (ConverterTools.toInt s base).
Proof. unfold ConverterTools.toInt, Numbers.stoi. halts_tac. Qed.
#[local] Hint Resolve toInt_halts : halts.

Lemma toDouble_halts s : halts (toDouble (D := D) s).
Proof. unfold toDouble. halts_tac. Qed.
#[local] Hint Resolve toDouble_halts : halts.

Lemma as_int_halts' a : halts (ArgValue.as_int a).
Proof. unfold ArgValue.as_int. auto with halts. Qed.
Lemma as_uint16_halts a : halts (ArgValue.as_uint16 a).
Proof. unfold ArgValue.as_uint16. apply rethrow_halts. halts_tac. Qed.
Lemma as_bool_halts' a : halts (ArgValue.as_bool a).
Proof. unfold ArgValue.as_bool. halts_tac. Qed.
Lemma as_double_halts a : halts (ArgValue.as_double (D := D) a).
Proof. unfold ArgValue.as_double. auto with halts. Qed.
#[local] Hint Resolve as_int_halts' as_uint16_halts as_bool_halts' as_double_halts : halts.

Lemma getSwapBytes_halts values : halts (DoubleRegisterArgTools.getSwapBytes values).
Proof.
  unfold DoubleRegisterArgTools.getSwapBytes. apply halts_bind; [auto with halts|]. intros a _.
  pose proof (as_bool_halts' a). destruct (ArgValue.as_bool a); halts_tac.
Qed.
Lemma getLowFirst_halts values : halts (DoubleRegisterArgTools.getLowFirst values).
Proof.
  unfold DoubleRegisterArgTools.getLowFirst. apply halts_bind; [auto with halts|]. intros a _.
  pose proof (as_bool_halts' a). destruct (ArgValue.as_bool a); halts_tac.
Qed.
#[local] Hint Resolve getSwapBytes_halts getLowFirst_halts : halts.

Lemma popState_halts p : halts (MapConv.popState p).
Proof. unfold MapConv.popState. halts_tac. Qed.
#[local] Hint Resolve popState_halts : halts.

Lemma keyValue_halts s : halts (MqttValue.getUInt16 (MqttValue.fromString (D := D) s)).
Proof. unfold MqttValue.getUInt16. halts_tac. unfold MqttValue.fromString, MqttValue.getInt. halts_tac. Qed.
#[local] Hint Resolve keyValue_halts : halts.

Lemma addMapping_halts p : halts (MapConv.addMapping (D := D) p).
Proof. unfold MapConv.addMapping, MapConv.mapError. halts_tac. Qed.
#[local] Hint Resolve addMapping_halts : halts.

Lemma parseMap_halts text : halts (MapConv.parseMap (D := D) text).
Proof.
  unfold MapConv.parseMap. apply halts_bind; [|done]. generalize MapConv.start as p.
  induction text as [|c text IH]; intros p; [done|]. cbn [MapConv.steps]. apply halts_bind; [|intros p' _; apply IH].
  unfold MapConv.step, MapConv.addEscapedChar, MapConv.mapError. halts_tac.
Qed.
#[local] Hint Resolve parseMap_halts : halts.



End std.


