(* ===== verification/GatewayInit.v ===== *)
(** Start-up: ModMqtt::init of libmodmqttsrv/modmqtt.cpp with initServer,
    initConverterPlugin, initBroker, readModbusPollGroups and initModbusClients, and
    ModbusClient::start of modbus_client.cpp.

    Start-up turns the configuration into three things the running program uses: the
    messages in the queue of every modbus thread, the objects and commands of the
    MQTT client, and the two maps that say which objects a message is for. *)

From stdpp Require Import base gmap list strings.
From Stdlib Require Import ZArith Lia Ascii String.
From S2P Require Import Prelude ModbusTypes PollSpec Commands Config ModbusThread ConvTools ConvArgs.
From S2P Require Import Converters MqttObject MqttClient Logging YamlConfig ObjectConfig.

#[local] Open Scope string_scope.
#[local] Open Scope Z_scope.

Import MqttObject.

(** class ModbusClient: its network and what is in the queue to its thread. *)
Record ModbusClient : Type := mkModbusClient {
  mcNetworkName : string;
  mcToModbus : list ToModbus
}.

Definition enqueue (m : ToModbus) (c : ModbusClient) : ModbusClient :=
  mkModbusClient (mcNetworkName c) (mcToModbus c ++ [m])%list.

(** ModbusClient::start *)
Definition startClient (config : ModbusNetworkConfig) : ModbusClient :=
  enqueue (NetworkConfig config) (mkModbusClient (netName config) []).

(** struct ModbusInitData *)
Record ModbusInitData : Type := mkInitData {
  mPollSpecification : list PollSpec.MsgRegisterPollSpecification;
  mSlaveNames : gmap string (gmap Z string)
}.

(** getSlaveName *)
Definition getSlaveName (d : ModbusInitData) (net : string) (slave : Z) : string :=
  match mSlaveNames d !! net with
  | None => ""
  | Some names => default "" (names !! slave)
  end.

(** mSlaveNames[network][slave] = name *)
Definition setSlaveName (net : string) (slave : Z) (name : string) (names : gmap string (gmap Z string))
  : gmap string (gmap Z string) :=
  <[net := <[slave := name]> (default ∅ (names !! net))]> names.

(** * Converter plugins *)

(** std::filesystem::path::append *)
Definition lastChar (s : string) : option ascii := String.get (String.length s - 1) s.
Definition pathAppend (p name : string) : string :=
  match name with
  | String "/" _ => name
  | _ => if bool_decide (p = "") || bool_decide (lastChar p = Some "/"%char) then p +:+ name
         else p +:+ "/" +:+ name
  end.

(** The loop of initConverterPlugin: the name itself, then below each path. *)
Fixpoint findPlugin (exists_ : string -> bool) (current_path name : string) (paths : list string) : string :=
  if exists_ current_path then current_path
  else match paths with
       | [] => ""
       | p :: paths' => findPlugin exists_ (pathAppend p name) name paths'
       end.

(** MqttObjectRegisterIdent::Compare *)
Definition identLess (a b : RegisterIdent) : bool :=
  if String.ltb (idNetwork a) (idNetwork b) then true
  else if String.ltb (idNetwork b) (idNetwork a) then false
  else if idSlave a <? idSlave b then true
  else if idSlave b <? idSlave a then false
  else if idRegister a <? idRegister b then true
  else if idRegister b <? idRegister a then false
  else RegisterType_int (idType a) <? RegisterType_int (idType b).

(** mappedPollObjects[ident].push_back(optr), on the ordered map. *)
Fixpoint addPollObject (i : RegisterIdent) (p : ptr) (m : list (RegisterIdent * list ptr))
  : list (RegisterIdent * list ptr) :=
  match m with
  | [] => [(i, [p])]
  | (j, l) :: m' =>
      if identLess i j then (i, [p]) :: m
      else if identLess j i then (j, l) :: addPollObject i p m'
      else (j, l ++ [p])%list :: m'
  end.

(** * Joining the two sources of poll specifications *)

(** std::find_if by network name *)
Definition findSpec (net : string) (specs : list PollSpec.MsgRegisterPollSpecification)
  : option PollSpec.MsgRegisterPollSpecification :=
  find (fun s => bool_decide (PollSpec.mNetworkName s = net)) specs.

(** The first client of a network gets a message. *)
Fixpoint enqueueTo (net : string) (m : ToModbus) (clients : list ModbusClient) : list ModbusClient :=
  match clients with
  | [] => []
  | c :: clients' =>
      if bool_decide (mcNetworkName c = net) then enqueue m c :: clients' else c :: enqueueTo net m clients'
  end.

(** One round of the first loop of init: the poll groups of a network, merged with
    the registers of the objects, go to the thread of the network. *)
Definition completeSpec (mqtt_specs : list PollSpec.MsgRegisterPollSpecification)
    (acc : list PollSpec.MsgRegisterPollSpecification * list ModbusClient)
    (sit : PollSpec.MsgRegisterPollSpecification)
  : list PollSpec.MsgRegisterPollSpecification * list ModbusClient :=
  let '(done, clients) := acc in
  match findSpec (PollSpec.mNetworkName sit) mqtt_specs with
  | None => (done ++ [sit], clients)%list
  | Some mqtt_spec =>
      let merged := PollSpec.mergeList sit (PollSpec.mRegisters mqtt_spec) in
      (done ++ [merged], enqueueTo (PollSpec.mNetworkName sit) (PollSpecification merged) clients)%list
  end.
Definition completeSpecs (mqtt_specs specs : list PollSpec.MsgRegisterPollSpecification)
    (clients : list ModbusClient) : list PollSpec.MsgRegisterPollSpecification * list ModbusClient :=
  foldl (completeSpec mqtt_specs) ([], clients) specs.

Section init.
Context {N : Type} `{Yaml N}.
Context {D : Type} `{CDouble D}.

(** * Which objects a message is for *)

(** The two maps of the MQTT client. *)
Definition ObjectMaps : Type := list (RegisterIdent * list ptr) * list (Z * list ptr).

(** The polled ranges that hold a register of an object. *)
Definition mapPoll (net : string) (o : MqttObject D) (p : ptr) (m : list (RegisterIdent * list ptr))
    (rit : MsgRegisterPoll) : outcome (list (RegisterIdent * list ptr)) :=
  let! b := objectRegisterIn net (pollBase rit) o in
  Ret (if b then addPollObject (identOf net (pollBase rit)) p m else m).
Definition mapSpec (o : MqttObject D) (p : ptr) (m : list (RegisterIdent * list ptr))
    (sit : PollSpec.MsgRegisterPollSpecification) : outcome (list (RegisterIdent * list ptr)) :=
  foldM (mapPoll (PollSpec.mNetworkName sit) o p) (PollSpec.mRegisters sit) m.

(** The commands that write a register of an object. *)
Definition mapCommand (o : MqttObject D) (p : ptr) (m : list (Z * list ptr)) (it : string * MqttObjectCommand D)
  : outcome (list (Z * list ptr)) :=
  let cmd := it.2 in
  let! b := objectRegisterIn (commandNetwork cmd) (commandBase cmd) o in
  if b then
    let id := mCommandId (commandBase cmd) in
    if 0 <? id then Ret (smap_alter [] (fun l => l ++ [p])%list id m) else Fault AssertionFailed
  else Ret m.

(** One round of the second loop of init; the object is at address [p]. *)
Definition mapObject (specs : list PollSpec.MsgRegisterPollSpecification)
    (commands : list (string * MqttObjectCommand D)) (m : ObjectMaps) (op : ptr * MqttObject D)
  : outcome ObjectMaps :=
  let '(p, o) := op in
  let! polls := foldM (mapSpec o p) specs m.1 in
  let! cmds := foldM (mapCommand o p) commands m.2 in
  Ret (polls, cmds).

(** Addresses of the objects, in order. *)
Definition addressed (objects : list (MqttObject D)) : list (ptr * MqttObject D) :=
  imap (fun i o => (Z.of_nat i, o)) objects.
Definition mapObjects (specs : list PollSpec.MsgRegisterPollSpecification)
    (commands : list (string * MqttObjectCommand D)) (objects : list (MqttObject D)) : outcome ObjectMaps :=
  foldM (mapObject specs commands) (addressed objects) ([], []).

(** The store the addresses point into. *)
Definition storeOf (objects : list (MqttObject D)) (p : ptr) : MqttObject D :=
  default (newObject "" ON_CHANGE 0) (objects !! Z.to_nat p).

(** * The object ModMqtt *)

(** class ModMqtt, with the level of the logger. *)
Record ModMqtt : Type := mkModMqtt {
  mConverterPaths : list string;
  mConverterPlugins : list (ConverterPlugin D);
  mModbusClients : list ModbusClient;
  mMqtt : Client D;
  logLevel : Log.severity
}.

Definition withLevel v (g : ModMqtt) : ModMqtt :=
  mkModMqtt (mConverterPaths g) (mConverterPlugins g) (mModbusClients g) (mMqtt g) v.
Definition withPaths v (g : ModMqtt) : ModMqtt :=
  mkModMqtt v (mConverterPlugins g) (mModbusClients g) (mMqtt g) (logLevel g).
Definition withPlugins v (g : ModMqtt) : ModMqtt :=
  mkModMqtt (mConverterPaths g) v (mModbusClients g) (mMqtt g) (logLevel g).
Definition withClients v (g : ModMqtt) : ModMqtt :=
  mkModMqtt (mConverterPaths g) (mConverterPlugins g) v (mMqtt g) (logLevel g).
Definition withMqtt v (g : ModMqtt) : ModMqtt :=
  mkModMqtt (mConverterPaths g) (mConverterPlugins g) (mModbusClients g) v (logLevel g).

(** The file system, dll_import of a converter plugin, and the environment of the
    MQTT client. *)
Record InitEnv : Type := mkInitEnv {
  fsExists : string -> bool;
  fsReadable : string -> bool;
  dllImport : string -> outcome (ConverterPlugin D);
  mqttEnv : ClientEnv
}.
Variable env : InitEnv.

(** A handler of the MQTT client that returned. *)
Definition runClient (m : MqttClient.comp (D := D) unit) (c : Client D) : outcome (Client D) :=
  match m c with
  | (c', Ret _) => Ret c'
  | (_, Fault f) => Fault f
  end.

(** * initServer *)

(** initConverterPlugin *)
Definition initConverterPlugin (name : string) (g : ModMqtt) : outcome (ConverterPlugin D) :=
  let final_path := findPlugin (fsExists env) name name (mConverterPaths g) in
  if bool_decide (final_path = "")
  then Fault (StdException ("Converter plugin " +:+ name +:+ " not found"))
  else dllImport env final_path.

(** hasConverterPlugin *)
Definition hasConverterPlugin (name : string) (g : ModMqtt) : bool :=
  existsb (fun p => bool_decide (pluginName p = name)) (mConverterPlugins g).

(** The log level of the configuration. *)
Definition initLogLevel (server : N) (g : ModMqtt) : outcome ModMqtt :=
  let! log_level := child server "log_level" in
  if isDefined log_level then
    let! scalar := isType NScalar log_level in
    if negb scalar then configError log_level "Log level must be an int or string"
    else
      let! lvl := rethrowAt log_level (let! s := as_string log_level in Log.parse_severity s) in
      Ret (withLevel lvl g)
  else Ret g.

Definition addPath (g : ModMqtt) (node : N) : outcome ModMqtt :=
  let! path := readScalar as_string node in Ret (withPaths (mConverterPaths g ++ [path])%list g).

(** converter_search_path *)
Definition initPaths (server : N) (g : ModMqtt) : outcome ModMqtt :=
  let! conv_paths := child server "converter_search_path" in
  if isDefined conv_paths then
    let! list := isType NSequence conv_paths in
    if list then
      let! size := nodeSize conv_paths in
      foldM (fun g i => let! node := item conv_paths i in addPath g node) (seq 0 size) g
    else
      let! scalar := isType NScalar conv_paths in
      if scalar then addPath g conv_paths else Ret g
  else Ret g.

(** One element of converter_plugins. *)
Definition addPlugin (config : N) (g : ModMqtt) (path_node : N) : outcome ModMqtt :=
  let! scalar := isType NScalar path_node in
  if negb scalar then configError path_node "Converter plugin path must be a string"
  else
    let! path := as_string path_node in
    rethrowAt config
      (let! plugin := initConverterPlugin path g in
       if hasConverterPlugin (pluginName plugin) g
       then configError config ("Converter plugin " +:+ pluginName plugin +:+ " already loaded")
       else Ret (withPlugins (mConverterPlugins g ++ [plugin])%list g)).

(** initServer *)
Definition initServer (config : N) (overrideLogLevel : bool) (g : ModMqtt) : outcome ModMqtt :=
  let! server := child config "modmqttd" in
  if negb (isDefined server) then Ret g
  else
    let! g := (if overrideLogLevel then initLogLevel server g else Ret g) in
    let! g := initPaths server g in
    let! conv_plugins := child server "converter_plugins" in
    if isDefined conv_plugins then
      let! list := isType NSequence conv_plugins in
      if negb list then configError conv_plugins "modmqttd.converter_plugins must be a list"
      else
        let! size := nodeSize conv_plugins in
        foldM (fun g i => let! node := item conv_plugins i in addPlugin config g node) (seq 0 size) g
    else Ret g.

(** * initBroker *)

(** The rpc section. *)
Definition readRpcMode (mqtt : N) : outcome RpcMode :=
  let! rpc := child mqtt "rpc" in
  if isDefined rpc then
    let! v := readOptionalValue as_string rpc "mode" in
    let modeStr := default "disabled" v in
    if bool_decide (modeStr = "disabled") then Ret DISABLED
    else if bool_decide (modeStr = "read") then Ret READ
    else if bool_decide (modeStr = "readwrite") then Ret READ_WRITE
    else errorAt rpc "mode" ("Unknown rpc mode: " +:+ modeStr)
  else Ret DISABLED.

Definition withProtocolV5 (v : bool) (b : MqttBrokerConfig) : MqttBrokerConfig :=
  mkBrokerConfig (mHost b) (brokerPort b) (mKeepalive b) (mUsername b) (mPassword b) (mTLS b) (mCafile b) v.

(** initBroker *)
Definition initBroker (config : N) (g : ModMqtt) : outcome ModMqtt :=
  let! mqtt := child config "mqtt" in
  if negb (isDefined mqtt) then configError config "mqtt section is missing"
  else
    let! clientId := readRequiredString mqtt "client_id" in
    let! c := runClient (MqttClient.setClientId (mqttEnv env) clientId) (mMqtt g) in
    let! rpcMode := readRpcMode mqtt in
    let c := MqttClient.withRpcMode rpcMode c in
    let! broker := child mqtt "broker" in
    if negb (isDefined broker) then configError config "no broker configuration in mqtt section"
    else
      let! brokerConfig := parseBrokerConfig (fsReadable env) broker in
      let brokerConfig := withProtocolV5 (negb (bool_decide (rpcMode = DISABLED))) brokerConfig in
      let! c := runClient (MqttClient.setBrokerConfig brokerConfig) c in
      Ret (withMqtt c g).

(** * initModbusClients *)

(** One poll group. *)
Definition readPollGroup (net : string) (slave : Z) (ret : list MsgRegisterPoll) (group : N)
  : outcome (list MsgRegisterPoll) :=
  let! reg := parseRegisterName group net slave in
  let! count := readRequiredValue as_int group "count" in
  let! ty := parseRegisterType group in
  Ret (ret ++ [PollSpec.newMsgRegisterPoll (rnSlave reg) (rnRegister reg) ty count])%list.

(** readModbusPollGroups *)
Definition readModbusPollGroups (net : string) (slave : Z) (groups : N) : outcome (list MsgRegisterPoll) :=
  if negb (isDefined groups) then Ret []
  else
    let! list := isType NSequence groups in
    if negb list then configError groups "modbus network poll_groups must be a list"
    else
      let! size := nodeSize groups in
      foldM (fun ret i => let! group := item groups i in readPollGroup net slave ret group) (seq 0 size) [].

(** What the slaves of a network add to: the client, the specification, the names. *)
Definition NetworkState : Type :=
  ModbusClient * PollSpec.MsgRegisterPollSpecification * gmap string (gmap Z string).

(** One address of a slave. *)
Definition initSlave (net : string) (ySlave : N) (st : NetworkState) (addr : Z) : outcome NetworkState :=
  let '(client, spec, names) := st in
  let! slave_config := parseSlaveConfig addr ySlave in
  let client := enqueue (SlaveConfig slave_config) client in
  let! groups := child ySlave "poll_groups" in
  let! polls := readModbusPollGroups net (slaveAddress slave_config) groups in
  Ret (client, PollSpec.mergeList spec polls,
       if bool_decide (mSlaveName slave_config = "") then names
       else setSlaveName (mcNetworkName client) (slaveAddress slave_config) (mSlaveName slave_config) names).

(** One range of addresses of a slave. *)
Definition initAddresses (net : string) (ySlave : N) (st : NetworkState) (range : Z * Z) : outcome NetworkState :=
  let '(first, last) := range in
  if (first <? 0) || (256 <? last) || (last <? first)
  then errorAt ySlave "address" ("Invalid slave address range " +:+ Numbers.to_string first +:+ "-"
                                 +:+ Numbers.to_string last)
  else foldM (initSlave net ySlave) (seqZ first (last - first + 1)) st.

Definition initSlaveEntry (net : string) (st : NetworkState) (ySlave : N) : outcome NetworkState :=
  let! ranges := readRequiredValue as_ranges ySlave "address" in
  foldM (initAddresses net ySlave) ranges st.

(** One element of modbus.networks. *)
Definition initNetwork (acc : list ModbusClient * ModbusInitData) (network : N)
  : outcome (list ModbusClient * ModbusInitData) :=
  let '(clients, data) := acc in
  let! config := parseNetworkConfig network in
  let net := netName config in
  let! slaves := child network "slaves" in
  let! (client, spec, names) :=
    (let st := (startClient config, PollSpec.newSpec net, mSlaveNames data) in
     if isDefined slaves then
       let! list := isType NSequence slaves in
       if negb list then configError slaves "slaves content must be a list"
       else
         let! size := nodeSize slaves in
         foldM (fun st i => let! ySlave := item slaves i in initSlaveEntry net st ySlave) (seq 0 size) st
     else Ret st) in
  let! old_groups := child network "poll_groups" in
  let! spec :=
    (if isDefined old_groups then
       let! polls := readModbusPollGroups net (-1) old_groups in Ret (PollSpec.mergeList spec polls)
     else Ret spec) in
  Ret (clients ++ [client], mkInitData (mPollSpecification data ++ [spec]) names)%list.

(** initModbusClients *)
Definition initModbusClients (config : N) (g : ModMqtt) : outcome (ModMqtt * ModbusInitData) :=
  let! modbus := child config "modbus" in
  if negb (isDefined modbus) then configError config "modbus section is missing"
  else
    let! networks := child modbus "networks" in
    if negb (isDefined networks) then configError modbus "modbus.networks section is missing"
    else
      let! list := isType NSequence networks in
      if negb list then configError modbus "modbus.networks must be a list"
      else
        let! size := nodeSize networks in
        if Nat.eqb size 0 then configError networks "No modbus networks defined"
        else
          let! (clients, data) :=
            foldM (fun acc i => let! network := item networks i in initNetwork acc network)
              (seq 0 size) (mModbusClients g, mkInitData [] ∅) in
          Ret (withMqtt (MqttClient.withNetworks (mcNetworkName <$> clients) (mMqtt g)) (withClients clients g),
               data).

(** * init *)

(** The part of init after the objects have been read. *)
Definition connectObjects (data : ModbusInitData) (oi : ObjectsInit (D := D)) (g : ModMqtt)
  : outcome (ModMqtt * list PollSpec.MsgRegisterPollSpecification * list (MqttObject D)) :=
  let '(specs, clients) := completeSpecs (oiSpecs oi) (mPollSpecification data) (mModbusClients g) in
  let! (objects, commandObjects) := mapObjects specs (oiCommands oi).2 (oiObjects oi) in
  let c := MqttClient.withCommands (oiCommands oi).2 (mMqtt g) in
  Ret (withMqtt (MqttClient.withObjects objects commandObjects (storeOf (oiObjects oi)) c)
         (withClients clients g), specs, oiObjects oi).

(** ModMqtt::init(const YAML::Node&, bool); with the local variables at its end: the
    specification of each network, and the objects. *)
Definition init (fuel : nat) (config : N) (overrideLogLevel : bool) (g : ModMqtt)
  : outcome (ModMqtt * list PollSpec.MsgRegisterPollSpecification * list (MqttObject D)) :=
  let! g := initServer config overrideLogLevel g in
  let! g := initBroker config g in
  let! (g, data) := initModbusClients config g in
  let! oi := initObjects (mConverterPlugins g) fuel (mcNetworkName <$> mModbusClients g) (getSlaveName data)
               (cCommands (mMqtt g)) config in
  connectObjects data oi g.

End init.
Arguments ModMqtt D : clear implicits.
Arguments InitEnv D : clear implicits.
