(* ===== verification/InitProps.v ===== *)
(** What start-up establishes: every register of an object is polled, every polled
    range that will be read has an object, and the objects are as the running program
    expects them. *)

From stdpp Require Import base gmap list sorting strings.
From Stdlib Require Import ZArith Lia Ascii String.
From S2P Require Import Prelude ModbusTypes PollSpec Commands Config ModbusThread ConvTools ConvArgs StdConv.
From S2P Require Import Converters MqttObject MqttClient Logging YamlConfig ObjectConfig YamlProps YamlTree GatewayInit.

#[local] Open Scope string_scope.
#[local] Open Scope Z_scope.

Import MqttObject.

(** * Specifications and the registers they are for *)

(** The entry reads the register. *)
Definition identIn (p : MsgRegisterPoll) (i : RegisterIdent) : Prop :=
  PollSpec.polls p (idSlave i) (idType i) (idRegister i).

(** The entry reads one of the registers. *)
Definition anchored (net : string) (L : list RegisterIdent) (p : MsgRegisterPoll) : Prop :=
  exists i, i ∈ L /\ idNetwork i = net /\ identIn p i.

(** An entry asked for by an object: it has a refresh period and no command id. *)
Definition entryOk (net : string) (L : list RegisterIdent) (p : MsgRegisterPoll) : Prop :=
  0 <= mRefreshMsec p /\ mCommandId (pollBase p) = 0 /\ ModbusRange.nonempty (PollSpec.pollRange p) /\ anchored net L p.

Definition specOk (L : list RegisterIdent) (s : PollSpec.MsgRegisterPollSpecification) : Prop :=
  Forall (entryOk (PollSpec.mNetworkName s) L) (PollSpec.mRegisters s).

(** Some specification reads the register. *)
Definition readBy (specs : list PollSpec.MsgRegisterPollSpecification) (i : RegisterIdent) : Prop :=
  exists s, s ∈ specs /\ PollSpec.mNetworkName s = idNetwork i
    /\ Exists (fun p => identIn p i) (PollSpec.mRegisters s).

(** The specifications are those of the registers [L]: one per network, every entry
    reads some of the registers, and every register is read. *)
Record specsOk (specs : list PollSpec.MsgRegisterPollSpecification) (L : list RegisterIdent) : Prop := mkSpecsOk {
  so_names : NoDup (PollSpec.mNetworkName <$> specs);
  so_specs : Forall (specOk L) specs;
  so_read : forall i, i ∈ L -> readBy specs i
}.

Lemma anchored_mono net L L' p : L ⊆ L' -> anchored net L p -> anchored net L' p.
Proof. intros I (i & Hi & E). exists i. auto. Qed.

Lemma specOk_mono L L' s : L ⊆ L' -> specOk L s -> specOk L' s.
Proof.
  intros I F. eapply Forall_impl; [exact F|]. intros p (R & C & NE & A). repeat split; try done. by eapply anchored_mono.
Qed.

Lemma specsOk_ext specs L L' : (forall i, i ∈ L <-> i ∈ L') -> specsOk specs L -> specsOk specs L'.
Proof.
  intros E [Hn Hs Hr]. split; [done| |intros i Hi; by apply Hr, E].
  eapply Forall_impl; [exact Hs|]. intros s. apply specOk_mono. intros i Hi. by apply E.
Qed.

Lemma anchored_mergePoll net L p q : anchored net L p -> anchored net L (PollSpec.mergePoll p q).
Proof. intros (i & Hi & E & P). exists i. split; [done|]. split; [done|]. by apply PollSpec.polls_mergePoll_l. Qed.

Lemma mergeRefresh_nonneg a b : 0 <= a -> 0 <= b -> 0 <= PollSpec.mergeRefresh a b.
Proof. intros Ha Hb. unfold PollSpec.mergeRefresh. destruct (a =? _); [done|]. by destruct (negb _ && _). Qed.

Lemma entryOk_mergePoll net L p q : entryOk net L p -> entryOk net L q -> entryOk net L (PollSpec.mergePoll p q).
Proof.
  intros (Rp & Cp & Np & Ap) (Rq & _ & _ & _). split; [by apply mergeRefresh_nonneg|].
  split; [done|]. split; [by apply PollSpec.mergePoll_nonempty|by apply anchored_mergePoll].
Qed.

Lemma merge_name s poll : PollSpec.mNetworkName (PollSpec.merge s poll) = PollSpec.mNetworkName s.
Proof. apply (PollSpec.mergeList_name s [poll]). Qed.

Lemma merge_specOk L s poll :
  specOk L s -> entryOk (PollSpec.mNetworkName s) L poll -> specOk L (PollSpec.merge s poll).
Proof.
  unfold specOk. intros F E. rewrite merge_name. apply PollSpec.merge_Forall; [|done..].
  intros p q Hp Hq _ _. by apply entryOk_mergePoll.
Qed.

(** Merging keeps every register that was read, and adds those of the new range. *)
Lemma merge_identIn s poll i :
  Exists (fun p => identIn p i) (PollSpec.mRegisters s) \/ identIn poll i ->
  Exists (fun p => identIn p i) (PollSpec.mRegisters (PollSpec.merge s poll)).
Proof.
  apply (PollSpec.merge_Exists (fun p => identIn p i)).
  - intros p q. apply PollSpec.polls_mergePoll_l.
  - intros p q Hq S T. by apply PollSpec.polls_mergePoll_r.
Qed.

Lemma mergeInto_Some net poll specs specs' :
  mergeInto net poll specs = Some specs' ->
  exists l s r, specs = (l ++ s :: r)%list /\ PollSpec.mNetworkName s = net
    /\ specs' = (l ++ PollSpec.merge s poll :: r)%list.
Proof.
  revert specs'. induction specs as [|s specs IH]; intros specs'; [done|]. cbn [mergeInto].
  case_bool_decide as E; [intros [= <-]; by exists [], s, specs|].
  destruct (mergeInto net poll specs) as [t|]; [|done]. intros [= <-].
  destruct (IH t eq_refl) as (l & s0 & r & -> & E0 & ->). by exists (s :: l), s0, r.
Qed.

Lemma mergeInto_None net poll specs :
  mergeInto net poll specs = None -> net ∉ (PollSpec.mNetworkName <$> specs).
Proof.
  induction specs as [|s specs IH]; [intros _; apply not_elem_of_nil|]. cbn [mergeInto fmap list_fmap].
  case_bool_decide as E; [done|]. destruct (mergeInto net poll specs); [done|]. intros _.
  apply not_elem_of_cons. split; [done|auto].
Qed.

(** The step of the parser: one more poll for the registers [M]. *)
Lemma mergeSpecs_ok net poll specs L M :
  specsOk specs L -> 0 <= mRefreshMsec poll -> mCommandId (pollBase poll) = 0 ->
  ModbusRange.nonempty (PollSpec.pollRange poll) ->
  M <> [] -> Forall (fun i => idNetwork i = net /\ identIn poll i) M ->
  specsOk (mergeSpecs net poll specs) (L ++ M)%list.
Proof.
  intros [Hn Hs Hr] R C NE M0 FM. rewrite Forall_forall in FM.
  assert (Ep : entryOk net (L ++ M) poll).
  { repeat split; try done. destruct M as [|i M]; [done|]. exists i.
    destruct (FM i) as [? ?]; [left|]. split; [apply elem_of_app; right; left|done]. }
  assert (Hs' : Forall (specOk (L ++ M)) specs).
  { eapply Forall_impl; [exact Hs|]. intros s. apply specOk_mono. set_solver. }
  unfold mergeSpecs. destruct (mergeInto net poll specs) as [specs'|] eqn:MI.
  - apply mergeInto_Some in MI as (l & s & r & -> & E & ->). split.
    + rewrite !fmap_app, !fmap_cons in *. by rewrite merge_name.
    + apply Forall_app in Hs' as [Fl Fs]. apply Forall_cons in Fs as [Fs Fr].
      apply Forall_app. split; [done|]. apply Forall_cons. split; [|done]. apply merge_specOk; [done|by rewrite E].
    + intros i Hi. apply elem_of_app in Hi as [Hi|Hi].
      * destruct (Hr i Hi) as (s' & Hs1 & En & Ex). apply elem_of_app in Hs1 as [Hs1|Hs1].
        { exists s'. split; [apply elem_of_app; by left|done]. }
        apply elem_of_cons in Hs1 as [->|Hs1].
        { exists (PollSpec.merge s poll). rewrite merge_name. split; [apply elem_of_app; right; left|].
          split; [done|]. apply merge_identIn. by left. }
        exists s'. split; [apply elem_of_app; right; by right|done].
      * destruct (FM i Hi) as [Ei Pi]. exists (PollSpec.merge s poll). rewrite merge_name.
        split; [apply elem_of_app; right; left|]. split; [congruence|]. apply merge_identIn. by right.
  - apply mergeInto_None in MI. split.
    + rewrite fmap_cons, merge_name. by constructor.
    + constructor; [|done]. apply merge_specOk; [by apply Forall_nil|done].
    + intros i Hi. apply elem_of_app in Hi as [Hi|Hi].
      * destruct (Hr i Hi) as (s' & Hs1 & E). exists s'. split; [by right|done].
      * destruct (FM i Hi) as [Ei Pi]. eexists. split; [left|]. rewrite merge_name. split; [done|].
        apply merge_identIn. by right.
Qed.

(** * Trees of data nodes *)

Section trees.
Context {D : Type} `{CDouble D}.

Definition idents (n : DataNode D) : list RegisterIdent := (leaves n).*1.

(** A node as the parser builds it: registers at the leaves, none of them read. *)
Definition nodeOk (n : DataNode D) : Prop :=
  wfNode n = true /\ Forall (fun iv => iv.2 = newValue) (leaves n) /\ leaves n <> [].
Definition blank (n : DataNode D) : Prop :=
  getChildNodes n = [] /\ nodeIdent n = None /\ nodeValue n = newValue.

Lemma leaves_children (n : DataNode D) :
  getChildNodes n <> [] ->
  leaves n = flat_map leaves (getChildNodes n) /\ wfNode n = forallb wfNode (getChildNodes n).
Proof. by destruct n as [? []]. Qed.

(** A node all of whose children are well formed. *)
Lemma children_ok (n : DataNode D) :
  getChildNodes n <> [] -> Forall nodeOk (getChildNodes n) ->
  nodeOk n /\ idents n = flat_map idents (getChildNodes n).
Proof.
  intros NE F. destruct (leaves_children n NE) as [El Ew]. unfold nodeOk, idents. rewrite El, Ew.
  clear El Ew. induction F as [|c l (Wc & Vc & Lc) F IH]; [done|]. cbn [forallb flat_map].
  assert (G : forallb wfNode l = true /\ Forall (fun iv : RegisterIdent * RegisterValue => iv.2 = newValue) (flat_map leaves l)
              /\ (flat_map leaves l).*1 = flat_map (fun m : DataNode D => (leaves m).*1) l).
  { destruct l as [|c' l']; [by repeat split|]. destruct IH as ((? & ? & _) & ?); by repeat split. }
  destruct G as (Gw & Gv & Ge). split; [split; [by rewrite Wc|split]|].
  - apply Forall_app. by split.
  - by destruct (leaves c).
  - by rewrite fmap_app, Ge.
Qed.

(** The registers a count asks for. *)
Definition registersOf (first : RegisterIdent) (count : Z) : list RegisterIdent :=
  (fun a => mkIdent (idNetwork first) (idSlave first) a (idType first)) <$> seqZ (idRegister first) count.

Lemma addRegisters_children first count (n : DataNode D) :
  getChildNodes (addRegisters first count n)
  = (getChildNodes n ++ ((fun i => setScalarNode i newNode) <$> registersOf first count))%list.
Proof.
  unfold addRegisters, registersOf. generalize (seqZ (idRegister first) count) as l. intros l.
  revert n. induction l as [|a l IH]; intros n; [by rewrite app_nil_r|]. cbn [foldl fmap list_fmap].
  rewrite IH. cbn [getChildNodes addChildDataNode]. by rewrite <- app_assoc.
Qed.

Lemma scalar_ok i (n : DataNode D) : blank n -> nodeOk (setScalarNode i n) /\ idents (setScalarNode i n) = [i].
Proof.
  intros (C & _ & V). unfold setScalarNode, nodeOk, idents. rewrite C, V. cbn. repeat split; try done.
  by repeat constructor.
Qed.

Lemma addRegisters_ok first count (n : DataNode D) :
  blank n -> 1 <= count -> nodeOk (addRegisters first count n) /\ idents (addRegisters first count n) = registersOf first count.
Proof.
  intros (C & _ & _) P. destruct (children_ok (addRegisters first count n)) as [Ok E].
  - rewrite addRegisters_children, C. unfold registersOf. rewrite seqZ_cons by lia. done.
  - rewrite addRegisters_children, C. cbn [app]. apply Forall_fmap, Forall_forall. intros i _. by apply scalar_ok.
  - split; [done|]. rewrite E, addRegisters_children, C. cbn [app]. clear.
    induction (registersOf first count) as [|i l IH]; [done|]. cbn [fmap list_fmap flat_map].
    cbn [list_fmap fmap] in IH. rewrite IH. by destruct (scalar_ok i newNode) as [_ ->].
Qed.

End trees.

(** * Parsing data nodes *)

Section parsing.
Context {N : Type} `{YamlLaws N}.
Context {D : Type} `{CDouble D}.
Variable plugins : list (ConverterPlugin D).

(** The document, in which every count is positive and no list of registers is empty. *)
Variable root : N.
Hypothesis Positive : positiveCounts root.

Lemma errorAt_Ret {A} (n : N) k what (v : A) : errorAt n k what = Ret v -> False.
Proof. unfold errorAt. intros E. bind_inv E. by apply configError_Ret in E. Qed.

Lemma count_positive (n : N) c : within root n -> readOptionalValue as_int n "count" = Ret c -> 1 <= default 1 c.
Proof.
  intros Hn. unfold readOptionalValue, setOptionalValueFromNode. intros E. bind_inv E. destruct x as [v m].
  injection E as <-. bind_inv E0. destruct (isDefined x); [|by injection E0 as <- <-].
  bind_inv E0. destruct x0; [|by apply configError_Ret in E0]. cbn [negb] in E0. bind_inv E0.
  injection E0 as <- _. cbn. by eapply (counts_positive root Positive).
Qed.

Lemma updateSpecification_ok (data : N) count refresh dn ds mode specs first specs' L :
  1 <= count -> 0 <= refresh -> specsOk specs L ->
  updateSpecification data count refresh dn ds mode specs = Ret (first, specs') ->
  specsOk specs' (L ++ registersOf first count)%list.
Proof.
  intros C R Ok E. unfold updateSpecification in E. repeat bind_inv E. injection E as <- <-.
  unfold registersOf. cbn [idNetwork idSlave idRegister idType].
  apply mergeSpecs_ok; try done.
  - cbn. unfold ModbusRange.nonempty. cbn. lia.
  - rewrite seqZ_cons by lia. done.
  - apply Forall_fmap, Forall_forall. intros a Ha%elem_of_seqZ. split; [done|].
    unfold identIn, PollSpec.polls, ModbusRange.covers, ModbusRange.firstRegister, ModbusRange.lastRegister. cbn.
    split; [done|]. split; [done|]. lia.
Qed.

Lemma parseRegisters_ok (pNode : N) net slave refresh mode (n : DataNode D) st node st' L :
  within root pNode -> blank n -> 0 <= refresh -> specsOk st.2 L ->
  parseRegisters pNode net slave refresh mode n st = Ret (node, st') ->
  nodeOk node /\ specsOk st'.2 (L ++ idents node)%list.
Proof.
  intros Hn B R Ok E. unfold parseRegisters in E. apply obind_Ret in E as (c & Ec & E).
  apply count_positive in Ec; [|done]. apply obind_Ret in E as ((first & specs) & Eu & E).
  apply (updateSpecification_ok _ _ _ _ _ _ _ _ _ L) in Eu; [|done..].
  destruct (Z.eqb_spec (default 1 c) 1) as [E1|N1].
  - injection E as <- <-. destruct (scalar_ok first n B) as [? ->]. split; [done|]. cbn [snd].
    rewrite E1 in Eu. unfold registersOf in Eu. rewrite seqZ_cons in Eu by lia. cbn in Eu. by destruct first.
  - bind_inv E. injection E as <- <-. destruct (addRegisters_ok first (default 1 c) n B Ec) as [? ->]. by split.
Qed.

Lemma createConverter_node (conv : N) (n : DataNode D) n' :
  (if isDefined conv then let! c := createConverter plugins conv in Ret (setConverter c n) else Ret n) = Ret n' ->
  blank n -> blank n'.
Proof.
  destruct (isDefined conv); [|by intros [= <-]]. intros E. bind_inv E. by injection E as <-.
Qed.

(** A parser of data nodes that keeps the specifications those of the registers. *)
Definition parserOk (parse : N -> NodeState -> outcome (DataNode D * NodeState)) : Prop :=
  forall yData st L node st', within root yData -> specsOk st.2 L -> parse yData st = Ret (node, st') ->
    nodeOk node /\ specsOk st'.2 (L ++ idents node)%list.

(** A loop that adds one parsed node per round. *)
Lemma nodes_loop {A} (nodes : A -> list (DataNode D)) (step : A * bool * NodeState -> nat -> outcome (A * bool * NodeState))
    parse k size (acc acc' : A * bool * NodeState) L :
  (forall (acc : A * bool * NodeState) i (acc' : A * bool * NodeState), step acc i = Ret acc' ->
     exists yData node, within root yData /\ parse yData acc.2 = Ret (node, acc'.2)
       /\ nodes acc'.1.1 = (nodes acc.1.1 ++ [node])%list) ->
  parserOk parse ->
  Forall nodeOk (nodes acc.1.1) -> specsOk acc.2.2 (L ++ flat_map idents (nodes acc.1.1))%list ->
  foldM step (seq k size) acc = Ret acc' ->
  Forall nodeOk (nodes acc'.1.1) /\ specsOk acc'.2.2 (L ++ flat_map idents (nodes acc'.1.1))%list
  /\ List.length (nodes acc'.1.1) = (List.length (nodes acc.1.1) + size)%nat.
Proof.
  intros St P. revert k acc. induction size as [|size IH]; intros k acc F Ok E.
  { cbn in E. injection E as <-. split; [done|]. split; [done|]. by rewrite Nat.add_0_r. }
  cbn [seq foldM] in E. apply obind_Ret in E as (acc1 & E1 & E).
  destruct (St _ _ _ E1) as (yData & node & Hy & Pn & En).
  destruct (P _ _ _ _ _ Hy Ok Pn) as [On Os].
  destruct (IH (S k) acc1) as (F' & O' & L'); [| |done|].
  - rewrite En. apply Forall_app. split; [done|]. by apply Forall_singleton.
  - rewrite En, flat_map_app. cbn [flat_map]. by rewrite app_nil_r, app_assoc.
  - split; [done|]. split; [done|]. rewrite L', En, length_app, <- Nat.add_assoc. done.
Qed.

Lemma registersRound_step parse (y : N) (acc : DataNode D * bool * NodeState) i (acc' : DataNode D * bool * NodeState) :
  within root y -> registersRound parse y acc i = Ret acc' ->
  exists yData node, within root yData /\ parse yData acc.2 = Ret (node, acc'.2)
    /\ getChildNodes acc'.1.1 = (getChildNodes acc.1.1 ++ [node])%list.
Proof.
  intros Hy. destruct acc as [[n b] st]. unfold registersRound. intros E. apply obind_Ret in E as (yData & Ey & E).
  apply obind_Ret in E as ((cn & s2) & E1 & E). exists yData, cn. split; [by eapply within_item|].
  destruct i; [by injection E as <-|]. destruct (xorb _ _); [by apply configError_Ret in E|by injection E as <-].
Qed.

Lemma stateRound_step parse (y : N) (acc : ObjectState D * bool * NodeState) i (acc' : ObjectState D * bool * NodeState) :
  within root y -> stateRound parse y acc i = Ret acc' ->
  exists yData node, within root yData /\ parse yData acc.2 = Ret (node, acc'.2)
    /\ stNodes acc'.1.1 = (stNodes acc.1.1 ++ [node])%list.
Proof.
  intros Hy. destruct acc as [[n b] st]. unfold stateRound. intros E. apply obind_Ret in E as (yData & Ey & E).
  apply obind_Ret in E as ((cn & s2) & E1 & E). exists yData, cn. split; [by eapply within_item|].
  destruct i; [by injection E as <-|]. destruct (xorb _ _); [by apply configError_Ret in E|by injection E as <-].
Qed.

Lemma parseObjectDataNode_ok fuel (pNode : N) net slave refresh mode st node st' L :
  within root pNode -> 0 <= refresh -> specsOk st.2 L ->
  parseObjectDataNode plugins fuel pNode net slave refresh mode st = Ret (node, st') ->
  nodeOk node /\ specsOk st'.2 (L ++ idents node)%list.
Proof.
  revert pNode refresh st node st' L. induction fuel as [|fuel IH]; intros pNode refresh st node st' L Hn R Ok E; [done|].
  cbn [parseObjectDataNode] in E. apply obind_Ret in E as (name & _ & E).
  set (n0 := match name with Some n => setName n newNode | None => newNode end) in E.
  assert (B0 : blank n0) by (by destruct name).
  apply obind_Ret in E as (r & Er & E).
  assert (R' : 0 <= default refresh r) by (destruct r as [v|]; [apply readDelay in Er; cbn in Er |- *; lia|done]).
  apply obind_Ret in E as (conv & _ & E). apply obind_Ret in E as (n1 & En & E).
  apply createConverter_node in En; [|done].
  apply obind_Ret in E as (yr & Ey & E).
  assert (Hr : within root yr) by (by eapply within_child). destruct (isDefined yr).
  - apply obind_Ret in E as (isList & _ & E). destruct isList; [|by apply configError_Ret in E]. cbn [negb] in E.
    apply obind_Ret in E as (size & Es & E). apply obind_Ret in E as (((n2 & b) & s2) & El & E).
    injection E as <- <-.
    destruct (fun P F Ok => nodes_loop getChildNodes _ _ 0 size _ _ L (fun acc i acc' => registersRound_step _ yr acc i acc' Hr) P F Ok El)
      as (F & O & Ln).
    + intros yData st1 L1 node1 st1' Hy1 Ok1 E1. by eapply IH.
    + cbn. by rewrite (proj1 En).
    + cbn. rewrite (proj1 En), app_nil_r. exact Ok.
    + cbn [fst snd] in *. assert (NE : getChildNodes n2 <> []).
      { intros X. rewrite X in Ln. cbn in Ln. rewrite (proj1 En) in Ln. by apply (lists_nonempty root Positive _ _ _ Hn Ey Es). }
      destruct (children_ok n2 NE F) as [On Eid]. split; [done|]. by rewrite Eid.
  - by eapply parseRegisters_ok; [..|exact E].
Qed.

(** * Objects *)

Definition stateIdents (s : ObjectState D) : list RegisterIdent := (flat_map leaves (stNodes s)).*1.
Definition objectIdents (o : MqttObject D) : list RegisterIdent := (objectLeaves o).*1.

Definition stateOk (s : ObjectState D) : Prop :=
  forallb wfNode (stNodes s) = true /\ Forall (fun iv => iv.2 = newValue) (flat_map leaves (stNodes s)).

(** An object as the parser builds it. *)
Definition objectOk (o : MqttObject D) : Prop :=
  mIsAvailable o = NotSet /\ stateOk (mState o) /\ stateOk (mAvailability o).

Lemma nodes_state (s : ObjectState D) :
  Forall nodeOk (stNodes s) -> stateOk s /\ stateIdents s = flat_map idents (stNodes s).
Proof.
  unfold stateOk, stateIdents. induction 1 as [|n l (W & V & _) F [[Fw Fv] Fe]]; [by repeat split|].
  cbn [forallb flat_map]. rewrite W, Fw, fmap_app, Fe. split; [|done]. split; [done|]. by apply Forall_app.
Qed.

Lemma addDataNodes (l : list (DataNode D)) b s :
  stNodes (foldl (fun s n => addDataNode n b s) s l) = (stNodes s ++ l)%list.
Proof.
  revert s. induction l as [|n l IH]; intros s; [by rewrite app_nil_r|]. cbn [foldl]. rewrite IH. cbn [stNodes addDataNode].
  by rewrite <- app_assoc.
Qed.

Lemma dataParser_ok fuel net slave refresh mode :
  0 <= refresh -> parserOk (fun yData => parseObjectDataNode plugins fuel yData net slave refresh mode).
Proof. intros R yData st L node st' Hy Ok E. by eapply parseObjectDataNode_ok. Qed.

Lemma parseState_ok fuel (yState : N) net slave refresh mode st state st' L :
  within root yState -> 0 <= refresh -> specsOk st.2 L ->
  parseState plugins fuel yState net slave refresh mode st = Ret (state, st') ->
  stateOk state /\ specsOk st'.2 (L ++ stateIdents state)%list.
Proof.
  intros Hy R Ok E. unfold parseState in E. destruct (isDefined yState).
  2: { injection E as <- <-. cbn. rewrite app_nil_r. split; [by repeat split|done]. }
  apply obind_Ret in E as (isMap & _ & E). destruct isMap.
  - apply obind_Ret in E as ((node & s2) & En & E). injection E as <- <-.
    apply (dataParser_ok fuel net slave refresh mode R _ _ _ _ _ Hy Ok) in En as [(W & V & NE) Os].
    destruct (negb (hasConverter node) && isUnnamed node && negb (isScalar node)) eqn:B.
    + assert (NC : getChildNodes node <> []).
      { apply andb_prop in B as [_ B]. unfold isScalar in B. by destruct (getChildNodes node). }
      destruct (leaves_children node NC) as [El Ew]. unfold stateOk, stateIdents. rewrite addDataNodes. cbn [newState stNodes app].
      rewrite <- El, <- Ew. done.
    + unfold stateOk, stateIdents. cbn. rewrite W, app_nil_r. done.
  - apply obind_Ret in E as (isList & _ & E). destruct isList; [|by apply configError_Ret in E].
    apply obind_Ret in E as (size & _ & E). apply obind_Ret in E as (((s1 & b) & s2) & El & E). injection E as <- <-.
    destruct (fun F Ok => nodes_loop stNodes _ _ 0 size _ _ L (fun acc i acc' => stateRound_step _ yState acc i acc' Hy)
                (dataParser_ok fuel net slave refresh mode R) F Ok El) as (F & O & _).
    + by apply Forall_nil.
    + cbn. by rewrite app_nil_r.
    + cbn [fst snd] in *. destruct (nodes_state s1 F) as [? ->]. done.
Qed.

Lemma parseAvailability_ok fuel (yState yAvail : N) net slave refresh mode specs v avail specs' L :
  within root yAvail -> 0 <= refresh -> specsOk specs L ->
  parseAvailability plugins fuel yState yAvail net slave refresh mode specs = Ret (v, avail, specs') ->
  stateOk avail /\ specsOk specs' (L ++ stateIdents avail)%list.
Proof.
  intros Hy R Ok E. unfold parseAvailability in E. apply obind_Ret in E as (av & _ & E).
  apply obind_Ret in E as (isMap & _ & E). destruct isMap; [|by apply configError_Ret in E].
  apply obind_Ret in E as ((node & s2) & En & E).
  apply (dataParser_ok fuel net slave refresh mode R _ _ L) in En as [(W & V & NE) Os]; [|done..].
  destruct (negb (isScalar node) && negb (hasConverter node)); [by apply configError_Ret in E|].
  injection E as <- <- <-. unfold stateOk, stateIdents. cbn. rewrite W, app_nil_r. done.
Qed.

Lemma parseObject_ok fuel (pData : N) net slave slaveName refresh mode specs o specs' L :
  within root pData -> 0 <= refresh -> specsOk specs L ->
  parseObject plugins fuel pData net slave slaveName refresh mode specs = Ret (o, specs') ->
  objectOk o /\ specsOk specs' (L ++ objectIdents o)%list.
Proof.
  intros Hd R Ok E. unfold parseObject in E.
  apply obind_Ret in E as (t1 & _ & E). apply obind_Ret in E as (t2 & _ & E).
  apply obind_Ret in E as (ret & _ & E). apply obind_Ret in E as (yState & Ey & E).
  apply obind_Ret in E as (m & _ & E). apply obind_Ret in E as ((state & st) & Es & E).
  assert (Hs : within root yState) by (by eapply within_child).
  apply (parseState_ok _ _ _ _ _ _ _ _ _ L Hs R) in Es as [Sok Os]; [|done].
  apply obind_Ret in E as (yAvail & Ev & E). destruct (isDefined yAvail); cbn [negb] in E.
  - apply obind_Ret in E as (((v & avail) & sp) & Ea & E). injection E as <- <-.
    assert (Ha : within root yAvail) by (eapply within_child; [exact Hd|done]).
    apply (parseAvailability_ok _ _ _ _ _ _ _ _ _ _ _ _ Ha R Os) in Ea as [Aok Oa].
    split; [split; [done|by split]|]. eapply specsOk_ext; [|exact Oa]. intros i.
    unfold objectIdents, objectLeaves, stateIdents. cbn [buildObject mAvailability mState].
    rewrite fmap_app, !elem_of_app. tauto.
  - injection E as <- <-. split; [split; [done|by split]|]. eapply specsOk_ext; [|exact Os]. intros i.
    unfold objectIdents, objectLeaves, stateIdents. cbn. rewrite !elem_of_app. tauto.
Qed.

(** * Commands *)

Definition commandId (e : string * MqttObjectCommand D) : Z := mCommandId (commandBase e.2).

(** Commands under their topics, with different ids below the next one. *)
Record commandsOk (st : CommandState (D := D)) : Prop := mkCommandsOk {
  co_next : 1 <= st.1;
  co_ids : Forall (fun e => 1 <= commandId e < st.1) st.2;
  co_topics : Forall (fun e => e.1 = commandTopic e.2) st.2;
  co_nodup : NoDup (commandId <$> st.2)
}.

Lemma insertCommand_perm (cmd : MqttObjectCommand D) l :
  MqttClient.insertCommand cmd l = l \/ MqttClient.insertCommand cmd l ≡ₚ (commandTopic cmd, cmd) :: l.
Proof.
  induction l as [|[t x] l IH]; cbn [MqttClient.insertCommand]; [by right|].
  case_bool_decide; [by left|]. destruct (String.ltb _ _); [by right|].
  destruct IH as [->|IH]; [by left|right]. rewrite IH. apply perm_swap.
Qed.

Lemma addParsedCommand_ok prefix net slave st (node : N) st' :
  commandsOk st -> addParsedCommand plugins prefix net slave st node = Ret st' -> commandsOk st'.
Proof.
  intros [P I T ND] E. unfold addParsedCommand in E. apply obind_Ret in E as (cmd & Ec & E). injection E as <-.
  assert (Ei : mCommandId (commandBase cmd) = st.1).
  { unfold parseObjectCommand in Ec. do 8 (apply obind_Ret in Ec as (? & _ & Ec)). by injection Ec as <-. }
  assert (I' : Forall (fun e => 1 <= commandId e < st.1 + 1) st.2).
  { eapply Forall_impl; [exact I|]. cbn. lia. }
  destruct (insertCommand_perm cmd st.2) as [Eq|Pm].
  - split; cbn [fst snd]; rewrite ?Eq; try done. lia.
  - split; cbn [fst snd]; [lia| | |]; rewrite Pm.
    + constructor; [|done]. unfold commandId. cbn. lia.
    + by constructor.
    + cbn [fmap list_fmap]. constructor; [|done]. intros X. apply list_elem_of_fmap in X as (e & Ee & He).
      rewrite Forall_forall in I. apply I in He. unfold commandId in *. cbn in Ee. lia.
Qed.

Lemma parseObjectCommands_ok prefix (commands : N) net slave st st' :
  commandsOk st -> parseObjectCommands plugins prefix commands net slave st = Ret st' -> commandsOk st'.
Proof.
  intros Ok E. unfold parseObjectCommands in E. destruct (isDefined commands); [|by injection E as <-].
  apply obind_Ret in E as (isMap & _ & E). destruct isMap; [by eapply addParsedCommand_ok|].
  apply obind_Ret in E as (isList & _ & E). destruct isList; [|by injection E as <-].
  apply obind_Ret in E as (size & _ & E). revert E. apply foldM_inv; [|done].
  intros i y y' _ Iy F. apply obind_Ret in F as (node & _ & F). by eapply addParsedCommand_ok.
Qed.

(** * The objects of a configuration *)

Record objectsOk (st : ObjectsInit (D := D)) : Prop := mkObjectsOk {
  oo_specs : specsOk (oiSpecs st) (flat_map objectIdents (oiObjects st));
  oo_objects : Forall objectOk (oiObjects st);
  oo_topics : NoDup (mTopic <$> oiObjects st);
  oo_commands : commandsOk (oiCommands st)
}.

Lemma initObject_ok fuel (objdata : N) net slaveName refresh mode slave st st' :
  within root objdata -> 0 <= refresh -> objectsOk st ->
  initObject plugins fuel objdata net slaveName refresh mode slave st = Ret st' -> objectsOk st'.
Proof.
  intros Hd R [Os Oo Ot Oc] E. unfold initObject in E. apply obind_Ret in E as ((o & specs) & Eo & E).
  apply (parseObject_ok _ _ _ _ _ _ _ _ _ _ _ Hd R Os) in Eo as [Ook Sok].
  destruct (existsb _ (oiObjects st)) eqn:Ex; [by apply configError_Ret in E|].
  apply obind_Ret in E as (cs & _ & E). apply obind_Ret in E as (cmds & Ec & E). injection E as <-.
  split; cbn [oiSpecs oiObjects oiCommands].
  - rewrite flat_map_app. cbn [flat_map]. by rewrite app_nil_r.
  - apply Forall_app. split; [done|]. by apply Forall_singleton.
  - rewrite fmap_app. apply NoDup_app. split; [done|]. split; [|apply NoDup_singleton].
    intros t Ht Ht'. apply list_elem_of_fmap in Ht as (old & -> & Hold).
    cbn in Ht'. apply list_elem_of_singleton in Ht'. apply not_true_iff_false in Ex. apply Ex.
    apply existsb_exists. exists old. split; [by apply list_elem_of_In|by apply bool_decide_eq_true].
  - by eapply parseObjectCommands_ok.
Qed.

Lemma initObjectEntry_ok fuel networks slaveName dflt mode st (objdata : N) st' :
  within root objdata -> 0 <= dflt -> objectsOk st ->
  initObjectEntry plugins fuel networks slaveName dflt mode st objdata = Ret st' -> objectsOk st'.
Proof.
  intros Hd R Ok E. unfold initObjectEntry in E. apply obind_Ret in E as (r & Er & E).
  assert (R' : 0 <= default dflt r) by (destruct r as [v|]; [apply readDelay in Er; cbn in Er |- *; lia|done]).
  apply obind_Ret in E as (ns & _ & E). apply obind_Ret in E as (ss & _ & E).
  revert E. apply foldM_inv; [|done]. intros net y y' _ Iy F. unfold initObjectNetwork in F.
  destruct (_ && _); [by apply errorAt_Ret in F|].
  apply obind_Ret in F as ((created & z) & F & G). injection G as <-.
  revert F. apply (foldM_inv (fun acc => objectsOk acc.2)); [|done].
  intros [first last] [c1 s1] acc' _ I1 F. unfold initSlaveRange in F.
  destruct (_ && _); [by apply errorAt_Ret in F|].
  revert F. apply (foldM_inv (fun acc => objectsOk acc.2)); [|done].
  intros sl [c2 s2] acc2 _ I2 F. case_bool_decide.
  - by apply errorAt_Ret in F.
  - apply obind_Ret in F as (s3 & F & G). injection G as <-. by eapply initObject_ok.
Qed.

Lemma initObjects_ok fuel networks slaveName oi :
  initObjects plugins fuel networks slaveName [] root = Ret oi -> objectsOk oi.
Proof.
  unfold initObjects. intros E. apply obind_Ret in E as (mqtt & Em & E).
  destruct (isDefined mqtt); [|by apply configError_Ret in E]. cbn [negb] in E.
  apply obind_Ret in E as (r & Er & E).
  assert (R' : 0 <= default 5000 r) by (destruct r as [v|]; [apply readDelay in Er; cbn in Er |- *; lia|done]).
  apply obind_Ret in E as (mode & _ & E). apply obind_Ret in E as (objects & Eo & E).
  destruct (isDefined objects); [|by apply configError_Ret in E]. cbn [negb] in E.
  apply obind_Ret in E as (isList & _ & E). destruct isList; [|by apply configError_Ret in E]. cbn [negb] in E.
  apply obind_Ret in E as (size & _ & E). revert E. apply foldM_inv.
  - intros i y y' _ Iy F. apply obind_Ret in F as (objdata & Ed & F). eapply initObjectEntry_ok; [|done..|exact F].
    eapply within_item, Ed. eapply within_child, Eo. by eapply within_child, Em; constructor.
  - split; cbn; [|by constructor|by constructor|].
    + split; [by constructor|by constructor|]. intros i Hi. by apply elem_of_nil in Hi.
    + split; cbn; [lia|by constructor..].
Qed.

End parsing.

(** * The map of polled ranges *)

(** The lexicographic order of the identifiers. *)
Lemma identLess_iff a b :
  identLess a b = true <->
  String.ltb (idNetwork a) (idNetwork b) = true
  \/ (idNetwork a = idNetwork b
      /\ (idSlave a < idSlave b
          \/ (idSlave a = idSlave b
              /\ (idRegister a < idRegister b
                  \/ (idRegister a = idRegister b
                      /\ RegisterType_int (idType a) < RegisterType_int (idType b)))))).
Proof.
  unfold identLess. destruct (String.ltb (idNetwork a) (idNetwork b)) eqn:S1; [tauto|].
  destruct (String.ltb (idNetwork b) (idNetwork a)) eqn:S2.
  - split; [done|]. intros [?|[E _]]; [done|]. rewrite E, string_ltb_irrefl in S2. done.
  - pose proof (string_total _ _ S1 S2) as E.
    destruct (Z.ltb_spec (idSlave a) (idSlave b)); [tauto|].
    destruct (Z.ltb_spec (idSlave b) (idSlave a)); [split; [done|intros [?|[_ ?]]; [done|lia]]|].
    destruct (Z.ltb_spec (idRegister a) (idRegister b)); [split; [intros _; right; split; [done|right; lia]|done]|].
    destruct (Z.ltb_spec (idRegister b) (idRegister a)); [split; [done|intros [?|[_ ?]]; [done|lia]]|].
    rewrite Z.ltb_lt. split; [intros; right; split; [done|right; lia]|intros [?|[_ ?]]; [done|lia]].
Qed.

Lemma identLess_trans a b c : identLess a b = true -> identLess b c = true -> identLess a c = true.
Proof.
  rewrite !identLess_iff. intros [H1|[E1 H1]] [H2|[E2 H2]].
  - left. rewrite string_ltb_lt in *. by eapply string_compare_trans.
  - left. by rewrite <- E2.
  - left. by rewrite E1.
  - right. split; [congruence|lia].
Qed.

Lemma identLess_irrefl a : identLess a a = false.
Proof. apply not_true_iff_false. rewrite identLess_iff, string_ltb_irrefl. intros [?|[_ ?]]; [done|lia]. Qed.

Lemma identLess_total a b : identLess a b = false -> identLess b a = false -> a = b.
Proof.
  intros H1%not_true_iff_false H2%not_true_iff_false. rewrite identLess_iff in H1, H2.
  destruct a as [na sa ra ta], b as [nb sb rb tb]. cbn in *.
  assert (na = nb) as -> by (apply string_total; apply not_true_iff_false; tauto).
  assert (G : sa = sb /\ ra = rb /\ RegisterType_int ta = RegisterType_int tb).
  { split; [|split]; apply dec_stable; intros X; (destruct (Z.lt_total sa sb) as [?|[?|?]];
      destruct (Z.lt_total ra rb) as [?|[?|?]];
      destruct (Z.lt_total (RegisterType_int ta) (RegisterType_int tb)) as [?|[?|?]]); tauto || naive_solver. }
  destruct G as (-> & -> & T). f_equal. by destruct ta, tb.
Qed.

Definition identMap : Type := list (RegisterIdent * list ptr).
Definition identSorted (m : identMap) : Prop := StronglySorted (fun a b => identLess a.1 b.1 = true) m.
Definition identLookup (i : RegisterIdent) (m : identMap) : option (list ptr) :=
  snd <$> find (fun e => bool_decide (e.1 = i)) m.

Lemma identLookup_cons i j l m :
  identLookup i ((j, l) :: m) = if decide (i = j) then Some l else identLookup i m.
Proof.
  unfold identLookup. cbn [find fst]. case_decide as E; [by rewrite bool_decide_true|].
  rewrite bool_decide_false; [done|]. intros X. by apply E.
Qed.

Lemma identLookup_below i (m : identMap) :
  Forall (fun e => identLess i e.1 = true) m -> identLookup i m = None.
Proof.
  induction 1 as [|[j l] m L F IH]; [done|]. rewrite identLookup_cons, IH. cbn in L.
  case_decide as E; [|done]. rewrite E, identLess_irrefl in L. done.
Qed.

Lemma addPollObject_keys i p (m : identMap) e :
  e ∈ addPollObject i p m -> e.1 = i \/ exists l, (e.1, l) ∈ m.
Proof.
  induction m as [|[j l] m IH]; cbn [addPollObject].
  - rewrite list_elem_of_singleton. intros ->. by left.
  - destruct (identLess i j); [|destruct (identLess j i)]; rewrite !elem_of_cons.
    + intros [->|[->|He]]; [by left|right; exists l; by left|right; exists e.2; right; by destruct e].
    + intros [->|He]; [right; exists l; by left|]. destruct (IH He) as [?|[l' ?]]; [by left|right; exists l'; by right].
    + intros [->|He]; [right; exists l; by left|right; exists e.2; right; by destruct e].
Qed.

Lemma addPollObject_sorted i p m : identSorted m -> identSorted (addPollObject i p m).
Proof.
  unfold identSorted. induction m as [|[j l] m IH]; intros S; cbn [addPollObject]; [by repeat constructor|].
  apply StronglySorted_inv in S as [S F]. destruct (identLess i j) eqn:L1.
  - constructor; [by constructor|]. constructor; [done|]. eapply Forall_impl; [exact F|].
    intros e He. by eapply identLess_trans.
  - destruct (identLess j i) eqn:L2; [|by constructor].
    constructor; [by apply IH|]. apply Forall_forall. intros e He. cbn.
    destruct (addPollObject_keys i p m e He) as [->|[l' Hl]]; [done|].
    rewrite Forall_forall in F. exact (F _ Hl).
Qed.

(** mappedPollObjects[ident].push_back(optr) is what it says. *)
Lemma addPollObject_lookup i p m j :
  identSorted m ->
  identLookup j (addPollObject i p m)
  = if decide (j = i) then Some (default [] (identLookup i m) ++ [p])%list else identLookup j m.
Proof.
  unfold identSorted. induction m as [|[k l] m IH]; intros S; cbn [addPollObject]; [by rewrite identLookup_cons|].
  apply StronglySorted_inv in S as [S F]. destruct (identLess i k) eqn:L1.
  - rewrite identLookup_cons. case_decide; [|done]. rewrite (identLookup_below i); [done|].
    constructor; [done|]. eapply Forall_impl; [exact F|]. intros e He. by eapply identLess_trans.
  - destruct (identLess k i) eqn:L2; rewrite !identLookup_cons.
    + rewrite IH by done. assert (NE : i <> k) by (intros ->; by rewrite identLess_irrefl in L2).
      rewrite (decide_False (P := i = k)) by done.
      case_decide as E; [|done]. rewrite decide_False by congruence. done.
    + assert (i = k) as -> by (by apply identLess_total). rewrite (decide_True (P := k = k)) by done.
      by destruct (decide (j = k)).
Qed.

(** * Which objects a message is for *)

Section mapping.
Context {D : Type} `{CDouble D}.

Definition pollHas (m : identMap) (i : RegisterIdent) (k : ptr) : Prop :=
  exists l, identLookup i m = Some l /\ k ∈ l.
Definition commandHas (m : list (Z * list ptr)) (id : Z) (k : ptr) : Prop :=
  exists l, smap_find id m = Some l /\ k ∈ l.

Lemma stateRegisterIn_leaves net b (s : ObjectState D) :
  forallb wfNode (stNodes s) = true ->
  stateRegisterIn net b s = Ret (existsb (covered net b) (flat_map leaves (stNodes s))).
Proof.
  unfold stateRegisterIn. induction (stNodes s) as [|n l IH]; [done|]. cbn [forallb flat_map anyNode].
  intros [W F]%andb_prop. rewrite hasRegisterIn_leaves, existsb_app by done. cbn [obind].
  destruct (existsb _ (leaves n)); cbn [orb]; [done|by apply IH].
Qed.

(** The question hasRegisterIn has an answer for every object the parser builds. *)
Lemma objectRegisterIn_leaves net b (o : MqttObject D) :
  objectOk o -> objectRegisterIn net b o = Ret (existsb (covered net b) (objectLeaves o)).
Proof.
  intros (_ & [Ws _] & [Wa _]). unfold objectRegisterIn, objectLeaves.
  rewrite !stateRegisterIn_leaves, existsb_app by done. cbn [obind].
  destruct (existsb _ (flat_map leaves (stNodes (mState o)))) eqn:E; cbn.
  - by rewrite orb_true_r.
  - by rewrite orb_false_r.
Qed.

Lemma identIn_registerIn (o : MqttObject D) p i :
  objectOk o -> i ∈ objectIdents o -> identIn p i ->
  objectRegisterIn (idNetwork i) (pollBase p) o = Ret true.
Proof.
  intros Ok Hi (S & T & R). rewrite objectRegisterIn_leaves by done. f_equal.
  apply existsb_exists. apply list_elem_of_fmap in Hi as (iv & -> & Hiv). exists iv.
  split; [by apply list_elem_of_In|]. unfold covered, sameSlave.
  unfold PollSpec.pollSlave, PollSpec.pollRange in *. rewrite S, T, Z.eqb_refl, !bool_decide_true by done.
  unfold ModbusRange.firstRegister in R. destruct R as [R1%Z.leb_le R2%Z.leb_le]. by rewrite R1, R2.
Qed.

(** ** Polled ranges *)

Lemma addPollObject_has i p m j k :
  identSorted m -> pollHas (addPollObject i p m) j k <-> (j = i /\ k = p) \/ pollHas m j k.
Proof.
  intros S. unfold pollHas. rewrite addPollObject_lookup by done. case_decide as E.
  - subst j. split.
    + intros (l & [= <-] & [Hk|Hk%list_elem_of_singleton]%elem_of_app); [|by left].
      right. destruct (identLookup i m) as [l|]; [by exists l|by apply elem_of_nil in Hk].
    + intros [[_ ->]|(l & -> & Hk)]; (eexists; split; [done|]); apply elem_of_app; [right; left|by left].
  - naive_solver.
Qed.

(** One round of the loops keeps the map sorted and what is in it. *)
Definition keeps (m m' : identMap) : Prop :=
  identSorted m' /\ forall i k, pollHas m i k -> pollHas m' i k.

Lemma mapPoll_keeps net (o : MqttObject D) k m rit m' :
  identSorted m -> mapPoll net o k m rit = Ret m' -> keeps m m'.
Proof.
  intros S E. unfold mapPoll in E. apply obind_Ret in E as (b & _ & E). injection E as <-.
  destruct b; [|by split]. split; [by apply addPollObject_sorted|]. intros i j Hk. apply addPollObject_has; auto.
Qed.

Lemma mapSpec_keeps (o : MqttObject D) k m sit m' :
  identSorted m -> mapSpec o k m sit = Ret m' -> keeps m m'.
Proof.
  intros S E. revert E. apply (foldM_inv (keeps m)); [|by split].
  intros rit y y' _ [Sy Ky] F. destruct (mapPoll_keeps _ _ _ _ _ _ Sy F) as [S' K']. split; auto.
Qed.

Lemma mapObject_keeps specs commands m (op : ptr * MqttObject D) m' :
  identSorted m.1 -> mapObject specs commands m op = Ret m' -> keeps m.1 m'.1.
Proof.
  intros S E. destruct op as [k o]. unfold mapObject in E. apply obind_Ret in E as (polls & Ep & E).
  apply obind_Ret in E as (cmds & _ & E). injection E as <-. cbn [fst]. revert Ep.
  apply (foldM_inv (keeps m.1)); [|by split].
  intros sit y y' _ [Sy Ky] F. destruct (mapSpec_keeps _ _ _ _ _ Sy F) as [S' K']. split; auto.
Qed.

Lemma addressed_elem (objects : list (MqttObject D)) k o :
  (k, o) ∈ addressed objects <-> exists n, k = Z.of_nat n /\ objects !! n = Some o.
Proof.
  unfold addressed. rewrite elem_of_lookup_imap. split.
  - intros (n & o' & E & L). injection E as -> ->. eauto.
  - intros (n & -> & L). eauto.
Qed.

(** An object with a register in a polled range is in the list of the range. *)
Lemma mapObjects_reach specs commands (objects : list (MqttObject D)) maps n o s p :
  objects !! n = Some o -> s ∈ specs -> p ∈ PollSpec.mRegisters s ->
  objectRegisterIn (PollSpec.mNetworkName s) (pollBase p) o = Ret true ->
  mapObjects specs commands objects = Ret maps ->
  pollHas maps.1 (identOf (PollSpec.mNetworkName s) (pollBase p)) (Z.of_nat n).
Proof.
  intros Ho Hs Hp Hin. unfold mapObjects. set (i := identOf _ _).
  apply (foldM_reach (fun m => identSorted m.1) (fun m => pollHas m.1 i (Z.of_nat n)) _ _ (Z.of_nat n, o)).
  - apply addressed_elem. eauto.
  - intros z y y' _ Sy F. destruct (mapObject_keeps _ _ _ _ _ Sy F). auto.
  - intros y y' Sy F. unfold mapObject in F. apply obind_Ret in F as (polls & Ep & F).
    apply obind_Ret in F as (cmds & _ & F). injection F as <-. cbn [fst]. revert Ep.
    apply (foldM_reach identSorted (fun m => pollHas m i (Z.of_nat n)) _ _ s); [done| | |done].
    + intros z a a' _ Sa F. destruct (mapSpec_keeps _ _ _ _ _ Sa F). auto.
    + intros a a' Sa. apply (foldM_reach identSorted (fun m => pollHas m i (Z.of_nat n)) _ _ p); [done| | |done].
      * intros z b b' _ Sb F. destruct (mapPoll_keeps _ _ _ _ _ _ Sb F). auto.
      * intros b b' Sb F. unfold mapPoll in F. rewrite Hin in F. injection F as <-.
        apply addPollObject_has; [done|]. by left.
  - cbn. constructor.
Qed.

(** ** Commands *)

Lemma commandHas_alter m id k j q :
  smap_wf m ->
  commandHas (smap_alter [] (fun l => l ++ [k])%list id m) j q <-> (j = id /\ q = k) \/ commandHas m j q.
Proof.
  intros W. unfold commandHas. rewrite smap_find_alter by done. case_decide as E.
  - subst j. split.
    + intros (l & [= <-] & [Hk|Hk%list_elem_of_singleton]%elem_of_app); [|by left].
      right. destruct (smap_find id m) as [l|]; [by exists l|by apply elem_of_nil in Hk].
    + intros [[_ ->]|(l & -> & Hk)]; (eexists; split; [done|]); apply elem_of_app; [right; left|by left].
  - naive_solver.
Qed.

(** The rounds of the loop over the commands, on a map that is right so far for the
    commands [done]: the object is in the lists of exactly the commands that write
    one of its registers. *)
Lemma mapCommands_exact (o : MqttObject D) k (commands : list (string * MqttObjectCommand D)) m :
  objectOk o -> Forall (fun e => 0 < commandId e) commands -> smap_wf m ->
  exists m', foldM (mapCommand o k) commands m = Ret m' /\ smap_wf m'
    /\ (forall id q, commandHas m' id q <->
          commandHas m id q
          \/ (q = k /\ exists e, e ∈ commands /\ commandId e = id
                /\ objectRegisterIn (commandNetwork e.2) (commandBase e.2) o = Ret true)).
Proof.
  intros Ok F. revert m. induction F as [|e l P F IH]; intros m W.
  { exists m. split; [done|]. split; [done|]. intros id q. split; [by left|].
    intros [?|(_ & e & He & _)]; [done|]. by apply elem_of_nil in He. }
  cbn [foldM]. unfold mapCommand at 1. rewrite objectRegisterIn_leaves by done. cbn [obind].
  destruct (existsb _ (objectLeaves o)) eqn:Ex.
  - unfold commandId in P. destruct (Z.ltb_spec 0 (mCommandId (commandBase e.2))); [|lia]. cbn [obind].
    destruct (IH (smap_alter [] (fun l => l ++ [k])%list (mCommandId (commandBase e.2)) m)) as (m' & E & W' & S);
      [by apply smap_alter_wf|].
    exists m'. split; [done|]. split; [done|]. intros id q. rewrite S, commandHas_alter by done.
    setoid_rewrite elem_of_cons. split.
    + intros [[[-> ->]|?]|(-> & e' & He & ?)]; [right; split; [done|]|by left|right; split; [done|]; exists e'; auto].
      exists e. split; [by left|]. split; [done|]. by rewrite objectRegisterIn_leaves, Ex.
    + intros [?|(-> & e' & [->|He] & Ei & Er)]; [left; by right|left; left; by rewrite <- Ei|right; eauto].
  - cbn [obind]. destruct (IH m W) as (m' & E & W' & S). exists m'. split; [done|]. split; [done|].
    intros id q. rewrite S. setoid_rewrite elem_of_cons. split.
    + intros [?|(-> & e' & He & ?)]; [by left|right; split; [done|]; exists e'; auto].
    + intros [?|(-> & e' & [->|He] & Ei & Er)]; [by left| |right; eauto].
      rewrite objectRegisterIn_leaves, Ex in Er by done. done.
Qed.

(** The polled ranges are asked of every object without a fault. *)
Lemma mapSpecs_total (o : MqttObject D) k specs m :
  objectOk o -> exists m', foldM (mapSpec o k) specs m = Ret m'.
Proof.
  intros Ok. destruct (foldM_total (fun _ => True) (mapSpec o k) specs m) as (m' & E & _); [|done|by exists m'].
  intros s y _ _. destruct (foldM_total (fun _ => True) (mapPoll (PollSpec.mNetworkName s) o k) (PollSpec.mRegisters s) y)
    as (y' & E & _); [|done|by exists y'].
  intros p z _ _. unfold mapPoll. rewrite objectRegisterIn_leaves by done. cbn [obind]. eauto.
Qed.

(** Both maps are built, and the second one lists for every command exactly the
    objects with a register the command writes. *)
Lemma mapObjects_commands specs commands (objects : list (MqttObject D)) :
  Forall objectOk objects -> Forall (fun e => 0 < commandId e) commands ->
  exists maps, mapObjects specs commands objects = Ret maps
    /\ forall id q, commandHas maps.2 id q <->
         exists n o e, q = Z.of_nat n /\ objects !! n = Some o /\ e ∈ commands /\ commandId e = id
           /\ objectRegisterIn (commandNetwork e.2) (commandBase e.2) o = Ret true.
Proof.
  intros Fo Fc. unfold mapObjects.
  assert (G : forall l m, (forall k o, (k, o) ∈ l -> objectOk o) -> smap_wf m.2 ->
            exists maps, foldM (mapObject specs commands) l m = Ret maps
              /\ forall id q, commandHas maps.2 id q <->
                   commandHas m.2 id q
                   \/ exists o e, (q, o) ∈ l /\ e ∈ commands /\ commandId e = id
                        /\ objectRegisterIn (commandNetwork e.2) (commandBase e.2) o = Ret true).
  { induction l as [|[k o] l IH]; intros m Hl W.
    { exists m. split; [done|]. intros id q. split; [by left|].
      intros [?|(o & e & Hq & _)]; [done|by apply elem_of_nil in Hq]. }
    cbn [foldM]. unfold mapObject at 1. assert (Ok : objectOk o) by (apply (Hl k); by left).
    destruct (mapSpecs_total o k specs m.1 Ok) as [polls ->]. cbn [obind].
    destruct (mapCommands_exact o k commands m.2 Ok Fc W) as (cm & -> & Wc & S). cbn [obind].
    destruct (IH (polls, cm)) as (maps & E & Sm); [intros k' o' Hk; apply (Hl k'); by right|done|].
    exists maps. split; [done|]. intros id q. rewrite Sm. cbn [snd]. rewrite S.
    setoid_rewrite elem_of_cons. split.
    - intros [[?|(-> & e & He & ?)]|(o' & e & Ho & ?)]; [by left|right; exists o, e; auto|right; exists o', e; auto].
    - intros [?|(o' & e & [[= -> ->]|Ho] & He & ?)]; [by left; left|left; right; eauto|right; exists o', e; auto]. }
  destruct (G (addressed objects) ([], [])) as (maps & E & S).
  - intros k o (n & _ & Hn)%addressed_elem. by eapply Forall_lookup_1.
  - constructor.
  - exists maps. split; [done|]. intros id q. rewrite S. setoid_rewrite addressed_elem. cbn [snd]. split.
    + intros [(l & ? & ?)|(o & e & (n & -> & ?) & ?)]; [done|]. by exists n, o, e.
    + intros (n & o & e & -> & Hn & He). right. exists o, e. split; [eauto|done].
Qed.

End mapping.

(** * Joining poll groups and objects *)

(** An entry of a poll group: no refresh period of its own. *)
Definition groupEntry (p : MsgRegisterPoll) : Prop :=
  mCommandId (pollBase p) = 0 /\ mRefreshMsec p = PollSpec.INVALID_REFRESH
  /\ ModbusRange.nonempty (PollSpec.pollRange p).
Definition groupSpec (s : PollSpec.MsgRegisterPollSpecification) : Prop :=
  Forall groupEntry (PollSpec.mRegisters s) /\ PollSpec.disjoint (PollSpec.mRegisters s).

(** An entry of the final specification: if it will be polled, a register of [L] is
    read by it. *)
Definition finalEntry (net : string) (L : list RegisterIdent) (p : MsgRegisterPoll) : Prop :=
  mCommandId (pollBase p) = 0 /\ ModbusRange.nonempty (PollSpec.pollRange p)
  /\ (PollSpec.refreshValid p -> 0 <= mRefreshMsec p /\ anchored net L p).
Definition finalSpec (L : list RegisterIdent) (s : PollSpec.MsgRegisterPollSpecification) : Prop :=
  Forall (finalEntry (PollSpec.mNetworkName s) L) (PollSpec.mRegisters s)
  /\ PollSpec.disjoint (PollSpec.mRegisters s).

(** Both are kept by merging entries of their kind. *)
Lemma merge_keeps (P : MsgRegisterPoll -> Prop) s poll :
  (forall p, P p -> ModbusRange.nonempty (PollSpec.pollRange p)) ->
  (forall p q, P p -> P q -> PollSpec.pollSlave p = PollSpec.pollSlave q ->
     mRegisterType (PollSpec.pollRange p) = mRegisterType (PollSpec.pollRange q) -> P (PollSpec.mergePoll p q)) ->
  Forall P (PollSpec.mRegisters s) -> PollSpec.disjoint (PollSpec.mRegisters s) -> P poll ->
  Forall P (PollSpec.mRegisters (PollSpec.merge s poll))
  /\ PollSpec.disjoint (PollSpec.mRegisters (PollSpec.merge s poll)).
Proof.
  intros NE St F Dj Pp. split; [by apply PollSpec.merge_Forall|].
  apply PollSpec.merge_disjoint; [|by apply NE|done]. eapply Forall_impl; [exact F|]. exact NE.
Qed.

Lemma mergeList_keeps (P : MsgRegisterPoll -> Prop) s l :
  (forall p, P p -> ModbusRange.nonempty (PollSpec.pollRange p)) ->
  (forall p q, P p -> P q -> PollSpec.pollSlave p = PollSpec.pollSlave q ->
     mRegisterType (PollSpec.pollRange p) = mRegisterType (PollSpec.pollRange q) -> P (PollSpec.mergePoll p q)) ->
  Forall P (PollSpec.mRegisters s) -> PollSpec.disjoint (PollSpec.mRegisters s) -> Forall P l ->
  Forall P (PollSpec.mRegisters (PollSpec.mergeList s l))
  /\ PollSpec.disjoint (PollSpec.mRegisters (PollSpec.mergeList s l)).
Proof.
  intros NE St F Dj Fl. revert s F Dj. induction Fl as [|p l Pp Fl IH]; intros s F Dj; [done|].
  cbn [PollSpec.mergeList foldl]. destruct (merge_keeps P s p NE St F Dj Pp). by apply IH.
Qed.

Lemma groupEntry_merge p q : groupEntry p -> groupEntry q -> groupEntry (PollSpec.mergePoll p q).
Proof.
  intros (Cp & Rp & Np) (_ & Rq & _). split; [done|]. split; [|by apply PollSpec.mergePoll_nonempty].
  cbn. by rewrite Rp, Rq.
Qed.

Lemma mergeList_group s l : groupSpec s -> Forall groupEntry l -> groupSpec (PollSpec.mergeList s l).
Proof.
  intros [F Dj] Fl. apply mergeList_keeps; try done; [by intros p (_ & _ & ?)|].
  intros p q Hp Hq _ _. by apply groupEntry_merge.
Qed.

Lemma mergeRefresh_valid a b :
  PollSpec.mergeRefresh a b <> PollSpec.INVALID_REFRESH ->
  (a <> PollSpec.INVALID_REFRESH /\ (PollSpec.mergeRefresh a b = a \/ PollSpec.mergeRefresh a b = b /\ b <> PollSpec.INVALID_REFRESH))
  \/ (PollSpec.mergeRefresh a b = b /\ b <> PollSpec.INVALID_REFRESH).
Proof.
  unfold PollSpec.mergeRefresh. destruct (Z.eqb_spec a PollSpec.INVALID_REFRESH); [auto|].
  destruct (Z.eqb_spec b PollSpec.INVALID_REFRESH); cbn; [auto|]. destruct (b <? a); auto.
Qed.

Lemma finalEntry_merge net L p q :
  finalEntry net L p -> finalEntry net L q -> PollSpec.pollSlave p = PollSpec.pollSlave q ->
  mRegisterType (PollSpec.pollRange p) = mRegisterType (PollSpec.pollRange q) ->
  finalEntry net L (PollSpec.mergePoll p q).
Proof.
  intros (Cp & Np & Vp) (Cq & Nq & Vq) S T. split; [done|]. split; [by apply PollSpec.mergePoll_nonempty|].
  unfold PollSpec.refreshValid in *. cbn [PollSpec.mergePoll mRefreshMsec]. intros V.
  assert (Aq : anchored net L q -> anchored net L (PollSpec.mergePoll p q)).
  { intros (i & Hi & E & P). exists i. split; [done|]. split; [done|]. by apply PollSpec.polls_mergePoll_r. }
  apply mergeRefresh_valid in V as [[Va [->|[-> Vb]]]|[-> Vb]].
  - destruct (Vp Va). split; [done|by apply anchored_mergePoll].
  - destruct (Vq Vb). split; [done|auto].
  - destruct (Vq Vb). split; [done|auto].
Qed.

(** The specification of a network after the first loop of init. *)
Definition complete (mqtt_specs : list PollSpec.MsgRegisterPollSpecification)
    (s : PollSpec.MsgRegisterPollSpecification) : PollSpec.MsgRegisterPollSpecification :=
  match findSpec (PollSpec.mNetworkName s) mqtt_specs with
  | None => s
  | Some m => PollSpec.mergeList s (PollSpec.mRegisters m)
  end.

Lemma findSpec_Some net specs m :
  findSpec net specs = Some m -> m ∈ specs /\ PollSpec.mNetworkName m = net.
Proof.
  intros E. apply find_some in E as [I B]. apply bool_decide_eq_true in B. by rewrite list_elem_of_In.
Qed.

Lemma complete_name ms s : PollSpec.mNetworkName (complete ms s) = PollSpec.mNetworkName s.
Proof. unfold complete. destruct (findSpec _ ms); [apply PollSpec.mergeList_name|done]. Qed.

Lemma complete_final ms L s : specsOk ms L -> groupSpec s -> finalSpec L (complete ms s).
Proof.
  intros [_ Hs _] [F Dj]. unfold finalSpec. rewrite complete_name.
  assert (G : Forall (finalEntry (PollSpec.mNetworkName s) L) (PollSpec.mRegisters s)).
  { eapply Forall_impl; [exact F|]. intros p (C & R & NE). split; [done|]. split; [done|]. by intros []. }
  unfold complete. destruct (findSpec _ ms) as [m|] eqn:E; [|done].
  apply findSpec_Some in E as [Hm En]. apply mergeList_keeps; try done; [by intros p (_ & ? & _)| |].
  - intros p q Hp Hq S T. by apply finalEntry_merge.
  - rewrite Forall_forall in Hs. specialize (Hs m Hm). unfold specOk in Hs. rewrite En in Hs.
    eapply Forall_impl; [exact Hs|]. intros p (R & C & NE & A). by repeat split.
Qed.

(** A register an object asks for is read by an entry that will be polled. *)
Lemma complete_reads ms L s i :
  specsOk ms L -> i ∈ L -> PollSpec.mNetworkName s = idNetwork i ->
  findSpec (idNetwork i) ms <> None
  /\ Exists (fun p => PollSpec.refreshValid p /\ identIn p i) (PollSpec.mRegisters (complete ms s)).
Proof.
  intros [Nd Hs Hr] Hi En. destruct (Hr i Hi) as (m & Hm & Em & Ex).
  assert (Fm : findSpec (idNetwork i) ms = Some m).
  { clear -Nd Hm Em. unfold findSpec. induction ms as [|m' ms IH]; [by apply elem_of_nil in Hm|]. cbn.
    apply NoDup_cons in Nd as [Nn Nd]. case_bool_decide as E.
    - apply elem_of_cons in Hm as [->|Hm]; [done|]. exfalso. apply Nn. rewrite E, <- Em. by apply list_elem_of_fmap_2.
    - apply elem_of_cons in Hm as [->|Hm]; [done|auto]. }
  unfold complete. rewrite En, Fm. split; [done|].
  assert (V : Forall PollSpec.refreshValid (PollSpec.mRegisters m)).
  { rewrite Forall_forall in Hs. specialize (Hs m Hm). eapply Forall_impl; [exact Hs|]. intros p (R & _).
    unfold PollSpec.refreshValid, PollSpec.INVALID_REFRESH. lia. }
  clear -Ex V. set (P := fun p => PollSpec.refreshValid p /\ identIn p i).
  assert (St : forall t poll, Exists P (PollSpec.mRegisters t) \/ P poll -> Exists P (PollSpec.mRegisters (PollSpec.merge t poll))).
  { intros t poll. apply PollSpec.merge_Exists.
    - intros p q [Vp Ip]. split; [by apply (PollSpec.served_mergePoll_l p q)|by apply PollSpec.polls_mergePoll_l].
    - intros p q [Vq Iq] S T. split; [by apply (PollSpec.served_mergePoll_r p q)|by apply PollSpec.polls_mergePoll_r]. }
  assert (G : forall l t, Exists P (PollSpec.mRegisters t) \/ Exists P l -> Exists P (PollSpec.mRegisters (PollSpec.mergeList t l))).
  { induction l as [|p l IH]; intros t [E|E]; [done|by apply Exists_nil in E|apply IH; left; apply St; by left|].
    apply IH. apply Exists_cons in E as [E|E]; [left; apply St; by right|by right]. }
  apply G. right. apply Exists_exists in Ex as (p & Hp & Ip). apply Exists_exists. exists p.
  split; [done|]. split; [|done]. rewrite Forall_forall in V. by apply V.
Qed.

(** ** The queues of the threads *)

Definition specMessages (c : ModbusClient) (s : PollSpec.MsgRegisterPollSpecification) : Prop :=
  PollSpecification s ∈ mcToModbus c.

Lemma enqueueTo_names net m clients : mcNetworkName <$> enqueueTo net m clients = mcNetworkName <$> clients.
Proof.
  induction clients as [|c l IH]; [done|]. cbn [enqueueTo]. case_bool_decide; cbn [fmap list_fmap]; [done|].
  by f_equal.
Qed.

Lemma enqueueTo_messages net s clients c t :
  c ∈ enqueueTo net (PollSpecification s) clients -> specMessages c t ->
  (t = s /\ mcNetworkName c = net) \/ exists c', c' ∈ clients /\ mcNetworkName c' = mcNetworkName c /\ specMessages c' t.
Proof.
  induction clients as [|d l IH]; cbn [enqueueTo]; [by intros ?%elem_of_nil|].
  case_bool_decide as E; rewrite elem_of_cons; intros [->|Hc] Ht.
  - apply elem_of_app in Ht as [Ht|Ht%list_elem_of_singleton]; [right; exists d; split; [left|done]|].
    injection Ht as ->. by left.
  - right. exists c. split; [by right|done].
  - right. exists d. split; [by left|done].
  - destruct (IH Hc Ht) as [?|(c' & Hc' & ?)]; [by left|right; exists c'; split; [by right|done]].
Qed.

Lemma enqueueTo_keeps net m clients c t :
  c ∈ clients -> specMessages c t ->
  exists c', c' ∈ enqueueTo net m clients /\ mcNetworkName c' = mcNetworkName c /\ specMessages c' t.
Proof.
  induction clients as [|d l IH]; [by intros ?%elem_of_nil|]. cbn [enqueueTo].
  rewrite elem_of_cons. case_bool_decide as E; intros [->|Hc] Ht.
  - exists (enqueue m d). split; [left|]. split; [done|]. apply elem_of_app. by left.
  - exists c. split; [by right|done].
  - exists d. split; [left|done].
  - destruct (IH Hc Ht) as (c' & Hc' & ?). exists c'. split; [by right|done].
Qed.

Lemma enqueueTo_sends net s clients :
  net ∈ mcNetworkName <$> clients ->
  exists c, c ∈ enqueueTo net (PollSpecification s) clients /\ mcNetworkName c = net /\ specMessages c s.
Proof.
  induction clients as [|d l IH]; [by intros ?%elem_of_nil|]. cbn [enqueueTo fmap list_fmap].
  rewrite elem_of_cons. case_bool_decide as E.
  - intros _. exists (enqueue (PollSpecification s) d). split; [left|]. split; [done|]. apply elem_of_app. right. left.
  - intros [?|Hn]; [done|]. destruct (IH Hn) as (c & Hc & ?). exists c. split; [by right|done].
Qed.

(** The first loop of init: every network has its final specification, and those an
    object asks for, and no others, are in the queues of their networks. *)
Lemma completeSpecs_ok ms specs clients :
  let r := completeSpecs ms specs clients in
  r.1 = complete ms <$> specs
  /\ mcNetworkName <$> r.2 = mcNetworkName <$> clients
  /\ (forall c t, c ∈ r.2 -> specMessages c t ->
        (t ∈ r.1 /\ mcNetworkName c = PollSpec.mNetworkName t)
        \/ exists c', c' ∈ clients /\ mcNetworkName c' = mcNetworkName c /\ specMessages c' t)
  /\ (forall s, s ∈ specs -> findSpec (PollSpec.mNetworkName s) ms <> None ->
        PollSpec.mNetworkName s ∈ mcNetworkName <$> clients ->
        exists c, c ∈ r.2 /\ mcNetworkName c = PollSpec.mNetworkName s /\ specMessages c (complete ms s)).
Proof.
  cbn zeta. unfold completeSpecs.
  induction specs as [|s specs IH] using rev_ind.
  { split; [done|]. split; [done|]. split; [intros c t Hc Ht; right; by exists c|]. by intros s ?%elem_of_nil. }
  rewrite foldl_app. cbn [foldl]. destruct (foldl (completeSpec ms) ([], clients) specs) as [dn cl].
  destruct IH as (I1 & I2 & I3 & I4). cbn [fst snd] in *. unfold completeSpec. rewrite fmap_app. cbn [fmap list_fmap].
  assert (Cs : complete ms s = match findSpec (PollSpec.mNetworkName s) ms with
                               | None => s | Some m => PollSpec.mergeList s (PollSpec.mRegisters m) end) by done.
  destruct (findSpec (PollSpec.mNetworkName s) ms) as [m|] eqn:E; cbn [fst snd]; [rewrite <- Cs|].
  - split; [by rewrite I1|]. split; [by rewrite enqueueTo_names|]. split.
    + intros c t Hc Ht. destruct (enqueueTo_messages _ _ _ _ _ Hc Ht) as [[-> En]|(c' & Hc' & En & Ht')].
      * left. split; [apply elem_of_app; right; left|]. by rewrite En, complete_name.
      * destruct (I3 c' t Hc' Ht') as [[Hd ?]|(c2 & H2 & En2 & Ht2)].
        { left. split; [apply elem_of_app; by left|congruence]. }
        right. exists c2. split; [done|]. split; [congruence|done].
    + intros s' Hs' Nf Hn. apply elem_of_app in Hs' as [Hs'|Hs'%list_elem_of_singleton]; [|subst s'].
      * destruct (I4 s' Hs' Nf Hn) as (c & Hc & En & Ht).
        destruct (enqueueTo_keeps (PollSpec.mNetworkName s) (PollSpecification (complete ms s)) _ _ _ Hc Ht) as (c' & Hc' & En' & Ht').
        exists c'. split; [done|]. split; [congruence|done].
      * apply enqueueTo_sends. by rewrite I2.
  - split; [by rewrite I1, Cs|]. split; [done|]. split.
    + intros c t Hc Ht. destruct (I3 c t Hc Ht) as [[Hd ?]|?]; [|by right].
      left. split; [apply elem_of_app; by left|done].
    + intros s' Hs' Nf Hn. apply elem_of_app in Hs' as [Hs'|Hs'%list_elem_of_singleton]; [by apply I4|].
      by rewrite Hs', E in Nf.
Qed.
