(* ===== verification/GatewayProps.v ===== *)
(** The theorems about start-up (ModMqtt::init): the configuration reaches the modbus
    threads and the MQTT client in a consistent way. *)

From stdpp Require Import base gmap list sorting strings.
From Stdlib Require Import ZArith Lia Ascii String.
From S2P Require Import Prelude ModbusTypes PollSpec Commands Config ModbusThread ConvTools ConvArgs StdConv.
From S2P Require Import Converters MqttObject MqttClient Logging YamlConfig ObjectConfig YamlProps YamlTree.
From S2P Require Import GatewayInit InitProps.

#[local] Open Scope string_scope.
#[local] Open Scope Z_scope.

Import MqttObject.

Section startup.
Context {N : Type} `{YamlLaws N}.
Context {D : Type} `{CDouble D}.
Variable env : InitEnv D.

(** * The parts of init that leave the clients and the commands alone *)

(** The commands, the ids of RPC requests and the messages to modbus threads. *)
Definition sameRequests (c c' : Client D) : Prop :=
  cCommands c' = cCommands c /\ cNextRpcId c' = cNextRpcId c
  /\ forall net m, EToModbus net m ∈ cOut c' -> EToModbus net m ∈ cOut c.

Definition sameCore (g g' : ModMqtt D) : Prop :=
  mModbusClients g' = mModbusClients g /\ sameRequests (mMqtt g) (mMqtt g').

Lemma sameCore_refl g : sameCore g g.
Proof. done. Qed.

Lemma rethrowAt_Ret {A} (n : N) (m : outcome A) v : rethrowAt n m = Ret v -> m = Ret v.
Proof.
  unfold rethrowAt. destruct m as [a|f]; [done|]. destruct (MqttClient.exceptionText f); [|done].
  by intros ?%configError_Ret.
Qed.

Lemma addPath_same g (node : N) g' : addPath g node = Ret g' -> sameCore g g'.
Proof. unfold addPath. intros E. bind_inv E. by injection E as <-. Qed.

Lemma addPlugin_same (config : N) g node g' : addPlugin env config g node = Ret g' -> sameCore g g'.
Proof.
  unfold addPlugin. intros E. bind_inv E. destruct x; [|by apply configError_Ret in E]. cbn [negb] in E.
  bind_inv E. apply rethrowAt_Ret in E. bind_inv E. destruct (hasConverterPlugin _ _); [by apply configError_Ret in E|].
  by injection E as <-.
Qed.

Lemma sameRequests_trans c1 c2 c3 : sameRequests c1 c2 -> sameRequests c2 c3 -> sameRequests c1 c3.
Proof. intros (? & ? & ?) (? & ? & ?). split; [congruence|]. split; [congruence|auto]. Qed.

Lemma sameCore_trans g1 g2 g3 : sameCore g1 g2 -> sameCore g2 g3 -> sameCore g1 g3.
Proof. intros [? S] [? T]. split; [congruence|]. by eapply sameRequests_trans. Qed.

Lemma foldM_same {A} (f : ModMqtt D -> A -> outcome (ModMqtt D)) l g g' :
  (forall x y y', f y x = Ret y' -> sameCore y y') -> foldM f l g = Ret g' -> sameCore g g'.
Proof.
  intros St. apply (foldM_inv (sameCore g)); [|apply sameCore_refl].
  intros x y y' _ S F. eapply sameCore_trans; [exact S|by eapply St].
Qed.

Lemma initServer_same (config : N) ov g g' : initServer env config ov g = Ret g' -> sameCore g g'.
Proof.
  unfold initServer. intros E. bind_inv E. destruct (isDefined x); [|by injection E as <-]. cbn [negb] in E.
  apply obind_Ret in E as (g1 & E1 & E). apply obind_Ret in E as (g2 & E2 & E).
  assert (S1 : sameCore g g1).
  { destruct ov; [|by injection E1 as <-]. unfold initLogLevel in E1. bind_inv E1.
    destruct (isDefined _); [|by injection E1 as <-]. bind_inv E1. destruct x1; [|by apply configError_Ret in E1].
    cbn [negb] in E1. bind_inv E1. by injection E1 as <-. }
  assert (S2 : sameCore g1 g2).
  { unfold initPaths in E2. bind_inv E2. destruct (isDefined _); [|by injection E2 as <-]. bind_inv E2. destruct x1.
    - bind_inv E2. revert E2. apply foldM_same. intros i y y' F. bind_inv F. by eapply addPath_same.
    - bind_inv E2. destruct x1; [by eapply addPath_same|by injection E2 as <-]. }
  eapply sameCore_trans; [exact S1|]. eapply sameCore_trans; [exact S2|].
  bind_inv E. destruct (isDefined _); [|by injection E as <-]. bind_inv E. destruct x1; [|by apply configError_Ret in E].
  cbn [negb] in E. bind_inv E. revert E. apply foldM_same. intros i y y' F. bind_inv F. by eapply addPlugin_same.
Qed.

Lemma setClientId_same cid (c c' : Client D) :
  runClient (MqttClient.setClientId (mqttEnv env) cid) c = Ret c' -> sameRequests c c'.
Proof.
  unfold runClient, MqttClient.setClientId, MqttClient.bind, MqttClient.gets, MqttClient.lift, MqttClient.modify, MqttClient.implCall.
  destruct (cStarted c); [done|]. cbn. destruct (envFails _ _); [done|]. intros [= <-]. split; [done|]. split; [done|].
  intros net m. cbn. rewrite elem_of_app, list_elem_of_singleton. by intros [?|?].
Qed.

Lemma setBrokerConfig_same b (c c' : Client D) :
  runClient (MqttClient.setBrokerConfig b) c = Ret c' -> sameRequests c c'.
Proof.
  unfold runClient, MqttClient.setBrokerConfig, MqttClient.bind, MqttClient.gets, MqttClient.when, MqttClient.modify, MqttClient.ret.
  destruct (negb _); by intros [= <-].
Qed.

Lemma initBroker_same (config : N) g g' : initBroker env config g = Ret g' -> sameCore g g'.
Proof.
  unfold initBroker. intros E. bind_inv E. destruct (isDefined x); [|by apply configError_Ret in E]. cbn [negb] in E.
  bind_inv E. apply obind_Ret in E as (c1 & S1 & E). apply setClientId_same in S1. bind_inv E. bind_inv E.
  destruct (isDefined x2); [|by apply configError_Ret in E]. cbn [negb] in E. bind_inv E.
  apply obind_Ret in E as (c2 & S2 & E). apply setBrokerConfig_same in S2. injection E as <-.
  split; [done|]. cbn. by eapply sameRequests_trans; [exact S1|].
Qed.

(** * The modbus section *)

(** A configuration whose counts are positive and whose lists of registers are not empty. *)
Variable config : N.
Hypothesis Positive : positiveCounts config.

Lemma readPollGroup_ok net slave ret (group : N) ret' :
  within config group -> Forall groupEntry ret -> readPollGroup net slave ret group = Ret ret' -> Forall groupEntry ret'.
Proof.
  intros Hg F E. unfold readPollGroup in E. apply obind_Ret in E as (reg & _ & E).
  apply obind_Ret in E as (count & Ec & E). apply obind_Ret in E as (ty & _ & E). injection E as <-.
  apply Forall_app. split; [done|]. apply Forall_singleton. split; [done|]. split; [done|].
  unfold readRequiredValue, readScalar in Ec. bind_inv Ec. destruct (isDefined x); [|by apply configError_Ret in Ec].
  cbn [negb] in Ec. bind_inv Ec. destruct x0; [|by apply configError_Ret in Ec]. cbn [negb] in Ec.
  unfold ModbusRange.nonempty. cbn. pose proof (counts_positive config Positive _ _ _ Hg E Ec). lia.
Qed.

Lemma readModbusPollGroups_ok net slave (groups : N) polls :
  within config groups -> readModbusPollGroups net slave groups = Ret polls -> Forall groupEntry polls.
Proof.
  unfold readModbusPollGroups. intros Hg E. destruct (isDefined groups); [|by injection E as <-]. cbn [negb] in E.
  bind_inv E. destruct x; [|by apply configError_Ret in E]. cbn [negb] in E. bind_inv E. revert E.
  apply foldM_inv; [|by apply Forall_nil]. intros i y y' _ Fy F. bind_inv F. eapply readPollGroup_ok; [|done..]. by eapply within_item.
Qed.

(** A queue that starts with the configuration of its network, followed by messages
    of a kind. *)
Definition configured (P : ToModbus -> Prop) (c : ModbusClient) : Prop :=
  exists nc rest, mcToModbus c = NetworkConfig nc :: rest /\ netName nc = mcNetworkName c
    /\ Forall P rest.
Definition slaveMessage (m : ToModbus) : Prop := match m with SlaveConfig _ => True | _ => False end.
Definition setupMessage (m : ToModbus) : Prop :=
  match m with SlaveConfig _ | PollSpecification _ => True | _ => False end.

(** A client that has been sent its configuration and no specification. *)
Definition quietClient : ModbusClient -> Prop := configured slaveMessage.

Lemma quietClient_spec c s : quietClient c -> ~ specMessages c s.
Proof.
  intros (nc & rest & E & _ & F). unfold specMessages. rewrite E, elem_of_cons.
  intros [?|Hs]; [done|]. rewrite Forall_forall in F. by apply (F _ Hs).
Qed.

Lemma configured_enqueue P c m : P m -> configured P c -> configured P (enqueue m c).
Proof.
  intros Pm (nc & rest & E & En & F). exists nc, (rest ++ [m])%list. cbn. rewrite E. split; [done|].
  split; [done|]. apply Forall_app. split; [done|]. by apply Forall_singleton.
Qed.

Lemma configured_enqueueTo P net m clients :
  P m -> Forall (configured P) clients -> Forall (configured P) (enqueueTo net m clients).
Proof.
  intros Pm F. induction F as [|c l Hc F IH]; [by constructor|]. cbn [enqueueTo].
  case_bool_decide; constructor; try done. by apply configured_enqueue.
Qed.

Lemma completeSpecs_configured ms specs clients :
  Forall quietClient clients -> Forall (configured setupMessage) (completeSpecs ms specs clients).2.
Proof.
  intros F. unfold completeSpecs.
  assert (G : Forall (configured setupMessage) (@nil PollSpec.MsgRegisterPollSpecification, clients).2).
  { cbn. eapply Forall_impl; [exact F|]. intros c (nc & rest & E & En & Fr). exists nc, rest.
    split; [done|]. split; [done|]. eapply Forall_impl; [exact Fr|]. by intros []. }
  revert G. generalize (@nil PollSpec.MsgRegisterPollSpecification, clients) as acc. clear F.
  induction specs as [|s l IH]; intros [dn cl] G; [done|]. cbn [foldl]. apply IH. unfold completeSpec.
  destruct (findSpec _ ms); [|done]. by apply configured_enqueueTo.
Qed.

Definition networkStateOk (net : string) (st : NetworkState) : Prop :=
  let '(client, spec, _) := st in
  mcNetworkName client = net /\ quietClient client /\ PollSpec.mNetworkName spec = net /\ groupSpec spec.

Lemma initSlave_ok net (ySlave : N) st addr st' :
  within config ySlave -> networkStateOk net st -> initSlave net ySlave st addr = Ret st' -> networkStateOk net st'.
Proof.
  destruct st as [[client spec] names]. intros Hs (Nc & Q & Ns & G) E. unfold initSlave in E.
  bind_inv E. bind_inv E. apply obind_Ret in E as (polls & Ep & E). injection E as <-.
  apply readModbusPollGroups_ok in Ep; [|by eapply within_child]. split; [done|]. split; [by apply configured_enqueue|].
  rewrite PollSpec.mergeList_name. split; [done|]. by apply mergeList_group.
Qed.

Lemma initSlaveEntry_ok net st (ySlave : N) st' :
  within config ySlave -> networkStateOk net st -> initSlaveEntry net st ySlave = Ret st' -> networkStateOk net st'.
Proof.
  intros Hs Ok E. unfold initSlaveEntry in E. bind_inv E. revert E. apply foldM_inv; [|done].
  intros [first last] y y' _ Iy F. unfold initAddresses in F. destruct (_ || _); [by apply errorAt_Ret in F|].
  revert F. apply foldM_inv; [|done]. intros a z z' _ Iz G. by eapply initSlave_ok.
Qed.

(** The clients and their poll groups. *)
Record clientsOk (clients : list ModbusClient) (specs : list PollSpec.MsgRegisterPollSpecification) : Prop := mkClientsOk {
  cl_names : PollSpec.mNetworkName <$> specs = mcNetworkName <$> clients;
  cl_quiet : Forall quietClient clients;
  cl_groups : Forall groupSpec specs
}.

Lemma initNetwork_ok acc (network : N) acc' :
  within config network -> clientsOk acc.1 (mPollSpecification acc.2) -> initNetwork acc network = Ret acc' ->
  clientsOk acc'.1 (mPollSpecification acc'.2).
Proof.
  destruct acc as [clients data]. intros Hw [Cn Cq Cg] E. unfold initNetwork in E.
  apply obind_Ret in E as (nc & _ & E). apply obind_Ret in E as (slaves & Esl & E).
  apply obind_Ret in E as (((client & spec) & names) & Es & E).
  assert (Ok : networkStateOk (netName nc) (client, spec, names)).
  { assert (I0 : networkStateOk (netName nc) (startClient nc, PollSpec.newSpec (netName nc), mSlaveNames data)).
    { split; [done|]. split; [by exists nc, []|]. split; [done|].
      split; [by apply Forall_nil|constructor]. }
    cbn zeta in Es. destruct (isDefined slaves); [|by injection Es as <- <- <-]. bind_inv Es. destruct x; [|by apply configError_Ret in Es].
    cbn [negb] in Es. bind_inv Es. revert Es. apply foldM_inv; [|done].
    intros i y y' _ Iy F. bind_inv F. eapply initSlaveEntry_ok; [|done..].
    eapply within_item; [|done]. eapply within_child; [exact Hw|done]. }
  destruct Ok as (Nc & Q & Ns & G). apply obind_Ret in E as (old & Eold & E). apply obind_Ret in E as (spec' & Ep & E). injection E as <-.
  assert (G' : groupSpec spec' /\ PollSpec.mNetworkName spec' = netName nc).
  { destruct (isDefined old); [|by injection Ep as <-]. apply obind_Ret in Ep as (polls & Eg & Ep). injection Ep as <-.
    split; [|by rewrite PollSpec.mergeList_name]. apply mergeList_group; [done|]. eapply readModbusPollGroups_ok; [|done]. eapply within_child; [exact Hw|done]. }
  destruct G' as [G' N']. split; cbn [fst snd mPollSpecification].
  - cbn [fst snd] in Cn. rewrite !fmap_app, Cn. cbn [fmap list_fmap]. by rewrite N', Nc.
  - apply Forall_app. split; [done|]. by apply Forall_singleton.
  - apply Forall_app. split; [done|]. by apply Forall_singleton.
Qed.

Lemma initModbusClients_ok (g g' : ModMqtt D) data :
  mModbusClients g = [] -> initModbusClients config g = Ret (g', data) ->
  clientsOk (mModbusClients g') (mPollSpecification data) /\ sameRequests (mMqtt g) (mMqtt g')
  /\ cNetworks (mMqtt g') = mcNetworkName <$> mModbusClients g'.
Proof.
  intros E0 E. unfold initModbusClients in E. bind_inv E. destruct (isDefined x); [|by apply configError_Ret in E].
  cbn [negb] in E. bind_inv E. destruct (isDefined x0); [|by apply configError_Ret in E]. cbn [negb] in E.
  bind_inv E. destruct x1; [|by apply configError_Ret in E]. cbn [negb] in E. bind_inv E.
  destruct (Nat.eqb x1 0); [by apply configError_Ret in E|]. apply obind_Ret in E as ((clients & d) & Ef & E).
  injection E as <- <-. split; [|done]. cbn [mModbusClients withMqtt withClients].
  change (clientsOk (clients, d).1 (mPollSpecification (clients, d).2)). revert Ef.
  apply (foldM_inv (fun acc => clientsOk acc.1 (mPollSpecification acc.2))).
  - intros i y y' _ Iy F. bind_inv F. eapply initNetwork_ok; [|done..]. by eauto with within.
  - rewrite E0. by split; constructor.
Qed.

(** * init *)

(** A ModMqtt before init: no clients, no commands and no messages yet. *)
Definition newModMqtt (g : ModMqtt D) : Prop :=
  mModbusClients g = [] /\ cCommands (mMqtt g) = [] /\ cNextRpcId (mMqtt g) = 0 /\ cOut (mMqtt g) = [].

(** What init hands to the second half: the objects with their specifications, and
    the clients with their poll groups. *)
Lemma init_parts fuel ov g0 g specs objects :
  newModMqtt g0 -> init env fuel config ov g0 = Ret (g, specs, objects) ->
  exists oi data g1, objectsOk oi /\ clientsOk (mModbusClients g1) (mPollSpecification data)
    /\ cNetworks (mMqtt g1) = mcNetworkName <$> mModbusClients g1
    /\ sameRequests (mMqtt g0) (mMqtt g1)
    /\ connectObjects data oi g1 = Ret (g, specs, objects).
Proof.
  intros (C0 & M0 & _) E. unfold init in E. apply obind_Ret in E as (g1 & E1 & E). apply initServer_same in E1 as [S1 T1].
  apply obind_Ret in E as (g2 & E2 & E). apply initBroker_same in E2 as [S2 T2].
  apply obind_Ret in E as ((g3 & data) & E3 & E). apply initModbusClients_ok in E3 as (Ok & T3 & Nn); [|congruence].
  apply obind_Ret in E as (oi & E4 & E).
  assert (T : sameRequests (mMqtt g0) (mMqtt g3)) by (eapply sameRequests_trans; [exact T1|]; by eapply sameRequests_trans).
  destruct T as (Tc & T'). rewrite Tc, M0 in E4.
  apply (initObjects_ok _ config Positive) in E4. exists oi, data, g3. do 3 (split; [done|]). split; [by split|done].
Qed.

Lemma connectObjects_Ret data (oi : ObjectsInit (D := D)) g1 g specs objects :
  connectObjects data oi g1 = Ret (g, specs, objects) ->
  exists maps clients, completeSpecs (oiSpecs oi) (mPollSpecification data) (mModbusClients g1) = (specs, clients)
    /\ mapObjects specs (oiCommands oi).2 (oiObjects oi) = Ret maps
    /\ objects = oiObjects oi /\ mModbusClients g = clients
    /\ cObjects (mMqtt g) = maps.1 /\ cCommandObjects (mMqtt g) = maps.2
    /\ cStore (mMqtt g) = storeOf objects /\ cCommands (mMqtt g) = (oiCommands oi).2
    /\ cNetworks (mMqtt g) = cNetworks (mMqtt g1)
    /\ cNextRpcId (mMqtt g) = cNextRpcId (mMqtt g1) /\ cOut (mMqtt g) = cOut (mMqtt g1).
Proof.
  unfold connectObjects. destruct (completeSpecs _ _ _) as [sp cl]. intros E.
  apply obind_Ret in E as ((objs & cmds) & Em & E). injection E as <- <- <-.
  by exists (objs, cmds), cl.
Qed.

(** An entry that reads a register of an object has the object in its list. *)
Lemma anchored_object (oi : ObjectsInit (D := D)) specs maps s p :
  objectsOk oi -> mapObjects specs (oiCommands oi).2 (oiObjects oi) = Ret maps ->
  s ∈ specs -> p ∈ PollSpec.mRegisters s ->
  anchored (PollSpec.mNetworkName s) (flat_map objectIdents (oiObjects oi)) p ->
  exists n o i, oiObjects oi !! n = Some o /\ i ∈ objectIdents o
    /\ idNetwork i = PollSpec.mNetworkName s /\ identIn p i
    /\ pollHas maps.1 (identOf (PollSpec.mNetworkName s) (pollBase p)) (Z.of_nat n).
Proof.
  intros [_ Fo _ _] Em Hs Hp (i & Hi & En & Ii).
  apply list_elem_of_In, in_flat_map in Hi as (o & Ho & Hi). apply list_elem_of_In in Ho, Hi.
  apply list_elem_of_lookup in Ho as [n Ho]. exists n, o, i. repeat (split; [done|]).
  eapply mapObjects_reach; [done..| |exact Em]. rewrite <- En. apply identIn_registerIn; [|done..].
  by eapply Forall_lookup_1.
Qed.

Lemma storeOf_lookup (objects : list (MqttObject D)) n o : objects !! n = Some o -> storeOf objects (Z.of_nat n) = o.
Proof. intros E. unfold storeOf. by rewrite Nat2Z.id, E. Qed.

(** What start-up leaves in the queues and in the MQTT client. *)
Lemma init_queues fuel ov g0 g specs objects :
  newModMqtt g0 -> init env fuel config ov g0 = Ret (g, specs, objects) ->
  Forall (configured setupMessage) (mModbusClients g) /\ Forall (fun e => 0 < commandId e) (cCommands (mMqtt g))
  /\ cNextRpcId (mMqtt g) = 0 /\ (forall net m, EToModbus net m ∉ cOut (mMqtt g)).
Proof.
  intros New E. destruct (init_parts _ _ _ _ _ _ New E) as (oi & data & g1 & Oo & [Cn Cq Cg] & _ & Sr & Ec).
  apply connectObjects_Ret in Ec as (maps & clients & Es & _ & _ & -> & _ & _ & _ & -> & _ & -> & ->).
  destruct New as (_ & _ & Nx & Ou). destruct Sr as (_ & -> & Sr). split; [|split; [|split]].
  - pose proof (completeSpecs_configured (oiSpecs oi) (mPollSpecification data) _ Cq) as G. by rewrite Es in G.
  - eapply Forall_impl; [apply Oo|]. cbn. lia.
  - done.
  - intros net m Hm%Sr. rewrite Ou in Hm. by apply elem_of_nil in Hm.
Qed.

(** The specifications in the queues, and the objects of their entries. *)
Lemma init_sent_specs fuel ov g0 g specs objects c s :
  newModMqtt g0 -> init env fuel config ov g0 = Ret (g, specs, objects) ->
  c ∈ mModbusClients g -> PollSpecification s ∈ mcToModbus c ->
  configured setupMessage c /\ PollSpec.mNetworkName s = mcNetworkName c
  /\ PollSpec.wf (PollSpec.mRegisters s) /\ PollSpec.disjoint (PollSpec.mRegisters s)
  /\ forall p, p ∈ PollSpec.mRegisters s ->
       mCommandId (pollBase p) = 0
       /\ (PollSpec.refreshValid p ->
             exists l k i, MqttClient.findObjects (identOf (mcNetworkName c) (pollBase p)) (mMqtt g) = Some l
               /\ k ∈ l /\ i ∈ objectIdents (cStore (mMqtt g) k)
               /\ idNetwork i = mcNetworkName c /\ identIn p i).
Proof.
  intros New E Hc Hs. destruct (init_parts _ _ _ _ _ _ New E) as (oi & data & g1 & Oo & [Cn Cq Cg] & _ & _ & Ec).
  apply connectObjects_Ret in Ec as (maps & clients & Es & Em & -> & Ecl & Eo & _ & Est & _ & _ & _).
  destruct (completeSpecs_ok (oiSpecs oi) (mPollSpecification data) (mModbusClients g1)) as (P1 & _ & P3 & _).
  rewrite Es in P1, P3. cbn [fst snd] in *. rewrite Ecl in Hc.
  destruct (P3 c s Hc Hs) as [[Hin En]|(c' & Hc' & _ & Hq)].
  2: { rewrite Forall_forall in Cq. by destruct (quietClient_spec c' s (Cq c' Hc')). }
  assert (F : finalSpec (flat_map objectIdents (oiObjects oi)) s).
  { rewrite P1 in Hin. apply list_elem_of_fmap in Hin as (s0 & -> & Hs0). apply complete_final; [apply Oo|].
    rewrite Forall_forall in Cg. by apply Cg. }
  assert (Cf : configured setupMessage c).
  { pose proof (completeSpecs_configured (oiSpecs oi) (mPollSpecification data) _ Cq) as G. rewrite Es in G.
    rewrite Forall_forall in G. by apply G. }
  destruct F as [F Dj]. split; [done|]. split; [done|]. split; [|split; [done|]].
  { unfold PollSpec.wf. eapply Forall_impl; [exact F|]. by intros p (_ & ? & _). }
  intros p Hp. rewrite Forall_forall in F. destruct (F p Hp) as (Cid & _ & V). split; [done|].
  intros Vp. destruct (V Vp) as [_ A].
  destruct (anchored_object _ _ _ _ _ Oo Em Hin Hp A) as (n & o & i & Ho & Hi & Ni & Ii & l & El & Hl).
  exists l, (Z.of_nat n), i. rewrite Est, (storeOf_lookup _ n o), En by done.
  unfold MqttClient.findObjects. rewrite Eo. done.
Qed.

(** C5: for a configuration document in which every count is at least 1 and no list
    of registers is empty (positiveCounts; init does not check either), after init
    the queue of a modbus thread that gets a specification starts
    with the configuration of its network and holds slave configurations and
    specifications only; the entries of the specification are for the network of
    the thread, hold at least one register each, do not overlap, and carry no
    command id; and every entry that will be polled has an object of the MQTT
    client in the list of its range, with a register that the entry reads. *)
Theorem init_polls_have_objects fuel ov g0 g specs objects c s :
  newModMqtt g0 -> init env fuel config ov g0 = Ret (g, specs, objects) ->
  c ∈ mModbusClients g -> PollSpecification s ∈ mcToModbus c ->
  configured setupMessage c /\ PollSpec.mNetworkName s = mcNetworkName c
  /\ PollSpec.wf (PollSpec.mRegisters s) /\ PollSpec.disjoint (PollSpec.mRegisters s)
  /\ forall p, p ∈ PollSpec.mRegisters s ->
       mCommandId (pollBase p) = 0
       /\ (PollSpec.refreshValid p ->
             exists l k i, MqttClient.findObjects (identOf (mcNetworkName c) (pollBase p)) (mMqtt g) = Some l
               /\ k ∈ l /\ i ∈ objectIdents (cStore (mMqtt g) k)
               /\ idNetwork i = mcNetworkName c /\ identIn p i).
Proof. apply init_sent_specs. Qed.

(** C8: for a configuration document in which every count is at least 1 and no list
    of registers is empty (positiveCounts; init does not check either), after init
    every register of every object, on a network that has a client, is read by an entry with a refresh period in the queue of that network, and the
    object is in the list the MQTT client has for the range of the entry. *)
Theorem init_registers_served fuel ov g0 g specs objects n o i :
  newModMqtt g0 -> init env fuel config ov g0 = Ret (g, specs, objects) ->
  objects !! n = Some o -> i ∈ objectIdents o -> idNetwork i ∈ cNetworks (mMqtt g) ->
  cStore (mMqtt g) (Z.of_nat n) = o
  /\ exists c s p l, c ∈ mModbusClients g /\ mcNetworkName c = idNetwork i
       /\ PollSpecification s ∈ mcToModbus c /\ p ∈ PollSpec.mRegisters s
       /\ PollSpec.refreshValid p /\ identIn p i
       /\ MqttClient.findObjects (identOf (idNetwork i) (pollBase p)) (mMqtt g) = Some l /\ Z.of_nat n ∈ l.
Proof.
  intros New E Ho Hi Hn. destruct (init_parts _ _ _ _ _ _ New E) as (oi & data & g1 & Oo & [Cn Cq Cg] & Nn & _ & Ec).
  apply connectObjects_Ret in Ec as (maps & clients & Es & Em & -> & Ecl & Eo & _ & Est & _ & En & _).
  rewrite En, Nn in Hn. split; [rewrite Est; by apply storeOf_lookup|].
  destruct (completeSpecs_ok (oiSpecs oi) (mPollSpecification data) (mModbusClients g1)) as (P1 & _ & _ & P4).
  rewrite Es in P1, P4. cbn [fst snd] in *. pose proof Hn as Hs. rewrite <- Cn in Hs.
  apply list_elem_of_fmap in Hs as (s0 & Es0 & Hs0).
  assert (HiL : i ∈ flat_map objectIdents (oiObjects oi)).
  { apply list_elem_of_In, in_flat_map. exists o. split; apply list_elem_of_In; [by eapply list_elem_of_lookup_2|done]. }
  destruct (complete_reads (oiSpecs oi) _ s0 i (oo_specs _ Oo) HiL (eq_sym Es0)) as [Nf Ex].
  rewrite Es0 in Nf. destruct (P4 s0 Hs0 Nf) as (c & Hc & Nc & Ht); [by rewrite <- Es0|].
  apply Exists_exists in Ex as (p & Hp & Vp & Ip).
  assert (Hin : complete (oiSpecs oi) s0 ∈ specs) by (rewrite P1; by apply list_elem_of_fmap_2).
  assert (Hr : objectRegisterIn (PollSpec.mNetworkName (complete (oiSpecs oi) s0)) (pollBase p) o = Ret true).
  { rewrite complete_name, <- Es0. apply identIn_registerIn; [|done..]. eapply Forall_lookup_1; [apply Oo|done]. }
  destruct (mapObjects_reach _ _ _ _ _ _ _ _ Ho Hin Hp Hr Em) as (l & El & Hl).
  exists c, (complete (oiSpecs oi) s0), p, l. rewrite Ecl, Nc, Es0. repeat (split; [done|]).
  unfold MqttClient.findObjects. rewrite Eo. rewrite complete_name in El. done.
Qed.

(** C27: for a configuration document in which every count is at least 1 and no list
    of registers is empty (positiveCounts; init does not check either), the objects
    init builds have different topics and have not been read: each
    of them that has a state is fresh; the commands have different positive ids; and
    the list of objects of a command id holds exactly the objects with a register
    that the command writes. *)
Theorem init_objects_and_commands fuel ov g0 g specs objects :
  newModMqtt g0 -> init env fuel config ov g0 = Ret (g, specs, objects) ->
  NoDup (mTopic <$> objects)
  /\ Forall (fun o => flat_map leaves (stNodes (mState o)) <> [] -> fresh o) objects
  /\ NoDup (commandId <$> cCommands (mMqtt g))
  /\ Forall (fun e => 0 < commandId e) (cCommands (mMqtt g))
  /\ (forall id q, commandHas (cCommandObjects (mMqtt g)) id q <->
        exists n o e, q = Z.of_nat n /\ objects !! n = Some o /\ e ∈ cCommands (mMqtt g) /\ commandId e = id
          /\ objectRegisterIn (commandNetwork e.2) (commandBase e.2) o = Ret true).
Proof.
  intros New E. destruct (init_parts _ _ _ _ _ _ New E) as (oi & data & g1 & [Os Oo Ot Oc] & _ & _ & _ & Ec).
  apply connectObjects_Ret in Ec as (maps & clients & _ & Em & -> & _ & _ & Eco & _ & Ecm & _ & _).
  rewrite Eco, Ecm. split; [done|]. split; [|split; [apply Oc|]].
  - eapply Forall_impl; [exact Oo|]. intros o (A & [Ws Vs] & [Wa Va]) NE. split; [done|].
    rewrite forallb_app, Ws, Wa, flat_map_app, Forall_app. done.
  - assert (Pos : Forall (fun e => 0 < commandId e) (oiCommands oi).2).
    { eapply Forall_impl; [apply Oc|]. cbn. lia. }
    split; [done|]. destruct (mapObjects_commands specs (oiCommands oi).2 (oiObjects oi) Oo Pos) as (m & Em' & S).
    rewrite Em in Em'. by injection Em' as <-.
Qed.

End startup.

(** * A configuration started *)

Definition demoClient : Client Z :=
  mkClient DISCONNECTED false defaultBrokerConfig [] [] [] (fun _ => newObject "" ON_CHANGE 0) [] DISABLED "" 0 ∅ 0%nat [].
Definition demoModMqtt : ModMqtt Z := mkModMqtt [] [] [] demoClient Log.info.
Definition demoInitEnv : InitEnv Z :=
  mkInitEnv (fun _ => false) (fun _ => false) (fun _ => Fault (StdException "no library"))
    (mkClientEnv (fun _ => 0) (fun _ => false)).
Definition demoInit := init demoInitEnv 10 demoConfig true demoModMqtt.
Definition demoGateway : ModMqtt Z := match demoInit with Ret (g, _, _) => g | Fault _ => demoModMqtt end.
Definition demoObjects : list (MqttObject Z) := match demoInit with Ret (_, _, l) => l | Fault _ => [] end.
Definition demoSpecs := match demoInit with Ret (_, s, _) => s | Fault _ => [] end.

Lemma demoInit_Ret :
  init demoInitEnv 10 demoConfig true demoModMqtt = Ret (demoGateway, demoSpecs, demoObjects).
Proof.
  unfold demoGateway, demoObjects, demoSpecs, demoInit.
  assert (R : is_ret (init demoInitEnv 10 demoConfig true demoModMqtt) = true) by (vm_compute; reflexivity).
  destruct (init demoInitEnv 10 demoConfig true demoModMqtt) as [[[g s] l]|f]; [reflexivity|discriminate R].
Qed.

Lemma demoConfig_positive : positiveCounts demoConfig.
Proof. apply tree_positiveCounts. vm_compute. reflexivity. Qed.

Definition demoFirstClient : ModbusClient :=
  match mModbusClients demoGateway with c :: _ => c | [] => mkModbusClient "" [] end.
Definition demoSentSpec : PollSpec.MsgRegisterPollSpecification :=
  match mcToModbus demoFirstClient with [_; _; _; PollSpecification s] => s | _ => PollSpec.newSpec "" end.

Lemma init_polls_have_objects_witness :
  PollSpec.mNetworkName demoSentSpec = "net1" /\ List.length (PollSpec.mRegisters demoSentSpec) = 6%nat
  /\ PollSpec.disjoint (PollSpec.mRegisters demoSentSpec).
Proof.
  destruct (init_polls_have_objects demoInitEnv demoConfig demoConfig_positive 10 true demoModMqtt
              demoGateway demoSpecs demoObjects demoFirstClient demoSentSpec) as (_ & En & _ & Dj & _).
  - repeat split; reflexivity.
  - exact demoInit_Ret.
  - vm_compute. left.
  - vm_compute. right. right. right. left.
  - split; [vm_compute; reflexivity|]. split; [vm_compute; reflexivity|exact Dj].
Defined.

Lemma init_registers_served_witness :
  exists o, demoObjects !! 1%nat = Some o /\ cStore (mMqtt demoGateway) 1 = o.
Proof.
  destruct (demoObjects !! 1%nat) as [o|] eqn:E; [|vm_compute in E; discriminate E].
  exists o. split; [reflexivity|].
  apply (init_registers_served demoInitEnv demoConfig demoConfig_positive 10 true demoModMqtt
           demoGateway demoSpecs demoObjects 1 o (mkIdent "net1" 2 19 HOLDING)).
  - repeat split; reflexivity.
  - exact demoInit_Ret.
  - exact E.
  - assert (X : match demoObjects !! 1%nat with Some o => mkIdent "net1" 2 19 HOLDING ∈ objectIdents o | None => False end)
      by (vm_compute; repeat constructor).
    by rewrite E in X.
  - vm_compute. left.
Defined.

Lemma init_objects_and_commands_witness : NoDup (mTopic <$> demoObjects) /\ mTopic <$> demoObjects = ["meter"; "single"].
Proof.
  split; [|vm_compute; reflexivity].
  apply (init_objects_and_commands demoInitEnv demoConfig demoConfig_positive 10 true demoModMqtt
           demoGateway demoSpecs demoObjects).
  - repeat split; reflexivity.
  - exact demoInit_Ret.
Defined.
