(* ===== verification/System.v ===== *)
(** The parts together: the MQTT client, the modbus threads and the messages between
    them, from the state init leaves.

    A thread runs its iterations on the messages sent to its network, the main thread
    handles the messages of the threads and the events of the broker.  The system may
    deliver what has been sent in any order and more than once; what is proved holds
    for the order of the queues in particular. *)

From stdpp Require Import base gmap list sorting strings relations.
From Stdlib Require Import ZArith Lia Ascii String.
From S2P Require Import Prelude ModbusTypes PollSpec Commands Scheduler ModbusContext Config Watchdog.
From S2P Require Import Executor ExecutorProps ModbusThread ConvTools ConvArgs StdConv.
From S2P Require Import Converters MqttObject MqttPayload MqttClient MqttClientProps Logging YamlConfig ObjectConfig.
From S2P Require Import YamlProps YamlTree GatewayInit InitProps GatewayProps.

#[local] Open Scope string_scope.
#[local] Open Scope Z_scope.

(** * What a thread reports *)

Section reports.
Variable specs : list PollSpec.MsgRegisterPollSpecification.

(** A message that belongs to a command, or to a polled range of the specifications. *)
Definition known (b : ModbusMessageBase) : Prop :=
  hasCommandId b = true
  \/ exists s p, s ∈ specs /\ p ∈ PollSpec.mRegisters s /\ PollSpec.refreshValid p
       /\ forall net, identOf net b = identOf net (pollBase p).

Lemma known_ext b b' :
  mCommandId b' = mCommandId b -> (forall net, identOf net b' = identOf net b) -> known b -> known b'.
Proof.
  intros Ei En [Hc|(s & p & Hs & Hp & V & E)].
  - left. unfold hasCommandId in *. by rewrite Ei.
  - right. exists s, p. split; [done|]. split; [done|]. split; [done|]. intros net. by rewrite En.
Qed.

Definition reportKnown (m : FromModbus) : Prop :=
  match m with RegisterValues v => known (msgBase v) | _ => True end.

Context {C : Type} `{IModbusContext C}.

(** The commands of a thread, and what it has reported. *)
Record worldKnown (w : World C) : Prop := mkWorldKnown {
  wk_polls : forall p, known (cmdBase (pollCmd (polls (wStore w) p)));
  wk_writes : forall p m, mReturnMessage (writes (wStore w) p) = Some m -> known (msgBase m);
  wk_out : Forall reportKnown (wOut w)
}.

Lemma known_putPoll p r (w : World C) :
  known (cmdBase (pollCmd r)) -> worldKnown w -> worldKnown (Executor.putPoll p r w).
Proof.
  intros K [Kp Kw Ko]. split; [|done|done]. intros q. cbn. destruct (decide (q = p)); [done|apply Kp].
Qed.

Lemma known_send m (w : World C) : reportKnown m -> worldKnown w -> worldKnown (Executor.sendMessage m w).
Proof.
  intros K [Kp Kw Ko]. split; [done|done|]. cbn. apply Forall_app. split; [done|]. by apply Forall_singleton.
Qed.

Lemma known_putCtx c (w : World C) : worldKnown w -> worldKnown (Executor.putCtx c w).
Proof. intros [Kp Kw Ko]. by split. Qed.

Lemma known_putWrite p r (w : World C) :
  (forall m, mReturnMessage r = Some m -> known (msgBase m)) -> worldKnown w ->
  worldKnown (Executor.putWrite p r w).
Proof.
  intros K [Kp Kw Ko]. split; [done| |done]. intros q m. cbn. destruct (decide (q = p)); [apply K|apply Kw].
Qed.

Lemma known_world s c out (w : World C) :
  worldKnown w -> (forall p, known (cmdBase (pollCmd (polls s p)))) ->
  (forall p m, mReturnMessage (writes s p) = Some m -> known (msgBase m)) ->
  out = wOut w -> worldKnown (mkWorld s c out).
Proof. intros [Kp Kw Ko] Hp Hw ->. by split. Qed.

(** ** The executor *)

Lemma known_readError env p (w : World C) :
  worldKnown w -> worldKnown (Executor.handleRegisterReadError env p w).
Proof.
  intros K. pose proof (wk_polls w K p) as Kp. unfold Executor.handleRegisterReadError.
  destruct (isRpc _); [by apply known_putPoll|].
  destruct (_ <? _); [apply known_send; [done|]|]; apply known_putPoll; try done; by destruct (_ || _).
Qed.

Lemma known_pollSucceeded env p force values (w : World C) :
  worldKnown w -> worldKnown (Executor.pollSucceeded env p force values w).
Proof.
  intros K. pose proof (wk_polls w K p) as Kp. unfold Executor.pollSucceeded.
  destruct (_ || _); [|by apply known_putPoll]. apply known_putPoll; [done|]. apply known_send; [|by apply known_putPoll].
  eapply known_ext; [..|exact Kp]; done.
Qed.

Lemma known_pollRegisters env p force e (w : World C) e' w' :
  worldKnown w -> Executor.pollRegisters env p force e w = Ret (e', w') -> worldKnown w'.
Proof.
  intros K E. pose proof (wk_polls w K p) as Kp. unfold Executor.pollRegisters in E.
  set (r := setReadTimes _ _ _) in E. destruct (readModbusRegisters _ _ _) as [c res].
  apply obind_Ret in E as (w2 & E2 & E). injection E as _ <-.
  assert (K1 : worldKnown (Executor.putCtx c (Executor.putPoll p r w))) by (by apply known_putCtx, known_putPoll).
  assert (K2 : worldKnown w2).
  { destruct res; [injection E2 as <-; by apply known_pollSucceeded|injection E2 as <-; by apply known_readError|done]. }
  apply known_putPoll; [|done]. cbn. apply K2.
Qed.

Lemma known_writeRegisters env p e (w : World C) e' w' :
  worldKnown w -> Executor.writeRegisters env p e w = Ret (e', w') -> worldKnown w'.
Proof.
  intros K E. unfold Executor.writeRegisters in E. destruct (writeModbusRegisters _ _ _) as [c res].
  apply obind_Ret in E as (w2 & E2 & E). injection E as _ <-.
  assert (K1 : worldKnown (Executor.putCtx c w)) by (by apply known_putCtx).
  destruct res; [|injection E2 as <-; apply known_send; [done|]; apply known_putWrite; [|done]; apply (wk_writes w K)|done].
  cbn [setLastWriteOk mReturnMessage] in E2.
  destruct (mReturnMessage (writes (wStore w) p)) as [m|] eqn:Em; injection E2 as <-.
  - apply known_send; [exact (wk_writes w K p m Em)|]. apply known_putWrite; [|done].
    intros m' [= <-]. exact (wk_writes w K p m Em).
  - apply known_putWrite; [|done]. cbn. by rewrite Em.
Qed.

Lemma known_sendCommand env e (w : World C) e' w' :
  worldKnown w -> Executor.sendCommand env e w = Ret (e', w') -> worldKnown w'.
Proof.
  intros K E. unfold Executor.sendCommand in E. destruct (mWaitingCommand e) as [c|]; [|done].
  set (e0 := if decide _ then e else _) in E. clearbody e0.
  apply obind_Ret in E as (((retry & e2) & w2) & E2 & E).
  assert (K2 : worldKnown w2); [|destruct retry; by injection E as _ <-].
  destruct c as [p|p]; apply obind_Ret in E2 as ((e1 & w1) & E1 & E2).
  - apply known_pollRegisters in E1; [|done]. destruct (negb (mLastReadOk _)); [|by injection E2 as _ _ <-].
    destruct (negb _); [by injection E2 as _ _ <-|].
    destruct (isRpc _); injection E2 as _ _ <-; [by apply known_send|done].
  - apply known_writeRegisters in E1; [|done]. destruct (negb (mLastWriteOk _)).
    + destruct (negb _); by injection E2 as _ _ <-.
    + destruct (0 <=? _); [by injection E2 as _ _ <-|done].
Qed.

Lemma known_executeNext env e (w : World C) d e' w' :
  worldKnown w -> Executor.executeNext env e w = Ret (d, e', w') -> worldKnown w'.
Proof.
  intros K E. unfold Executor.executeNext in E. apply obind_Ret in E as ((go & e1) & _ & E).
  destruct go; [|by injection E as _ _ <-]. cbn [negb] in E.
  destruct (mWaitingCommand e1); [|by injection E as _ _ <-]. destruct (negb _ && _).
  - destruct (mCurrentSlaveQueue e1); [by injection E as _ _ <-|done].
  - apply obind_Ret in E as ((e2 & w2) & E2 & E). injection E as _ _ <-. by eapply known_sendCommand.
Qed.

(** ** The thread *)

Lemma known_afterCommand env t (w : World C) t' w' :
  worldKnown w -> ModbusThread.afterCommand env t w = Ret (t', w') -> worldKnown w'.
Proof.
  intros K E. unfold ModbusThread.afterCommand in E. destruct (mLastCommand _) as [cmd|]; [|done].
  injection E as _ <-. destruct cmd as [p|p]; [|by destruct K; split].
  destruct (_ && _); [|by destruct K; split]. apply (known_world _ _ _ w); [done| | |done].
  - intros q. rewrite Scheduler.notifyRpcRead_polls. pose proof (wk_polls w K q). by case_decide.
  - intros q m. unfold Scheduler.notifyRpcRead. destruct (smap_find _ _) as [l|]; [|apply (wk_writes w K)].
    assert (W : forall l s, writes (foldl (Scheduler.deferPoll (polls (wStore w) p)) s l) = writes s).
    { clear. induction l as [|a l IH]; intros s; [done|]. cbn [foldl]. rewrite IH. unfold Scheduler.deferPoll.
      by destruct (ModbusRange.contains _ _). }
    rewrite W. apply (wk_writes w K).
Qed.

Lemma known_pollPhase env t (w : World C) t' w' :
  worldKnown w -> ModbusThread.pollPhase env t w = Ret (t', w') -> worldKnown w'.
Proof.
  intros K E. unfold ModbusThread.pollPhase in E. destruct (mModbusSet t); [|by injection E as _ <-].
  apply obind_Ret in E as ((t1 & w1) & E1 & E).
  assert (K1 : worldKnown w1).
  { destruct (negb _); [|by injection E1 as _ <-]. unfold ModbusThread.tryConnect in E1.
    destruct (isConnected (wCtx (Executor.putCtx _ w))).
    - destruct (negb _).
      + apply obind_Ret in E1 as (e & _ & E1). injection E1 as _ <-. apply known_send; [done|]. by apply known_putCtx.
      + injection E1 as _ <-. apply known_send; [done|]. by apply known_putCtx.
    - injection E1 as _ <-. by apply known_putCtx. }
  destruct (isConnected (wCtx w1)); [|injection E as _ <-; by apply known_send].
  unfold ModbusThread.pollConnected in E. destruct (mMqttConnected t1); [|by injection E as _ <-].
  apply obind_Ret in E as (t2 & _ & E). destruct (Executor.allDone _); [by injection E as _ <-|].
  apply obind_Ret in E as (((d & e) & w2) & E2 & E). apply known_executeNext in E2; [|done].
  destruct (d =? 0); [exact (known_afterCommand _ _ _ _ _ E2 E)|by injection E as _ <-].
Qed.

(** What a thread may receive: a specification of [specs], and commands with ids. *)
Definition messageKnown (m : ToModbus) : Prop :=
  match m with
  | PollSpecification s => s ∈ specs
  | WriteValues v => hasCommandId (msgBase v) = true
  | ReadRequest b => hasCommandId b = true
  | _ => True
  end.

Lemma known_addSpecPolls env t l acc :
  (forall m, m ∈ l -> PollSpec.refreshValid m -> known (mkBase (PollSpec.pollRange m) (PollSpec.pollSlave m) 0)) ->
  (forall p, known (cmdBase (pollCmd (polls acc.2 p)))) ->
  let s' := (foldl (ModbusThread.addSpecPoll env t) acc l).2 in
  (forall p, known (cmdBase (pollCmd (polls s' p)))) /\ writes s' = writes acc.2.
Proof.
  revert acc. induction l as [|m l IH]; intros [rm s] Hl K; [done|]. cbn [foldl].
  destruct (IH (ModbusThread.addSpecPoll env t (rm, s) m)) as [I1 I2].
  - intros m' Hm. apply Hl. by right.
  - unfold ModbusThread.addSpecPoll. destruct (Z.eqb_spec (mRefreshMsec m) PollSpec.INVALID_REFRESH); [done|].
    cbn. intros p. destruct (decide (p = nextPtr s)); [|apply K]. cbn. rewrite ModbusThread.applySlaveConfig_base. cbn.
    eapply known_ext; [| |apply (Hl m); [left|done]]; done.
  - split; [done|]. rewrite I2. unfold ModbusThread.addSpecPoll. by destruct (_ =? _).
Qed.

Variable getContext : ModbusNetworkConfig -> outcome C.

Lemma known_dispatch env item t (w : World C) t' w' :
  worldKnown w -> messageKnown item ->
  ModbusThread.dispatchMessage getContext env item t w = Ret (t', w') -> worldKnown w'.
Proof.
  intros K M E. destruct item as [config|spec| |m|m|up|c]; cbn [ModbusThread.dispatchMessage messageKnown] in *.
  - unfold ModbusThread.configure in E. bind_inv E. injection E as _ <-. by apply known_putCtx.
  - unfold ModbusThread.setPollSpecification in E.
    destruct (known_addSpecPolls env t (PollSpec.mRegisters spec) ([], wStore w)) as [Kp Kw].
    { intros p Hp V. right. exists spec, p. split; [done|]. split; [done|]. split; done. }
    { apply K. }
    destruct (foldl _ _ _) as [rm s]. bind_inv E. injection E as _ <-. cbn in Kp, Kw.
    apply (known_world _ _ _ w); [done|done| |done]. rewrite Kw. apply K.
  - by injection E as _ <-.
  - unfold ModbusThread.processWrite in E. cbn [allocWrite] in E. bind_inv E. injection E as _ <-.
    apply (known_world _ _ _ w); [done|apply K| |done]. intros p m'. cbn. destruct (decide (p = nextPtr (wStore w))); [|apply (wk_writes w K)].
    intros E'. left. assert (X : Some m = Some m'); [|by injection X as <-]. rewrite <- E'.
    destruct (smap_find _ _); [|done]. by destruct (decide _).
  - unfold ModbusThread.processReadRequest in E. cbn [allocPoll] in E. bind_inv E. injection E as _ <-.
    apply (known_world _ _ _ w); [done| |apply K|done]. intros p. cbn. destruct (decide (p = nextPtr (wStore w))); [|apply (wk_polls w K)].
    cbn. rewrite ModbusThread.applySlaveConfig_base. left. cbn. done.
  - by injection E as _ <-.
  - injection E as _ <-. apply (known_world _ _ _ w); [done| | |done].
    + destruct (smap_find _ _) as [l|]; [|apply K]. intros p.
      assert (B : forall l s, (forall q, known (cmdBase (pollCmd (polls s q)))) ->
                  forall q, known (cmdBase (pollCmd (polls (foldl (ModbusThread.updateSlavePoll c) s l) q)))).
      { clear. induction l as [|a l IH]; intros s Hs; [done|]. cbn [foldl]. apply IH. intros q.
        unfold ModbusThread.updateSlavePoll. cbn [setPoll polls]. destruct (decide (q = a)); [|apply Hs].
        cbn [setPollCmd pollCmd]. rewrite ModbusThread.applySlave_base. apply Hs. }
      apply B. apply K.
    + destruct (smap_find _ _) as [l|]; [|apply K].
      assert (B : forall l s, writes (foldl (ModbusThread.updateSlavePoll c) s l) = writes s)
        by (clear; induction l as [|a l IH]; intros s; [done|cbn [foldl]; by rewrite IH]).
      rewrite B. apply K.
Qed.

Lemma known_receivePhase env t (w : World C) t' w' :
  worldKnown w -> Forall (fun em => messageKnown em.2) (ModbusThread.received env) ->
  ModbusThread.receivePhase getContext env t w = Ret (t', w') -> worldKnown w'.
Proof.
  intros K F E. unfold ModbusThread.receivePhase in E.
  destruct (mShouldRun t); [|by injection E as _ <-]. destruct (_ && _).
  { injection E as _ <-. apply known_send; [done|]. by apply known_putCtx. }
  revert t w K E. induction F as [|[me item] l M F IH]; intros t1 w1 K1 E; [by injection E as _ <-|].
  cbn [ModbusThread.dispatchMessages] in E. apply obind_Ret in E as ((t2 & w2) & E2 & E).
  eapply IH; [|exact E]. by eapply known_dispatch.
Qed.

(** An iteration of the loop keeps what has been reported known. *)
Lemma known_loopStep env t (w : World C) t' w' :
  worldKnown w -> Forall (fun em => messageKnown em.2) (ModbusThread.received env) ->
  ModbusThread.loopStep getContext env t w = Ret (t', w') -> worldKnown w'.
Proof.
  intros K F E. unfold ModbusThread.loopStep in E. apply obind_Ret in E as ((t1 & w1) & E1 & E).
  apply known_pollPhase in E1; [|done]. by eapply known_receivePhase.
Qed.

End reports.

(** * What the MQTT client asks for *)

Import MqttObject MqttClient.

Section requests.
Context {D : Type} `{CDouble D} `{Rapidjson D}.
Variable env : ClientEnv.
Variable plugins : list (ConverterPlugin D).

(** What goes to a modbus thread carries a command id, and is no specification. *)
Definition effectKnown (e : Effect) : Prop :=
  match e with
  | EToModbus _ (WriteValues v) => hasCommandId (msgBase v) = true
  | EToModbus _ (ReadRequest b) => hasCommandId b = true
  | EToModbus _ (PollSpecification _) => False
  | _ => True
  end.

(** The commands of a configuration have positive ids, those of RPC requests are
    negative. *)
Definition idsKnown (c : Client D) : Prop :=
  Forall (fun e => 0 < commandId e) (cCommands c) /\ cNextRpcId c <= 0.

(** What the handlers leave alone. *)
Definition sameMaps (c c' : Client D) : Prop :=
  cObjects c' = cObjects c /\ cCommands c' = cCommands c
  /\ (idsKnown c -> cNextRpcId c' <= 0 /\ (Forall effectKnown (cOut c) -> Forall effectKnown (cOut c'))).

#[local] Instance sameMaps_preorder : PreOrder sameMaps.
Proof.
  split.
  - intros c. split; [done|]. split; [done|]. intros [_ I]. by split.
  - intros c1 c2 c3 (O1 & C1 & I1) (O2 & C2 & I2). split; [congruence|]. split; [congruence|].
    intros K. destruct (I1 K) as [N1 F1]. destruct I2 as [N2 F2]; [split; [rewrite C1; apply K|done]|]. auto.
Qed.

Lemma sameMaps_modify f :
  (forall c, cObjects (f c) = cObjects c) -> (forall c, cCommands (f c) = cCommands c) ->
  (forall c, cNextRpcId (f c) = cNextRpcId c) -> (forall c, cOut (f c) = cOut c) -> preserves sameMaps (modify f).
Proof.
  intros O Cm Nx Ou. apply preserves_modify. intros c. split; [done|]. split; [done|].
  intros [_ I]. rewrite Nx, Ou. by split.
Qed.

Lemma sameMaps_effect e : effectKnown e -> preserves sameMaps (effect e).
Proof.
  intros K. apply preserves_modify. intros c. split; [done|]. split; [done|]. intros [_ I].
  split; [done|]. intros F. cbn. apply Forall_app. split; [done|]. by apply Forall_singleton.
Qed.

Lemma sameMaps_implCall e : effectKnown e -> preserves sameMaps (implCall env e).
Proof.
  intros K c _. unfold implCall. destruct (envFails env (cTick c)); (split; [done|]; split; [done|]; intros [_ I]; split; [done|]);
    intros F; cbn; [done|]. apply Forall_app. split; [done|]. by apply Forall_singleton.
Qed.

Lemma sameMaps_readClock : preserves sameMaps (readClock env).
Proof. intros c _. split; [done|]. split; [done|]. intros [_ I]. by split. Qed.

Lemma sameMaps_updateAt p f : preserves sameMaps (updateAt p f).
Proof.
  intros c _. unfold updateAt. destruct (f (cStore c p)); (split; [done|]; split; [done|]; intros [_ I]; by split).
Qed.

#[local] Hint Resolve sameMaps_readClock sameMaps_updateAt : client.
#[local] Hint Extern 2 (preserves sameMaps (modify _)) => (apply sameMaps_modify; intros; reflexivity) : client.
#[local] Hint Extern 2 (preserves sameMaps (setObject _ _)) => (apply sameMaps_modify; intros; reflexivity) : client.
#[local] Hint Extern 2 (preserves sameMaps (implCall _ _)) => (apply sameMaps_implCall; exact I) : client.
#[local] Hint Extern 2 (preserves sameMaps (effect _)) => (apply sameMaps_effect; exact I) : client.

Lemma sameMaps_errorTo topic corr msg : preserves sameMaps (publishRpcErrorTo env topic corr msg).
Proof. unfold publishRpcErrorTo. handler. Qed.
#[local] Hint Resolve sameMaps_errorTo : client.

Lemma sameMaps_publishState p force : preserves sameMaps (publishState env p force).
Proof. unfold publishState, getObject. handler. Qed.
Lemma sameMaps_availability p : preserves sameMaps (publishAvailabilityChange env p).
Proof. unfold publishAvailabilityChange, getObject. handler. Qed.
Lemma sameMaps_rpcResponse m : preserves sameMaps (publishRpcResponse env m).
Proof. unfold publishRpcResponse. handler. Qed.
Lemma sameMaps_rpcError m : preserves sameMaps (publishRpcError env m).
Proof. unfold publishRpcError. handler. Qed.
#[local] Hint Resolve sameMaps_publishState sameMaps_availability sameMaps_rpcResponse sameMaps_rpcError : client.

Lemma sameMaps_updateOne net m p : preserves sameMaps (updateOne env net m p).
Proof. unfold updateOne, getObject. handler. Qed.
#[local] Hint Resolve sameMaps_updateOne : client.

Lemma sameMaps_modbusMessage net item : preserves sameMaps (processModbusMessage env net item).
Proof.
  unfold processModbusMessage, processRegisterValues, processRegistersOperationFailed,
    processModbusNetworkState, affectedObjects. handler.
Qed.

Lemma sameMaps_onConnect : preserves sameMaps (onConnect env).
Proof. unfold onConnect, publishAll, sendMqttNetworkIsUp, getObject. handler. Qed.

Lemma sameMaps_start : preserves sameMaps (start env).
Proof. unfold start. handler. Qed.
Lemma sameMaps_shutdown : preserves sameMaps (shutdown env).
Proof. unfold shutdown. handler. Qed.
Lemma sameMaps_onDisconnect musl : preserves sameMaps (onDisconnect env musl).
Proof. unfold onDisconnect, sendMqttNetworkIsUp. handler. Qed.

(** A command of the client goes out with its id, an RPC request with a new one. *)
Lemma sameMaps_executeCommand topic cmd payload (c : Client D) :
  findCommand topic c = Some cmd -> noCrash (executeCommand env cmd payload c).2 ->
  sameMaps c (executeCommand env cmd payload c).1.
Proof.
  intros Fc. unfold findCommand in Fc. destruct (find _ (cCommands c)) as [[t x]|] eqn:Fi; [|done]. injection Fc as ->.
  apply find_some in Fi as [Hin _]. apply list_elem_of_In in Hin.
  unfold executeCommand, bind, gets, lift, ret. destruct (negb (bool_decide (commandNetwork cmd ∈ cNetworks c))); [reflexivity|].
  destruct (match commandConverter cmd with Some conv => toModbus conv _ _ | None => _ end) as [regs|f]; [|reflexivity].
  destruct (negb _); [reflexivity|]. intros _. cbn. split; [done|]. split; [done|]. intros [Ids I].
  split; [done|]. intros F. apply Forall_app. split; [done|]. apply Forall_singleton. cbn.
  rewrite Forall_forall in Ids. specialize (Ids _ Hin). unfold commandId in Ids. cbn in Ids.
  unfold hasCommandId. cbn. destruct (Z.eqb_spec (mCommandId (commandBase cmd)) 0); [lia|done].
Qed.

Lemma sameMaps_submit respTopic corr rq : preserves sameMaps (submitRequest env respTopic corr rq).
Proof.
  intros c _. unfold submitRequest, bind, gets, modify, readClock, effect. set (next := if _ =? _ then 0 else _).
  assert (Nx : cNextRpcId c <= 0 -> next <= 0) by (subst next; destruct (_ =? _); lia).
  clearbody next. destruct (rqIsWrite rq); cbn; (split; [done|]; split; [done|]; intros [_ I]; specialize (Nx I); cbn; split; [lia|]; intros F;
    apply Forall_app; split; [done|]; apply Forall_singleton; cbn; unfold hasCommandId; cbn;
    destruct (Z.eqb_spec (next - 1) 0); [lia|done]).
Qed.
#[local] Hint Resolve sameMaps_submit : client.

Lemma sameMaps_rpcRequest payload topic corr : preserves sameMaps (handleRpcRequest env plugins payload topic corr).
Proof.
  unfold handleRpcRequest. handler.
Qed.
#[local] Hint Resolve sameMaps_rpcRequest : client.

Lemma bind_gets {A B} (f : Client D -> A) (k : A -> comp (D := D) B) c : bind (gets f) k c = k (f c) c.
Proof. done. Qed.

Lemma sameMaps_onMessage topic payload resp corr : preserves sameMaps (onMessage env plugins topic payload resp corr).
Proof.
  intros c. unfold onMessage. rewrite bind_gets. destruct (findCommand topic c) as [cmd|] eqn:Fc.
  - unfold tryCatch. pose proof (sameMaps_executeCommand topic cmd payload c Fc) as P.
    destruct (executeCommand env cmd payload c) as [c' [u|f]]; [exact P|]. cbn [fst snd] in P.
    destruct f; cbn; intros N; apply P; done || by eexists.
  - revert c Fc. assert (G : preserves sameMaps
      (bind (gets cRpcMode) (fun mode => bind (gets cRpcTopic) (fun rpcTopic =>
         when (negb (bool_decide (mode = DISABLED)) && bool_decide (rpcTopic = topic))
           (handleRpcRequest env plugins payload resp corr))))) by handler.
    intros c _. apply G.
Qed.

Lemma handle_sameMaps musl e c c' : handle env plugins musl e c = (c', Ret tt) -> sameMaps c c'.
Proof.
  intros E. assert (P : preserves sameMaps (handle env plugins musl e)).
  { destruct e; [apply sameMaps_modbusMessage|apply sameMaps_onMessage|apply sameMaps_onConnect|apply sameMaps_onDisconnect]. }
  specialize (P c). rewrite E in P. by apply P.
Qed.

End requests.

(** * The system *)

Section system.
Context {N : Type} `{YamlLaws N}.
Context {D : Type} `{CDouble D} `{Rapidjson D}.
Context {C : Type} `{IModbusContext C}.
Variable getContext : ModbusNetworkConfig -> outcome C.

(** A modbus client with its thread. *)
Record Unit_ : Type := mkUnit {
  uClient : ModbusClient;
  uThread : Thread;
  uWorld : World C
}.

Record Sys : Type := mkSys {
  sysClient : Client D;
  sysUnits : list Unit_
}.

(** What has been sent to the thread of a client: the messages of init and stop, and
    those of the MQTT client. *)
Definition sentTo (c : Client D) (u : ModbusClient) (m : ToModbus) : Prop :=
  m ∈ mcToModbus u \/ EToModbus (mcNetworkName u) m ∈ cOut c \/ m = EndWork.

(** One step: an event of the broker, a message of a thread, or an iteration of a
    thread. *)
Inductive sysstep (env : ClientEnv) (plugins : list (ConverterPlugin D)) (musl : bool) : Sys -> Sys -> Prop :=
| sys_broker c c' e us :
    (forall net item, e <> ModbusMessage net item) -> handle env plugins musl e c = (c', Ret tt) ->
    sysstep env plugins musl (mkSys c us) (mkSys c' us)
| sys_modbus c c' u item us :
    u ∈ us -> item ∈ wOut (uWorld u) ->
    handle env plugins musl (ModbusMessage (mcNetworkName (uClient u)) item) c = (c', Ret tt) ->
    sysstep env plugins musl (mkSys c us) (mkSys c' us)
| sys_thread c us1 u us2 lenv t' w' :
    Forall (fun em => sentTo c (uClient u) em.2) (ModbusThread.received lenv) ->
    ModbusThread.loopStep getContext lenv (uThread u) (uWorld u) = Ret (t', w') ->
    sysstep env plugins musl (mkSys c (us1 ++ u :: us2)) (mkSys c (us1 ++ mkUnit (uClient u) t' w' :: us2)).

(** A thread that has not polled yet: nothing reported, and no command of its store
    is a periodic poll. *)
Definition newWorld (w : World C) : Prop :=
  wOut w = []
  /\ (forall p, hasCommandId (cmdBase (pollCmd (polls (wStore w) p))) = true)
  /\ (forall p m, mReturnMessage (writes (wStore w) p) = Some m -> hasCommandId (msgBase m) = true).

(** The system init starts. *)
Definition started (g : ModMqtt D) (s : Sys) : Prop :=
  sysClient s = mMqtt g /\ uClient <$> sysUnits s = mModbusClients g
  /\ Forall (fun u => newWorld (uWorld u)) (sysUnits s).

Definition sentSpecs (u : ModbusClient) : list PollSpec.MsgRegisterPollSpecification :=
  omap (fun m => match m with PollSpecification s => Some s | _ => None end) (mcToModbus u).

Lemma sentSpecs_elem u s : s ∈ sentSpecs u <-> PollSpecification s ∈ mcToModbus u.
Proof.
  unfold sentSpecs. rewrite list_elem_of_omap. split.
  - intros (m & Hm & E). destruct m; try done. by injection E as ->.
  - intros Hs. by exists (PollSpecification s).
Qed.

(** What stays true of the system. *)
Record sysOk (g : ModMqtt D) (s : Sys) : Prop := mkSysOk {
  sk_objects : cObjects (sysClient s) = cObjects (mMqtt g);
  sk_ids : idsKnown (sysClient s);
  sk_out : Forall effectKnown (cOut (sysClient s));
  sk_clients : uClient <$> sysUnits s = mModbusClients g;
  sk_units : Forall (fun u => worldKnown (sentSpecs (uClient u)) (uWorld u)) (sysUnits s)
}.

Lemma sysOk_client g c c' us : sameMaps c c' -> sysOk g (mkSys c us) -> sysOk g (mkSys c' us).
Proof.
  intros (O & Cm & I) [So Si Su Sc Sw]. cbn [sysClient sysUnits] in *. destruct (I Si) as [Nx F].
  split; cbn [sysClient sysUnits]; [congruence| |auto|done|done]. split; [rewrite Cm; apply Si|done].
Qed.

(** A message sent to a thread is one it may receive. *)
Lemma sentTo_known c u m :
  configured setupMessage u -> Forall effectKnown (cOut c) -> sentTo c u m -> messageKnown (sentSpecs u) m.
Proof.
  intros (config & rest & E & _ & F) Fo [Hm|[Hm| ->]]; [| |done].
  - pose proof Hm as Hq. rewrite E, elem_of_cons in Hq. destruct Hq as [->|Hq]; [done|].
    rewrite Forall_forall in F. specialize (F _ Hq). destruct m; try done. by apply sentSpecs_elem.
  - rewrite Forall_forall in Fo. specialize (Fo _ Hm). by destruct m.
Qed.

Lemma sysstep_ok env plugins musl g s s' :
  Forall (configured setupMessage) (mModbusClients g) -> sysstep env plugins musl s s' -> sysOk g s -> sysOk g s'.
Proof.
  intros Q [c c' e us _ E|c c' u item us _ _ E|c us1 u us2 lenv t' w' F E].
  - apply sysOk_client. by eapply handle_sameMaps.
  - apply sysOk_client. by eapply handle_sameMaps.
  - intros [So Si Su Sc Sw]. cbn [sysClient sysUnits] in *. split; cbn [sysClient sysUnits]; try done.
    + rewrite <- Sc. by rewrite !fmap_app, !fmap_cons.
    + apply Forall_app in Sw as [S1 S2]. apply Forall_cons in S2 as [Ku S2].
      apply Forall_app. split; [done|]. apply Forall_cons. split; [|done]. cbn [uClient uWorld].
      eapply known_loopStep; [exact Ku| |exact E]. eapply Forall_impl; [exact F|].
      intros [me m] Hm. cbn [snd] in *. eapply sentTo_known; [|exact Su|exact Hm].
      rewrite Forall_forall in Q. apply Q. rewrite <- Sc. apply list_elem_of_fmap_2.
      apply elem_of_app. right. left.
Qed.

Lemma newWorld_known specs w : newWorld w -> worldKnown specs w.
Proof.
  intros (O & P & W). split; [intros p; left; apply P|intros p m Em; left; by eapply W|]. rewrite O. by constructor.
Qed.

(** What is known of a thread's specifications has objects in the MQTT client init
    leaves. *)
Lemma known_has_objects env (ienv : InitEnv D) fuel (config : N) ov g0 g specs objects (u : ModbusClient) (c : Client D) m :
  positiveCounts config ->
  newModMqtt g0 -> init ienv fuel config ov g0 = Ret (g, specs, objects) ->
  u ∈ mModbusClients g -> cObjects c = cObjects (mMqtt g) ->
  known (sentSpecs u) (msgBase m) -> hasCommandId (msgBase m) = false ->
  exists l, l <> [] /\ affectedObjects env (mcNetworkName u) m c = (c, Ret (Some l)).
Proof.
  intros Positive New E Hc So Fo Hid.
  destruct Fo as [X|(sp & p & Hsp & Hp & V & Ei)]; [congruence|]. apply sentSpecs_elem in Hsp.
  destruct (init_sent_specs ienv config Positive _ _ _ _ _ _ _ _ New E Hc Hsp) as (_ & _ & _ & _ & P).
  destruct (P p Hp) as [_ Pv]. destruct (Pv V) as (l & k & i & El & Hk & _).
  exists l. split; [intros ->; by apply elem_of_nil in Hk|].
  unfold affectedObjects. rewrite Hid, bind_gets. unfold findObjects in El |- *. rewrite So, Ei, El. done.
Qed.

(** For a configuration with positive counts, from the state init leaves, whatever the
    broker, the devices and the clocks do, and in whatever order messages arrive, a register value that a modbus thread reports and
    that belongs to no command is for a range the MQTT client has objects for. *)
Theorem polled_values_have_objects env (ienv : InitEnv D) plugins musl fuel (config : N) ov g0 g specs objects s0 s u m :
  positiveCounts config ->
  newModMqtt g0 -> init ienv fuel config ov g0 = Ret (g, specs, objects) ->
  started g s0 -> rtc (sysstep env plugins musl) s0 s ->
  u ∈ sysUnits s -> RegisterValues m ∈ wOut (uWorld u) -> hasCommandId (msgBase m) = false ->
  exists l, l <> []
    /\ affectedObjects env (mcNetworkName (uClient u)) m (sysClient s) = (sysClient s, Ret (Some l)).
Proof.
  intros Positive New E (Sc & Su & Sw) R Hu Hm Hid.
  destruct (init_queues ienv config Positive _ _ _ _ _ _ New E) as (Q & Ids & Nx & Out).
  assert (Ok : sysOk g s).
  { assert (Ok0 : sysOk g s0).
    { split; [by rewrite Sc|rewrite Sc; split; [done|lia]| |done|].
      - rewrite Sc. apply Forall_forall. intros e He. destruct e as [| | | | | | | |net mm|]; try done.
        by apply Out in He.
      - eapply Forall_impl; [exact Sw|]. intros v. apply newWorld_known. }
    clear -R Ok0 Q. induction R as [|a b c St R IH]; [done|]. apply IH. by eapply sysstep_ok. }
  destruct Ok as [So _ _ Scl Sk]. rewrite Forall_forall in Sk. specialize (Sk u Hu).
  pose proof (wk_out _ _ Sk) as Fo. rewrite Forall_forall in Fo. specialize (Fo _ Hm). cbn in Fo.
  eapply known_has_objects; eauto. rewrite <- Scl. by apply list_elem_of_fmap_2.
Qed.

End system.

(** * A value on its way *)

Module SystemScenario.

Definition env : ClientEnv := mkClientEnv (fun n => Z.of_nat n) (fun _ => false).

(** Addresses without a periodic poll. *)
Definition store : Store :=
  mkStore (fun _ => newRegisterPoll 1 0 HOLDING 1 0 ONCE (-1) 0 0)
    (fun _ => newRegisterWrite (newMsgRegisterValues 1 HOLDING 0 [0] (-1) AUTO 0)) 0.
Definition world : World (ModbusContext Device.state) := mkWorld store ModbusThread.ThreadScenario.offline [].
Definition thread : Thread := ModbusThread.newThread "net1" 0 0.

(** The broker connects, the thread receives its configuration, connects and polls. *)
Definition connected : Client Z := (handle env [] false BrokerConnected (mMqtt demoGateway)).1.
Definition messages : list ToModbus := (mcToModbus demoFirstClient ++ [MqttNetworkState true])%list.
Definition first : ModbusThread.LoopEnv := ModbusThread.ThreadScenario.iteration 1 messages.
Definition second : ModbusThread.LoopEnv := ModbusThread.ThreadScenario.iteration 2 [].
Definition state1 : Thread * World (ModbusContext Device.state) :=
  match ModbusThread.loopStep ModbusThread.ThreadScenario.factory first thread world with
  | Ret r => r | Fault _ => (thread, world) end.
Definition state2 : Thread * World (ModbusContext Device.state) :=
  match ModbusThread.loopStep ModbusThread.ThreadScenario.factory second state1.1 state1.2 with
  | Ret r => r | Fault _ => state1 end.
Definition value : MsgRegisterValues :=
  match wOut state2.2 with
  | [_; RegisterValues v] => v
  | _ => newMsgRegisterValues 0 COIL 0 [] 1 AUTO 0
  end.
Definition unitOf (s : Thread * World (ModbusContext Device.state)) : Unit_ := mkUnit demoFirstClient s.1 s.2.

End SystemScenario.
Import SystemScenario.

Lemma state1_Ret : ModbusThread.loopStep ModbusThread.ThreadScenario.factory first thread world = Ret (state1.1, state1.2).
Proof.
  unfold state1. assert (R : is_ret (ModbusThread.loopStep ModbusThread.ThreadScenario.factory first thread world) = true)
    by (vm_compute; reflexivity).
  destruct (ModbusThread.loopStep _ first thread world) as [[t w]|]; [reflexivity|discriminate R].
Qed.

Lemma state2_Ret :
  ModbusThread.loopStep ModbusThread.ThreadScenario.factory second state1.1 state1.2 = Ret (state2.1, state2.2).
Proof.
  unfold state2. assert (R : is_ret (ModbusThread.loopStep ModbusThread.ThreadScenario.factory second state1.1 state1.2) = true)
    by (vm_compute; reflexivity).
  destruct (ModbusThread.loopStep _ second state1.1 state1.2) as [[t w]|]; [reflexivity|discriminate R].
Qed.

Lemma connected_Ret : handle env [] false BrokerConnected (mMqtt demoGateway) = (connected, Ret tt).
Proof.
  unfold connected.
  assert (R : (handle env [] false BrokerConnected (mMqtt demoGateway)).2 = Ret tt) by (vm_compute; reflexivity).
  destruct (handle env [] false BrokerConnected (mMqtt demoGateway)) as [c o]. cbn in R. by rewrite R.
Qed.

(** The three steps. *)
Lemma scenario_steps :
  rtc (sysstep ModbusThread.ThreadScenario.factory env [] false)
    (mkSys (mMqtt demoGateway) [unitOf (thread, world)]) (mkSys connected [unitOf state2]).
Proof.
  eapply rtc_l. { apply (sys_broker _ env [] false (mMqtt demoGateway) connected BrokerConnected); [done|exact connected_Ret]. }
  eapply rtc_l. { apply (sys_thread _ env [] false connected [] (unitOf (thread, world)) [] first state1.1 state1.2); [|exact state1_Ret].
    apply Forall_fmap, Forall_app. split.
    - apply Forall_forall. intros m Hm. left. exact Hm.
    - apply Forall_singleton. right. left.
      apply list_elem_of_In. vm_compute. repeat first [by left|right]. }
  eapply rtc_l. { apply (sys_thread _ env [] false connected [] (unitOf state1) [] second state2.1 state2.2); [by constructor|exact state2_Ret]. }
  apply rtc_refl.
Qed.

Definition demoUnit : Unit_ := unitOf state2.
Definition demoSys : Sys := mkSys connected [demoUnit].

Lemma demoSys_client : demoUnit ∈ sysUnits demoSys.
Proof. by left. Qed.

Lemma demoSys_started : started demoGateway (mkSys (mMqtt demoGateway) [unitOf (thread, world)]).
Proof. split; [reflexivity|]. split; [vm_compute; reflexivity|]. apply Forall_singleton. by repeat split. Qed.

Lemma demoSys_value : RegisterValues value ∈ wOut (uWorld demoUnit).
Proof. vm_compute. right. left. Qed.

Lemma polled_values_have_objects_witness :
  mcNetworkName (uClient demoUnit) = "net1"
  /\ exists l, l <> []
       /\ affectedObjects env (mcNetworkName (uClient demoUnit)) value (sysClient demoSys)
          = (sysClient demoSys, Ret (Some l)).
Proof.
  split; [vm_compute; reflexivity|].
  apply (polled_values_have_objects ModbusThread.ThreadScenario.factory env demoInitEnv [] false 10 demoConfig true
           demoModMqtt demoGateway demoSpecs demoObjects
           (mkSys (mMqtt demoGateway) [unitOf (thread, world)]) demoSys demoUnit value).
  - exact demoConfig_positive.
  - repeat split; reflexivity.
  - exact demoInit_Ret.
  - exact demoSys_started.
  - exact scenario_steps.
  - exact demoSys_client.
  - exact demoSys_value.
  - vm_compute. reflexivity.
Defined.
