(* ===== verification/MainLoop.v ===== *)
(** The main thread: ModMqtt::start, stop, waitForSignal, waitForQueues and
    notifyQueues of libmodmqttsrv/modmqtt.cpp, with ModbusClient::stop and
    ModbusThread::sendMessageFromModbus.

    The main thread is a program counter and a step function; the threads it shares
    gQueueMutex, gHasMessages and gSignalStatus with are the other cases of a step
    relation.  What a thread does while it holds the mutex is one step.  Modbus
    threads may send any message at any time, and the callbacks of the MQTT library
    run between two steps of the main thread. *)

From stdpp Require Import base gmap list strings relations.
From Stdlib Require Import ZArith Lia Ascii String.
From S2P Require Import Prelude ModbusTypes Commands Config ModbusThread ConvTools ConvArgs StdConv.
From S2P Require Import Converters MqttObject MqttPayload MqttClient MqttClientProps.

#[local] Open Scope string_scope.
#[local] Open Scope Z_scope.

(** * State *)

(** A ModbusClient while the program runs. *)
Record Worker : Type := mkWorker {
  wkName : string;
  wkQueue : list FromModbus;   (** mFromModbusQueue *)
  wkSent : list ToModbus;      (** put into mToModbusQueue by stop *)
  wkNotifying : bool;          (** the thread is between enqueue and notifyQueues *)
  wkRunning : bool;            (** threadLoop has not returned *)
  wkThread : bool              (** mThread is not null *)
}.

Definition withQueue v (w : Worker) : Worker :=
  mkWorker (wkName w) v (wkSent w) (wkNotifying w) (wkRunning w) (wkThread w).
Definition withSent v (w : Worker) : Worker :=
  mkWorker (wkName w) (wkQueue w) v (wkNotifying w) (wkRunning w) (wkThread w).
Definition withNotifying v (w : Worker) : Worker :=
  mkWorker (wkName w) (wkQueue w) (wkSent w) v (wkRunning w) (wkThread w).
Definition withRunning v (w : Worker) : Worker :=
  mkWorker (wkName w) (wkQueue w) (wkSent w) (wkNotifying w) v (wkThread w).
Definition withThread v (w : Worker) : Worker :=
  mkWorker (wkName w) (wkQueue w) (wkSent w) (wkNotifying w) (wkRunning w) v.

(** Where ModMqtt::start is. *)
Inductive MainPc : Type :=
| Starting             (** mMqtt->start() of the first loop *)
| StartedTest          (** mMqtt->isConnected() of the first loop *)
| SignalWait           (** waitForSignal *)
| SignalTest           (** the condition of the first loop *)
| LoopHead             (** the condition of the main loop and the tests of the signal *)
| QueueWait            (** waitForQueues *)
| Processing (i : nat) (** processModbusMessages, at client i *)
| Stopping (i : nat)   (** ModbusClient::stop of client i *)
| Joining (i : nat)    (** its mThread->join() *)
| LastMessages (i : nat)
| OfflineTest          (** mMqtt->isConnected() before the networks are reported down *)
| Offline (i : nat)
| ShuttingDown         (** mMqtt->shutdown() *)
| FinalTest            (** mMqtt->isStarted() *)
| FinalWait            (** the last waitForQueues *)
| Finished
| Failed (f : fault).  (** an exception has left start *)

Definition SIGTERM : Z := 15.

Section main.
Context {D : Type} `{CDouble D} `{Rapidjson D}.
Variable env : ClientEnv.
Variable plugins : list (ConverterPlugin D).
Variable musl : bool.

Import MqttClient.

Record Main : Type := mkMain {
  mnPc : MainPc;
  gSignalStatus : Z;
  gHasMessages : bool;
  mnHandlers : nat;        (** signal handlers and stop requests that have yet to notify *)
  mnWorkers : list Worker;
  mnClient : Client D
}.

Definition withPc v (m : Main) : Main :=
  mkMain v (gSignalStatus m) (gHasMessages m) (mnHandlers m) (mnWorkers m) (mnClient m).
Definition withSignal v (m : Main) : Main :=
  mkMain (mnPc m) v (gHasMessages m) (mnHandlers m) (mnWorkers m) (mnClient m).
Definition withMessages v (m : Main) : Main :=
  mkMain (mnPc m) (gSignalStatus m) v (mnHandlers m) (mnWorkers m) (mnClient m).
Definition withHandlers v (m : Main) : Main :=
  mkMain (mnPc m) (gSignalStatus m) (gHasMessages m) v (mnWorkers m) (mnClient m).
Definition withWorkers v (m : Main) : Main :=
  mkMain (mnPc m) (gSignalStatus m) (gHasMessages m) (mnHandlers m) v (mnClient m).
Definition withClient v (m : Main) : Main :=
  mkMain (mnPc m) (gSignalStatus m) (gHasMessages m) (mnHandlers m) (mnWorkers m) v.

Definition changeWorker (i : nat) (f : Worker -> Worker) (m : Main) : Main :=
  withWorkers (alter f i (mnWorkers m)) m.

(** * The main thread *)

(** A call of the MQTT client; an exception leaves start. *)
Definition call (k : comp (D := D) unit) (next : MainPc) (m : Main) : Main :=
  match k (mnClient m) with
  | (c, Ret _) => withPc next (withClient c m)
  | (c, Fault f) => withPc (Failed f) (withClient c m)
  end.

Definition isConnected (m : Main) : bool := bool_decide (cConnection (mnClient m) = CONNECTED).

(** notifyQueues, under the mutex *)
Definition notifyQueues (m : Main) : Main := withMessages true m.

(** waitForQueues: blocked until gHasMessages is set, which it takes *)
Definition waitForQueues (next : MainPc) (m : Main) : option Main :=
  if gHasMessages m then Some (withPc next (withMessages false m)) else None.

(** One step of processModbusMessages: a message of client [i], or the next client. *)
Definition processStep (at_ : nat -> MainPc) (i : nat) (next : MainPc) (m : Main) : Main :=
  match mnWorkers m !! i with
  | None => withPc next m
  | Some w =>
      match wkQueue w with
      | [] => withPc (at_ (S i)) m
      | item :: rest =>
          call (processModbusMessage env (wkName w) item) (at_ i) (changeWorker i (withQueue rest) m)
      end
  end.

(** One step of ModbusClient::stop on every client: the message, then the join. *)
Definition stopClient (i : nat) (m : Main) : Main :=
  match mnWorkers m !! i with
  | None => withPc (LastMessages 0) m
  | Some w =>
      if wkThread w
      then withPc (Joining i) (changeWorker i (fun w => withSent (wkSent w ++ [EndWork])%list w) m)
      else withPc (Stopping (S i)) m
  end.

Definition joinClient (i : nat) (m : Main) : option Main :=
  match mnWorkers m !! i with
  | None => None
  | Some w => if wkRunning w then None
              else Some (withPc (Stopping (S i)) (changeWorker i (withThread false) m))
  end.

(** The main loop: its condition, then the tests of gSignalStatus. *)
Definition loopHead (m : Main) : Main :=
  if negb (cStarted (mnClient m)) then withPc (Stopping 0) m
  else if gSignalStatus m =? -1 then withPc QueueWait m
  else if 0 <? gSignalStatus m then
    let m' := withSignal (-1) m in
    if gSignalStatus m =? SIGTERM then withPc (Stopping 0) m' else m'
  else if gSignalStatus m =? 0 then withPc (Stopping 0) m
  else m.

(** ModMqtt::start.  None: the thread is blocked, or start has returned. *)
Definition mainStep (m : Main) : option Main :=
  match mnPc m with
  | Starting => Some (call (start env) StartedTest m)
  | StartedTest => Some (withPc (if isConnected m then LoopHead else SignalWait) m)
  | SignalWait => Some (withPc SignalTest m)
  | SignalTest => Some (withPc (if gSignalStatus m =? -1 then Starting else LoopHead) m)
  | LoopHead => Some (loopHead m)
  | QueueWait => waitForQueues (Processing 0) m
  | Processing i => Some (processStep Processing i LoopHead m)
  | Stopping i => Some (stopClient i m)
  | Joining i => joinClient i m
  | LastMessages i => Some (processStep LastMessages i OfflineTest m)
  | OfflineTest => Some (withPc (if isConnected m then Offline 0 else ShuttingDown) m)
  | Offline i =>
      match mnWorkers m !! i with
      | None => Some (withPc ShuttingDown m)
      | Some w => Some (call (processModbusNetworkState env (wkName w) false) (Offline (S i)) m)
      end
  | ShuttingDown => Some (call (shutdown env) FinalTest m)
  | FinalTest => Some (withPc (if cStarted (mnClient m) then FinalWait else Finished) m)
  | FinalWait => waitForQueues Finished m
  | Finished | Failed _ => None
  end.

Fixpoint mainRun (n : nat) (m : Main) : option Main :=
  match n with
  | O => Some m
  | S n' => mainStep m ≫= mainRun n'
  end.

(** * The other threads *)

(** The callbacks of the MQTT library. *)
Inductive Callback : Type :=
| OnConnect
| OnDisconnect
| OnMessage (topic payload : string) (responseTopic : option string) (correlation : string).

Definition callback (e : Callback) : comp (D := D) unit :=
  match e with
  | OnConnect => onConnect env
  | OnDisconnect => onDisconnect env musl
  | OnMessage topic payload resp corr => onMessage env plugins topic payload resp corr
  end.

(** Whether a callback has called notifyQueues. *)
Definition notified (c c' : Client D) : bool :=
  existsb (fun e => match e with ENotifyQueues => true | _ => false end) (drop (List.length (cOut c)) (cOut c')).

Inductive mainstep : Main -> Main -> Prop :=
| step_main m m' : mainStep m = Some m' -> mainstep m m'
| step_send m i w item :
    (** sendMessageFromModbus: enqueue *)
    mnWorkers m !! i = Some w -> wkRunning w = true -> wkNotifying w = false ->
    mainstep m (changeWorker i (fun w => withNotifying true (withQueue (wkQueue w ++ [item])%list w)) m)
| step_notify m i w :
    (** sendMessageFromModbus: notifyQueues *)
    mnWorkers m !! i = Some w -> wkNotifying w = true ->
    mainstep m (notifyQueues (changeWorker i (withNotifying false) m))
| step_end m i w :
    (** threadLoop returns *)
    mnWorkers m !! i = Some w -> wkRunning w = true -> wkNotifying w = false ->
    mainstep m (changeWorker i (withRunning false) m)
| step_signal m s :
    (** signal_handler for SIGTERM, and stop: the status *)
    s = SIGTERM \/ s = 0 ->
    mainstep m (withHandlers (S (mnHandlers m)) (withSignal s m))
| step_handler m n :
    (** signal_handler and stop: notifyQueues *)
    mnHandlers m = S n -> mainstep m (notifyQueues (withHandlers n m))
| step_callback m e c :
    callback e (mnClient m) = (c, Ret tt) ->
    mainstep m (withMessages (gHasMessages m || notified (mnClient m) c) (withClient c m)).

(** What start begins with: no signal, and every client started. *)
Definition mainStart (m : Main) : Prop :=
  mnPc m = Starting /\ gSignalStatus m = -1 /\ mnHandlers m = 0%nat
  /\ Forall (fun w => wkRunning w = true /\ wkThread w = true) (mnWorkers m)
  /\ (gHasMessages m = true \/ Forall (fun w => wkQueue w = [] \/ wkNotifying w = true) (mnWorkers m)).

(** * The invariant *)

(** The clients that have been stopped, whose messages have been taken, and whose
    messages the main thread is about to look at. *)
Definition joined (pc : MainPc) (i : nat) : Prop :=
  match pc with
  | Stopping j | Joining j => (i < j)%nat
  | LastMessages _ | OfflineTest | Offline _ | ShuttingDown | FinalTest | FinalWait | Finished => True
  | _ => False
  end.
Definition drained (pc : MainPc) (i : nat) : Prop :=
  match pc with
  | LastMessages j => (i < j)%nat
  | OfflineTest | Offline _ | ShuttingDown | FinalTest | FinalWait | Finished => True
  | _ => False
  end.
Definition draining (pc : MainPc) (i : nat) : Prop :=
  match pc with
  | Processing j | LastMessages j => (j <= i)%nat
  | Failed _ => True
  | _ => False
  end.

Record workerOk (pc : MainPc) (flag : bool) (i : nat) (w : Worker) : Prop := mkWorkerOk {
  wk_notifying : wkNotifying w = true -> wkRunning w = true;
  wk_noticed : wkQueue w <> [] -> flag = true \/ wkNotifying w = true \/ draining pc i;
  wk_joined : joined pc i -> wkThread w = false;
  wk_ended : wkThread w = false -> wkRunning w = false /\ EndWork ∈ wkSent w;
  wk_joining : pc = Joining i -> EndWork ∈ wkSent w;
  wk_drained : drained pc i -> wkQueue w = []
}.

Record mainOk (m : Main) : Prop := mkMainOk {
  mn_workers : forall i w, mnWorkers m !! i = Some w -> workerOk (mnPc m) (gHasMessages m) i w;
  mn_signal : mnPc m = QueueWait -> gSignalStatus m <> -1 -> gHasMessages m = true \/ mnHandlers m <> 0%nat;
  mn_networks : mnPc m = FinalTest \/ mnPc m = FinalWait \/ mnPc m = Finished -> cNetworks (mnClient m) = []
}.

Lemma mainStart_ok m : mainStart m -> mainOk m.
Proof.
  intros (E & Es & Eh & F & Q). split; rewrite ?E; [|done|naive_solver].
  intros i w Hi. rewrite Forall_lookup in F. destruct (F _ _ Hi) as [R T].
  split; rewrite ?R, ?T; try done.
  intros Ne. destruct Q as [Q|Q]; [by left|]. rewrite Forall_lookup in Q. destruct (Q _ _ Hi); naive_solver.
Qed.

(** A change of the workers, the program counter and the flag, one worker at a time. *)
Lemma workers_altered (P : nat -> Worker -> Prop) i f (l : list Worker) :
  (forall j w, l !! j = Some w -> P j (if decide (j = i) then f w else w)) ->
  forall j w, alter f i l !! j = Some w -> P j w.
Proof.
  intros A j w. rewrite list_lookup_alter. destruct (decide (i = j)) as [->|N].
  - intros (w0 & E & ->)%fmap_Some. specialize (A _ _ E). by rewrite decide_True in A.
  - intros E. specialize (A _ _ E). by rewrite decide_False in A.
Qed.

(** The program counter may move when what it promises of a worker holds. *)
Record pcChange (pc pc' : MainPc) (i : nat) (w : Worker) : Prop := mkPcChange {
  pcc_draining : draining pc i -> draining pc' i \/ wkQueue w = [];
  pcc_joined : joined pc' i -> joined pc i \/ wkThread w = false;
  pcc_drained : drained pc' i -> drained pc i \/ wkQueue w = [];
  pcc_joining : pc' = Joining i -> EndWork ∈ wkSent w
}.

Lemma workerOk_pc pc pc' flag i w : pcChange pc pc' i w -> workerOk pc flag i w -> workerOk pc' flag i w.
Proof. intros [A B C E] [W1 W2 W3 W4 W5 W6]. split; try done; naive_solver. Qed.

Lemma mainOk_pc m pc c :
  mainOk m -> (forall i w, mnWorkers m !! i = Some w -> pcChange (mnPc m) pc i w) ->
  (pc = QueueWait -> gSignalStatus m = -1) ->
  (pc = FinalTest \/ pc = FinalWait \/ pc = Finished -> cNetworks c = []) ->
  mainOk (withPc pc (withClient c m)).
Proof.
  intros [W S N] P Q F. split; cbn; [|naive_solver|done].
  intros i w Hi. eapply workerOk_pc; [by apply P|by apply W].
Qed.

(** A call goes on where it says, or fails. *)
Lemma mainOk_call k next m :
  mainOk m -> (forall i w, mnWorkers m !! i = Some w -> pcChange (mnPc m) next i w) ->
  next <> QueueWait ->
  (next = FinalTest \/ next = FinalWait \/ next = Finished -> cNetworks (k (mnClient m)).1 = []) ->
  mainOk (call k next m).
Proof.
  intros O P Q F. unfold call. destruct (k (mnClient m)) as [c [u|f]]; apply mainOk_pc; try done.
  - intros i w Hi. destruct (P i w Hi) as [A B C E]. split; cbn; try done. by left.
  - naive_solver.
Qed.

(** The callbacks leave the list of networks alone. *)
Definition sameNetworks (c c' : Client D) : Prop := cNetworks c' = cNetworks c.

#[local] Instance sameNetworks_preorder : PreOrder sameNetworks.
Proof. split; [done|]. intros a b c E1 E2. unfold sameNetworks in *. congruence. Qed.

Lemma networks_effect e : preserves sameNetworks (effect e).
Proof. by intros c _. Qed.
Lemma networks_implCall e : preserves sameNetworks (implCall env e).
Proof. intros c _. unfold implCall. by destruct (envFails env (cTick c)). Qed.
Lemma networks_readClock : preserves sameNetworks (readClock env).
Proof. by intros c _. Qed.
Lemma networks_setObject p f : preserves sameNetworks (setObject p f).
Proof. by intros c _. Qed.

#[local] Hint Resolve networks_effect networks_implCall networks_readClock networks_setObject : client.
#[local] Hint Extern 2 (preserves sameNetworks (modify _)) => (apply preserves_modify; intros; reflexivity) : client.

Lemma networks_errorTo topic corr msg : preserves sameNetworks (publishRpcErrorTo env topic corr msg).
Proof. unfold publishRpcErrorTo. handler. Qed.
Lemma networks_publishState p force : preserves sameNetworks (publishState env p force).
Proof. unfold publishState, getObject. handler. Qed.
Lemma networks_availability p : preserves sameNetworks (publishAvailabilityChange env p).
Proof. unfold publishAvailabilityChange, getObject. handler. Qed.
#[local] Hint Resolve networks_errorTo networks_publishState networks_availability : client.

Lemma networks_onMessage topic payload resp corr :
  preserves sameNetworks (onMessage env plugins topic payload resp corr).
Proof.
  unfold onMessage, executeCommand, sendCommand, handleRpcRequest, submitRequest. handler.
Qed.

Lemma networks_callback e c c' : callback e c = (c', Ret tt) -> cNetworks c' = cNetworks c.
Proof.
  intros E. assert (P : preserves sameNetworks (callback e)).
  { destruct e; [| |apply networks_onMessage].
    - unfold callback, onConnect, publishAll, sendMqttNetworkIsUp, getObject. handler.
    - unfold callback, onDisconnect, sendMqttNetworkIsUp. handler. }
  specialize (P c). rewrite E in P. by apply P.
Qed.

Ltac pc_cases := intros; split; cbn; try done; try lia; naive_solver lia.

Lemma processStep_ok m at_ i next :
  mainOk m -> (at_ = Processing /\ next = LoopHead) \/ (at_ = LastMessages /\ next = OfflineTest) ->
  mnPc m = at_ i -> mainOk (processStep at_ i next m).
Proof.
  intros O K E. unfold processStep. destruct (mnWorkers m !! i) as [w|] eqn:Hi.
  - destruct (wkQueue w) as [|item rest] eqn:Q.
    + apply mainOk_pc with (c := mnClient m) (pc := at_ (S i)); [done| | |];
        destruct K as [[-> ->]|[-> ->]]; try naive_solver; intros j v Hj; rewrite E;
        (destruct (decide (j = i)) as [->|]; [replace v with w in * by congruence|]); pc_cases.
    + apply mainOk_call; cbn [mnPc mnWorkers changeWorker withWorkers].
      * destruct O as [W S N]. split; cbn; [|done|done]. apply workers_altered.
        intros j v Hj. destruct (W j v Hj) as [W1 W2 W3 W4 W5 W6].
        case_decide as D'; [subst j|by apply W]. replace v with w in * by congruence.
        split; cbn; try done.
        -- intros _. right; right. rewrite E. by destruct K as [[-> _]|[-> _]]; cbn.
        -- rewrite E. destruct K as [[-> _]|[-> _]]; cbn; [done|lia].
      * rewrite E. intros j v Hj. destruct K as [[-> ->]|[-> ->]]; pc_cases.
      * by destruct K as [[-> ->]|[-> ->]].
      * destruct K as [[-> ->]|[-> ->]]; naive_solver.
  - apply mainOk_pc with (c := mnClient m) (pc := next); [done| | |];
      destruct K as [[-> ->]|[-> ->]]; try naive_solver; intros j v Hj; rewrite E;
      apply lookup_lt_Some in Hj; apply lookup_ge_None in Hi; pc_cases.
Qed.

Lemma shutdown_networks (c : Client D) : cNetworks (shutdown env c).1 = [].
Proof.
  unfold shutdown, bind, modify, gets, implCall. cbn. destruct (cConnection c); try done. by destruct (envFails _ _).
Qed.

Lemma loopHead_ok m : mainOk m -> mnPc m = LoopHead -> mainOk (loopHead m).
Proof.
  intros O E. unfold loopHead.
  assert (S : forall s, mainOk (withSignal s m)) by (intros s; destruct O as [W S N]; split; cbn; [done|by rewrite E|done]).
  assert (G : forall s, mainOk (withPc (Stopping 0) (withSignal s m))).
  { intros s. apply (mainOk_pc (withSignal s m) (Stopping 0) (mnClient m)); [done| |naive_solver..].
    cbn. rewrite E. pc_cases. }
  destruct (negb _); [apply (G (gSignalStatus m))|]. destruct (Z.eqb_spec (gSignalStatus m) (-1)) as [Es|].
  - apply mainOk_pc with (c := mnClient m); [done| |done|naive_solver]. rewrite E. pc_cases.
  - destruct (0 <? gSignalStatus m); [destruct (_ =? _); [apply G|apply S]|].
    destruct (_ =? 0); [apply (G (gSignalStatus m))|done].
Qed.

Lemma stopClient_ok m i : mainOk m -> mnPc m = Stopping i -> mainOk (stopClient i m).
Proof.
  intros O E. unfold stopClient. destruct (mnWorkers m !! i) as [w|] eqn:Hi.
  - destruct (wkThread w) eqn:T.
    + destruct O as [W S N]. rewrite E in *. split; cbn; [|done|naive_solver]. apply workers_altered.
      intros j v Hj. destruct (W j v Hj) as [W1 W2 W3 W4 W5 W6]. case_decide as K.
      * subst j. replace v with w in * by congruence. split; cbn; try done.
        -- rewrite T. done.
        -- intros _. apply elem_of_app. right. left.
      * split; cbn; try done; naive_solver.
    + apply mainOk_pc with (c := mnClient m); [done| |done|naive_solver]. rewrite E. intros j v Hj.
      destruct (decide (j = i)) as [->|]; [replace v with w in * by congruence|]; pc_cases.
  - apply mainOk_pc with (c := mnClient m); [done| |done|naive_solver]. rewrite E. intros j v Hj.
    apply lookup_lt_Some in Hj. apply lookup_ge_None in Hi. pc_cases.
Qed.

Lemma joinClient_ok m i m' : mainOk m -> mnPc m = Joining i -> joinClient i m = Some m' -> mainOk m'.
Proof.
  intros [W S N] E. unfold joinClient. destruct (mnWorkers m !! i) as [w|] eqn:Hi; [|done].
  destruct (wkRunning w) eqn:R; [done|]. intros [= <-]. rewrite E in *. split; cbn; [|done|naive_solver].
  apply workers_altered. intros j v Hj. destruct (W j v Hj) as [W1 W2 W3 W4 W5 W6]. case_decide as K.
  - subst j. replace v with w in * by congruence. split; cbn; try done. naive_solver.
  - split; cbn; try done. intros. apply W3. cbn. lia.
Qed.

(** waitForQueues takes the flag: whoever needed it is looked at next. *)
Lemma waitForQueues_ok m next m' :
  mainOk m -> (mnPc m = QueueWait /\ next = Processing 0) \/ (mnPc m = FinalWait /\ next = Finished) ->
  waitForQueues next m = Some m' -> mainOk m'.
Proof.
  intros [W S N] K. unfold waitForQueues. destruct (gHasMessages m) eqn:G; [|done]. intros [= <-].
  split; cbn; [|by destruct K as [[_ ->]|[_ ->]]|].
  - intros j v Hj. destruct (W j v Hj) as [W1 W2 W3 W4 W5 W6].
    destruct K as [[E ->]|[E ->]]; rewrite E in *; split; cbn; try done; try lia.
    intros Ne. by destruct Ne; apply W6.
  - intros F. apply N. destruct K as [[E ->]|[E ->]]; naive_solver.
Qed.

Lemma mainStep_ok m m' : mainStep m = Some m' -> mainOk m -> mainOk m'.
Proof.
  intros E O. unfold mainStep in E. destruct (mnPc m) eqn:Pc; try done;
    try (by eapply joinClient_ok); try (by eapply waitForQueues_ok; naive_solver).
  all: repeat case_match; injection E as <-; first
    [ by apply loopHead_ok | by apply stopClient_ok | apply processStep_ok; naive_solver
    | apply mainOk_call; rewrite ?Pc;
        [done|pc_cases|done|intros; apply shutdown_networks || naive_solver]
    | apply (mainOk_pc m _ (mnClient m)); rewrite ?Pc;
        [done|pc_cases|done|intros; destruct O; naive_solver] ].
Qed.

Lemma drained_joined pc i : drained pc i -> joined pc i.
Proof. by destruct pc. Qed.

Lemma mainstep_ok m m' : mainstep m m' -> mainOk m -> mainOk m'.
Proof.
  intros St O. destruct St as [m m' E|m i w item Hi R Nt|m i w Hi Nt|m i w Hi R Nt|m s Hs|m n Hn|m e c E];
    [by eapply mainStep_ok|..]; destruct O as [W S N].
  - split; cbn; [|done|done]. apply workers_altered. intros j v Hj. destruct (W j v Hj) as [W1 W2 W3 W4 W5 W6].
    case_decide as K; [subst j|done]. replace v with w in * by congruence. split; cbn; try done; [naive_solver|].
    intros Dr%drained_joined. destruct W4 as [R' _]; [auto|congruence].
  - split; cbn; [|naive_solver|done]. apply workers_altered. intros j v Hj.
    destruct (W j v Hj) as [W1 W2 W3 W4 W5 W6]. case_decide as K; split; cbn; try done; naive_solver.
  - split; cbn; [|done|done]. apply workers_altered. intros j v Hj. destruct (W j v Hj) as [W1 W2 W3 W4 W5 W6].
    case_decide as K; [subst j|done]. replace v with w in * by congruence. split; cbn; try done; naive_solver.
  - split; cbn; [done| |done]. intros _ _. by right.
  - split; cbn; [|naive_solver|done]. intros j v Hj. destruct (W j v Hj) as [W1 W2 W3 W4 W5 W6].
    split; try done. naive_solver.
  - split; cbn.
    + intros j v Hj. destruct (W j v Hj) as [W1 W2 W3 W4 W5 W6]. split; try done.
      intros Ne. destruct (W2 Ne) as [-> |]; [by left|by right].
    + intros Pc Sg. destruct (S Pc Sg) as [-> |]; [by left|by right].
    + intros F. rewrite (networks_callback _ _ _ E). auto.
Qed.

Lemma reachable_ok m0 m : mainStart m0 -> rtc mainstep m0 m -> mainOk m.
Proof.
  intros St R. apply mainStart_ok in St. induction R as [|a b c Hab _ IH]; [done|].
  apply IH. by eapply mainstep_ok.
Qed.

(** * Results *)

(** C2: no wake-up is lost: whenever the main thread sleeps in waitForQueues, every
    message in the queue of a modbus thread was sent by a thread that has yet to
    call notifyQueues, and a signal or a stop request that has been recorded is one
    whose handler has yet to call it. *)
Theorem no_lost_wakeup m0 m :
  mainStart m0 -> rtc mainstep m0 m -> mnPc m = QueueWait -> mainStep m = None ->
  (forall i w, mnWorkers m !! i = Some w -> wkQueue w <> [] -> wkNotifying w = true)
  /\ (gSignalStatus m <> -1 -> mnHandlers m <> 0%nat).
Proof.
  intros St R Pc B. destruct (reachable_ok m0 m St R) as [W S _].
  unfold mainStep in B. rewrite Pc in *. unfold waitForQueues in B.
  destruct (gHasMessages m); [done|]. split.
  - intros i w Hi Ne. destruct (wk_noticed _ _ _ _ (W i w Hi) Ne) as [|[|[]]]; done.
  - intros Sg. destruct (S eq_refl Sg) as [|]; done.
Qed.

(** When start has returned, every modbus thread has been told to end and has ended,
    nothing a thread has sent is left in its queue, and the MQTT client sends nothing
    to the networks any more. *)
Theorem shutdown_complete m0 m :
  mainStart m0 -> rtc mainstep m0 m -> mnPc m = Finished ->
  cNetworks (mnClient m) = []
  /\ forall i w, mnWorkers m !! i = Some w ->
       EndWork ∈ wkSent w /\ wkRunning w = false /\ wkThread w = false /\ wkQueue w = [].
Proof.
  intros St R Pc. destruct (reachable_ok m0 m St R) as [W S N]. split; [apply N; tauto|].
  intros i w Hi. specialize (W i w Hi). rewrite Pc in W. destruct W as [_ _ W3 W4 _ W6].
  destruct W4 as [R' Se]; [by apply W3|]. split; [done|]. split; [done|]. split; [by apply W3|by apply W6].
Qed.

(** What the main thread reaches on its own. *)
Definition leads (m : Main) (P : Main -> Prop) : Prop := exists n m', mainRun n m = Some m' /\ P m'.

Lemma leads_now m (P : Main -> Prop) : P m -> leads m P.
Proof. intros Hm. by exists 0%nat, m. Qed.

Lemma leads_step m m1 P : mainStep m = Some m1 -> leads m1 P -> leads m P.
Proof. intros E (n & m' & R & Hp). exists (S n), m'. split; [|done]. cbn. by rewrite E. Qed.

Definition stopRequested (m : Main) : Prop := gSignalStatus m = 0 \/ gSignalStatus m = SIGTERM.
Definition looping (pc : MainPc) : Prop :=
  match pc with
  | Starting | StartedTest | SignalWait | SignalTest | LoopHead | QueueWait | Processing _ => True
  | _ => False
  end.
(** Out of the main loop, at the first client to stop, or by an exception. *)
Definition leftLoop (m : Main) : Prop := mnPc m = Stopping 0 \/ exists f, mnPc m = Failed f.

Lemma loopHead_leads m : mnPc m = LoopHead -> stopRequested m -> leads m leftLoop.
Proof.
  intros Pc Sr. eapply leads_step; [unfold mainStep; by rewrite Pc|]. apply leads_now. left.
  unfold loopHead. destruct (negb _); [done|]. by destruct Sr as [-> | ->].
Qed.

Lemma call_pc k next m :
  let m' := call k next m in
  (mnPc m' = next \/ exists f, mnPc m' = Failed f)
  /\ gSignalStatus m' = gSignalStatus m /\ mnWorkers m' = mnWorkers m.
Proof. unfold call. destruct (k (mnClient m)) as [c [u|f]]; cbn; [naive_solver|]. split; [right; by eexists|done]. Qed.

(** processModbusMessages ends: each queue is as long as it is. *)
Lemma processing_leads n m i :
  (List.length (mnWorkers m) - i <= n)%nat -> mnPc m = Processing i -> stopRequested m -> leads m leftLoop.
Proof.
  revert m i. induction n as [|n IHn]; intros m i Ln Pc Sr.
  { eapply leads_step; [unfold mainStep; by rewrite Pc|]. unfold processStep.
    rewrite lookup_ge_None_2 by lia. by apply loopHead_leads. }
  destruct (mnWorkers m !! i) as [w|] eqn:Hi.
  - remember (wkQueue w) as q eqn:Hq. revert m w Ln Pc Sr Hi Hq.
    induction q as [|item q IHq]; intros m w Ln Pc Sr Hi Hq;
      (eapply leads_step; [unfold mainStep; by rewrite Pc|]); unfold processStep; rewrite Hi, <- Hq.
    + apply IHn with (i := S i); cbn; [lia|done|done].
    + set (m1 := changeWorker i (withQueue q) m).
      destruct (call_pc (processModbusMessage env (wkName w) item) (Processing i) m1) as ([Pc'|F] & Sg & Ws).
      * apply IHq with (w := withQueue q w); try done; try (by rewrite Ws; unfold m1; cbn; rewrite ?length_alter).
        -- unfold stopRequested. by rewrite Sg.
        -- rewrite Ws. unfold m1. cbn. by rewrite list_lookup_alter_eq, Hi.
      * apply leads_now. by right.
  - eapply leads_step; [unfold mainStep; by rewrite Pc|]. unfold processStep. rewrite Hi. by apply loopHead_leads.
Qed.

(** C11: a stop request ends the main loop: once gSignalStatus holds SIGTERM or a stop
    request and its handler is done, the main thread gets by itself, from wherever it
    is in the loops of start and without being blocked, to stopping the first modbus
    client, unless an exception ends start. *)
Theorem stop_request_obeyed m0 m :
  mainStart m0 -> rtc mainstep m0 m -> looping (mnPc m) -> stopRequested m -> mnHandlers m = 0%nat ->
  exists n m', mainRun n m = Some m' /\ (mnPc m' = Stopping 0 \/ exists f, mnPc m' = Failed f).
Proof.
  intros St R L Sr Hh. destruct (reachable_ok m0 m St R) as [_ S _].
  assert (N : gSignalStatus m <> -1) by (unfold stopRequested, SIGTERM in Sr; lia).
  assert (Test : forall m, mnPc m = SignalTest -> stopRequested m -> leads m leftLoop).
  { clear. intros m Pc Sr. eapply leads_step; [unfold mainStep; by rewrite Pc|].
    apply loopHead_leads; [|done]. by destruct Sr as [Sg|Sg]; rewrite Sg. }
  assert (Wait : forall m, mnPc m = SignalWait -> stopRequested m -> leads m leftLoop).
  { intros m' Pc Sr'. eapply leads_step; [unfold mainStep; by rewrite Pc|]. by apply Test. }
  assert (Head : forall m, mnPc m = StartedTest -> stopRequested m -> leads m leftLoop).
  { intros m' Pc Sr'. eapply leads_step; [unfold mainStep; by rewrite Pc|].
    destruct (isConnected m'); [by apply loopHead_leads|by apply Wait]. }
  change (leads m leftLoop). destruct (mnPc m) eqn:Pc; try done; auto using loopHead_leads.
  - eapply leads_step; [unfold mainStep; by rewrite Pc|].
    destruct (call_pc (start env) StartedTest m) as ([Pc'|F] & Sg & _); [|by apply leads_now; right].
    apply Head; [done|]. unfold stopRequested. by rewrite Sg.
  - destruct (S eq_refl N) as [G|]; [|done].
    eapply leads_step; [unfold mainStep; rewrite Pc; unfold waitForQueues; by rewrite G|].
    by eapply processing_leads.
  - by eapply processing_leads.
Qed.

End main.

(** * Executions *)

Section executions.
Context {D : Type} `{CDouble D} `{Rapidjson D}.
Variable env : ClientEnv.
Variable plugins : list (ConverterPlugin D).
Variable musl : bool.

(** The steps by name, so that an execution is a list of them. *)
Inductive Action : Type :=
| AMain | ASend (i : nat) (item : FromModbus) | ANotify (i : nat) | AEnd (i : nat)
| ASignal (s : Z) | AHandler | ACallback (e : Callback).

Definition act (a : Action) (m : Main (D := D)) : option Main :=
  match a with
  | AMain => mainStep env m
  | ASend i item =>
      w ← mnWorkers m !! i;
      if wkRunning w && negb (wkNotifying w)
      then Some (changeWorker i (fun w => withNotifying true (withQueue (wkQueue w ++ [item])%list w)) m)
      else None
  | ANotify i =>
      w ← mnWorkers m !! i;
      if wkNotifying w then Some (notifyQueues (changeWorker i (withNotifying false) m)) else None
  | AEnd i =>
      w ← mnWorkers m !! i;
      if wkRunning w && negb (wkNotifying w) then Some (changeWorker i (withRunning false) m) else None
  | ASignal s =>
      if (s =? SIGTERM) || (s =? 0) then Some (withHandlers (S (mnHandlers m)) (withSignal s m)) else None
  | AHandler => match mnHandlers m with O => None | S n => Some (notifyQueues (withHandlers n m)) end
  | ACallback e =>
      match callback env plugins musl e (mnClient m) with
      | (c, Ret tt) => Some (withMessages (gHasMessages m || notified (mnClient m) c) (withClient c m))
      | _ => None
      end
  end.

Definition execute (l : list Action) (m : Main) : option Main :=
  foldl (fun r a => r ≫= act a) (Some m) l.

Lemma act_step a m m' : act a m = Some m' -> mainstep env plugins musl m m'.
Proof.
  destruct a as [|i item|i|i|s| |e]; cbn [act].
  - apply step_main.
  - intros (w & Hi & E)%bind_Some. destruct (wkRunning w) eqn:R, (wkNotifying w) eqn:Nt; try done.
    injection E as <-. by eapply step_send.
  - intros (w & Hi & E)%bind_Some. destruct (wkNotifying w) eqn:Nt; try done.
    injection E as <-. by eapply step_notify.
  - intros (w & Hi & E)%bind_Some. destruct (wkRunning w) eqn:R, (wkNotifying w) eqn:Nt; try done.
    injection E as <-. by eapply step_end.
  - destruct ((s =? SIGTERM) || (s =? 0)) eqn:E; [|done]. intros [= <-]. apply step_signal.
    apply orb_true_iff in E as [E|E]; apply Z.eqb_eq in E; auto.
  - destruct (mnHandlers m) eqn:E; [done|]. intros [= <-]. by apply step_handler.
  - destruct (callback _ _ _ e (mnClient m)) as [c [[]|]] eqn:E; [|done]. intros [= <-]. by eapply step_callback.
Qed.

Lemma execute_reachable l m m' : execute l m = Some m' -> rtc (mainstep env plugins musl) m m'.
Proof.
  revert m. induction l as [|a l IH]; intros m.
  - intros [= <-]. apply rtc_refl.
  - unfold execute. cbn. destruct (act a m) as [m1|] eqn:E.
    + intros R. eapply rtc_l; [by apply act_step in E|by apply IH].
    + intros R. exfalso. clear -R. induction l; [done|auto].
Qed.

End executions.

Module MainScenario.

Definition env : ClientEnv := ClientScenario.env.

Definition client : Client Z :=
  mkClient DISCONNECTED false defaultBrokerConfig ["net"] [] [] ClientScenario.object [] DISABLED "" 0 ∅ 0 [].

Definition start : Main :=
  mkMain Starting (-1) false 0 [mkWorker "net" [] [] false true true] client.

Definition up : FromModbus := ModbusNetworkState "net" true.

(** To the first waitForQueues, with the broker connected. *)
Definition toWait : list Action := [AMain; ACallback OnConnect; AMain; AMain].

Definition after (l : list Action) : Main := default start (execute env [] false l start).

Lemma start_ok : mainStart start.
Proof. split; [done|]. split; [done|]. split; [done|]. split; [by repeat constructor|]. right. by repeat constructor. Qed.

Lemma after_reachable l :
  bool_decide (is_Some (execute env [] false l start)) = true ->
  rtc (mainstep env [] false) start (after l).
Proof.
  intros [m E]%bool_decide_eq_true. unfold after. rewrite E. cbn. by apply (execute_reachable env [] false l).
Qed.

(** The thread has put a message into its queue, and a SIGTERM has been recorded. *)
Definition blocked : Main := after (toWait ++ [ASend 0 up; ASignal SIGTERM]).
(** The handler of the signal is done. *)
Definition signalled : Main := after (toWait ++ [ASend 0 up; ASignal SIGTERM; AHandler]).

(** A message of the thread while it is stopped sets the flag again, which the last
    waitForQueues takes for the event of the disconnection. *)
Definition toExit : list Action :=
  (toWait ++ [ASignal SIGTERM; AHandler; AMain; AMain; AMain; AMain; ASend 0 up; ANotify 0; AMain; AEnd 0]
   ++ repeat AMain 11)%list.

End MainScenario.

Import MainScenario.

Lemma no_lost_wakeup_witness :
  gSignalStatus blocked = SIGTERM /\ (wkQueue <$> mnWorkers blocked) = [[up]]
  /\ (forall i w, mnWorkers blocked !! i = Some w -> wkQueue w <> [] -> wkNotifying w = true)
  /\ (gSignalStatus blocked <> -1 -> mnHandlers blocked <> 0%nat).
Proof.
  split; [vm_compute; reflexivity|]. split; [vm_compute; reflexivity|].
  apply (no_lost_wakeup env [] false start blocked start_ok).
  - apply after_reachable. vm_compute. reflexivity.
  - vm_compute. reflexivity.
  - vm_compute. reflexivity.
Defined.

Lemma stop_request_obeyed_witness :
  exists n m', mainRun env n signalled = Some m' /\ (mnPc m' = Stopping 0 \/ exists f, mnPc m' = Failed f).
Proof.
  apply (stop_request_obeyed env [] false start signalled start_ok).
  - apply after_reachable. vm_compute. reflexivity.
  - vm_compute. exact I.
  - right. vm_compute. reflexivity.
  - vm_compute. reflexivity.
Defined.

(** After shutdown, start waits for the MQTT client to be disconnected; but it waits
    for the flag every notification sets, and returns here although the client is
    still started and waits for the broker. *)
Theorem exit_before_disconnect :
  exists m, rtc (mainstep env [] false) start m /\ mnPc m = Finished
    /\ cStarted (mnClient m) = true /\ cConnection (mnClient m) = DISCONNECTING.
Proof.
  exists (after toExit). split; [apply after_reachable; vm_compute; reflexivity|].
  split; [vm_compute; reflexivity|]. split; vm_compute; reflexivity.
Qed.

Lemma shutdown_complete_witness :
  cNetworks (mnClient (after toExit)) = []
  /\ forall i w, mnWorkers (after toExit) !! i = Some w ->
       EndWork ∈ wkSent w /\ wkRunning w = false /\ wkThread w = false /\ wkQueue w = [].
Proof.
  apply (shutdown_complete env [] false start (after toExit) start_ok).
  - apply after_reachable. vm_compute. reflexivity.
  - vm_compute. reflexivity.
Defined.
