(* ===== verification/Program.v ===== *)
(** The running program: the main thread of [MainLoop] and the modbus threads of
    [ModbusThread], each with its two queues, from the state init leaves.

    A thread runs one phase of an iteration at a time and then puts what the phase has
    reported into its queue, message by message.  Nothing but the queues is shared, so
    the phases of different threads and the steps of the main thread can be taken one
    after the other.  Queues are first in, first out. *)

From stdpp Require Import base gmap list sorting strings relations.
From Stdlib Require Import ZArith Lia Ascii String.
From S2P Require Import Prelude ModbusTypes PollSpec Commands Scheduler ModbusContext Config Watchdog.
From S2P Require Import Executor ExecutorProps ModbusThread ConvTools ConvArgs StdConv.
From S2P Require Import Converters MqttObject MqttPayload MqttClient MqttClientProps Logging YamlConfig ObjectConfig.
From S2P Require Import YamlProps YamlTree GatewayInit InitProps GatewayProps System MainLoop.

#[local] Open Scope string_scope.
#[local] Open Scope Z_scope.

Import MqttObject MqttClient.

(** * Reports are only added *)

Section reports.
Context {C : Type} `{IModbusContext C}.

(** What is in [w'] begins with what was in [w]. *)
Definition reported (w w' : World C) : Prop := wOut w `prefix_of` wOut w'.

#[local] Instance reported_preorder : PreOrder reported.
Proof. split; [intros w; unfold reported; reflexivity|]. intros a b c A B. unfold reported in *. by trans (wOut b). Qed.

Lemma reported_same (w w' : World C) : wOut w' = wOut w -> reported w w'.
Proof. intros E. unfold reported. by rewrite E. Qed.
Lemma reported_send m (w w' : World C) : reported w w' -> reported w (Executor.sendMessage m w').
Proof. intros A. unfold reported in *. cbn. by apply prefix_app_r. Qed.

#[local] Hint Resolve reported_send : reports.
#[local] Hint Extern 1 (reported _ _) => (apply reported_same; reflexivity) : reports.

Lemma reported_readError env p (w : World C) : reported w (Executor.handleRegisterReadError env p w).
Proof.
  unfold Executor.handleRegisterReadError. destruct (isRpc _); [auto with reports|].
  destruct (_ <? _); auto with reports.
Qed.

Lemma reported_pollSucceeded env p force values (w : World C) : reported w (Executor.pollSucceeded env p force values w).
Proof. unfold Executor.pollSucceeded, reported. destruct (_ || _); [by apply prefix_app_r|done]. Qed.

Lemma reported_pollRegisters env p force e (w : World C) e' w' :
  Executor.pollRegisters env p force e w = Ret (e', w') -> reported w w'.
Proof.
  intros E. unfold Executor.pollRegisters in E. set (r := setReadTimes _ _ _) in E.
  destruct (readModbusRegisters _ _ _) as [c res]. apply obind_Ret in E as (w2 & E2 & E). injection E as _ <-.
  trans (Executor.putCtx c (Executor.putPoll p r w)); [by apply reported_same|]. trans w2; [|by apply reported_same].
  destruct res; [injection E2 as <-; apply reported_pollSucceeded|injection E2 as <-; apply reported_readError|done].
Qed.

Lemma reported_writeRegisters env p e (w : World C) e' w' :
  Executor.writeRegisters env p e w = Ret (e', w') -> reported w w'.
Proof.
  intros E. unfold Executor.writeRegisters in E. destruct (writeModbusRegisters _ _ _) as [c res].
  apply obind_Ret in E as (w2 & E2 & E). injection E as _ <-.
  destruct res; [|injection E2 as <-; by apply reported_send, reported_same|done].
  destruct (mReturnMessage _); injection E2 as <-; [by apply reported_send, reported_same|by apply reported_same].
Qed.

Lemma reported_sendCommand env e (w : World C) e' w' : Executor.sendCommand env e w = Ret (e', w') -> reported w w'.
Proof.
  intros E. unfold Executor.sendCommand in E. destruct (mWaitingCommand e) as [c|]; [|done].
  set (e0 := if decide _ then e else _) in E. clearbody e0.
  apply obind_Ret in E as (((retry & e2) & w2) & E2 & E).
  assert (reported w w2) as R; [|destruct retry; by injection E as _ <-].
  destruct c as [p|p]; apply obind_Ret in E2 as ((e1 & w1) & E1 & E2).
  - apply reported_pollRegisters in E1. destruct (negb (mLastReadOk _)); [|by injection E2 as _ _ <-].
    destruct (negb _); [by injection E2 as _ _ <-|].
    destruct (isRpc _); injection E2 as _ _ <-; [by apply reported_send|done].
  - apply reported_writeRegisters in E1. destruct (negb (mLastWriteOk _)).
    + destruct (negb _); by injection E2 as _ _ <-.
    + destruct (0 <=? _); [by injection E2 as _ _ <-|done].
Qed.

Lemma reported_executeNext env e (w : World C) d e' w' : Executor.executeNext env e w = Ret (d, e', w') -> reported w w'.
Proof.
  intros E. unfold Executor.executeNext in E. apply obind_Ret in E as ((go & e1) & _ & E).
  destruct go; [|by injection E as _ _ <-]. cbn [negb] in E.
  destruct (mWaitingCommand e1); [|by injection E as _ _ <-]. destruct (negb _ && _).
  - destruct (mCurrentSlaveQueue e1); [by injection E as _ _ <-|done].
  - apply obind_Ret in E as ((e2 & w2) & E2 & E). injection E as _ _ <-. by eapply reported_sendCommand.
Qed.

Lemma reported_pollPhase env t (w : World C) t' w' : ModbusThread.pollPhase env t w = Ret (t', w') -> reported w w'.
Proof.
  intros E. unfold ModbusThread.pollPhase in E. destruct (mModbusSet t); [|by injection E as _ <-].
  apply obind_Ret in E as ((t1 & w1) & E1 & E).
  assert (reported w w1) as R1.
  { destruct (negb _); [|by injection E1 as _ <-]. unfold ModbusThread.tryConnect in E1.
    destruct (ModbusContext.isConnected (wCtx (Executor.putCtx _ w))).
    - destruct (negb _); [apply obind_Ret in E1 as (e & _ & E1)|]; injection E1 as _ <-; by apply reported_send, reported_same.
    - injection E1 as _ <-. by apply reported_same. }
  trans w1; [done|]. destruct (ModbusContext.isConnected (wCtx w1)); [|injection E as _ <-; by apply reported_send].
  unfold ModbusThread.pollConnected in E. destruct (mMqttConnected t1); [|by injection E as _ <-].
  apply obind_Ret in E as (t2 & _ & E). destruct (Executor.allDone _); [by injection E as _ <-|].
  apply obind_Ret in E as (((d & e) & w2) & E2 & E). apply reported_executeNext in E2.
  destruct (d =? 0); [|by injection E as _ <-]. trans w2; [done|].
  unfold ModbusThread.afterCommand in E. destruct (mLastCommand _) as [cmd|]; [|done]. injection E as _ <-.
  by apply reported_same.
Qed.

Variable getContext : ModbusNetworkConfig -> outcome C.

Lemma reported_receivePhase env t (w : World C) t' w' :
  ModbusThread.receivePhase getContext env t w = Ret (t', w') -> reported w w'.
Proof.
  intros E. unfold ModbusThread.receivePhase in E. destruct (mShouldRun t); [|by injection E as _ <-].
  destruct (_ && _); [injection E as _ <-; by apply reported_send, reported_same|].
  revert t w E. induction (ModbusThread.received env) as [|[me item] l IH]; intros t w E; [by injection E as _ <-|].
  cbn [ModbusThread.dispatchMessages] in E. apply obind_Ret in E as ((t2 & w2) & E2 & E).
  trans w2; [|by eapply IH]. clear E IH. apply reported_same.
  destruct item as [config|spec| |m|m|up|c]; cbn [ModbusThread.dispatchMessage] in E2.
  - unfold ModbusThread.configure in E2. bind_inv E2. by injection E2 as _ <-.
  - unfold ModbusThread.setPollSpecification in E2. destruct (foldl _ _ _) as [rm s]. bind_inv E2. by injection E2 as _ <-.
  - by injection E2 as _ <-.
  - unfold ModbusThread.processWrite in E2. cbn [allocWrite] in E2. bind_inv E2. by injection E2 as _ <-.
  - unfold ModbusThread.processReadRequest in E2. cbn [allocPoll] in E2. bind_inv E2. by injection E2 as _ <-.
  - by injection E2 as _ <-.
  - by injection E2 as _ <-.
Qed.

End reports.

(** * The program *)

Section program.
Context {N : Type} `{YamlLaws N}.
Context {D : Type} `{CDouble D} `{Rapidjson D}.
Context {C : Type} `{IModbusContext C}.
Variable getContext : ModbusNetworkConfig -> outcome C.
Variable env : ClientEnv.
Variable plugins : list (ConverterPlugin D).
Variable musl : bool.

(** A modbus client with its thread.  What the thread has reported is in its world;
    [tuForwarded] counts the reports that have been put into mFromModbusQueue.
    [tuHandled] is what the main thread has taken out of it. *)
Record ThreadUnit : Type := mkThreadUnit {
  tuClient : ModbusClient;
  tuQueue : list ToModbus;        (** mToModbusQueue *)
  tuThread : Thread;
  tuWorld : World C;
  tuReceiving : bool;             (** between the two phases of an iteration *)
  tuForwarded : nat;
  tuHandled : list FromModbus
}.

Record Program : Type := mkProgram {
  pgMain : Main (D := D);
  pgUnits : list ThreadUnit
}.

Definition tuName (u : ThreadUnit) : string := mcNetworkName (tuClient u).

(** The reports that are on their way into the queue. *)
Definition pending (u : ThreadUnit) : list FromModbus := drop (tuForwarded u) (wOut (tuWorld u)).

(** What the MQTT client has sent to a network in a step. *)
Definition toNetwork (net : string) (es : list Effect) : list ToModbus :=
  omap (fun e => match e with
                 | EToModbus n m => if bool_decide (n = net) then Some m else None
                 | _ => None
                 end) es.
Definition newEffects (m m' : Main (D := D)) : list Effect :=
  drop (List.length (cOut (mnClient m))) (cOut (mnClient m')).

Definition sentOf (m : Main (D := D)) (i : nat) : list ToModbus := default [] (wkSent <$> mnWorkers m !! i).
Definition queueOf (m : Main (D := D)) (i : nat) : list FromModbus := default [] (wkQueue <$> mnWorkers m !! i).

(** The queues of unit [i] after a step of the main thread or of a callback: what was
    sent is added to one, what was taken from the other has been handled. *)
Definition exchange (m m' : Main (D := D)) (i : nat) (u : ThreadUnit) : ThreadUnit :=
  mkThreadUnit (tuClient u)
    (tuQueue u ++ toNetwork (tuName u) (newEffects m m') ++ drop (List.length (sentOf m i)) (sentOf m' i))%list
    (tuThread u) (tuWorld u) (tuReceiving u) (tuForwarded u)
    (tuHandled u ++ take (List.length (queueOf m i) - List.length (queueOf m' i)) (queueOf m i))%list.

(** A thread that can go on: its client has not been joined, and it is not in the middle
    of sending. *)
Definition canRun (m : Main (D := D)) (i : nat) (u : ThreadUnit) : Prop :=
  (exists w, mnWorkers m !! i = Some w /\ wkRunning w = true /\ wkNotifying w = false) /\ pending u = [].

(** The second phase takes messages, unless the thread reconnects or ends instead. *)
Definition takesMessages (lenv : ModbusThread.LoopEnv) (u : ThreadUnit) : bool :=
  mShouldRun (tuThread u)
  && negb (mModbusSet (tuThread u) && ModbusContext.isConnected (wCtx (tuWorld u))
           && Watchdog.isReconnectRequired (ModbusThread.clkReconnect lenv) (mWatchdog (tuThread u))).

Inductive progstep : Program -> Program -> Prop :=
| pg_main m m' us :
    (** ModMqtt::start *)
    mainStep env m = Some m' -> progstep (mkProgram m us) (mkProgram m' (imap (exchange m m') us))
| pg_callback m e c us :
    (** a callback of the MQTT library *)
    callback env plugins musl e (mnClient m) = (c, Ret tt) ->
    let m' := withMessages (gHasMessages m || notified (mnClient m) c) (withClient c m) in
    progstep (mkProgram m us) (mkProgram m' (imap (exchange m m') us))
| pg_signal m s us :
    s = SIGTERM \/ s = 0 ->
    progstep (mkProgram m us) (mkProgram (withHandlers (S (mnHandlers m)) (withSignal s m)) us)
| pg_handler m n us :
    mnHandlers m = S n -> progstep (mkProgram m us) (mkProgram (notifyQueues (withHandlers n m)) us)
| pg_poll m us i u lenv t' w' :
    (** ModbusThread::run: an iteration, up to the messages *)
    us !! i = Some u -> canRun m i u -> tuReceiving u = false -> mShouldRun (tuThread u) = true ->
    ModbusThread.pollPhase lenv (tuThread u) (tuWorld u) = Ret (t', w') ->
    progstep (mkProgram m us)
      (mkProgram m (<[i := mkThreadUnit (tuClient u) (tuQueue u) t' w' true (tuForwarded u) (tuHandled u)]> us))
| pg_receive m us i u lenv rest t' w' :
    (** the rest of the iteration, with the messages at the front of the queue *)
    us !! i = Some u -> canRun m i u -> tuReceiving u = true ->
    tuQueue u = ((ModbusThread.received lenv).*2 ++ rest)%list ->
    ModbusThread.receivePhase getContext lenv (tuThread u) (tuWorld u) = Ret (t', w') ->
    progstep (mkProgram m us)
      (mkProgram m (<[i := mkThreadUnit (tuClient u) (if takesMessages lenv u then rest else tuQueue u)
                             t' w' false (tuForwarded u) (tuHandled u)]> us))
| pg_report m us i u w item rest :
    (** sendMessageFromModbus: enqueue *)
    us !! i = Some u -> pending u = item :: rest ->
    mnWorkers m !! i = Some w -> wkRunning w = true -> wkNotifying w = false ->
    progstep (mkProgram m us)
      (mkProgram (changeWorker i (fun w => withNotifying true (withQueue (wkQueue w ++ [item])%list w)) m)
         (<[i := mkThreadUnit (tuClient u) (tuQueue u) (tuThread u) (tuWorld u) (tuReceiving u)
                   (S (tuForwarded u)) (tuHandled u)]> us))
| pg_notify m us i w :
    (** sendMessageFromModbus: notifyQueues *)
    mnWorkers m !! i = Some w -> wkNotifying w = true ->
    progstep (mkProgram m us) (mkProgram (notifyQueues (changeWorker i (withNotifying false) m)) us)
| pg_end m us i u :
    (** the loop of a thread ends *)
    us !! i = Some u -> canRun m i u -> tuReceiving u = false -> mShouldRun (tuThread u) = false ->
    progstep (mkProgram m us) (mkProgram (changeWorker i (withRunning false) m) us)
| pg_poll_throws m us i u lenv f :
    (** an exception of the first part, which run catches: the loop is over, and what it
        has reported before is still sent *)
    us !! i = Some u -> canRun m i u -> tuReceiving u = false -> mShouldRun (tuThread u) = true ->
    ModbusThread.pollPhase lenv (tuThread u) (tuWorld u) = Fault f -> is_Some (exceptionText f) ->
    progstep (mkProgram m us)
      (mkProgram m (<[i := mkThreadUnit (tuClient u) (tuQueue u) (ModbusThread.withShouldRun false (tuThread u))
                             (ModbusThread.connectedWorld (tuThread u) (tuWorld u)) false (tuForwarded u) (tuHandled u)]> us))
| pg_receive_throws m us i u lenv rest f :
    (** an exception while messages are received; nothing is reported there before it *)
    us !! i = Some u -> canRun m i u -> tuReceiving u = true ->
    tuQueue u = ((ModbusThread.received lenv).*2 ++ rest)%list ->
    ModbusThread.receivePhase getContext lenv (tuThread u) (tuWorld u) = Fault f -> is_Some (exceptionText f) ->
    progstep (mkProgram m us)
      (mkProgram m (<[i := mkThreadUnit (tuClient u) (tuQueue u) (ModbusThread.withShouldRun false (tuThread u))
                             (tuWorld u) false (tuForwarded u) (tuHandled u)]> us)).

(** The program when init has returned. *)
Definition launched (g : ModMqtt D) (s : Program) : Prop :=
  mainStart (pgMain s) /\ mnClient (pgMain s) = mMqtt g
  /\ tuClient <$> pgUnits s = mModbusClients g
  /\ Forall2 (fun u w => wkName w = tuName u /\ wkQueue w = [] /\ wkSent w = []) (pgUnits s) (mnWorkers (pgMain s))
  /\ Forall (fun u => tuQueue u = mcToModbus (tuClient u) /\ newWorld (tuWorld u)
                      /\ tuForwarded u = O /\ tuHandled u = []) (pgUnits s).

(** Seen from the main thread, it is the system of [MainLoop]. *)
Lemma progstep_main s s' : progstep s s' -> rtc (mainstep env plugins musl) (pgMain s) (pgMain s').
Proof.
  intros [m m' us E|m e c us E m'|m sg us E|m n us E|m us i u lenv t' w' Hi Ru Re Sr E|m us i u lenv rest t' w' Hi Ru Re Qu E
         |m us i u w item rest Hi Pe Hw Ru No|m us i w Hw No|m us i u Hi [(w & Hw & Ru & No) _] Re Sr
         |m us i u lenv f Hi Ru Re Sr E Ex|m us i u lenv rest f Hi Ru Re Qu E Ex]; cbn [pgMain]; try reflexivity; apply rtc_once.
  - by apply step_main.
  - by eapply step_callback.
  - by apply step_signal.
  - by apply step_handler.
  - by eapply step_send.
  - by eapply step_notify.
  - by eapply step_end.
Qed.

Lemma program_refines_main s s' : rtc progstep s s' -> rtc (mainstep env plugins musl) (pgMain s) (pgMain s').
Proof. induction 1 as [s|s1 s2 s3 St _ IH]; [reflexivity|]. etrans; [by apply progstep_main|done]. Qed.

(** * The invariant *)

(** A step of the main thread: the maps of the client stay, unless it throws; of every
    queue at most the first message is taken, and a thread is at most told to end. *)
Definition workerStep (w w' : Worker) : Prop :=
  wkName w' = wkName w /\ wkRunning w' = wkRunning w
  /\ (wkQueue w' = wkQueue w \/ exists x, wkQueue w = x :: wkQueue w')
  /\ (wkSent w' = wkSent w \/ wkSent w' = (wkSent w ++ [EndWork])%list).

Lemma workerStep_refl w : workerStep w w.
Proof. repeat split; by left. Qed.

Lemma workersStep_refl (ws : list Worker) : Forall2 workerStep ws ws.
Proof. apply Forall_Forall2_diag, Forall_forall. intros w _. apply workerStep_refl. Qed.

Lemma workersStep_alter i f (ws : list Worker) :
  (forall w, ws !! i = Some w -> workerStep w (f w)) -> Forall2 workerStep ws (alter f i ws).
Proof.
  intros Hf. apply Forall2_same_length_lookup. split; [by rewrite length_alter|]. intros j w w' Hw Hw'.
  rewrite list_lookup_alter in Hw'. destruct (decide (i = j)) as [->|]; [|simplify_eq; apply workerStep_refl].
  rewrite Hw in Hw'. injection Hw' as <-. by apply Hf.
Qed.

Definition failed (m : Main (D := D)) : Prop := exists f, mnPc m = Failed f.

Definition quietStep (m m' : Main (D := D)) : Prop :=
  (failed m' \/ sameMaps (mnClient m) (mnClient m')) /\ Forall2 workerStep (mnWorkers m) (mnWorkers m').

Lemma sameMaps_id (c : Client D) : sameMaps c c.
Proof. split; [done|]. split; [done|]. intros [_ I]. by split. Qed.

Lemma quiet_pc pc (m : Main (D := D)) : quietStep m (withPc pc m).
Proof. split; [right; apply sameMaps_id|apply workersStep_refl]. Qed.

Lemma quiet_call k next (m m0 : Main (D := D)) :
  preserves sameMaps k -> mnClient m = mnClient m0 -> Forall2 workerStep (mnWorkers m0) (mnWorkers m) ->
  quietStep m0 (call k next m).
Proof.
  intros P Ec Ws. unfold call. specialize (P (mnClient m)). destruct (k (mnClient m)) as [c [u|f]].
  - unfold quietStep. cbn in *. rewrite <- Ec. split; [right; by apply P|done].
  - split; [left; by exists f|done].
Qed.

Lemma quiet_process at_ i next (m : Main (D := D)) : quietStep m (processStep env at_ i next m).
Proof.
  unfold processStep. destruct (mnWorkers m !! i) as [w|] eqn:Hi; [|apply quiet_pc].
  destruct (wkQueue w) as [|item rest] eqn:Eq; [apply quiet_pc|].
  apply quiet_call; [apply sameMaps_modbusMessage|done|]. apply workersStep_alter. intros w' Hw'.
  rewrite Hi in Hw'. injection Hw' as <-. repeat split; [right|by left]. rewrite Eq. by exists item.
Qed.

Lemma quiet_change pc i f (m : Main (D := D)) :
  (forall w, workerStep w (f w)) -> quietStep m (withPc pc (changeWorker i f m)).
Proof. intros F. split; [right; apply sameMaps_id|]. by apply workersStep_alter. Qed.

Lemma quiet_same (m m' : Main (D := D)) : mnClient m' = mnClient m -> mnWorkers m' = mnWorkers m -> quietStep m m'.
Proof. intros Ec Ew. unfold quietStep. rewrite Ec, Ew. split; [right; apply sameMaps_id|apply workersStep_refl]. Qed.

Lemma quiet_mainStep m m' : mainStep env m = Some m' -> quietStep m m'.
Proof.
  unfold mainStep, waitForQueues, joinClient, stopClient, loopHead. intros E.
  destruct (mnPc m) as [| | | | | |i|i|i|i| |i| | | | |f]; repeat case_match; simplify_eq; try (by apply quiet_same);
    try apply quiet_process;
    try (apply quiet_call; [first [apply sameMaps_start|apply sameMaps_shutdown|apply (sameMaps_modbusMessage env "" (ModbusNetworkState (wkName w) false))]|done|apply workersStep_refl]);
    apply quiet_change; intros w0; repeat split; first [by left|by right].
Qed.

(** The flow of reports of a unit with its client in the main thread: they are, in this
    order, those the main thread has taken, those in the queue and those on their way. *)
Record flowOk (u : ThreadUnit) (w : Worker) : Prop := mkFlowOk {
  fo_name : wkName w = tuName u;
  fo_count : (tuForwarded u <= List.length (wOut (tuWorld u)))%nat;
  fo_flow : take (tuForwarded u) (wOut (tuWorld u)) = (tuHandled u ++ wkQueue w)%list;
  fo_ended : wkRunning w = false -> pending u = []
}.

Definition flowsOk (s : Program) : Prop := Forall2 flowOk (pgUnits s) (mnWorkers (pgMain s)).

Lemma exchange_flow m m' i u w w' :
  mnWorkers m !! i = Some w -> mnWorkers m' !! i = Some w' -> workerStep w w' -> flowOk u w -> flowOk (exchange m m' i u) w'.
Proof.
  intros Hw Hw' (En & Er & Qu & Se) [Un Uc Uf Ue].
  assert (queueOf m i = wkQueue w /\ queueOf m' i = wkQueue w') as [Q1 Q2] by (unfold queueOf; by rewrite Hw, Hw').
  split; cbn [exchange tuClient tuWorld tuForwarded tuHandled]; [|done| |].
  - unfold tuName in *. cbn. congruence.
  - rewrite Uf, Q1, Q2. destruct Qu as [-> | (x & ->)].
    + rewrite Nat.sub_diag. cbn. by rewrite app_nil_r.
    + replace (List.length (x :: wkQueue w') - List.length (wkQueue w'))%nat with 1%nat by (cbn; lia).
      cbn. by rewrite <- app_assoc.
  - rewrite Er. exact Ue.
Qed.

(** A step of the main thread or of a callback. *)
Lemma flows_exchange m m' us :
  Forall2 workerStep (mnWorkers m) (mnWorkers m') -> flowsOk (mkProgram m us) ->
  flowsOk (mkProgram m' (imap (exchange m m') us)).
Proof.
  intros Ws Pn. apply Forall2_same_length_lookup. split.
  { pose proof (Forall2_length _ _ _ Pn) as L. cbn in *. rewrite length_imap, L. by apply (Forall2_length _ _ _ Ws). }
  cbn [pgMain pgUnits]. intros i u' w' Hu Hw'. rewrite list_lookup_imap in Hu. apply fmap_Some in Hu as (u & Hu & ->).
  destruct (Forall2_lookup_r _ _ _ _ _ Ws Hw') as (w & Hw & St).
  destruct (Forall2_lookup_l _ _ _ _ _ Pn Hu) as (w0 & Hw0 & Ok). cbn in Hw0. rewrite Hw in Hw0. injection Hw0 as <-.
  eapply exchange_flow; eauto.
Qed.

(** A change of one unit and of its worker. *)
Lemma flows_unit m us i u u' f w :
  us !! i = Some u -> mnWorkers m !! i = Some w -> (flowOk u w -> flowOk u' (f w)) ->
  flowsOk (mkProgram m us) -> flowsOk (mkProgram (changeWorker i f m) (<[i := u']> us)).
Proof.
  intros Hu Hw F Pn. unfold flowsOk in *. cbn [pgMain pgUnits changeWorker withWorkers mnWorkers] in *.
  replace (alter f i (mnWorkers m)) with (<[i := f w]> (mnWorkers m)).
  - apply Forall2_insert; [done|]. apply F. by eapply Forall2_lookup_lr.
  - apply list_eq. intros j. destruct (decide (i = j)) as [<-|N'].
    + rewrite list_lookup_insert_eq by (by eapply lookup_lt_Some). by rewrite list_lookup_alter_eq, Hw.
    + by rewrite list_lookup_insert_ne, list_lookup_alter_ne.
Qed.

Lemma flows_same_worker m us i u u' w :
  us !! i = Some u -> mnWorkers m !! i = Some w -> (flowOk u w -> flowOk u' w) ->
  flowsOk (mkProgram m us) -> flowsOk (mkProgram m (<[i := u']> us)).
Proof.
  intros Hu Hw F Pn. unfold flowsOk in *. cbn [pgMain pgUnits] in *. rewrite <- (list_insert_id (mnWorkers m) i w Hw).
  apply Forall2_insert; [done|]. apply F. by eapply Forall2_lookup_lr.
Qed.

Lemma flows_same_unit m us i f w :
  mnWorkers m !! i = Some w -> (forall u, us !! i = Some u -> flowOk u w -> flowOk u (f w)) ->
  flowsOk (mkProgram m us) -> flowsOk (mkProgram (changeWorker i f m) us).
Proof.
  intros Hw F Pn. destruct (Forall2_lookup_r _ _ _ _ _ Pn Hw) as (u & Hu & _). cbn [pgUnits] in Hu.
  rewrite <- (list_insert_id us i u Hu). eapply flows_unit; [exact Hu|exact Hw|by apply F|exact Pn].
Qed.

(** A phase of an iteration adds reports. *)
Lemma flow_phase u w queue t' w' receiving :
  flowOk u w -> wkRunning w = true -> reported (tuWorld u) w' ->
  flowOk (mkThreadUnit (tuClient u) queue t' w' receiving (tuForwarded u) (tuHandled u)) w.
Proof.
  intros [Un Uc Uf Ue] Ru (l & E). split; cbn [tuClient tuWorld tuForwarded tuHandled]; [done|..].
  - rewrite E, length_app. lia.
  - by rewrite E, take_app_le.
  - congruence.
Qed.

(** A report goes into the queue. *)
Lemma flow_report u w item rest :
  pending u = item :: rest -> wkRunning w = true -> flowOk u w ->
  flowOk (mkThreadUnit (tuClient u) (tuQueue u) (tuThread u) (tuWorld u) (tuReceiving u) (S (tuForwarded u)) (tuHandled u))
    (withNotifying true (withQueue (wkQueue w ++ [item])%list w)).
Proof.
  intros P Ru [Un Uc Uf Ue]. unfold pending in P.
  assert (wOut (tuWorld u) !! tuForwarded u = Some item) as L.
  { rewrite <- (Nat.add_0_r (tuForwarded u)), <- lookup_drop, P. done. }
  split; cbn [tuClient tuWorld tuForwarded tuHandled]; [done|..].
  - apply lookup_lt_Some in L. lia.
  - rewrite (take_S_r _ _ _ L), Uf. cbn. by rewrite <- app_assoc.
  - cbn. congruence.
Qed.

Lemma reported_connected t (w : World C) : reported w (ModbusThread.connectedWorld t w).
Proof.
  unfold ModbusThread.connectedWorld. destruct (_ && _); [|by apply reported_same].
  destruct (ModbusContext.isConnected _); [by apply prefix_app_r|by apply reported_same].
Qed.

Lemma flowsOk_step s s' : progstep s s' -> flowsOk s -> flowsOk s'.
Proof.
  intros St P.
  destruct St as [m m' us E|m e c us E m'|m sg us E|m n us E|m us i u lenv t' w' Hi [(w & Hw & Ru & No) Pe] Re Sr E
         |m us i u lenv rest t' w' Hi [(w & Hw & Ru & No) Pe] Re Qu E
         |m us i u w item rest Hi Pe Hw Ru No|m us i w Hw No|m us i u Hi [(w & Hw & Ru & No) Pe] Re Sr
         |m us i u lenv f Hi [(w & Hw & Ru & No) Pe] Re Sr E Ex|m us i u lenv rest f Hi [(w & Hw & Ru & No) Pe] Re Qu E Ex].
  - apply flows_exchange; [|done]. by apply quiet_mainStep.
  - apply flows_exchange; [apply workersStep_refl|done].
  - done.
  - done.
  - eapply flows_same_worker; [exact Hi|exact Hw| |exact P]. intros Ok. apply flow_phase; [done..|]. by eapply reported_pollPhase.
  - eapply flows_same_worker; [exact Hi|exact Hw| |exact P]. intros Ok. apply flow_phase; [done..|]. by eapply reported_receivePhase.
  - eapply flows_unit; [exact Hi|exact Hw| |exact P]. by eapply flow_report.
  - assert (flowsOk (mkProgram (changeWorker i (withNotifying false) m) us)) as P'; [|done].
    eapply flows_same_unit; [exact Hw| |done]. by intros u _ [].
  - eapply flows_same_unit; [exact Hw| |done]. intros u' Hu' []. rewrite Hi in Hu'. injection Hu' as <-. by split.
  - eapply flows_same_worker; [exact Hi|exact Hw| |exact P]. intros Ok. apply flow_phase; [done..|]. apply reported_connected.
  - eapply flows_same_worker; [exact Hi|exact Hw| |exact P]. intros Ok. apply flow_phase; [done..|]. by apply reported_same.
Qed.

Lemma launched_flows g s : launched g s -> flowsOk s.
Proof.
  intros (_ & _ & _ & Ws & Us). apply Forall2_same_length_lookup. split; [by eapply Forall2_length|]. intros i u w Hu Hw.
  destruct (Forall2_lookup_lr _ _ _ _ _ _ Ws Hu Hw) as (En & Eq & _). rewrite Forall_lookup in Us.
  destruct (Us _ _ Hu) as (Et & (O & _) & Ef & Eh). split; unfold pending; rewrite ?Ef, ?Eh, ?Eq, ?O; done || cbn; lia.
Qed.

Lemma flows_reachable g s0 s : launched g s0 -> rtc progstep s0 s -> flowsOk s.
Proof.
  intros L%launched_flows R. induction R as [|a b c St R IH]; [done|]. apply IH. by eapply flowsOk_step.
Qed.

(** ** What is known of the reports *)

(** A thread receives and reports what is known. *)
Definition unitKnown (u : ThreadUnit) : Prop :=
  worldKnown (sentSpecs (tuClient u)) (tuWorld u) /\ Forall (messageKnown (sentSpecs (tuClient u))) (tuQueue u).

Record progOk (g : ModMqtt D) (s : Program) : Prop := mkProgOk {
  po_objects : cObjects (mnClient (pgMain s)) = cObjects (mMqtt g);
  po_ids : idsKnown (mnClient (pgMain s));
  po_out : Forall effectKnown (cOut (mnClient (pgMain s)));
  po_clients : tuClient <$> pgUnits s = mModbusClients g;
  po_units : Forall unitKnown (pgUnits s)
}.

Lemma toNetwork_known specs net es : Forall effectKnown es -> Forall (messageKnown specs) (toNetwork net es).
Proof.
  intros F. apply Forall_forall. intros m Hm. unfold toNetwork in Hm. apply list_elem_of_omap in Hm as (e & He & E).
  rewrite Forall_forall in F. specialize (F _ He). destruct e; try done. case_bool_decide; [|done]. injection E as ->.
  by destruct m.
Qed.

Lemma exchange_known m m' i u :
  Forall2 workerStep (mnWorkers m) (mnWorkers m') -> Forall effectKnown (cOut (mnClient m')) ->
  unitKnown u -> unitKnown (exchange m m' i u).
Proof.
  intros Ws Fe [Uw Uq]. split; cbn [exchange tuClient tuWorld tuQueue]; [done|].
  rewrite !Forall_app. split; [done|]. split; [by apply toNetwork_known, Forall_drop|]. unfold sentOf.
  destruct (mnWorkers m !! i) as [w|] eqn:Hw.
  - destruct (Forall2_lookup_l _ _ _ _ _ Ws Hw) as (w' & -> & _ & _ & _ & Se). cbn.
    destruct Se as [-> | ->]; [by rewrite drop_all|]. rewrite drop_app_length. by constructor.
  - destruct (mnWorkers m' !! i) as [w'|] eqn:Hw'; [|done].
    destruct (Forall2_lookup_r _ _ _ _ _ Ws Hw') as (w & ? & _). congruence.
Qed.

Lemma exchange_clients m m' (us : list ThreadUnit) : tuClient <$> imap (exchange m m') us = tuClient <$> us.
Proof.
  apply list_eq. intros i. rewrite !list_lookup_fmap, list_lookup_imap. by destruct (us !! i).
Qed.

(** A step of the main thread or of a callback. *)
Lemma progOk_exchange g m m' us :
  sameMaps (mnClient m) (mnClient m') -> Forall2 workerStep (mnWorkers m) (mnWorkers m') ->
  progOk g (mkProgram m us) -> progOk g (mkProgram m' (imap (exchange m m') us)).
Proof.
  intros (O & Cm & I) Ws [Po Pi Pu Pc Pn]. cbn [pgMain pgUnits] in *. destruct (I Pi) as [Nx F].
  split; cbn [pgMain pgUnits]; [congruence|split; [rewrite Cm; apply Pi|done]|by apply F|by rewrite exchange_clients|].
  rewrite Forall_lookup in Pn. apply Forall_lookup. intros i u' Hu. rewrite list_lookup_imap in Hu.
  apply fmap_Some in Hu as (u & Hu & ->). apply exchange_known; eauto.
Qed.

(** A step of a thread. *)
Lemma progOk_unit g m m' us i u u' :
  us !! i = Some u -> tuClient u' = tuClient u -> mnClient m' = mnClient m -> (unitKnown u -> unitKnown u') ->
  progOk g (mkProgram m us) -> progOk g (mkProgram m' (<[i := u']> us)).
Proof.
  intros Hu Ec Em Ch [Po Pi Pu Pc Pn]. cbn [pgMain pgUnits] in *.
  split; cbn [pgMain pgUnits]; rewrite ?Em; try done.
  - rewrite <- Pc, list_fmap_insert, Ec. apply list_insert_id. by rewrite list_lookup_fmap, Hu.
  - apply Forall_insert; [done|]. apply Ch. rewrite Forall_lookup in Pn. by eapply Pn.
Qed.

Lemma callback_sameMaps e c c' : callback env plugins musl e c = (c', Ret tt) -> sameMaps c c'.
Proof.
  intros E. assert (preserves sameMaps (callback env plugins musl e)) as P.
  { destruct e; [apply sameMaps_onConnect|apply sameMaps_onDisconnect|apply sameMaps_onMessage]. }
  specialize (P c). rewrite E in P. by apply P.
Qed.

(** After an exception the main thread does nothing more. *)
Lemma failed_stays s s' : progstep s s' -> failed (pgMain s) -> failed (pgMain s').
Proof.
  intros St [f Pc]. destruct St; cbn [pgMain] in *; try (by exists f).
  unfold mainStep in *. by rewrite Pc in *.
Qed.

Lemma connected_known specs t (w : World C) : worldKnown specs w -> worldKnown specs (ModbusThread.connectedWorld t w).
Proof.
  intros K. unfold ModbusThread.connectedWorld. destruct (_ && _); [|done].
  destruct (ModbusContext.isConnected _); [apply known_send; [done|]|]; by apply known_putCtx.
Qed.

Lemma progOk_step g s s' :
  progstep s s' -> failed (pgMain s) \/ progOk g s -> failed (pgMain s') \/ progOk g s'.
Proof.
  intros St [Fa|P]; [left; by eapply failed_stays|].
  destruct St as [m m' us E|m e c us E m'|m sg us E|m n us E|m us i u lenv t' w' Hi _ Re Sr E
         |m us i u lenv rest t' w' Hi _ Re Qu E
         |m us i u w item rest Hi Pe Hw Ru No|m us i w Hw No|m us i u Hi _ Re Sr
         |m us i u lenv f Hi _ Re Sr E Ex|m us i u lenv rest f Hi _ Re Qu E Ex]; cbn [pgMain].
  - destruct (quiet_mainStep _ _ E) as [[Fa|Sm] Ws]; [by left|right]. by apply progOk_exchange.
  - right. apply progOk_exchange; [|apply workersStep_refl|done]. by eapply callback_sameMaps.
  - right. by destruct P.
  - right. by destruct P.
  - right. apply (progOk_unit g m _ us i u); [exact Hi|done|done| |exact P]. intros [Kw Kq].
    split; [by eapply known_pollPhase|done].
  - right. apply (progOk_unit g m _ us i u); [exact Hi|done|done| |exact P]. intros [Kw Kq].
    rewrite Qu in Kq. pose proof Kq as [Fr Ft]%Forall_app. split; cbn.
    + eapply known_receivePhase; [exact Kw| |exact E]. rewrite Forall_fmap in Fr. exact Fr.
    + rewrite Qu. by destruct (takesMessages lenv u).
  - right. by apply (progOk_unit g m _ us i u).
  - right. by destruct P.
  - right. by destruct P.
  - right. apply (progOk_unit g m _ us i u); [exact Hi|done|done| |exact P]. intros [Kw Kq].
    split; [by apply connected_known|done].
  - right. by apply (progOk_unit g m _ us i u).
Qed.

Lemma launched_ok (ienv : InitEnv D) fuel (config : N) ov g0 g specs objects s :
  positiveCounts config ->
  newModMqtt g0 -> init ienv fuel config ov g0 = Ret (g, specs, objects) -> launched g s -> progOk g s.
Proof.
  intros Positive New E (_ & Sc & Su & Ws & Us).
  destruct (init_queues ienv config Positive _ _ _ _ _ _ New E) as (Q & Ids & Nx & Out).
  split; rewrite ?Sc; [done|split; [done|lia]| |done|].
  - apply Forall_forall. intros e He. destruct e as [| | | | | | | |net mm|]; try done. by apply Out in He.
  - apply Forall_lookup. intros i u Hu. rewrite Forall_lookup in Us. destruct (Us _ _ Hu) as (Et & Nw & _).
    split; [by apply newWorld_known|].
    rewrite Et. apply Forall_forall. intros m Hm. apply (sentTo_known (mMqtt g)); [| |by left].
    * rewrite Forall_forall in Q. apply Q. rewrite <- Su. apply list_elem_of_fmap_2. by eapply list_elem_of_lookup_2.
    * apply Forall_forall. intros e He. destruct e as [| | | | | | | |net mm|]; try done. by apply Out in He.
Qed.

(** Every state of the program is one of the invariant, unless an exception has ended the
    main thread. *)
Lemma program_reachable (ienv : InitEnv D) fuel (config : N) ov g0 g specs objects s0 s :
  positiveCounts config ->
  newModMqtt g0 -> init ienv fuel config ov g0 = Ret (g, specs, objects) -> launched g s0 -> rtc progstep s0 s ->
  failed (pgMain s) \/ progOk g s.
Proof.
  intros Positive New E L R. pose proof (launched_ok _ _ _ _ _ _ _ _ _ Positive New E L) as Ok0.
  assert (failed (pgMain s0) \/ progOk g s0) as O by (by right). clear L Ok0.
  induction R as [|a b c St R IH]; [done|]. apply IH. by eapply progOk_step.
Qed.

(** C10: for a configuration document in which every count is at least 1 and no list of
    registers is empty (positiveCounts; init does not check either), from the state init
    leaves, whatever the broker, the devices, the clocks and the schedulers of the
    threads do, a register value the main thread is about to handle and that belongs to
    no command is for a range the MQTT client has objects for: the assertion of
    processRegisterValues holds, and the list of objects is not empty. *)
Theorem handled_values_have_objects (ienv : InitEnv D) fuel (config : N) ov g0 g specs objects s0 s i w m rest :
  positiveCounts config ->
  newModMqtt g0 -> init ienv fuel config ov g0 = Ret (g, specs, objects) ->
  launched g s0 -> rtc progstep s0 s ->
  mnPc (pgMain s) = Processing i \/ mnPc (pgMain s) = LastMessages i ->
  mnWorkers (pgMain s) !! i = Some w -> wkQueue w = RegisterValues m :: rest -> hasCommandId (msgBase m) = false ->
  exists l, l <> []
    /\ affectedObjects env (wkName w) m (mnClient (pgMain s)) = (mnClient (pgMain s), Ret (Some l)).
Proof.
  intros Positive New E L R Pc Hw Eq Hid.
  destruct (program_reachable _ _ _ _ _ _ _ _ _ _ Positive New E L R) as [[f Fa]|[Po _ _ Pcl Pn]].
  { destruct Pc; congruence. }
  pose proof (flows_reachable _ _ _ L R) as Fl.
  destruct (Forall2_lookup_r _ _ _ _ _ Fl Hw) as (u & Hu & [Un _ Uf _]).
  rewrite Forall_lookup in Pn. destruct (Pn _ _ Hu) as [Uw _].
  rewrite Un. unfold tuName. eapply known_has_objects; eauto.
  - rewrite <- Pcl. apply list_elem_of_fmap_2. by eapply list_elem_of_lookup_2.
  - pose proof (wk_out _ _ Uw) as Fo. apply (Forall_take _ (tuForwarded u)) in Fo. rewrite Uf, Eq in Fo.
    apply Forall_app in Fo as [_ Fo]. by apply Forall_cons in Fo as [Fo _].
Qed.

(** C33: no report is lost, doubled or overtaken, and the program ends clean.  From
    every state in which the threads have just been launched, with any clients and any
    configuration, in every state that the main thread, the callbacks, the signals and
    the modbus threads can reach, one whose thread has ended with an exception and one in
    which an exception has left start included: the reports of a thread are, in their
    order, those the main thread has taken, those in its queue and those on their way.
    And when start has returned, every thread has been told to end and has ended, all
    of its reports have been taken, and the MQTT client sends nothing to the networks
    any more.  (An undefined behaviour of the code is no step of the model.) *)
Theorem reports_handled_in_order (g : ModMqtt D) s0 s :
  launched g s0 -> rtc progstep s0 s ->
  Forall2 (fun u w => wkName w = tuName u /\ wOut (tuWorld u) = (tuHandled u ++ wkQueue w ++ pending u)%list
                      /\ (mnPc (pgMain s) = Finished ->
                           EndWork ∈ wkSent w /\ wkRunning w = false /\ tuHandled u = wOut (tuWorld u)))
    (pgUnits s) (mnWorkers (pgMain s))
  /\ (mnPc (pgMain s) = Finished -> cNetworks (mnClient (pgMain s)) = []).
Proof.
  intros L R. pose proof (flows_reachable _ _ _ L R) as Pn.
  pose proof (shutdown_complete env plugins musl _ _ (proj1 L) (program_refines_main _ _ R)) as Sh.
  split; [|intros Pc; by apply Sh].
  apply Forall2_same_length_lookup. split; [by eapply Forall2_length|]. intros i u w Hu Hw.
  destruct (Forall2_lookup_lr _ _ _ _ _ _ Pn Hu Hw) as [Un _ Uf Ue].
  assert (wOut (tuWorld u) = (tuHandled u ++ wkQueue w ++ pending u)%list) as Fl.
  { rewrite <- (take_drop (tuForwarded u) (wOut (tuWorld u))) at 1. by rewrite Uf, <- app_assoc. }
  split; [done|]. split; [done|]. intros Pc. destruct (Sh Pc) as [_ W]. destruct (W i w Hw) as (Se & Ru & _ & Q).
  split; [done|]. split; [done|]. rewrite Fl, Q, (Ue Ru). cbn. by rewrite app_nil_r.
Qed.

(** * Runs that can be computed *)

Inductive ProgMove : Type :=
| MMain | MCallback (e : Callback) | MSignal (sg : Z) | MHandler
| MPoll (i : nat) (lenv : ModbusThread.LoopEnv)
| MReceive (i : nat) (lenv : ModbusThread.LoopEnv) (me : ModbusThread.MsgEnv) (n : nat)
| MReport (i : nat) | MNotify (i : nat) | MEnd (i : nat).

Definition runs (m : Main (D := D)) (i : nat) (u : ThreadUnit) : bool :=
  match mnWorkers m !! i with
  | Some w => wkRunning w && negb (wkNotifying w) && match pending u with [] => true | _ => false end
  | None => false
  end.

(** An environment in which the given messages arrive. *)
Definition receiving (lenv : ModbusThread.LoopEnv) (me : ModbusThread.MsgEnv) (l : list ToModbus) : ModbusThread.LoopEnv :=
  ModbusThread.mkLoopEnv (ModbusThread.clkConnected lenv) (ModbusThread.clkSetup1 lenv) (ModbusThread.clkSetup2 lenv)
    (ModbusThread.clkNow lenv) (ModbusThread.clkAdd1 lenv) (ModbusThread.clkAdd2 lenv) (ModbusThread.envExec lenv)
    (ModbusThread.clkInspect lenv) (ModbusThread.envExists lenv) (ModbusThread.clkReconnect lenv)
    (ModbusThread.clkReset lenv) ((fun m => (me, m)) <$> l).

Definition progMove (a : ProgMove) (s : Program) : option Program :=
  let '(mkProgram m us) := s in
  match a with
  | MMain => m' ← mainStep env m; Some (mkProgram m' (imap (exchange m m') us))
  | MCallback e =>
      match callback env plugins musl e (mnClient m) with
      | (c, Ret tt) =>
          let m' := withMessages (gHasMessages m || notified (mnClient m) c) (withClient c m) in
          Some (mkProgram m' (imap (exchange m m') us))
      | _ => None
      end
  | MSignal sg =>
      if (sg =? SIGTERM) || (sg =? 0) then Some (mkProgram (withHandlers (S (mnHandlers m)) (withSignal sg m)) us) else None
  | MHandler => match mnHandlers m with O => None | S n => Some (mkProgram (notifyQueues (withHandlers n m)) us) end
  | MPoll i lenv =>
      u ← us !! i;
      if runs m i u && negb (tuReceiving u) && mShouldRun (tuThread u) then
        match ModbusThread.pollPhase lenv (tuThread u) (tuWorld u) with
        | Ret (t', w') =>
            Some (mkProgram m (<[i := mkThreadUnit (tuClient u) (tuQueue u) t' w' true (tuForwarded u) (tuHandled u)]> us))
        | Fault _ => None
        end
      else None
  | MReceive i lenv0 me n =>
      u ← us !! i;
      let lenv := receiving lenv0 me (take n (tuQueue u)) in
      if runs m i u && tuReceiving u then
        match ModbusThread.receivePhase getContext lenv (tuThread u) (tuWorld u) with
        | Ret (t', w') =>
            Some (mkProgram m (<[i := mkThreadUnit (tuClient u)
                                        (if takesMessages lenv u then drop n (tuQueue u) else tuQueue u)
                                        t' w' false (tuForwarded u) (tuHandled u)]> us))
        | Fault _ => None
        end
      else None
  | MReport i =>
      u ← us !! i; w ← mnWorkers m !! i;
      if wkRunning w && negb (wkNotifying w) then
        match pending u with
        | item :: _ =>
            Some (mkProgram (changeWorker i (fun w => withNotifying true (withQueue (wkQueue w ++ [item])%list w)) m)
                    (<[i := mkThreadUnit (tuClient u) (tuQueue u) (tuThread u) (tuWorld u) (tuReceiving u)
                              (S (tuForwarded u)) (tuHandled u)]> us))
        | [] => None
        end
      else None
  | MNotify i =>
      w ← mnWorkers m !! i;
      if wkNotifying w then Some (mkProgram (notifyQueues (changeWorker i (withNotifying false) m)) us) else None
  | MEnd i =>
      u ← us !! i;
      if runs m i u && negb (tuReceiving u) && negb (mShouldRun (tuThread u))
      then Some (mkProgram (changeWorker i (withRunning false) m) us) else None
  end.

Lemma runs_canRun m i u : runs m i u = true -> canRun m i u.
Proof.
  unfold runs, canRun. destruct (mnWorkers m !! i) as [w|]; [|done]. intros E.
  destruct (wkRunning w) eqn:Ru, (wkNotifying w) eqn:No, (pending u) eqn:Pe; try done. split; [by exists w|done].
Qed.

Lemma progMove_step a s s' : progMove a s = Some s' -> progstep s s'.
Proof.
  destruct s as [m us]. destruct a as [|e|sg| |i lenv|i lenv me n|i|i|i]; cbn [progMove].
  - intros (m' & E & [= <-])%bind_Some. by apply pg_main.
  - destruct (callback _ _ _ e (mnClient m)) as [c [[]|]] eqn:E; [|done]. intros [= <-]. by apply (pg_callback m e c).
  - destruct ((sg =? SIGTERM) || (sg =? 0)) eqn:E; [|done]. intros [= <-]. apply pg_signal.
    apply orb_true_iff in E as [E|E]; apply Z.eqb_eq in E; auto.
  - destruct (mnHandlers m) eqn:E; [done|]. intros [= <-]. by apply pg_handler.
  - intros (u & Hu & E)%bind_Some. destruct (runs m i u) eqn:Ru, (tuReceiving u) eqn:Re, (mShouldRun _) eqn:Sr; try done.
    cbn in E. destruct (ModbusThread.pollPhase _ _ _) as [[t' w']|] eqn:P; [|done]. injection E as <-.
    eapply pg_poll; eauto using runs_canRun.
  - intros (u & Hu & E)%bind_Some. destruct (runs m i u) eqn:Ru, (tuReceiving u) eqn:Re; try done. cbn [andb] in E.
    destruct (ModbusThread.receivePhase _ _ _ _) as [[t' w']|] eqn:P; [|done]. injection E as <-.
    eapply pg_receive; eauto using runs_canRun. cbn. rewrite <- list_fmap_compose. cbn.
    by rewrite list_fmap_id, take_drop.
  - intros (u & Hu & E)%bind_Some. apply bind_Some in E as (w & Hw & E).
    destruct (wkRunning w) eqn:Ru, (wkNotifying w) eqn:No; try done. cbn in E.
    destruct (pending u) as [|item rest] eqn:Pe; [done|]. injection E as <-. by eapply pg_report.
  - intros (w & Hw & E)%bind_Some. destruct (wkNotifying w) eqn:No; [|done]. injection E as <-. by eapply pg_notify.
  - intros (u & Hu & E)%bind_Some. destruct (runs m i u) eqn:Ru, (tuReceiving u) eqn:Re, (mShouldRun _) eqn:Sr; try done.
    injection E as <-. eapply pg_end; eauto using runs_canRun.
Qed.

Fixpoint progMoves (l : list ProgMove) (s : Program) : option Program :=
  match l with
  | [] => Some s
  | a :: l' => progMove a s ≫= progMoves l'
  end.

Lemma progMoves_run l s s' : progMoves l s = Some s' -> rtc progstep s s'.
Proof.
  revert s. induction l as [|a l IH]; intros s; cbn [progMoves]; [intros [= <-]; reflexivity|].
  intros (s1 & E & R)%bind_Some. eapply rtc_l; [by apply progMove_step in E|by apply IH].
Qed.

End program.

(** * A value and a shutdown *)

Module ProgramScenario.

Definition env : ClientEnv := SystemScenario.env.
Definition iteration (now : Z) : ModbusThread.LoopEnv := ModbusThread.ThreadScenario.iteration now [].
Definition me : ModbusThread.MsgEnv := ModbusThread.ThreadScenario.msgEnv.

Definition launch : Program :=
  mkProgram (mkMain Starting (-1) false 0 [mkWorker "net1" [] [] false true true] (mMqtt demoGateway))
    [mkThreadUnit demoFirstClient (mcToModbus demoFirstClient) SystemScenario.thread SystemScenario.world false 0 []].

Definition moves := progMoves ModbusThread.ThreadScenario.factory env [] false.
Definition after (l : list ProgMove) : Program := default launch (moves l launch).

(** The broker connects, the thread receives its configuration, connects and polls, and
    the main thread is woken up and has handled the first report. *)
Definition toValue : list ProgMove :=
  [MMain; MCallback OnConnect; MMain; MMain; MPoll 0 (iteration 1); MReceive 0 (iteration 1) me 10;
   MPoll 0 (iteration 2); MReport 0; MNotify 0; MReport 0; MNotify 0; MMain; MMain].

(** A SIGTERM stops the thread, and the broker confirms the disconnection. *)
Definition toExit : list ProgMove :=
  (toValue ++ [MReceive 0 (iteration 2) me 10] ++ repeat MMain 4 ++ [MSignal SIGTERM; MHandler] ++ repeat MMain 5
   ++ [MPoll 0 (iteration 3); MReceive 0 (iteration 3) me 10; MEnd 0] ++ repeat MMain 9
   ++ [MCallback OnDisconnect; MMain])%list.

Lemma launch_launched : launched demoGateway launch.
Proof.
  split; [|split; [done|split; [vm_compute; reflexivity|split]]].
  - split; [done|]. split; [done|]. split; [done|]. split; [by repeat constructor|]. right. by repeat constructor.
  - by repeat constructor.
  - apply Forall_singleton. by repeat split.
Qed.

Lemma after_run l :
  bool_decide (is_Some (moves l launch)) = true ->
  rtc (progstep ModbusThread.ThreadScenario.factory env [] false) launch (after l).
Proof. intros [s E]%bool_decide_eq_true. unfold after. rewrite E. by apply progMoves_run in E. Qed.

(** The value that is about to be handled. *)
Definition worker : Worker := default (mkWorker "" [] [] false false false) (mnWorkers (pgMain (after toValue)) !! 0%nat).
Definition value : MsgRegisterValues :=
  match wkQueue worker with
  | [RegisterValues v] => v
  | _ => newMsgRegisterValues 0 COIL 0 [] 1 AUTO 0
  end.

End ProgramScenario.
Import ProgramScenario.

Lemma handled_values_have_objects_witness :
  exists l, l <> []
    /\ affectedObjects env (wkName worker) value (mnClient (pgMain (after toValue)))
       = (mnClient (pgMain (after toValue)), Ret (Some l)).
Proof.
  apply (handled_values_have_objects ModbusThread.ThreadScenario.factory env [] false demoInitEnv 10 demoConfig true
           demoModMqtt demoGateway demoSpecs demoObjects launch (after toValue) 0 worker value []).
  - exact demoConfig_positive.
  - repeat split; reflexivity.
  - exact demoInit_Ret.
  - exact launch_launched.
  - apply after_run. vm_compute. reflexivity.
  - left. vm_compute. reflexivity.
  - vm_compute. reflexivity.
  - vm_compute. reflexivity.
  - vm_compute. reflexivity.
Defined.

(** Both reports of the run have been handled. *)
Example exit_handled :
  (fun u => List.length (tuHandled u)) <$> pgUnits (after toExit) = [2%nat] /\ mnPc (pgMain (after toExit)) = Finished.
Proof. vm_compute. done. Qed.

Lemma reports_handled_in_order_witness :
  Forall2 (fun u w => wkName w = tuName u /\ wOut (tuWorld u) = (tuHandled u ++ wkQueue w ++ pending u)%list
                      /\ (mnPc (pgMain (after toExit)) = Finished ->
                           EndWork ∈ wkSent w /\ wkRunning w = false /\ tuHandled u = wOut (tuWorld u)))
    (pgUnits (after toExit)) (mnWorkers (pgMain (after toExit)))
  /\ (mnPc (pgMain (after toExit)) = Finished -> cNetworks (mnClient (pgMain (after toExit))) = []).
Proof.
  apply (reports_handled_in_order ModbusThread.ThreadScenario.factory env [] false demoGateway launch (after toExit)).
  - exact launch_launched.
  - apply after_run. vm_compute. reflexivity.
Defined.
