(* ===== verification/ExprConv.v ===== *)
(** The expression converter: exprconv/expr.hpp and plugin.cpp.

    The exprtk library is an interface: it compiles a text against a table of
    functions and variables, and evaluates what it has compiled over the storage of
    the variables.  The converter keeps that storage from one call to the next. *)

From stdpp Require Import base gmap list strings.
From Stdlib Require Import ZArith Lia Ascii String.
From S2P Require Import Prelude ModbusTypes Commands ConvTools ConvArgs StdConv Converters.

#[local] Open Scope string_scope.
#[local] Open Scope Z_scope.

Import ConverterTools.

(** * The library *)

(** A function of the symbol table; a conversion in it may be undefined. *)
Inductive ExprFunction (D : Type) : Type :=
| Fun1 (f : D -> outcome D)
| Fun2 (f : D -> D -> outcome D).
Arguments Fun1 {D} f.
Arguments Fun2 {D} f.

(** results_context::type_store_t *)
Inductive ExprResult (D : Type) : Type := RScalar (v : D) | RVector | RString | RUnknown.
Arguments RScalar {D} v.
Arguments RVector {D}.
Arguments RString {D}.
Arguments RUnknown {D}.

(** A symbol table: functions by name, and variables by name and index in the
    storage. *)
Record SymbolTable (D : Type) : Type := mkSymbols {
  symFunctions : list (string * ExprFunction D);
  symVariables : list (string * nat)
}.
Arguments mkSymbols {D} _ _.
Arguments symFunctions {D} _.
Arguments symVariables {D} _.

(** parser::compile, which returns an expression or an error text, and
    expression::value with expression::results: the storage after the evaluation,
    the value, and the results of a return statement. *)
Class Exprtk (D : Type) : Type := {
  Expression : Type;
  exprCompile : SymbolTable D -> string -> Expression + string;
  exprValue : Expression -> list D -> outcome (list D * D * list (ExprResult D));
  double_isnan : D -> bool
}.

Section expr.
Context {D : Type} `{CDouble D} `{Exprtk D}.

(** class ExprtkConverter, once setArgValues has been called. *)
Record ExprtkConverter : Type := mkExpr {
  mExpression : Expression;
  mValues : list D;
  mPrecision : Z;
  mWriteAs : string;
  mWriteLowFirst : bool
}.

Definition withValues v (c : ExprtkConverter) : ExprtkConverter :=
  mkExpr (mExpression c) v (mPrecision c) (mWriteAs c) (mWriteLowFirst c).

Definition MAX_REGISTERS : Z := 10.

(** * Functions of an expression *)

(** A double as an integer of a given range: outside of it the conversion is
    undefined. *)
Definition castTo (lo hi : Z) (v : D) : outcome Z :=
  let n := double_to_int v in
  if (lo <=? n) && (n <=? hi) then Ret n else Fault UndefinedBehaviour.
Definition castUInt16 : D -> outcome Z := castTo 0 UINT16_MAX.
Definition castInt32 : D -> outcome Z := castTo INT_MIN INT_MAX.
Definition castInt64 : D -> outcome Z := castTo INT64_MIN INT64_MAX.

(** The bits of ConverterTools::toNumber. *)
Definition numberBits (high low : D) (swapBytes : bool) : outcome Z :=
  let! h := castUInt16 high in
  let! l := castUInt16 low in
  registersToInt32 [h; l] false swapBytes.

Definition int32 (high low : D) : outcome D :=
  let! b := numberBits high low false in Ret (double_of_int b).
Definition int32bs (high low : D) : outcome D :=
  let! b := numberBits high low true in Ret (double_of_int b).
Definition uint32 (high low : D) : outcome D :=
  let! b := numberBits high low false in Ret (double_of_int (to_u32 b)).
Definition uint32bs (high low : D) : outcome D :=
  let! b := numberBits high low true in Ret (double_of_int (to_u32 b)).
Definition flt32 (high low : D) : outcome D :=
  let! b := numberBits high low false in Ret (float_of_bits b).
Definition flt32bs (high low : D) : outcome D :=
  let! b := numberBits high low true in Ret (float_of_bits b).
Definition int16 (regValue : D) : outcome D :=
  let! val := castUInt16 regValue in Ret (double_of_int (to_i16 val)).
Definition uint16bs (regValue : D) : outcome D :=
  let! val := castUInt16 regValue in Ret (double_of_int (setByteOrder val true)).
Definition int16bs (regValue : D) : outcome D :=
  let! val := castUInt16 regValue in Ret (double_of_int (to_i16 (setByteOrder val true))).

(** The symbol table: the functions, and the variables R0 to R9 and M0 to M9. *)
Definition exprFunctions : list (string * ExprFunction D) :=
  [("int32", Fun2 int32); ("int32bs", Fun2 int32bs); ("uint32", Fun2 uint32); ("uint32bs", Fun2 uint32bs);
   ("flt32", Fun2 flt32); ("flt32bs", Fun2 flt32bs); ("int16", Fun1 int16); ("int16bs", Fun1 int16bs);
   ("uint16bs", Fun1 uint16bs)].
Definition exprVariables : list (string * nat) :=
  mjoin ((fun i => [("R" +:+ Numbers.to_string (Z.of_nat i), i); ("M" +:+ Numbers.to_string (Z.of_nat i), 0%nat)])
           <$> seq 0 (Z.to_nat MAX_REGISTERS)).
Definition exprSymbols : SymbolTable D := mkSymbols exprFunctions exprVariables.

(** * Reading *)

(** toMqtt: the registers go to the first variables; the others keep what they had. *)
Definition exprToMqtt (c : ExprtkConverter) (data : list Z) : outcome (MqttValue D * ExprtkConverter) :=
  if MAX_REGISTERS <? ModbusRegisters.getCount data
  then Fault (ConvException ("Maximum " +:+ Numbers.to_string MAX_REGISTERS +:+ " registers allowed"))
  else
    let vals := ((double_of_int <$> data) ++ drop (List.length data) (mValues c))%list in
    let! (vals', ret, _) := exprValue (mExpression c) vals in
    Ret (MqttValue.fromDouble ret (mPrecision c), withValues vals' c).

(** * Writing *)

(** getWriteRegistersCount *)
Definition getWriteRegistersCount (writeAs : string) (resultsCount : Z) : Z :=
  if bool_decide (writeAs ∈ [""; "int16"; "int16bs"; "uint16bs"; "uint16"]) then resultsCount
  else 2 * resultsCount.

Definition outOfRange {A} (v : Z) : outcome A :=
  Fault (ConvException ("Conversion failed, value " +:+ Numbers.to_string v +:+ " out of range")).

Definition writeInt16 (ret : list Z) (exprval : D) (swapBytes : bool) : outcome (list Z) :=
  let! tmp := castInt32 exprval in
  if (tmp <? INT16_MIN) || (INT16_MAX <? tmp) then outOfRange tmp
  else Ret (ModbusRegisters.appendValue ret (setByteOrder tmp swapBytes)).

Definition writeUInt16 (ret : list Z) (exprval : D) (swapBytes : bool) : outcome (list Z) :=
  let! tmp := castInt32 exprval in
  if (tmp <? 0) || (UINT16_MAX <? tmp) then outOfRange tmp
  else Ret (ModbusRegisters.appendValue ret (setByteOrder tmp swapBytes)).

(** The two registers of a 32 bit value. *)
Definition appendTwo (ret : list Z) (val : Z) (lowFirst swapBytes : bool) : outcome (list Z) :=
  let regdata := int32ToRegisters val lowFirst swapBytes 2 in
  let! a := ModbusRegisters.getValue regdata 0 in
  let! b := ModbusRegisters.getValue regdata 1 in
  Ret (ModbusRegisters.appendValue (ModbusRegisters.appendValue ret a) b).

Definition writeFloat32 (ret : list Z) (exprval : D) (lowFirst swapBytes : bool) : outcome (list Z) :=
  appendTwo ret (float_to_bits exprval) lowFirst swapBytes.
Definition writeInt32 (ret : list Z) (exprval : D) (lowFirst swapBytes : bool) : outcome (list Z) :=
  let! val := castInt32 exprval in
  appendTwo ret val lowFirst swapBytes.
Definition writeUInt32 (ret : list Z) (exprval : D) (lowFirst swapBytes : bool) : outcome (list Z) :=
  let! val := castInt64 exprval in
  appendTwo ret (to_i32 val) lowFirst swapBytes.

(** writeRegisterValues *)
Definition writeRegisterValues (c : ExprtkConverter) (ret : list Z) (exprval : D) : outcome (list Z) :=
  let as_ s := bool_decide (mWriteAs c = s) in
  let lf := mWriteLowFirst c in
  ArgValue.rethrow (mWriteAs c +:+ " conversion failed: ")
    (if as_ "" || as_ "uint16" then writeUInt16 ret exprval false
     else if as_ "uint16bs" then writeUInt16 ret exprval true
     else if as_ "int16" then writeInt16 ret exprval false
     else if as_ "int16bs" then writeInt16 ret exprval true
     else if as_ "uint16bs" then writeInt16 ret exprval true
     else if as_ "flt32" then writeFloat32 ret exprval lf false
     else if as_ "flt32bs" then writeFloat32 ret exprval lf true
     else if as_ "int32" then writeInt32 ret exprval lf false
     else if as_ "int32bs" then writeInt32 ret exprval lf true
     else if as_ "uint32" then writeUInt32 ret exprval lf false
     else if as_ "uint32bs" then writeUInt32 ret exprval lf true
     else Ret ret).

(** The loop over the results of a return statement. *)
Fixpoint writeResults (c : ExprtkConverter) (i : Z) (results : list (ExprResult D)) (ret : list Z)
  : outcome (list Z) :=
  match results with
  | [] => Ret ret
  | RScalar val :: l => let! ret' := writeRegisterValues c ret val in writeResults c (i + 1) l ret'
  | RVector :: _ => Fault (ConvException ("Invalid list returned on position " +:+ Numbers.to_string i))
  | RString :: _ => Fault (ConvException ("Invalid string value returned on position " +:+ Numbers.to_string i))
  | RUnknown :: _ => Fault (ConvException ("Unknown value type returned on position " +:+ Numbers.to_string i))
  end.

(** toModbus *)
Definition exprToModbus (c : ExprtkConverter) (value : MqttValue D) (registerCount : Z)
  : outcome (list Z * ExprtkConverter) :=
  let! v := MqttValue.getDouble value in
  let! (vals, exprval, results) := exprValue (mExpression c) (<[0%nat := v]> (mValues c)) in
  let count := Z.of_nat (List.length results) in
  if double_isnan exprval then
    if 100 <? count then Fault (ConvException "Too many values returned, max=100")
    else if negb (getWriteRegistersCount (mWriteAs c) count =? registerCount)
    then Fault (ConvException ("Got " +:+ Numbers.to_string count +:+ " values, need "
                               +:+ Numbers.to_string registerCount))
    else let! ret := writeResults c 0 results [] in Ret (ret, withValues vals c)
  else
    let needed := getWriteRegistersCount (mWriteAs c) 1 in
    if negb (registerCount =? needed)
    then Fault (ConvException ("Got a single value, need " +:+ Numbers.to_string needed))
    else let! ret := writeRegisterValues c [] exprval in Ret (ret, withValues vals c).

(** * Configuration *)

(** getArgs *)
Definition exprArgs : list ConverterArg :=
  [argStr "expression" ArgSTRING ""; argInt sPrecisionArgName ArgINT NO_PRECISION;
   argStr "write_as" ArgSTRING ""; argInt sLowFirstArgName ArgBOOL 0].

Definition writeHelpers : list string :=
  ["int16"; "int16bs"; "uint16"; "uint16bs"; "int32"; "int32bs"; "uint32"; "uint32bs"; "flt32"; "flt32bs"].

(** strvecToString *)
Fixpoint strvecToString (elements : list string) (delimiter : string) : string :=
  match elements with
  | [] => ""
  | [s] => s
  | s :: l => s +:+ delimiter +:+ strvecToString l delimiter
  end.

(** setArgValues of a new converter, whose variables are zero. *)
Definition exprSetArgs (values : ConverterArgValues) : outcome ExprtkConverter :=
  let! text := ArgValues.getArgValue values "expression" in
  match exprCompile exprSymbols (ArgValue.as_str text) with
  | inr error => Fault (ConvException ("Exprtk " +:+ error))
  | inl expression =>
      let! pv := ArgValues.getArgValue values sPrecisionArgName in
      let! precision := ArgValue.as_int pv in
      let! wv := ArgValues.getArgValue values "write_as" in
      let writeAs := ArgValue.as_str wv in
      if negb (bool_decide (writeAs = "")) && negb (bool_decide (writeAs ∈ writeHelpers))
      then Fault (ConvException ("Unknown write helper " +:+ writeAs +:+ ", valid helpers:"
                                 +:+ strvecToString writeHelpers ","))
      else
        let! lv := ArgValues.getArgValue values sLowFirstArgName in
        let! lowFirst := ArgValue.as_bool lv in
        Ret (mkExpr expression (repeat (double_of_int 0) (Z.to_nat MAX_REGISTERS)) precision writeAs lowFirst)
  end.

(** StdConvPlugin::getConverter of the plugin expr *)
Definition getConverter (name : string) : option (ConverterArgValues -> outcome ExprtkConverter) :=
  if bool_decide (name = "evaluate") then Some exprSetArgs else None.

End expr.
Arguments ExprtkConverter D {_}.

(** * Properties *)

Section theorems.
Context {D : Type} `{CDouble D} `{Exprtk D} `{!CDoubleLaws D}.

(** The functions of expressions that read back what a write helper wrote, on the
    high and the low register. *)
Definition readHelper (writeAs : string) : option (list D -> outcome D) :=
  let one f := Some (fun r => match r with [a] => f a | _ => Fault UndefinedBehaviour end) in
  let two f := Some (fun r => match r with [a; b] => f a b | _ => Fault UndefinedBehaviour end) in
  if bool_decide (writeAs = "int16") then one int16
  else if bool_decide (writeAs = "int16bs") then one int16bs
  else if bool_decide (writeAs = "uint16bs") then one uint16bs
  else if bool_decide (writeAs = "int32") then two int32
  else if bool_decide (writeAs = "int32bs") then two int32bs
  else if bool_decide (writeAs = "uint32") then two uint32
  else if bool_decide (writeAs = "uint32bs") then two uint32bs
  else None.

(** The integers a write helper keeps. *)
Definition writeRange (writeAs : string) (v : Z) : Prop :=
  if bool_decide (writeAs ∈ ["int16"; "int16bs"]) then is_i16 v
  else if bool_decide (writeAs ∈ ["uint16"; "uint16bs"; ""]) then is_u16 v
  else if bool_decide (writeAs ∈ ["int32"; "int32bs"]) then is_i32 v
  else 0 <= v < 2 ^ 32.

(** The registers in the order of the arguments: high word first. *)
Definition highFirst (lowFirst : bool) (regs : list Z) : list Z :=
  match regs with [a; b] => if lowFirst then [b; a] else [a; b] | _ => regs end.

Lemma castTo_int lo hi v :
  double_to_int (double_of_int (D := D) v) = v -> lo <= v <= hi -> castTo (D := D) lo hi (double_of_int v) = Ret v.
Proof.
  intros E R. unfold castTo. rewrite E.
  by replace ((lo <=? v) && (v <=? hi)) with true by (symmetry; apply andb_true_iff; lia).
Qed.

Lemma castTo_u16 v : is_u16 v -> castUInt16 (D := D) (double_of_int v) = Ret v.
Proof.
  unfold is_u16. intros R. apply castTo_int; [apply double_int_exact; unfold is_i32; lia|unfold UINT16_MAX; lia].
Qed.

Lemma appendTwo_eq ret v lf sb :
  appendTwo ret v lf sb = Ret (ret ++ int32ToRegisters v lf sb 2)%list.
Proof.
  rewrite int32ToRegisters_two. unfold appendTwo. rewrite int32ToRegisters_two.
  unfold ModbusRegisters.getValue. change (Z.to_nat 0) with 0%nat. change (Z.to_nat 1) with 1%nat.
  by destruct lf; cbn; unfold ModbusRegisters.appendValue; rewrite <- app_assoc.
Qed.

Lemma numberBits_back v lf sb :
  is_i32 v ->
  exists h l, highFirst lf (int32ToRegisters v lf sb 2) = [h; l]
    /\ numberBits (D := D) (double_of_int h) (double_of_int l) sb = Ret v.
Proof.
  intros R. rewrite int32ToRegisters_two. set (h := setByteOrder (Z.shiftr v 16) sb). set (l := setByteOrder v sb).
  exists h, l. split; [by destruct lf|]. unfold numberBits.
  rewrite !castTo_u16 by apply setByteOrder_range. cbn [obind].
  rewrite <- (int32_back v false sb R). by rewrite int32ToRegisters_two.
Qed.

(** What the write helpers append for an integer they keep. *)
Lemma castInt32_int v : is_i32 v -> castInt32 (D := D) (double_of_int v) = Ret v.
Proof. intros R. apply castTo_int; [by apply double_int_exact|]. unfold is_i32, INT_MIN, INT_MAX in *. lia. Qed.

Lemma writeInt16_int ret v sb :
  is_i16 v -> writeInt16 (D := D) ret (double_of_int v) sb = Ret (ret ++ [setByteOrder v sb])%list.
Proof.
  unfold is_i16, writeInt16. intros R. rewrite castInt32_int by (unfold is_i32; lia). cbn [obind].
  by replace ((v <? INT16_MIN) || (INT16_MAX <? v)) with false
    by (symmetry; apply orb_false_iff; unfold INT16_MIN, INT16_MAX; lia).
Qed.

Lemma writeUInt16_int ret v sb :
  is_u16 v -> writeUInt16 (D := D) ret (double_of_int v) sb = Ret (ret ++ [setByteOrder v sb])%list.
Proof.
  unfold is_u16, writeUInt16. intros R. rewrite castInt32_int by (unfold is_i32; lia). cbn [obind].
  by replace ((v <? 0) || (UINT16_MAX <? v)) with false by (symmetry; apply orb_false_iff; unfold UINT16_MAX; lia).
Qed.

Lemma writeInt32_int ret v lf sb :
  is_i32 v -> writeInt32 (D := D) ret (double_of_int v) lf sb = Ret (ret ++ int32ToRegisters v lf sb 2)%list.
Proof. intros R. unfold writeInt32. rewrite castInt32_int by done. apply appendTwo_eq. Qed.

Lemma writeUInt32_int ret v lf sb :
  0 <= v < 2 ^ 32 ->
  writeUInt32 (D := D) ret (double_of_int v) lf sb = Ret (ret ++ int32ToRegisters (to_i32 v) lf sb 2)%list.
Proof.
  intros R. unfold writeUInt32, castInt64. rewrite castTo_int.
  - apply appendTwo_eq.
  - apply double_exact. lia.
  - unfold INT64_MIN, INT64_MAX. lia.
Qed.

Lemma word_back v sb : setByteOrder (setByteOrder v sb) sb = to_u16 v.
Proof. rewrite <- (setByteOrder_u16 v). apply setByteOrder_involutive, to_u16_range. Qed.

Lemma to_i16_back v : is_i16 v -> to_i16 (to_u16 v) = v.
Proof. intros R. unfold to_i16, to_u16. rewrite to_signed_mod by lia. by apply to_signed_small. Qed.

Lemma to_u32_back v : 0 <= v < 2 ^ 32 -> to_u32 (to_i32 v) = v.
Proof. intros R. unfold to_u32, to_i32. rewrite to_signed_unsigned by lia. by apply Z.mod_small. Qed.

Lemma setByteOrder_id x : is_u16 x -> setByteOrder x false = x.
Proof. apply to_u16_small. Qed.

Lemma read_one v sb (g : Z -> Z) (h : D -> outcome D) :
  (forall x, is_u16 x -> h (double_of_int x) = Ret (double_of_int (g (setByteOrder x sb)))) ->
  g (to_u16 v) = v -> h (double_of_int (setByteOrder v sb)) = Ret (double_of_int v).
Proof. intros Hh Hg. rewrite Hh by apply setByteOrder_range. by rewrite word_back, Hg. Qed.

Lemma read_two u lf sb (g : Z -> D) (h : D -> D -> outcome D) :
  is_i32 u -> (forall x y, h x y = let! b := numberBits x y sb in Ret (g b)) ->
  match double_of_int <$> highFirst lf (int32ToRegisters u lf sb 2) with
  | [a; b] => h a b | _ => Fault UndefinedBehaviour end = Ret (g u).
Proof.
  intros Ru Hh. destruct (numberBits_back u lf sb Ru) as (a & b & -> & B). cbn [fmap list_fmap].
  by rewrite Hh, B.
Qed.

Lemma two_words v lf sb :
  List.length (int32ToRegisters v lf sb 2) = 2%nat /\ Forall is_u16 (int32ToRegisters v lf sb 2).
Proof.
  rewrite int32ToRegisters_two. by destruct lf; (split; [done|]); repeat constructor; apply setByteOrder_range.
Qed.

(** Decides the comparisons of the names of helpers. *)
Ltac compute_names :=
  repeat match goal with
  | |- context [bool_decide (?a = ?b)] =>
      let r := eval vm_compute in (bool_decide (a = b)) in change (bool_decide (a = b)) with r
  end; cbn [orb].

(** C26: what an expression writes through a write helper is what the function of the
    same name reads back, for every integer of the helper's range and either order of
    the words: when the expression yields the number, toModbus returns as many 16 bit
    registers as the helper needs, and the function applied to them, the high word
    first, gives the number. *)
Theorem expr_write_read c value w vals v f :
  readHelper (mWriteAs c) = Some f -> writeRange (mWriteAs c) v ->
  MqttValue.getDouble value = Ret w ->
  exprValue (mExpression c) (<[0%nat := w]> (mValues c)) = Ret (vals, double_of_int v, []) ->
  double_isnan (double_of_int (D := D) v) = false ->
  exists regs,
    exprToModbus c value (getWriteRegistersCount (mWriteAs c) 1) = Ret (regs, withValues vals c)
    /\ Z.of_nat (List.length regs) = getWriteRegistersCount (mWriteAs c) 1 /\ Forall is_u16 regs
    /\ f (double_of_int <$> highFirst (mWriteLowFirst c) regs) = Ret (double_of_int v).
Proof.
  intros F R G E Nan. unfold exprToModbus. rewrite G. cbn [obind]. rewrite E. cbn [obind]. rewrite Nan.
  rewrite Z.eqb_refl. cbn [negb]. unfold writeRegisterValues. destruct c as [ex vs pr wa lf].
  cbn [mWriteAs mWriteLowFirst mExpression mValues] in *. unfold readHelper in F.
  repeat match type of F with
  | context [bool_decide (wa = ?s)] =>
      destruct (decide (wa = s)) as [->|]; [|rewrite (bool_decide_false (wa = s)) in F by done]
  end; try done; compute_names; cbn in F; injection F as <-;
    match goal with |- context [getWriteRegistersCount ?s 1] =>
      first [change (getWriteRegistersCount s 1) with 1 | change (getWriteRegistersCount s 1) with 2] end.
  1, 2: change (is_i16 v) in R; rewrite writeInt16_int by done.
  3: change (is_u16 v) in R; rewrite writeUInt16_int by done.
  4, 5: change (is_i32 v) in R; rewrite writeInt32_int by done.
  6, 7: change (0 <= v < 2 ^ 32) in R; rewrite writeUInt32_int by done.
  all: cbn [ArgValue.rethrow obind app]; eexists; (split; [reflexivity|]).
  1, 2, 3: split; [done|]; (split; [by repeat constructor; apply setByteOrder_range|]).
  4, 5, 6, 7: (split; [by rewrite (proj1 (two_words _ lf _))|]); (split; [apply two_words|]).
  - apply (read_one v false to_i16 int16); [|by apply to_i16_back]. intros x Rx. unfold int16.
    by rewrite castTo_u16, setByteOrder_id.
  - apply (read_one v true to_i16 int16bs); [|by apply to_i16_back]. intros x Rx. unfold int16bs.
    by rewrite castTo_u16.
  - apply (read_one v true id uint16bs); [|by apply to_u16_small]. intros x Rx. unfold uint16bs.
    by rewrite castTo_u16.
  - by apply (read_two v lf false).
  - by apply (read_two v lf true).
  - rewrite (read_two (to_i32 v) lf false (fun b => double_of_int (to_u32 b))); [by rewrite to_u32_back| |done].
    apply (to_signed_range 32). lia.
  - rewrite (read_two (to_i32 v) lf true (fun b => double_of_int (to_u32 b))); [by rewrite to_u32_back| |done].
    apply (to_signed_range 32). lia.
Qed.

(** What one value appends, whether the expression meant it or not. *)
Definition appends (n : Z) (ret : list Z) (m : outcome (list Z)) : Prop :=
  forall r, m = Ret r -> exists new, r = (ret ++ new)%list /\ Z.of_nat (List.length new) = n /\ Forall is_u16 new.

Lemma appends_one ret (g : Z -> bool) sb (m : outcome Z) :
  appends 1 ret (let! tmp := m in
                 if g tmp then outOfRange tmp else Ret (ModbusRegisters.appendValue ret (setByteOrder tmp sb))).
Proof.
  intros r E. destruct m as [tmp|]; [|done]. cbn [obind] in E. destruct (g tmp); [done|]. injection E as <-.
  exists [setByteOrder tmp sb]. split; [done|]. split; [done|]. by repeat constructor; apply setByteOrder_range.
Qed.

Lemma appends_two ret (m : outcome Z) f lf sb : appends 2 ret (let! val := m in appendTwo ret (f val) lf sb).
Proof.
  intros r E. destruct m as [val|]; [|done]. cbn [obind] in E. rewrite appendTwo_eq in E. injection E as <-.
  eexists. split; [reflexivity|]. destruct (two_words (f val) lf sb) as [-> W]. done.
Qed.

Lemma appends_values c ret v :
  mWriteAs c = "" \/ mWriteAs c ∈ writeHelpers ->
  appends (getWriteRegistersCount (mWriteAs c) 1) ret (writeRegisterValues c ret v).
Proof.
  intros Hw r E. unfold writeRegisterValues in E. destruct c as [ex vs pr wa lf]. cbn [mWriteAs mWriteLowFirst] in *.
  assert (X : forall m, ArgValue.rethrow (A := list Z) (wa +:+ " conversion failed: ") m = Ret r -> m = Ret r)
    by (intros [|[]]; by cbn). apply X in E. clear X. revert r E.
  change (forall r, ?m = Ret r -> exists new, r = (ret ++ new)%list /\ Z.of_nat (List.length new) = ?n /\ Forall is_u16 new)
    with (appends n ret m).
  unfold writeHelpers in Hw. rewrite !elem_of_cons in Hw.
  destruct_or?; try (by apply elem_of_nil in Hw); subst wa; compute_names;
    (match goal with |- context [getWriteRegistersCount ?s 1] =>
      first [change (getWriteRegistersCount s 1) with 1 | change (getWriteRegistersCount s 1) with 2] end);
    first [apply appends_one | apply (appends_two ret _ (fun x => x)) | apply (appends_two ret _ to_i32)
          |apply (appends_two ret (Ret (float_to_bits v)) (fun x => x))].
Qed.

Lemma appends_results c results ret i :
  mWriteAs c = "" \/ mWriteAs c ∈ writeHelpers ->
  appends (getWriteRegistersCount (mWriteAs c) (Z.of_nat (List.length results))) ret (writeResults c i results ret).
Proof.
  intros Hw. revert ret i. induction results as [|x results IH]; intros ret i r E.
  - injection E as <-. exists []. split; [by rewrite app_nil_r|]. split; [|done].
    unfold getWriteRegistersCount. by case_bool_decide.
  - destruct x as [v| | |]; try done. cbn [writeResults] in E.
    destruct (writeRegisterValues c ret v) as [ret'|] eqn:W; [|done]. cbn [obind] in E.
    destruct (appends_values c ret v Hw _ W) as (n1 & -> & L1 & F1).
    destruct (IH _ _ _ E) as (n2 & -> & L2 & F2). exists (n1 ++ n2)%list. split; [by rewrite app_assoc|].
    split; [|by apply Forall_app]. rewrite length_app. unfold getWriteRegistersCount in *.
    cbn [List.length]. case_bool_decide; lia.
Qed.

(** Whatever the expression returns, toModbus writes exactly the registers the command
    has, each a 16 bit word, or throws. *)
Theorem exprToModbus_exact c value n regs c' :
  mWriteAs c = "" \/ mWriteAs c ∈ writeHelpers ->
  exprToModbus c value n = Ret (regs, c') -> Z.of_nat (List.length regs) = n /\ Forall is_u16 regs.
Proof.
  intros Hw. unfold exprToModbus. destruct (MqttValue.getDouble value) as [v|]; [|done]. cbn [obind].
  destruct (exprValue _ _) as [[[vals x] results]|]; [|done]. cbn [obind]. destruct (double_isnan x).
  - destruct (_ <? _); [done|]. destruct (Z.eqb_spec (getWriteRegistersCount (mWriteAs c) (Z.of_nat (List.length results))) n)
      as [<-|]; [|done]. cbn [negb]. destruct (writeResults c 0 results []) as [ret|] eqn:W; [|done]. cbn.
    intros [= <- <-]. by destruct (appends_results c results [] 0 Hw _ W) as (new & -> & L & F).
  - destruct (Z.eqb_spec n (getWriteRegistersCount (mWriteAs c) 1)) as [->|]; [|done]. cbn [negb].
    destruct (writeRegisterValues c [] x) as [ret|] eqn:W; [|done]. cbn.
    intros [= <- <-]. by destruct (appends_values c [] x Hw _ W) as (new & -> & L & F).
Qed.

End theorems.

(** * Witnesses

    A library whose expressions are the names of variables. *)

Module DemoExprtk.

#[export] Instance exprtk : Exprtk Z := {
  Expression := nat;
  exprCompile symbols text :=
    match find (fun e => bool_decide (e.1 = text)) (symVariables symbols) with
    | Some (_, i) => inl i
    | None => inr ("undefined symbol " +:+ text)
    end;
  exprValue i vals := match vals !! i with Some v => Ret (vals, v, []) | None => Fault UndefinedBehaviour end;
  double_isnan _ := false
}.

(** The converter of [expr.evaluate(expression, write_as=..., low_first=...)]. *)
Definition values (text writeAs lowFirst : string) : ConverterArgValues :=
  foldl (fun m e => match ArgValues.setArgValue m e.1 e.2 with Ret m' => m' | Fault _ => m end)
    (ArgValues.new exprArgs) [("expression", text); ("write_as", writeAs); ("low_first", lowFirst)].

Definition converter (text writeAs lowFirst : string) : ExprtkConverter Z :=
  match exprSetArgs (values text writeAs lowFirst) with
  | Ret c => c
  | Fault _ => mkExpr (D := Z) 0%nat [] 0 "" false
  end.

End DemoExprtk.

Import DemoExprtk.

Lemma expr_write_read_witness :
  exists regs,
    exprToModbus (converter "M3" "int32" "true") (MqttValue.fromString "-123456789") 2
    = Ret (regs, withValues [-123456789; 0; 0; 0; 0; 0; 0; 0; 0; 0] (converter "M3" "int32" "true"))
    /\ Z.of_nat (List.length regs) = 2 /\ Forall is_u16 regs
    /\ (match highFirst true regs with [a; b] => int32 (D := Z) a b | _ => Fault UndefinedBehaviour end)
       = Ret (-123456789).
Proof.
  destruct (expr_write_read (D := Z) (converter "M3" "int32" "true") (MqttValue.fromString "-123456789")
    (-123456789) [-123456789; 0; 0; 0; 0; 0; 0; 0; 0; 0] (-123456789)
    (fun r => match r with [a; b] => int32 (D := Z) a b | _ => Fault UndefinedBehaviour end))
    as (regs & E1 & E2 & E3 & E4).
  - reflexivity.
  - change (is_i32 (-123456789)). unfold is_i32. lia.
  - reflexivity.
  - reflexivity.
  - reflexivity.
  - exists regs. split; [exact E1|]. split; [exact E2|]. split; [exact E3|].
    cbn [fmap list_fmap double_of_int IntDouble.ops] in E4. rewrite list_fmap_id in E4. exact E4.
Defined.

(** uint32 and int32 are written without a check of the range that uint16 and int16
    have: a value that does not fit is written as another one. *)
Theorem expr_uint32_unchecked :
  (exists c, exprToModbus (converter "M0" "uint32" "false") (MqttValue.fromString "4294967297") 2 = Ret ([0; 1], c))
  /\ exprToModbus (converter "M0" "uint16" "false") (MqttValue.fromString "65537") 1
     = Fault (ConvException "uint16 conversion failed: Conversion failed, value 65537 out of range").
Proof. split; [eexists|]; vm_compute; reflexivity. Qed.

(** A variable without a register keeps the value of the read before. *)
Theorem expr_stale_variable :
  exists c, exprToMqtt (converter "R1" "" "false") [5; 7] = Ret (VDouble 7 (-1), c)
    /\ exists c', exprToMqtt c [6] = Ret (VDouble 7 (-1), c').
Proof. eexists. split; [vm_compute; reflexivity|]. eexists. vm_compute. reflexivity. Qed.
