(* ===== verification/ContextInit.v ===== *)
(** Creating the context of a network: ModbusContext::init of
    libmodmqttsrv/modbus_context.cpp, and ModbusFactory.

    The functions of libmodbus that create and configure a context are operations of
    the class [LibmodbusSetup]; they take a pointer that may be null, since init
    tests it last.  What their manual pages promise is [LibmodbusSetupLaws]. *)

From stdpp Require Import base list strings.
From Stdlib Require Import ZArith Lia String.
From S2P Require Import Prelude ModbusTypes Commands ModbusContext Config.
From S2P Require Import YamlConfig YamlProps YamlTree.

#[local] Open Scope string_scope.
#[local] Open Scope Z_scope.

(** The modes of modbus_set_error_recovery the code asks for. *)
Inductive ErrorRecovery : Type := RecoveryProtocol | RecoveryProtocolLink.

(** [option L] is a modbus_t pointer; [Z] the code a function returns, which is not 0
    when it fails. *)
Class LibmodbusSetup (L : Type) : Type := {
  modbus_new_tcp : string -> Z -> option L;
  modbus_new_rtu : string -> Z -> Z -> Z -> Z -> option L;
  modbus_set_error_recovery : option L -> ErrorRecovery -> option L * Z;
  modbus_rtu_set_serial_mode : option L -> RtuSerialMode -> option L * Z;
  modbus_rtu_set_rts : option L -> RtuRtsMode -> option L * Z;
  modbus_rtu_set_rts_delay : option L -> Z -> option L * Z;
  modbus_set_response_timeout : option L -> Z -> Z -> option L * Z;
  modbus_set_byte_timeout : option L -> Z -> Z -> option L * Z;
  modbus_error : option L -> string
}.

(** Documented behaviour: a timeout is accepted for a context when its microseconds
    are at most 999999 and, for the response timeout, it is not zero; the context
    remains. *)
Class LibmodbusSetupLaws (L : Type) `{LibmodbusSetup L} : Prop := {
  recovery_context : forall l m, is_Some (modbus_set_error_recovery (Some l) m).1;
  response_timeout_accepted : forall l us, 0 < us <= 999999 ->
    exists l', modbus_set_response_timeout (Some l) 0 us = (Some l', 0);
  response_timeout_zero : forall l, (modbus_set_response_timeout (Some l) 0 0).2 <> 0;
  byte_timeout_accepted : forall l us, 0 <= us <= 999999 ->
    exists l', modbus_set_byte_timeout (Some l) 0 us = (Some l', 0)
}.

Section init.
Context {L : Type} `{LibmodbusSetup L}.

(** A ModbusContextException. *)
Definition contextError {A} (ctx : option L) (what : string) : outcome A :=
  Fault (StdException ("libmodbus: " +:+ what +:+ ": " +:+ modbus_error ctx)).

(** A call whose code must be 0. *)
Definition checked (r : option L * Z) (what : string) : outcome (option L) :=
  if negb (r.2 =? 0) then contextError r.1 what else Ret r.1.

(** The serial line: the modes are set when they are specified. *)
Definition setSerialMode (config : ModbusNetworkConfig) (ctx : option L) : outcome (option L) :=
  match mRtuSerialMode config with
  | UNSPECIFIED => Ret ctx
  | mode => checked (modbus_rtu_set_serial_mode ctx mode) "Unable to set RTU serial mode"
  end.
Definition setRtsMode (config : ModbusNetworkConfig) (ctx : option L) : outcome (option L) :=
  match mRtsMode config with
  | RtsNONE => Ret ctx
  | mode => checked (modbus_rtu_set_rts ctx mode) "Unable to set RTS mode"
  end.
Definition setRtsDelay (config : ModbusNetworkConfig) (ctx : option L) : outcome (option L) :=
  if 0 <? mRtsDelayUs config
  then checked (modbus_rtu_set_rts_delay ctx (mRtsDelayUs config)) "Unable to set RTS delay"
  else Ret ctx.

Definition createContext (config : ModbusNetworkConfig) : outcome (option L) :=
  match netType config with
  | TCPIP =>
      let ctx := modbus_new_tcp (netAddress config) (netPort config) in
      Ret (modbus_set_error_recovery ctx RecoveryProtocolLink).1
  | RTU =>
      let ctx := modbus_new_rtu (mDevice config) (mBaud config) (mParity config) (mDataBit config) (mStopBit config) in
      let ctx := (modbus_set_error_recovery ctx RecoveryProtocol).1 in
      let! ctx := setSerialMode config ctx in
      let! ctx := setRtsMode config ctx in
      setRtsDelay config ctx
  end.

(** duration_cast to microseconds, as a uint32_t *)
Definition microseconds (ms : Z) : Z := to_u32 (ms * 1000).

Definition setTimeouts (config : ModbusNetworkConfig) (ctx : option L) : outcome (option L) :=
  let! ctx := checked (modbus_set_response_timeout ctx 0 (microseconds (mResponseTimeout config)))
                "Unable to set response timeout" in
  if 0 <? mResponseDataTimeout config
  then checked (modbus_set_byte_timeout ctx 0 (microseconds (mResponseDataTimeout config)))
         "Unable to set response data timeout"
  else Ret ctx.

(** ModbusFactory::getContext and ModbusContext::init *)
Definition initContext (config : ModbusNetworkConfig) : outcome (ModbusContext L) :=
  let! ctx := createContext config in
  let! ctx := setTimeouts config ctx in
  match ctx with
  | Some l => Ret (mkContext false l)
  | None => contextError None "Unable to create context"
  end.

(** A new context is not connected, as the modbus thread assumes. *)
Lemma initContext_fresh config c : initContext config = Ret c -> mIsConnected c = false.
Proof.
  unfold initContext. intros E. apply obind_Ret in E as (ctx & _ & E). apply obind_Ret in E as (ctx' & _ & E).
  destruct ctx'; [|done]. by injection E as <-.
Qed.

(** A timeout of a configuration that was read is passed on exactly, within what
    libmodbus takes. *)
Lemma microseconds_exact ms : 0 <= ms <= MAX_RESPONSE_TIMEOUT -> microseconds ms = 1000 * ms /\ 1000 * ms <= 999999.
Proof.
  unfold MAX_RESPONSE_TIMEOUT, microseconds, to_u32. intros R. rewrite Z.mod_small by lia. lia.
Qed.

Context `{!LibmodbusSetupLaws L}.

Lemma setTimeouts_ok config l :
  networkOk config -> 0 < mResponseTimeout config -> exists l', setTimeouts config (Some l) = Ret (Some l').
Proof.
  intros [_ Rt Rd _ _ _ _] P. unfold setTimeouts.
  destruct (microseconds_exact _ Rt) as [-> B]. destruct (microseconds_exact _ Rd) as [-> Bd].
  destruct (response_timeout_accepted l (1000 * mResponseTimeout config)) as [l1 ->]; [lia|].
  cbn. destruct (0 <? mResponseDataTimeout config); [|by eexists].
  destruct (byte_timeout_accepted l1 (1000 * mResponseDataTimeout config)) as [l2 ->]; [lia|]. by eexists.
Qed.

(** A TCP network that was read from a configuration gets its context, provided that
    libmodbus can create one and the response timeout is not zero. *)
Theorem initContext_tcp config l :
  networkOk config -> netType config = TCPIP -> 0 < mResponseTimeout config ->
  modbus_new_tcp (netAddress config) (netPort config) = Some l ->
  exists c, initContext config = Ret c.
Proof.
  intros Ok T P New. unfold initContext, createContext. rewrite T, New. cbn [obind].
  destruct (recovery_context l RecoveryProtocolLink) as [l1 ->].
  destruct (setTimeouts_ok config l1 Ok P) as [l2 ->]. by eexists.
Qed.

(** The parser accepts a response timeout of 0ms; libmodbus does not, so that the
    thread of the network ends with an exception. *)
Theorem zero_timeout_refused config :
  mResponseTimeout config = 0 -> forall l, exists what, setTimeouts config (Some l) = Fault (StdException what).
Proof.
  intros Z l. unfold setTimeouts. rewrite Z. change (microseconds 0) with 0.
  pose proof (response_timeout_zero l) as N. destruct (modbus_set_response_timeout (Some l) 0 0) as [l' rc].
  cbn in N. unfold checked. cbn. apply Z.eqb_neq in N. rewrite N. by eexists.
Qed.

End init.

(** * A simulated device *)

#[export] Instance deviceSetup : LibmodbusSetup Device.state := {
  modbus_new_tcp _ _ := Some (fun _ => 0);
  modbus_new_rtu _ _ _ _ _ := Some (fun _ => 0);
  modbus_set_error_recovery ctx _ := (ctx, 0);
  modbus_rtu_set_serial_mode ctx _ := (ctx, 0);
  modbus_rtu_set_rts ctx _ := (ctx, 0);
  modbus_rtu_set_rts_delay ctx _ := (ctx, 0);
  modbus_set_response_timeout ctx s us := (ctx, if (s + us =? 0) || (999999 <? us) then -1 else 0);
  modbus_set_byte_timeout ctx _ us := (ctx, if 999999 <? us then -1 else 0);
  modbus_error _ := "error"
}.

#[export] Instance deviceSetup_laws : LibmodbusSetupLaws Device.state.
Proof.
  split; cbn.
  - intros l _. by eexists.
  - intros l us R. exists l. f_equal.
    by destruct us as [|p|p]; [lia| |lia]; rewrite (proj2 (Z.eqb_neq _ _)), (proj2 (Z.ltb_ge _ _)) by lia.
  - done.
  - intros l us R. exists l. by rewrite (proj2 (Z.ltb_ge _ _)) by lia.
Qed.

Example initContext_demo : is_ret (initContext (L := Device.state) (defaultNetworkConfig TCPIP)) = true.
Proof. reflexivity. Qed.
