(* ===== verification/Mosquitto.v ===== *)
(** The wrapper of the MQTT library: libmodmqttsrv/mosquitto.hpp and mosquitto.cpp.

    The functions of libmosquitto are a log of calls; the code each of them returns,
    and errno after it, come from the environment.  The client of MqttClient is
    written against the interface the wrapper implements: a call is one effect, which
    may throw. *)

From stdpp Require Import base gmap list strings.
From Stdlib Require Import ZArith Lia String.
From S2P Require Import Prelude ModbusTypes Commands Config ModbusThread ConvTools ConvArgs StdConv.
From S2P Require Import Converters MqttObject MqttPayload MqttClient MqttClientProps Logging YamlConfig.
From S2P Require Import YamlProps GatewayInit GatewayProps.

#[local] Open Scope string_scope.
#[local] Open Scope Z_scope.

(** enum mosq_err_t, as far as the code names its values. *)
Inductive MosqErr : Type :=
| MOSQ_ERR_CONN_PENDING | MOSQ_ERR_SUCCESS | MOSQ_ERR_NOMEM | MOSQ_ERR_PROTOCOL | MOSQ_ERR_INVAL
| MOSQ_ERR_NO_CONN | MOSQ_ERR_CONN_REFUSED | MOSQ_ERR_NOT_FOUND | MOSQ_ERR_CONN_LOST | MOSQ_ERR_TLS
| MOSQ_ERR_PAYLOAD_SIZE | MOSQ_ERR_NOT_SUPPORTED | MOSQ_ERR_AUTH | MOSQ_ERR_ACL_DENIED | MOSQ_ERR_UNKNOWN
| MOSQ_ERR_ERRNO | MOSQ_ERR_EAI | MOSQ_ERR_PROXY | MOSQ_ERR_OTHER.

#[export] Instance MosqErr_eq_dec : EqDecision MosqErr.
Proof. solve_decision. Defined.

(** returnCodeToStr; [strerror] is the text of errno. *)
Definition returnCodeToStr (strerror : string) (code : MosqErr) : string :=
  match code with
  | MOSQ_ERR_CONN_PENDING => "Connection pending."
  | MOSQ_ERR_SUCCESS => "No error."
  | MOSQ_ERR_NOMEM => "Out of memory."
  | MOSQ_ERR_PROTOCOL => "A network protocol error occurred when communicating with the broker."
  | MOSQ_ERR_INVAL => "Invalid function arguments provided."
  | MOSQ_ERR_NO_CONN => "The client is not currently connected."
  | MOSQ_ERR_CONN_REFUSED => "The connection was refused."
  | MOSQ_ERR_NOT_FOUND => "Message not found (internal error)."
  | MOSQ_ERR_CONN_LOST => "The connection was lost."
  | MOSQ_ERR_TLS => "A TLS error occurred."
  | MOSQ_ERR_PAYLOAD_SIZE => "Payload too large."
  | MOSQ_ERR_NOT_SUPPORTED => "This feature is not supported."
  | MOSQ_ERR_AUTH => "Authorisation failed."
  | MOSQ_ERR_ACL_DENIED => "Access denied by ACL."
  | MOSQ_ERR_UNKNOWN => "Unknown error."
  | MOSQ_ERR_EAI => "Lookup error."
  | MOSQ_ERR_PROXY => "Proxy error."
  | MOSQ_ERR_ERRNO => strerror
  | MOSQ_ERR_OTHER => "Unknown error."
  end.

(** The codes throwOnCriticalError throws for. *)
Definition isCritical (code : MosqErr) : bool :=
  match code with
  | MOSQ_ERR_NOMEM | MOSQ_ERR_PROTOCOL | MOSQ_ERR_INVAL | MOSQ_ERR_NOT_FOUND | MOSQ_ERR_TLS
  | MOSQ_ERR_PAYLOAD_SIZE | MOSQ_ERR_NOT_SUPPORTED | MOSQ_ERR_AUTH | MOSQ_ERR_ACL_DENIED | MOSQ_ERR_UNKNOWN
  | MOSQ_ERR_EAI | MOSQ_ERR_PROXY => true
  | _ => false
  end.

(** The calls of libmosquitto. *)
Inductive LibCall : Type :=
| LProtocolV5
| LUsernamePw (username password : string)
| LUseOsCerts
| LTlsSet (cafile : string)
| LConnectAsync (host : string) (port keepalive : Z)
| LReconnectDelay (delay maxDelay : Z) (exponential : bool)
| LConnectCallback
| LConnectWithFlagsCallback
| LDisconnectCallback
| LPublishCallback
| LMessageCallback
| LMessageV5Callback
| LLogCallback
| LLoopStart
| LReconnect
| LDisconnect
| LLoopStop
| LReinitialise (clientId : string)
| LSubscribe (topic : string) (qos : Z)
| LPublish (topic : string) (payload : option string) (qos : Z) (retain : bool)
| LPublishV5 (topic : string) (payload : option string) (qos : Z) (retain : bool)
    (correlation : option string) (properties : list (string * string)).

#[export] Instance LibCall_eq_dec : EqDecision LibCall.
Proof. solve_decision. Defined.

(** class Mosquitto *)
Record Mosquitto : Type := mkMosquitto {
  mqOwner : bool;          (** mOwner is set *)
  mqProtocolV5 : bool;
  mqCalls : list LibCall
}.

Section mosquitto.
(** The code of the n-th call, whether errno is EPROTO after it, and the text of
    errno. *)
Variable rcOf : nat -> MosqErr.
Variable protoError : nat -> bool.
Variable strerror : nat -> string.

(** A computation of the wrapper: it may throw, and what it called remains. *)
Definition lib (A : Type) : Type := Mosquitto -> Mosquitto * outcome A.
Definition libRet {A} (a : A) : lib A := fun m => (m, Ret a).
Definition libBind {A B} (x : lib A) (k : A -> lib B) : lib B :=
  fun m => match x m with (m', Ret a) => k a m' | (m', Fault f) => (m', Fault f) end.
Notation "'let+' x ':=' m 'in' k" := (libBind m (fun x => k)) (at level 10, x pattern, m at level 100, k at level 200).
Notation "m ;;; k" := (libBind m (fun _ => k)) (at level 100, right associativity).

Definition libCall (c : LibCall) : lib MosqErr :=
  fun m => (mkMosquitto (mqOwner m) (mqProtocolV5 m) (mqCalls m ++ [c])%list, Ret (rcOf (List.length (mqCalls m)))).

(** throwOnCriticalError, with the errno of the last call *)
Definition throwOnCriticalError (code : MosqErr) : lib unit :=
  fun m => (m, if isCritical code
               then Fault (MosquittoException (returnCodeToStr (strerror (List.length (mqCalls m) - 1)) code))
               else Ret tt).

Definition callChecked (c : LibCall) : lib MosqErr :=
  let+ rc := libCall c in throwOnCriticalError rc ;;; libRet rc.

Definition libWhen (b : bool) (x : lib unit) : lib unit := if b then x else libRet tt.
Definition ignore {A} (x : lib A) : lib unit := x ;;; libRet tt.

(** The callbacks connect sets before it starts the loop. *)
Definition setCallbacks (config : MqttBrokerConfig) : lib unit :=
  ignore (libCall (LReconnectDelay 3 60 true)) ;;;
  ignore (libCall LConnectCallback) ;;;
  ignore (libCall LConnectWithFlagsCallback) ;;;
  ignore (libCall LDisconnectCallback) ;;;
  ignore (libCall LPublishCallback) ;;;
  ignore (libCall (if mProtocolV5 config then LMessageV5Callback else LMessageCallback)) ;;;
  ignore (libCall LLogCallback).

(** connect *)
Definition connect (config : MqttBrokerConfig) : lib unit :=
  (fun m => (mkMosquitto (mqOwner m) (mProtocolV5 config) (mqCalls m), Ret tt)) ;;;
  libWhen (mProtocolV5 config) (ignore (callChecked LProtocolV5)) ;;;
  libWhen (negb (bool_decide (mUsername config = "")))
    (ignore (callChecked (LUsernamePw (mUsername config) (mPassword config)))) ;;;
  libWhen (mTLS config)
    (ignore (callChecked (if bool_decide (mCafile config = "") then LUseOsCerts else LTlsSet (mCafile config)))) ;;;
  let+ rc := callChecked (LConnectAsync (mHost config) (brokerPort config) (mKeepalive config)) in
  (fun m => (m, if protoError (List.length (mqCalls m) - 1)
                then Fault (MosquittoException (strerror (List.length (mqCalls m) - 1))) else Ret tt)) ;;;
  if negb (bool_decide (rc = MOSQ_ERR_SUCCESS)) then libRet tt
  else setCallbacks config ;;; ignore (libCall LLoopStart).

(** The other operations *)
Definition reconnect : lib unit := ignore (libCall LReconnect).
Definition disconnect : lib unit := ignore (libCall LDisconnect).
Definition stop : lib unit := ignore (libCall LLoopStop).
Definition init (clientId : string) : lib unit :=
  (fun m => (mkMosquitto true (mqProtocolV5 m) (mqCalls m), Ret tt)) ;;; ignore (libCall (LReinitialise clientId)).
Definition subscribe (topic : string) : lib unit := ignore (libCall (LSubscribe topic 0)).
Definition publish (topic : string) (payload : option string) (retain : bool) : lib unit :=
  ignore (callChecked (LPublish topic payload 0 retain)).
(** publishResponse: correlation data is a property when there is any. *)
Definition publishResponse (topic : string) (payload : option string) (correlation : string)
    (properties : list (string * string)) : lib unit :=
  ignore (callChecked (LPublishV5 topic payload 0 false
    (let len := Z.of_nat (String.length correlation) in
     if 0 <? len then Some (String.substring 0 (Z.to_nat (to_u16 len)) correlation) else None) properties)).

(** What the client asks of the MQTT library. *)
Definition perform (e : Effect) : lib unit :=
  match e with
  | EInit clientId => init clientId
  | EConnect config => connect config
  | EReconnect => reconnect
  | EDisconnect => disconnect
  | EStop => stop
  | ESubscribe topic => subscribe topic
  | EPublish topic payload retain => publish topic payload retain
  | EResponse topic payload correlation properties => publishResponse topic payload correlation properties
  | EToModbus _ _ | ENotifyQueues => libRet tt
  end.

(** * Properties *)

(** What a step of the wrapper may do: return, or throw a MosquittoException. *)
Definition wellBehaved {A} (x : lib A) : Prop :=
  forall m, is_ret (x m).2 = true \/ exists what, (x m).2 = Fault (MosquittoException what).

Lemma wb_ret {A} (a : A) : wellBehaved (libRet a).
Proof. intros m. by left. Qed.
Lemma wb_call c : wellBehaved (libCall c).
Proof. intros m. by left. Qed.
Lemma wb_bind {A B} (x : lib A) (k : A -> lib B) :
  wellBehaved x -> (forall a, wellBehaved (k a)) -> wellBehaved (libBind x k).
Proof.
  intros Hx Hk m. unfold libBind. specialize (Hx m). destruct (x m) as [m' [a|f]]; [apply Hk|].
  right. destruct Hx as [Hx|[what Hx]]; [done|]. injection Hx as ->. by exists what.
Qed.
Lemma wb_throw code : wellBehaved (throwOnCriticalError code).
Proof. intros m. unfold throwOnCriticalError. cbn. destruct (isCritical code); [right; by eexists|by left]. Qed.
Lemma wb_checked c : wellBehaved (callChecked c).
Proof. apply wb_bind; [apply wb_call|]. intros rc. apply wb_bind; [apply wb_throw|]. intros. apply wb_ret. Qed.
Lemma wb_ignore {A} (x : lib A) : wellBehaved x -> wellBehaved (ignore x).
Proof. intros Hx. apply wb_bind; [done|]. intros. apply wb_ret. Qed.
Lemma wb_when b x : wellBehaved x -> wellBehaved (libWhen b x).
Proof. destruct b; [done|]. intros _. apply wb_ret. Qed.

#[local] Hint Resolve wb_ret wb_call wb_bind wb_throw wb_checked wb_ignore wb_when : mosq.

(** The wrapper is an implementation the client can live with: whatever the library
    returns, a call returns or throws a MosquittoException, and no other fault. *)
Theorem perform_implements_interface e : wellBehaved (perform e).
Proof.
  destruct e; cbn [perform]; auto with mosq.
  - apply wb_bind; [by left|]. auto with mosq.
  - unfold connect, setCallbacks. apply wb_bind; [by left|]. intros. repeat (apply wb_bind; [solve [auto with mosq]|intros]).
    apply wb_bind; [|intros].
    + intros m. cbn. destruct (protoError _); [right; by eexists|by left].
    + destruct (negb _); [auto with mosq|]. repeat (apply wb_bind; [solve [auto 10 with mosq]|intros]); auto with mosq.
  - by apply wb_ignore, wb_call.
  - by apply wb_ignore, wb_call.
  - by apply wb_ignore, wb_call.
  - by apply wb_ignore, wb_call.
  - by apply wb_ignore, wb_checked.
  - by apply wb_ignore, wb_checked.
Qed.

(** Publishing throws exactly for the codes that are critical; with any other code,
    such as that of a lost connection, the message is not sent and the caller is not
    told. *)
Theorem publish_throws_iff topic payload retain m :
  (publish topic payload retain m).2
  = if isCritical (rcOf (List.length (mqCalls m)))
    then Fault (MosquittoException (returnCodeToStr (strerror (List.length (mqCalls m))) (rcOf (List.length (mqCalls m)))))
    else Ret tt.
Proof.
  unfold publish, ignore, callChecked, libBind, libCall, throwOnCriticalError. cbn. rewrite length_app. cbn.
  replace (List.length (mqCalls m) + 1 - 1)%nat with (List.length (mqCalls m)) by lia.
  by destruct (isCritical _).
Qed.

(** What connect calls when the library refuses nothing. *)
Definition connectCalls (config : MqttBrokerConfig) : list LibCall :=
  ((if mProtocolV5 config then [LProtocolV5] else [])
   ++ (if bool_decide (mUsername config = "") then [] else [LUsernamePw (mUsername config) (mPassword config)])
   ++ (if mTLS config then [if bool_decide (mCafile config = "") then LUseOsCerts else LTlsSet (mCafile config)] else [])
   ++ [LConnectAsync (mHost config) (brokerPort config) (mKeepalive config); LReconnectDelay 3 60 true;
       LConnectCallback; LConnectWithFlagsCallback; LDisconnectCallback; LPublishCallback;
       if mProtocolV5 config then LMessageV5Callback else LMessageCallback; LLogCallback; LLoopStart])%list.

Hypothesis accepted : forall n, rcOf n = MOSQ_ERR_SUCCESS /\ protoError n = false.

Definition called (l : list LibCall) (m : Mosquitto) : Mosquitto :=
  mkMosquitto (mqOwner m) (mqProtocolV5 m) (mqCalls m ++ l)%list.

Lemma called_called l1 l2 m : called l2 (called l1 m) = called (l1 ++ l2) m.
Proof. unfold called. cbn. by rewrite app_assoc. Qed.

Lemma libBind_Ret {A B} (x : lib A) (k : A -> lib B) m m' a : x m = (m', Ret a) -> libBind x k m = k a m'.
Proof. unfold libBind. by intros ->. Qed.

Lemma libCall_accepted c m : libCall c m = (called [c] m, Ret MOSQ_ERR_SUCCESS).
Proof. unfold libCall. by rewrite (proj1 (accepted _)). Qed.
Lemma ignore_accepted c m : ignore (libCall c) m = (called [c] m, Ret tt).
Proof. unfold ignore. by rewrite (libBind_Ret _ _ _ _ _ (libCall_accepted c m)). Qed.
Lemma checked_accepted c m : callChecked c m = (called [c] m, Ret MOSQ_ERR_SUCCESS).
Proof. unfold callChecked. by rewrite (libBind_Ret _ _ _ _ _ (libCall_accepted c m)). Qed.
Lemma when_accepted b c m :
  libWhen b (ignore (callChecked c)) m = (called (if b then [c] else []) m, Ret tt).
Proof.
  destruct b; cbn [libWhen]; [unfold ignore; by rewrite (libBind_Ret _ _ _ _ _ (checked_accepted c m))|].
  unfold called, libRet. rewrite app_nil_r. by destruct m.
Qed.

Lemma connect_accepted config m :
  connect config m = (mkMosquitto (mqOwner m) (mProtocolV5 config) (mqCalls m ++ connectCalls config)%list, Ret tt).
Proof.
  unfold connect, setCallbacks. erewrite libBind_Ret by reflexivity.
  do 3 erewrite libBind_Ret by apply when_accepted. erewrite libBind_Ret by apply checked_accepted.
  erewrite libBind_Ret by (cbv beta; by rewrite (proj2 (accepted _))).
  rewrite bool_decide_true by done. cbn [negb]. erewrite libBind_Ret.
  2: { do 6 (erewrite libBind_Ret by apply ignore_accepted). apply ignore_accepted. }
  rewrite ignore_accepted, !called_called. unfold called. cbn [mqOwner mqProtocolV5 mqCalls]. do 3 f_equal.
  unfold connectCalls. by case_bool_decide.
Qed.

End mosquitto.

(** * Callbacks *)

(** The levels of on_log. *)
Inductive MosqLogLevel : Type :=
| MOSQ_LOG_INFO | MOSQ_LOG_NOTICE | MOSQ_LOG_WARNING | MOSQ_LOG_ERR | MOSQ_LOG_DEBUG | MOSQ_LOG_OTHER.

(** on_log: the level a message of the library is logged with. *)
Definition on_log (level : MosqLogLevel) : option Log.severity :=
  match level with
  | MOSQ_LOG_INFO | MOSQ_LOG_NOTICE => Some Log.info
  | MOSQ_LOG_WARNING => Some Log.warn
  | MOSQ_LOG_ERR => Some Log.error
  | MOSQ_LOG_DEBUG => Some Log.debug
  | MOSQ_LOG_OTHER => None
  end.

(** What the library calls back with; a message that came with MQTT 5 has properties. *)
Inductive LibEvent : Type :=
| LOnConnect (rc : Z)
| LOnConnectWithFlags (rc flags : Z)
| LOnDisconnect (rc : MosqErr)
| LOnPublish (messageId : Z)
| LOnMessage (topic payload : string)
| LOnMessageV5 (topic payload : string) (responseTopic correlation : option string)
| LOnLog (level : MosqLogLevel) (message : string).

Section callbacks.
Context {D : Type} `{CDouble D} `{Rapidjson D}.
Variable env : ClientEnv.
Variable plugins : list (ConverterPlugin D).
Variable musl : bool.

(** on_connect, on_disconnect, on_publish, on_message and onMessageV5 with their
    wrappers: each calls its method of the client. *)
Definition deliver (e : LibEvent) : MqttClient.comp (D := D) unit :=
  match e with
  | LOnConnect _ => MqttClient.onConnect env
  | LOnConnectWithFlags _ _ => MqttClient.ret tt
  | LOnDisconnect _ => MqttClient.onDisconnect env musl
  | LOnPublish _ => MqttClient.ret tt
  | LOnMessage topic payload => MqttClient.onMessage env plugins topic payload None ""
  | LOnMessageV5 topic payload responseTopic correlation =>
      MqttClient.onMessage env plugins topic payload responseTopic (default "" correlation)
  | LOnLog _ _ => MqttClient.ret tt
  end.

End callbacks.

(** * From the configuration to the protocol *)

Section protocol.
Context {N : Type} `{Yaml N}.
Context {D : Type} `{CDouble D} `{Rapidjson D}.
Variable ienv : InitEnv D.

Lemma runClient_Ret m (c c' : Client D) : runClient m c = Ret c' -> c' = (m c).1.
Proof. unfold runClient. destruct (m c) as [c1 [u|f]]; [|done]. by intros [= <-]. Qed.

(** The protocol version of the broker follows the RPC mode. *)
Lemma initBroker_protocol (config : N) g g' :
  cBroker (mMqtt g) = defaultBrokerConfig -> initBroker ienv config g = Ret g' ->
  mProtocolV5 (cBroker (mMqtt g')) = negb (bool_decide (cRpcMode (mMqtt g') = DISABLED)).
Proof.
  intros B E. unfold initBroker in E. bind_inv E. destruct (isDefined x); [|by apply configError_Ret in E].
  cbn [negb] in E. bind_inv E. apply obind_Ret in E as (c1 & S1 & E). apply runClient_Ret in S1.
  bind_inv E. bind_inv E. destruct (isDefined x2); [|by apply configError_Ret in E]. cbn [negb] in E.
  apply obind_Ret in E as (b & Eb & E). apply obind_Ret in E as (c2 & S2 & E). apply runClient_Ret in S2.
  injection E as <-.
  assert (Hb : mHost b <> "").
  { unfold parseBrokerConfig in Eb. apply obind_Ret in Eb as (host & Eh & Eb).
    apply readRequiredString_nonempty in Eh. bind_inv Eb. apply obind_Ret in Eb as ([useTls cafile] & _ & Eb).
    do 4 bind_inv Eb. by injection Eb as <-. }
  assert (Bc : cBroker c1 = defaultBrokerConfig).
  { subst c1. unfold MqttClient.setClientId, MqttClient.bind, MqttClient.gets, MqttClient.implCall.
    destruct (cStarted (mMqtt g)); [done|]. cbn. by destruct (envFails _ _). }
  subst c2. unfold MqttClient.setBrokerConfig, MqttClient.bind, MqttClient.gets. cbn [fst snd cBroker MqttClient.withRpcMode].
  rewrite Bc. replace (brokerIsSameAs _ _) with false; [done|]. symmetry. unfold brokerIsSameAs. cbn.
  by rewrite bool_decide_false by congruence.
Qed.

Variable rcOf : nat -> MosqErr.
Variable protoError : nat -> bool.
Variable strerror : nat -> string.

(** Requests can be answered: with RPC enabled in the configuration, the client
    connects with MQTT 5 and gets messages with their response topic; without it, it
    connects as before. *)
Theorem rpc_mode_protocol (config : N) g g' m :
  (forall n, rcOf n = MOSQ_ERR_SUCCESS /\ protoError n = false) ->
  cBroker (mMqtt g) = defaultBrokerConfig -> initBroker ienv config g = Ret g' -> mqCalls m = [] ->
  let m' := (connect rcOf protoError strerror (cBroker (mMqtt g')) m).1 in
  (cRpcMode (mMqtt g') <> DISABLED <-> LProtocolV5 ∈ mqCalls m')
  /\ (cRpcMode (mMqtt g') <> DISABLED <-> LMessageV5Callback ∈ mqCalls m')
  /\ (cRpcMode (mMqtt g') = DISABLED <-> LMessageCallback ∈ mqCalls m').
Proof.
  intros Acc B E Em. apply initBroker_protocol in E; [|done]. cbn zeta.
  rewrite connect_accepted by done. cbn [fst mqCalls]. rewrite Em. unfold connectCalls. rewrite E.
  case_bool_decide as Rm; cbn [negb]; repeat case_bool_decide; destruct (mTLS _); set_solver.
Qed.

End protocol.

(** The code of a connection that the broker refused is not looked at: the client
    counts as connected. *)
Theorem refused_connection_counts :
  cConnection (deliver (D := Z) ClientScenario.env [] false (LOnConnect 5)
    (MqttClient.withConnection CONNECTING ClientScenario.client)).1 = CONNECTED.
Proof. reflexivity. Qed.

(** A message that could not be sent because the connection is gone is taken for
    sent. *)
Theorem publish_without_connection :
  (publish (fun _ => MOSQ_ERR_NO_CONN) (fun _ => ""%string) "dev/state" (Some "1"%string) true
     (mkMosquitto true false [])).2 = Ret tt.
Proof. reflexivity. Qed.
