(* ===== verification/Process.v ===== *)
(** The process around the server: modmqttd/main.cpp with the command line parser
    argh/argh.h, the items of the queues between the threads (queue_item.hpp), and
    debugtools.cpp. *)

From stdpp Require Import base sets list strings.
From Stdlib Require Import ZArith Lia Ascii String.
From S2P Require Import Prelude ModbusTypes Commands ConvTools ModbusThread Logging.

#[local] Open Scope string_scope.
#[local] Open Scope Z_scope.

(** * argh.h *)

Module Argh.

(** The bits of the parsing mode. *)
Record Mode : Type := mkMode {
  preferParamForUnregOption : bool;
  noSplitOnEqualsign : bool;
  singleDashIsMultiflag : bool
}.

(** class parser: std::multimap and std::multiset keep their elements in order, and
    equal keys in the order of insertion. *)
Record parser : Type := mkParser {
  params_ : list (string * string);
  pos_args_ : list string;
  flags_ : list string
}.

Fixpoint insertFlag (f : string) (l : list string) : list string :=
  match l with
  | [] => [f]
  | g :: l' => if String.ltb f g then f :: l else g :: insertFlag f l'
  end.
Fixpoint insertParam (k v : string) (l : list (string * string)) : list (string * string) :=
  match l with
  | [] => [(k, v)]
  | (k', v') :: l' => if String.ltb k k' then (k, v) :: l else (k', v') :: insertParam k v l'
  end.

Definition addFlag (f : string) (p : parser) : parser := mkParser (params_ p) (pos_args_ p) (insertFlag f (flags_ p)).
Definition addParam (k v : string) (p : parser) : parser :=
  mkParser (insertParam k v (params_ p)) (pos_args_ p) (flags_ p).
Definition addPos (a : string) (p : parser) : parser := mkParser (params_ p) (pos_args_ p ++ [a])%list (flags_ p).

Definition dash : ascii := "-".

(** trim_leading_dashes: a name of dashes only is kept. *)
Fixpoint dropDashes (s : string) : string :=
  match s with String c s' => if bool_decide (c = dash) then dropDashes s' else s | EmptyString => EmptyString end.
Definition trim_leading_dashes (name : string) : string :=
  let s := dropDashes name in if bool_decide (s = "") then name else s.

(** The name before and the value after the first equals sign. *)
Definition splitEquals (name : string) : option (string * string) :=
  match String.index 0 "=" name with
  | Some i => Some (String.substring 0 i name, String.substring (S i) (String.length name) name)
  | None => None
  end.

(** The last character of a name, and what is before it. *)
Definition lastChar (name : string) : option (string * ascii) :=
  let n := (String.length name - 1)%nat in
  match String.get n name with
  | Some c => Some (String.substring 0 n name, c)
  | None => None
  end.

Section parse.
(** Whether a double can be read from the start of a text. *)
Variable is_number : string -> bool.
Variable mode : Mode.
Variable registeredParams_ : list string.

(** is_option; an empty argument fails the assertion. *)
Definition is_option (arg : string) : outcome bool :=
  match arg with
  | EmptyString => Fault AssertionFailed
  | String c _ => Ret (negb (is_number arg) && bool_decide (c = dash))
  end.

Definition is_param (name : string) : bool := bool_decide (name ∈ registeredParams_).

(** A single dash in multi-flag mode: every character is a flag, but the last one when
    it is a registered parameter, which is then the name to go on with. *)
Definition multiFlags (name : string) (p : parser) : option string * parser :=
  let '(flags, keep) :=
    match lastChar name with
    | Some (init, c) => if is_param (String c EmptyString) then (init, Some (String c EmptyString)) else (name, None)
    | None => (name, None)
    end in
  (keep, foldl (fun p c => addFlag (String c EmptyString) p) p (String.list_ascii_of_string flags)).

(** An option with the arguments after it: the new state, and whether the next
    argument was its value. *)
Definition optionStep (arg : string) (rest : list string) (p : parser) : outcome (parser * bool) :=
  let name := trim_leading_dashes arg in
  match (if noSplitOnEqualsign mode then None else splitEquals name) with
  | Some (k, v) => Ret (addParam k v p, false)
  | None =>
      let single := Nat.eqb (String.length arg - String.length name) 1 in
      let '(name, p) :=
        if single && singleDashIsMultiflag mode && negb (is_param name) then multiFlags name p else (Some name, p) in
      match name with
      | None => Ret (p, false)
      | Some name =>
          match rest with
          | [] => Ret (addFlag name p, false)
          | next :: _ =>
              let! o := is_option next in
              if o then Ret (addFlag name p, false)
              else if is_param name || preferParamForUnregOption mode then Ret (addParam name next p, true)
              else Ret (addFlag name p, false)
          end
      end
  end.

(** parse *)
Fixpoint parseArgs (args : list string) (p : parser) : outcome parser :=
  match args with
  | [] => Ret p
  | arg :: rest =>
      let! o := is_option arg in
      if negb o then parseArgs rest (addPos arg p)
      else
        let! (p', taken) := optionStep arg rest p in
        if taken then match rest with [] => Ret p' | _ :: rest' => parseArgs rest' p' end
        else parseArgs rest p'
  end.

Definition parse (args : list string) : outcome parser := parseArgs args (mkParser [] [] []).

End parse.

End Argh.

(** * main.cpp *)

Inductive MainResult : Type :=
| PrintHelp
| PrintVersion
| UnknownFlag (flag : string)
| BadLogLevel
| RunServer (logLevel : Z) (configPath : string).

(** EXIT_SUCCESS is 0, EXIT_FAILURE 1; for a server that runs, how init and start
    ended. *)
Definition exitCode (r : MainResult) (server : outcome unit) : Z :=
  match r with
  | PrintHelp | PrintVersion => 0
  | UnknownFlag _ | BadLogLevel => 1
  | RunServer _ _ => match server with Ret _ => 0 | Fault _ => 1 end
  end.

(** The loop over the parameters. *)
Fixpoint readParams (params : list (string * string)) (logLevel : Z) (configPath : string) : MainResult :=
  match params with
  | [] => RunServer logLevel configPath
  | (k, v) :: l =>
      if bool_decide (k = "config") || bool_decide (k = "c") then readParams l logLevel v
      else if bool_decide (k = "loglevel") || bool_decide (k = "l") then
        match Log.parse_severity v with
        | Ret s => readParams l (Log.severity_int s) configPath
        | Fault _ => BadLogLevel
        end
      else readParams l logLevel configPath
  end.

(** The loop over the flags returns at the first one. *)
Definition readFlags (flags : list string) : option MainResult :=
  match flags with
  | [] => None
  | f :: _ => Some (if bool_decide (f = "help") then PrintHelp
                    else if bool_decide (f = "version") || bool_decide (f = "v") then PrintVersion
                    else UnknownFlag f)
  end.

(** main, up to the server; add_params comes after the parser has parsed. *)
Definition main (is_number : string -> bool) (argv : list string) : outcome MainResult :=
  let! cmdl := Argh.parse is_number (Argh.mkMode true false false) [] argv in
  Ret (default (readParams (Argh.params_ cmdl) (-1) "") (readFlags (Argh.flags_ cmdl))).

(** ModMqtt::init(int, const std::string&): the level to log with, the file to load,
    and whether the configuration may change the level. *)
Definition initLogging (logLevelNum : Z) (configPath : string) : option Log.severity * string * bool :=
  (if logLevelNum =? -1 then Some Log.info else Log.severity_of logLevelNum,
   if bool_decide (configPath = "") then "./config.yaml" else configPath,
   logLevelNum =? -1).

(** * queue_item.hpp *)

Section queue_item.
(** The messages, their types, and type_info::hash_code. *)
Context {P T : Type} `{EqDecision T}.
Variable typeOf : P -> T.
Variable hash_code : T -> Z.

(** class QueueItem; a null pointer is None. *)
Record QueueItem : Type := mkItem { mTypeHash : Z; mItem : option P }.

Definition emptyItem : QueueItem := mkItem 0 None.
Definition createItem (data : P) : QueueItem := mkItem (hash_code (typeOf data)) (Some data).
Definition isSameAs (t : T) (i : QueueItem) : bool := hash_code t =? mTypeHash i.

(** getData: the cast of a pointer to another type is undefined. *)
Definition getData (t : T) (i : QueueItem) : outcome (P * QueueItem) :=
  match mItem i with
  | None => Fault (StdException "Tried to get data from queue item twice")
  | Some data =>
      if negb (isSameAs t i) then Fault (StdException "Trying to get data from wrong item")
      else if bool_decide (typeOf data = t) then Ret (data, mkItem (mTypeHash i) None)
      else Fault UndefinedBehaviour
  end.

(** What was put into an item comes out once, and only as what it is, when the types
    have different hash codes. *)
Theorem queue_item_roundtrip data t :
  (forall t1 t2, hash_code t1 = hash_code t2 -> t1 = t2) ->
  (isSameAs t (createItem data) = true <-> t = typeOf data)
  /\ exists i', getData (typeOf data) (createItem data) = Ret (data, i')
       /\ is_ret (getData (typeOf data) i') = false
       /\ (t <> typeOf data -> is_ret (getData t (createItem data)) = false).
Proof.
  intros Inj. unfold isSameAs, createItem, getData. cbn [mTypeHash mItem]. split.
  - rewrite Z.eqb_eq. split; [apply Inj|]. by intros ->.
  - exists (mkItem (hash_code (typeOf data)) None). unfold isSameAs. cbn [mTypeHash].
    rewrite Z.eqb_refl. cbn [negb]. rewrite bool_decide_true by done. split; [done|]. split; [done|].
    intros Ne. destruct (Z.eqb_spec (hash_code t) (hash_code (typeOf data))) as [E|]; [|done].
    by apply Inj in E.
Qed.

End queue_item.

(** * debugtools.cpp *)

Module DebugTools.

Definition hexDigit (d : Z) : ascii := ascii_of_N (Z.to_N (if d <? 10 then 48 + d else 87 + d)).

(** A uint16_t with std::hex: lower case, without leading zeros. *)
Fixpoint hexDigits (fuel : nat) (v : Z) (acc : string) : string :=
  match fuel with
  | O => acc
  | S fuel' =>
      let acc := String (hexDigit (v mod 16)) acc in
      if v / 16 =? 0 then acc else hexDigits fuel' (v / 16) acc
  end.
Definition toHex (v : Z) : string := hexDigits 4 v "".

Definition maxVals : Z := 10.

Fixpoint printRegisters (total : Z) (data : list Z) (counter : Z) (ret : string) : string :=
  match data with
  | [] => ret
  | val :: l =>
      let ret := ret +:+ "[" +:+ toHex val +:+ "]" in
      if counter - 1 =? 0 then ret +:+ " (… and " +:+ Numbers.to_string (total - maxVals) +:+ " more)"
      else printRegisters total l (counter - 1) ret
  end.

(** DebugTools::registersToStr *)
Definition registersToStr (data : list Z) : string :=
  printRegisters (Z.of_nat (List.length data)) data maxVals "".

Example registers_few : registersToStr [1; 0xabcd; 0] = "[1][abcd][0]".
Proof. reflexivity. Qed.

(** Ten registers are all printed, and then followed by a note that none is left. *)
Theorem registers_ten : registersToStr (repeat 7 10) = "[7][7][7][7][7][7][7][7][7][7] (… and 0 more)".
Proof. reflexivity. Qed.

End DebugTools.

(** * The command line *)

Section command_line.
Variable is_number : string -> bool.

(** A text that is the value of an option before it. *)
Definition isValue (v : string) : Prop := Argh.is_option is_number v = Ret false.
Hypothesis options_not_numbers :
  is_number "-c" = false /\ is_number "-l" = false /\ is_number "--config" = false /\ is_number "--loglevel" = false.

Lemma optionStep_value name v rest p :
  Argh.splitEquals (Argh.trim_leading_dashes name) = None -> isValue v ->
  Argh.optionStep is_number (Argh.mkMode true false false) [] name (v :: rest) p
  = Ret (Argh.addParam (Argh.trim_leading_dashes name) v p, true).
Proof.
  intros S V. unfold Argh.optionStep. cbn [Argh.noSplitOnEqualsign Argh.singleDashIsMultiflag]. rewrite S.
  rewrite andb_false_r. cbn [andb]. rewrite V. cbn [obind]. by rewrite orb_true_r.
Qed.

(** The two parameters, whatever their order. *)
Lemma readParams_config k v l level path :
  k = "c" \/ k = "config" -> readParams ((k, v) :: l) level path = readParams l level v.
Proof. intros [-> | ->]; reflexivity. Qed.

Lemma readParams_level k v l level path s :
  k = "l" \/ k = "loglevel" -> Log.parse_severity v = Ret s ->
  readParams ((k, v) :: l) level path = readParams l (Log.severity_int s) path.
Proof. intros Hk P. cbn [readParams]. rewrite P. by destruct Hk as [-> | ->]. Qed.

Lemma parse_two prog o1 v1 o2 v2 :
  isValue prog -> isValue v1 -> isValue v2 ->
  (forall o, o = o1 \/ o = o2 -> Argh.is_option is_number o = Ret true
     /\ Argh.splitEquals (Argh.trim_leading_dashes o) = None) ->
  Argh.parse is_number (Argh.mkMode true false false) [] [prog; o1; v1; o2; v2]
  = Ret (Argh.mkParser (Argh.insertParam (Argh.trim_leading_dashes o2) v2 [(Argh.trim_leading_dashes o1, v1)])
           [prog] []).
Proof.
  intros Vp V1 V2 O. destruct (O o1) as [O1 S1]; [by left|]. destruct (O o2) as [O2 S2]; [by right|].
  unfold Argh.parse. cbn [Argh.parseArgs]. rewrite Vp. cbn [obind negb]. rewrite O1. cbn [obind negb].
  rewrite optionStep_value by done. cbn [obind]. rewrite O2. cbn [obind negb]. by rewrite optionStep_value.
Qed.

(** The documented options give the server the file and the level, in either spelling
    and order; the configuration does not change the level then. *)
Theorem command_line prog path val s c l :
  isValue prog -> isValue path -> isValue val -> Log.parse_severity val = Ret s ->
  c ∈ ["-c"; "--config"] -> l ∈ ["-l"; "--loglevel"] ->
  main is_number [prog; c; path; l; val] = Ret (RunServer (Log.severity_int s) path)
  /\ main is_number [prog; l; val; c; path] = Ret (RunServer (Log.severity_int s) path).
Proof.
  intros Vp Vc Vl P Hc Hl. destruct options_not_numbers as (N1 & N2 & N3 & N4).
  assert (O : forall x, x = c \/ x = l ->
    Argh.is_option is_number x = Ret true /\ Argh.splitEquals (Argh.trim_leading_dashes x) = None).
  { intros x Hx. assert (x ∈ ["-c"; "--config"; "-l"; "--loglevel"]) as Hx' by set_solver.
    unfold Argh.is_option. repeat (apply elem_of_cons in Hx' as [->|Hx']; [rewrite ?N1, ?N2, ?N3, ?N4; by split|]).
    by apply elem_of_nil in Hx'. }
  assert (Kc : Argh.trim_leading_dashes c = "c" \/ Argh.trim_leading_dashes c = "config")
    by (apply elem_of_cons in Hc as [->|Hc]; [by left|]; apply list_elem_of_singleton in Hc as ->; by right).
  assert (Kl : Argh.trim_leading_dashes l = "l" \/ Argh.trim_leading_dashes l = "loglevel")
    by (apply elem_of_cons in Hl as [->|Hl]; [by left|]; apply list_elem_of_singleton in Hl as ->; by right).
  unfold main. rewrite !parse_two by naive_solver. cbn [obind Argh.params_ Argh.flags_ Argh.insertParam readFlags default].
  split; destruct (String.ltb _ _);
    rewrite ?(readParams_config _ _ _ _ _ Kc), ?(readParams_level _ _ _ _ _ _ Kl P), ?(readParams_config _ _ _ _ _ Kc);
    done.
Qed.

End command_line.

Lemma command_line_witness :
  main (fun _ => false) ["modmqttd"; "--config"; "/etc/modmqttd.yaml"; "-l"; "debug"]
  = Ret (RunServer 5 "/etc/modmqttd.yaml").
Proof.
  apply (command_line (fun _ => false)) with (s := Log.debug); try done; set_solver.
Defined.
