(* ===== verification/SpscQueue.v ===== *)
(** The queue between two threads: moodycamel::ReaderWriterQueue of
    readerwriterqueue.h, for one producer and one consumer.

    The queue is a circular list of blocks, each a circular buffer.  The blocks live
    in a heap, so that both threads see what the other writes.  An operation is a
    program counter with the local variables of the method; a step of it makes at
    most one access to a variable that the other thread writes or reads, together
    with accesses to what the thread keeps for itself (its shadow copies, and
    variables that nobody else writes).  Steps of the two threads interleave in any
    order.  The slots of a block hold a constructed element or raw memory; reading or
    destroying raw memory, and constructing over an element, is undefined behaviour
    here. *)

From S2P Require Import Prelude.
From stdpp Require Import gmap list strings.

#[local] Open Scope Z_scope.

(** The template argument the gateway leaves at its default. *)
Definition MAX_BLOCK_SIZE : Z := 512.

Inductive AllocationMode : Set := CanAlloc | CannotAlloc.

#[export] Instance AllocationMode_eq_dec : EqDecision AllocationMode.
Proof. solve_decision. Defined.

(** The round-up to a power of two on 64 bit words. *)
Definition orShift (x n : Z) : Z := Z.lor x (Z.shiftr x n).

Definition ceilToPow2 (x : Z) : Z :=
  let x := to_u64 (x - 1) in
  let x := orShift x 1 in
  let x := orShift x 2 in
  let x := orShift x 4 in
  let x := foldl (fun x i => orShift x (Z.shiftl i 3)) x [1; 2; 4] in
  to_u64 (x + 1).

(** align_for: the first multiple of [alignment] at or after [ptr]. *)
Definition align_for (alignment ptr : Z) : Z :=
  ptr + (alignment - ptr mod alignment) mod alignment.

(** What make_block asks malloc for, and where it puts the block and its data in the
    memory it gets at [raw]. *)
Record Layout := mkLayout {
  sizeofBlock : Z;
  alignofBlock : Z;
  sizeofT : Z;
  alignofT : Z
}.

Definition blockBytes (l : Layout) (capacity : Z) : Z :=
  sizeofBlock l + alignofBlock l - 1 + (sizeofT l * capacity + alignofT l - 1).
Definition newBlockAligned (l : Layout) (raw : Z) : Z := align_for (alignofBlock l) raw.
Definition newBlockData (l : Layout) (raw : Z) : Z :=
  align_for (alignofT l) (newBlockAligned l raw + sizeofBlock l).

Section queue.
Context {T : Type}.

(** * Blocks *)

Record Block := mkBlock {
  blkFront : Z;
  blkLocalTail : Z;
  blkTail : Z;
  blkLocalFront : Z;
  blkNext : option nat;
  blkData : list (option T);
  blkSizeMask : Z
}.

Definition withFront v (b : Block) : Block :=
  mkBlock v (blkLocalTail b) (blkTail b) (blkLocalFront b) (blkNext b) (blkData b) (blkSizeMask b).
Definition withLocalTail v (b : Block) : Block :=
  mkBlock (blkFront b) v (blkTail b) (blkLocalFront b) (blkNext b) (blkData b) (blkSizeMask b).
Definition withTail v (b : Block) : Block :=
  mkBlock (blkFront b) (blkLocalTail b) v (blkLocalFront b) (blkNext b) (blkData b) (blkSizeMask b).
Definition withLocalFront v (b : Block) : Block :=
  mkBlock (blkFront b) (blkLocalTail b) (blkTail b) v (blkNext b) (blkData b) (blkSizeMask b).
Definition withNext v (b : Block) : Block :=
  mkBlock (blkFront b) (blkLocalTail b) (blkTail b) (blkLocalFront b) v (blkData b) (blkSizeMask b).
Definition withData v (b : Block) : Block :=
  mkBlock (blkFront b) (blkLocalTail b) (blkTail b) (blkLocalFront b) (blkNext b) v (blkSizeMask b).

(** make_block, when malloc returns memory. *)
Definition make_block (capacity : Z) : Block :=
  mkBlock 0 0 0 0 None (replicate (Z.to_nat capacity) None) (capacity - 1).

(** * The queue *)

Record Queue := mkQueue {
  qHeap : gmap nat Block;
  frontBlock : nat;
  tailBlock : nat;
  largestBlockSize : Z;
  enqueuing : bool;
  dequeuing : bool
}.

Definition withHeap v (q : Queue) : Queue :=
  mkQueue v (frontBlock q) (tailBlock q) (largestBlockSize q) (enqueuing q) (dequeuing q).
Definition withFrontBlock v (q : Queue) : Queue :=
  mkQueue (qHeap q) v (tailBlock q) (largestBlockSize q) (enqueuing q) (dequeuing q).
Definition withTailBlock v (q : Queue) : Queue :=
  mkQueue (qHeap q) (frontBlock q) v (largestBlockSize q) (enqueuing q) (dequeuing q).
Definition withLargest v (q : Queue) : Queue :=
  mkQueue (qHeap q) (frontBlock q) (tailBlock q) v (enqueuing q) (dequeuing q).
Definition withEnqueuing v (q : Queue) : Queue :=
  mkQueue (qHeap q) (frontBlock q) (tailBlock q) (largestBlockSize q) v (dequeuing q).
Definition withDequeuing v (q : Queue) : Queue :=
  mkQueue (qHeap q) (frontBlock q) (tailBlock q) (largestBlockSize q) (enqueuing q) v.

Definition changeBlock (b : nat) (f : Block -> Block) (q : Queue) : Queue :=
  withHeap (alter f b (qHeap q)) q.

(** A pointer is dereferenced. *)
Definition blockAt (q : Queue) (b : nat) : outcome Block :=
  match qHeap q !! b with
  | Some blk => Ret blk
  | None => Fault UndefinedBehaviour
  end.

Definition nextOf (blk : Block) : outcome nat :=
  match blkNext blk with
  | Some b => Ret b
  | None => Fault NullDereferenced
  end.

(** The index after [i] in a block. *)
Definition nextIndex (blk : Block) (i : Z) : Z := Z.land (to_u64 (i + 1)) (blkSizeMask blk).

(** new (location) T(...) *)
Definition construct (b : nat) (i : Z) (x : T) (q : Queue) : outcome Queue :=
  let! blk := blockAt q b in
  match blkData blk !! Z.to_nat i with
  | Some None => Ret (changeBlock b (withData (<[Z.to_nat i := Some x]> (blkData blk))) q)
  | _ => Fault UndefinedBehaviour
  end.

(** result = std::move( *element); element->~T() *)
Definition takeElement (b : nat) (i : Z) (q : Queue) : outcome (T * Queue) :=
  let! blk := blockAt q b in
  match blkData blk !! Z.to_nat i with
  | Some (Some x) => Ret (x, changeBlock b (withData (<[Z.to_nat i := None]> (blkData blk))) q)
  | _ => Fault UndefinedBehaviour
  end.

(** * The producer: inner_enqueue *)

Inductive ProducerPc :=
| PIdle
| PStart (mode : AllocationMode) (x : T)
| PLoadFront (mode : AllocationMode) (x : T) (tb : nat) (bt : Z)  (** localFront = front.load() *)
| PConstruct (x : T) (tb : nat) (bt : Z)        (** there is room in the tail block *)
| PStoreTail (x : T) (tb : nat) (nt : Z)
| PLoadFrontBlock (mode : AllocationMode) (x : T) (tb : nat)
| PNextFront (x : T) (tb : nat)                 (** a free block ahead: look at it *)
| PConstructNext (x : T) (nb : nat) (nt : Z)
| PStoreTailNext (x : T) (nb : nat) (nt : Z)
| PAlloc (x : T) (tb : nat)                     (** no free block: make one *)
| PLink (x : T) (tb nb : nat)                   (** tailBlock_->next = newBlock *)
| PStoreTailBlock (x : T) (nb : nat)
| PDone (r : bool).

(** [alloc] is the address malloc returns, if the step calls it. *)
Definition producerStep (alloc : option nat) (p : ProducerPc) (q : Queue) : outcome (ProducerPc * Queue) :=
  match p with
  | PIdle | PDone _ => Ret (p, q)
  | PStart mode x =>
      if enqueuing q then Fault AssertionFailed else
      let q := withEnqueuing true q in
      let tb := tailBlock q in
      let! blk := blockAt q tb in
      let nextBlockTail := nextIndex blk (blkTail blk) in
      if nextBlockTail =? blkLocalFront blk then Ret (PLoadFront mode x tb (blkTail blk), q)
      else Ret (PConstruct x tb (blkTail blk), q)
  | PLoadFront mode x tb bt =>
      let! blk := blockAt q tb in
      let q' := changeBlock tb (withLocalFront (blkFront blk)) q in
      if nextIndex blk bt =? blkFront blk then Ret (PLoadFrontBlock mode x tb, q')
      else Ret (PConstruct x tb bt, q')
  | PConstruct x tb bt =>
      let! blk := blockAt q tb in
      let! q' := construct tb bt x q in
      Ret (PStoreTail x tb (nextIndex blk bt), q')
  | PStoreTail x tb nt => Ret (PDone true, changeBlock tb (withTail nt) q)
  | PLoadFrontBlock mode x tb =>
      let! blk := blockAt q tb in
      let! nb := nextOf blk in
      if bool_decide (nb = frontBlock q)
      then match mode with
           | CanAlloc => Ret (PAlloc x tb, q)
           | CannotAlloc => Ret (PDone false, q)
           end
      else Ret (PNextFront x tb, q)
  | PNextFront x tb =>
      let! blk := blockAt q tb in
      let! nb := nextOf blk in
      let! nblk := blockAt q nb in
      let nextBlockFront := blkFront nblk in
      let nextBlockTail := blkTail nblk in
      if nextBlockFront =? nextBlockTail
      then Ret (PConstructNext x nb nextBlockTail, changeBlock nb (withLocalFront nextBlockFront) q)
      else Fault AssertionFailed
  | PConstructNext x nb nt =>
      let! blk := blockAt q nb in
      let! q' := construct nb nt x q in
      Ret (PStoreTailNext x nb (nextIndex blk nt), q')
  | PStoreTailNext x nb nt => Ret (PStoreTailBlock x nb, changeBlock nb (withTail nt) q)
  | PAlloc x tb =>
      let newBlockSize :=
        if MAX_BLOCK_SIZE <=? largestBlockSize q then largestBlockSize q else to_u64 (largestBlockSize q * 2) in
      match alloc with
      | None => Ret (PDone false, q)
      | Some nb =>
          let q := withLargest newBlockSize (withHeap (<[nb := make_block newBlockSize]> (qHeap q)) q) in
          let! q := construct nb 0 x q in
          let! nblk := blockAt q nb in
          if blkFront nblk =? 0
          then
            let! blk := blockAt q tb in
            Ret (PLink x tb nb,
                 changeBlock nb (fun b => withNext (blkNext blk) (withTail 1 (withLocalTail 1 b))) q)
          else Fault AssertionFailed
      end
  | PLink x tb nb => Ret (PStoreTailBlock x nb, changeBlock tb (withNext (Some nb)) q)
  | PStoreTailBlock x nb => Ret (PDone true, withTailBlock nb q)
  end.

(** * The consumer: try_dequeue, pop, peek *)

Inductive ConsumerOp : Set := OpDequeue | OpPop | OpPeek.

(** What the methods return; peek returns a pointer. *)
Inductive ConsumerResult :=
| RDequeue (r : option T)
| RPop (r : bool)
| RPeek (p : option (nat * Z)).

Inductive ConsumerPc :=
| CIdle
| CStart (op : ConsumerOp)
| CLoadTail (op : ConsumerOp) (fb : nat) (bf : Z)  (** localTail = tail.load() *)
| CTake (op : ConsumerOp) (fb : nat) (bf : Z)      (** the block is not empty: take its front element *)
| CLoadTailBlock (op : ConsumerOp) (fb : nat)      (** frontBlock_ != tailBlock.load() *)
| CReload (op : ConsumerOp)                        (** the tail of the front block, again *)
| CNext (op : ConsumerOp) (fb : nat)               (** nextBlock = frontBlock_->next *)
| CNextTail (op : ConsumerOp) (nb : nat) (nf : Z)  (** nextBlock->tail.load(), and the assertion *)
| CStoreFrontBlock (op : ConsumerOp) (nb : nat) (nf : Z)
| CStoreFront (fb : nat) (nf : Z) (r : ConsumerResult)
| CDone (r : ConsumerResult).

Definition emptyResult (op : ConsumerOp) : ConsumerResult :=
  match op with
  | OpDequeue => RDequeue None
  | OpPop => RPop false
  | OpPeek => RPeek None
  end.

Definition takenResult (op : ConsumerOp) (x : T) : ConsumerResult :=
  match op with
  | OpDequeue => RDequeue (Some x)
  | _ => RPop true
  end.

(** non_empty_front_block *)
Definition nonEmpty (op : ConsumerOp) (fb : nat) (bf : Z) : ConsumerPc :=
  match op with
  | OpPeek => CDone (RPeek (Some (fb, bf)))
  | _ => CTake op fb bf
  end.

Definition consumerStep (c : ConsumerPc) (q : Queue) : outcome (ConsumerPc * Queue) :=
  match c with
  | CIdle | CDone _ => Ret (c, q)
  | CStart op =>
      if dequeuing q then Fault AssertionFailed else
      let q := withDequeuing true q in
      let fb := frontBlock q in
      let! blk := blockAt q fb in
      if blkFront blk =? blkLocalTail blk then Ret (CLoadTail op fb (blkFront blk), q)
      else Ret (nonEmpty op fb (blkFront blk), q)
  | CLoadTail op fb bf =>
      let! blk := blockAt q fb in
      let q' := changeBlock fb (withLocalTail (blkTail blk)) q in
      if bf =? blkTail blk then Ret (CLoadTailBlock op fb, q')
      else Ret (nonEmpty op fb bf, q')
  | CLoadTailBlock op fb =>
      if bool_decide (fb = tailBlock q) then Ret (CDone (emptyResult op), q)
      else Ret (CReload op, q)
  | CReload op =>
      let fb := frontBlock q in
      let! blk := blockAt q fb in
      let q' := changeBlock fb (withLocalTail (blkTail blk)) q in
      if blkFront blk =? blkTail blk then Ret (CNext op fb, q')
      else Ret (nonEmpty op fb (blkFront blk), q')
  | CNext op fb =>
      let! blk := blockAt q fb in
      let! nb := nextOf blk in
      let! nblk := blockAt q nb in
      Ret (CNextTail op nb (blkFront nblk), q)
  | CNextTail op nb nf =>
      let! nblk := blockAt q nb in
      if nf =? blkTail nblk then Fault AssertionFailed
      else match op with
           | OpPeek => Ret (CDone (RPeek (Some (nb, nf))), q)
           | _ => Ret (CStoreFrontBlock op nb nf, changeBlock nb (withLocalTail (blkTail nblk)) q)
           end
  | CStoreFrontBlock op nb nf => Ret (CTake op nb nf, withFrontBlock nb q)
  | CTake op fb bf =>
      let! blk := blockAt q fb in
      let! (x, q') := takeElement fb bf q in
      Ret (CStoreFront fb (nextIndex blk bf) (takenResult op x), q')
  | CStoreFront fb nf r => Ret (CDone r, changeBlock fb (withFront nf) q)
  end.
(** * Construction and destruction, which one thread does alone *)

(** The loop of the constructor that makes several blocks.  [allocs] are the results
    of malloc. *)
Fixpoint makeBlocks (n : nat) (size : Z) (allocs : list (option nat)) (heap : gmap nat Block)
  (firstBlock lastBlock : option nat) : outcome (gmap nat Block * option nat) :=
  match n with
  | O => Ret (heap, firstBlock)
  | S n' =>
      match allocs with
      | Some block :: allocs' =>
          let heap := <[block := make_block size]> heap in
          let (first, heap) :=
            match firstBlock, lastBlock with
            | Some f, Some l => (f, alter (withNext (Some block)) l heap)
            | _, _ => (block, heap)
            end in
          makeBlocks n' size allocs' (alter (withNext (Some first)) block heap) (Some first) (Some block)
      | _ => Fault (StdException "bad_alloc"%string)
      end
  end.

(** ReaderWriterQueue(size) *)
Definition newQueue (size : Z) (allocs : list (option nat)) : outcome Queue :=
  let largest := ceilToPow2 (to_u64 (size + 1)) in
  let several := MAX_BLOCK_SIZE * 2 <? largest in
  let initialBlockCount := if several then to_u64 (size + MAX_BLOCK_SIZE * 2 - 3) / (MAX_BLOCK_SIZE - 1) else 1 in
  let largest := if several then MAX_BLOCK_SIZE else largest in
  let! (heap, firstBlock) := makeBlocks (Z.to_nat initialBlockCount) largest allocs ∅ None None in
  match firstBlock with
  | Some b => Ret (mkQueue heap b b largest false false)
  | None => Fault NullDereferenced
  end.

(** The inner loop of the destructor. *)
Fixpoint destroyElements (fuel : nat) (b : nat) (i blockTail : Z) (q : Queue) : outcome Queue :=
  if i =? blockTail then Ret q
  else match fuel with
       | O => Fault Diverges
       | S fuel' =>
           let! blk := blockAt q b in
           let! (_, q') := takeElement b i q in
           destroyElements fuel' b (nextIndex blk i) blockTail q'
       end.

(** ~ReaderWriterQueue: the blocks that are left are a leak. *)
Fixpoint destroyBlocks (fuel : nat) (frontBlock_ block : nat) (q : Queue) : outcome Queue :=
  match fuel with
  | O => Fault Diverges
  | S fuel' =>
      let! blk := blockAt q block in
      let! nextBlock := nextOf blk in
      let! q' := destroyElements (length (blkData blk)) block (blkFront blk) (blkTail blk) q in
      let q'' := withHeap (delete block (qHeap q')) q' in
      if bool_decide (nextBlock = frontBlock_) then Ret q'' else destroyBlocks fuel' frontBlock_ nextBlock q''
  end.

Definition destroyQueue (fuel : nat) (q : Queue) : outcome Queue :=
  destroyBlocks fuel (frontBlock q) (frontBlock q) q.

(** size_approx and max_capacity *)
Fixpoint sumBlocks (fuel : nat) (f : Block -> Z) (frontBlock_ block : nat) (result : Z) (q : Queue) : outcome Z :=
  match fuel with
  | O => Fault Diverges
  | S fuel' =>
      let! blk := blockAt q block in
      let result := to_u64 (result + f blk) in
      let! nextBlock := nextOf blk in
      if bool_decide (nextBlock = frontBlock_) then Ret result
      else sumBlocks fuel' f frontBlock_ nextBlock result q
  end.

Definition blockCount (blk : Block) : Z := Z.land (to_u64 (blkTail blk - blkFront blk)) (blkSizeMask blk).

Definition size_approx (fuel : nat) (q : Queue) : outcome Z :=
  sumBlocks fuel blockCount (frontBlock q) (frontBlock q) 0 q.

Definition max_capacity (fuel : nat) (q : Queue) : outcome Z :=
  sumBlocks fuel blkSizeMask (frontBlock q) (frontBlock q) 0 q.

(** The move constructor: the new queue, with the blocks of [other], and [other], which
    gets a block of its own. *)
Definition moveQueue (alloc : option nat) (other : Queue) : outcome (Queue * Queue) :=
  match alloc with
  | None => Fault (StdException "bad_alloc"%string)
  | Some b =>
      Ret (mkQueue (qHeap other) (frontBlock other) (tailBlock other) (largestBlockSize other) false false,
           mkQueue {[b := withNext (Some b) (make_block 32)]} b b 32 (enqueuing other) (dequeuing other))
  end.

(** Operations without interference: the steps of one call in a row. *)
Fixpoint runProducer (fuel : nat) (alloc : option nat) (p : ProducerPc) (q : Queue) : outcome (bool * Queue) :=
  match p, fuel with
  | PDone r, _ => Ret (r, withEnqueuing false q)
  | _, O => Fault Diverges
  | _, S fuel' =>
      let! (p', q') := producerStep alloc p q in
      runProducer fuel' alloc p' q'
  end.

Fixpoint runConsumer (fuel : nat) (c : ConsumerPc) (q : Queue) : outcome (ConsumerResult * Queue) :=
  match c, fuel with
  | CDone r, _ => Ret (r, withDequeuing false q)
  | _, O => Fault Diverges
  | _, S fuel' =>
      let! (c', q') := consumerStep c q in
      runConsumer fuel' c' q'
  end.

(** No method makes more steps than this ([producer_wait_free], [consumer_wait_free]). *)
Definition opSteps : nat := 9.

Definition inner_enqueue (mode : AllocationMode) (alloc : option nat) (x : T) (q : Queue) : outcome (bool * Queue) :=
  runProducer opSteps alloc (PStart mode x) q.
Definition enqueue : option nat -> T -> Queue -> outcome (bool * Queue) := inner_enqueue CanAlloc.
Definition try_enqueue : T -> Queue -> outcome (bool * Queue) := inner_enqueue CannotAlloc None.
Definition consume (op : ConsumerOp) (q : Queue) : outcome (ConsumerResult * Queue) :=
  runConsumer opSteps (CStart op) q.
Definition try_dequeue (q : Queue) : outcome (ConsumerResult * Queue) := consume OpDequeue q.
Definition pop (q : Queue) : outcome (ConsumerResult * Queue) := consume OpPop q.
Definition peek (q : Queue) : outcome (ConsumerResult * Queue) := consume OpPeek q.

(** * Two threads *)

(** What a caller sees of a result: for peek, the element its pointer is at. *)
Inductive Observed :=
| ODequeue (r : option T)
| OPop (r : bool)
| OPeek (r : option T).

Definition observe (q : Queue) (r : ConsumerResult) : outcome Observed :=
  match r with
  | RDequeue v => Ret (ODequeue v)
  | RPop b => Ret (OPop b)
  | RPeek None => Ret (OPeek None)
  | RPeek (Some (b, i)) =>
      let! blk := blockAt q b in
      match blkData blk !! Z.to_nat i with
      | Some (Some x) => Ret (OPeek (Some x))
      | _ => Fault UndefinedBehaviour
      end
  end.

Inductive Label :=
| Tau
| CallEnqueue (mode : AllocationMode) (x : T)
| ReturnEnqueue (r : bool)
| CallConsume (op : ConsumerOp)
| ReturnConsume (o : Observed).

Record Spsc := mkSpsc {
  spQueue : Queue;
  spProducer : ProducerPc;
  spConsumer : ConsumerPc
}.

(** Blocks are numbered in an address space of 48 bits; malloc returns memory that is
    not in use. *)
Definition maxBlocks : Z := 2 ^ 48.
Definition mallocOk (q : Queue) (alloc : option nat) : Prop :=
  match alloc with
  | Some b => qHeap q !! b = None /\ Z.of_nat b < maxBlocks
  | None => True
  end.

Definition mallocsOk (allocs : list (option nat)) : Prop :=
  NoDup (omap id allocs) /\ Forall (fun b => Z.of_nat b < maxBlocks) (omap id allocs).

Definition producerRuns (p : ProducerPc) : bool :=
  match p with PIdle | PDone _ => false | _ => true end.
Definition consumerRuns (c : ConsumerPc) : bool :=
  match c with CIdle | CDone _ => false | _ => true end.

Inductive spscStep : Spsc -> Label -> Spsc -> Prop :=
| sp_call_enqueue q c mode x :
    spscStep (mkSpsc q PIdle c) (CallEnqueue mode x) (mkSpsc q (PStart mode x) c)
| sp_producer alloc q p c p' q' :
    producerRuns p = true -> mallocOk q alloc -> producerStep alloc p q = Ret (p', q') ->
    spscStep (mkSpsc q p c) Tau (mkSpsc q' p' c)
| sp_return_enqueue q c r :
    spscStep (mkSpsc q (PDone r) c) (ReturnEnqueue r) (mkSpsc (withEnqueuing false q) PIdle c)
| sp_call_consume q p op :
    spscStep (mkSpsc q p CIdle) (CallConsume op) (mkSpsc q p (CStart op))
| sp_consumer q p c c' q' :
    consumerRuns c = true -> consumerStep c q = Ret (c', q') ->
    spscStep (mkSpsc q p c) Tau (mkSpsc q' p c')
| sp_return_consume q p r o :
    observe q r = Ret o ->
    spscStep (mkSpsc q p (CDone r)) (ReturnConsume o) (mkSpsc (withDequeuing false q) p CIdle).

(** What either thread does next is defined: no assertion fails, no pointer dangles,
    and no element is read that is not there. *)
Definition spscSafe (s : Spsc) : Prop :=
  (forall alloc, mallocOk (spQueue s) alloc -> is_ret (producerStep alloc (spProducer s) (spQueue s)) = true)
  /\ is_ret (consumerStep (spConsumer s) (spQueue s)) = true
  /\ (forall r, spConsumer s = CDone r -> is_ret (observe (spQueue s) r) = true).

(** * The specification: a list *)

Inductive FifoProducer :=
| FPIdle
| FPCalled (mode : AllocationMode) (x : T)
| FPDone (r : bool).

(** [seen]: the queue has been empty at a moment of this call *)
Inductive FifoConsumer :=
| FCIdle
| FCCalled (op : ConsumerOp) (seen : bool)
| FCDone (o : Observed).

Record Fifo := mkFifo {
  fItems : list T;
  fProducer : FifoProducer;
  fConsumer : FifoConsumer
}.

Definition emptyObserved (op : ConsumerOp) : Observed :=
  match op with
  | OpDequeue => ODequeue None
  | OpPop => OPop false
  | OpPeek => OPeek None
  end.

Definition takenObserved (op : ConsumerOp) (x : T) : Observed :=
  match op with
  | OpDequeue => ODequeue (Some x)
  | OpPop => OPop true
  | OpPeek => OPeek (Some x)
  end.

Definition itemsLeft (op : ConsumerOp) (x : T) (l : list T) : list T :=
  match op with OpPeek => x :: l | _ => l end.

(** More elements than this do not fit the address space. *)
Definition maxItems : Z := 2 ^ 58.

(** An enqueue appends its element at one moment of the call or fails; a consumer takes
    the first element at one moment of the call, or finds the queue empty at one. *)
Inductive fifoStep : Fifo -> Label -> Fifo -> Prop :=
| ff_call_enqueue l c mode x : fifoStep (mkFifo l FPIdle c) (CallEnqueue mode x) (mkFifo l (FPCalled mode x) c)
| ff_append l c mode x :
    Z.of_nat (length l) < maxItems -> fifoStep (mkFifo l (FPCalled mode x) c) Tau (mkFifo (l ++ [x])%list (FPDone true) c)
| ff_refuse l c mode x : fifoStep (mkFifo l (FPCalled mode x) c) Tau (mkFifo l (FPDone false) c)
| ff_return_enqueue l c r : fifoStep (mkFifo l (FPDone r) c) (ReturnEnqueue r) (mkFifo l FPIdle c)
| ff_call_consume l p op : fifoStep (mkFifo l p FCIdle) (CallConsume op) (mkFifo l p (FCCalled op false))
| ff_see_empty p op b : fifoStep (mkFifo [] p (FCCalled op b)) Tau (mkFifo [] p (FCCalled op true))
| ff_empty l p op : fifoStep (mkFifo l p (FCCalled op true)) Tau (mkFifo l p (FCDone (emptyObserved op)))
| ff_take x l p op b :
    fifoStep (mkFifo (x :: l) p (FCCalled op b)) Tau (mkFifo (itemsLeft op x l) p (FCDone (takenObserved op x)))
| ff_return_consume l p o : fifoStep (mkFifo l p (FCDone o)) (ReturnConsume o) (mkFifo l p FCIdle).

(** The calls and returns of a run, in order. *)
Inductive run {S : Type} (step : S -> Label -> S -> Prop) : S -> list Label -> S -> Prop :=
| run_refl s : run step s [] s
| run_tau s s1 tr s2 : step s Tau s1 -> run step s1 tr s2 -> run step s tr s2
| run_event s l s1 tr s2 : l <> Tau -> step s l s1 -> run step s1 tr s2 -> run step s (l :: tr) s2.

(** A run is computed from what the scheduler and the callers choose. *)
Inductive Move :=
| MCallEnqueue (mode : AllocationMode) (x : T)
| MProducer (alloc : option nat)
| MReturnEnqueue
| MCallConsume (op : ConsumerOp)
| MConsumer
| MReturnConsume.

Definition mallocAllowed (q : Queue) (alloc : option nat) : bool :=
  match alloc with
  | Some b => match qHeap q !! b with None => Z.of_nat b <? maxBlocks | Some _ => false end
  | None => true
  end.

Definition move (m : Move) (s : Spsc) : option (Label * Spsc) :=
  let (q, p, c) := s in
  match m, p, c with
  | MCallEnqueue mode x, PIdle, _ => Some (CallEnqueue mode x, mkSpsc q (PStart mode x) c)
  | MReturnEnqueue, PDone r, _ => Some (ReturnEnqueue r, mkSpsc (withEnqueuing false q) PIdle c)
  | MProducer alloc, _, _ =>
      if producerRuns p && mallocAllowed q alloc
      then match producerStep alloc p q with
           | Ret (p', q') => Some (Tau, mkSpsc q' p' c)
           | Fault _ => None
           end
      else None
  | MCallConsume op, _, CIdle => Some (CallConsume op, mkSpsc q p (CStart op))
  | MReturnConsume, _, CDone r =>
      match observe q r with
      | Ret o => Some (ReturnConsume o, mkSpsc (withDequeuing false q) p CIdle)
      | Fault _ => None
      end
  | MConsumer, _, _ =>
      if consumerRuns c
      then match consumerStep c q with
           | Ret (c', q') => Some (Tau, mkSpsc q' p c')
           | Fault _ => None
           end
      else None
  | _, _, _ => None
  end.

Fixpoint moves (ms : list Move) (s : Spsc) : option (list Label * Spsc) :=
  match ms with
  | [] => Some ([], s)
  | m :: ms' =>
      match move m s with
      | Some (lb, s1) =>
          match moves ms' s1 with
          | Some (tr, s2) => Some (match lb with Tau => tr | _ => lb :: tr end, s2)
          | None => None
          end
      | None => None
      end
  end.

Lemma move_step m s lb s' : move m s = Some (lb, s') -> spscStep s lb s'.
Proof.
  destruct s as [q p c], m as [mode x|alloc| |op| |]; cbn; intros E.
  - destruct p; simplify_eq. constructor.
  - destruct (producerRuns p) eqn:Ru; [|done]. destruct (mallocAllowed q alloc) eqn:M; [|done].
    destruct (producerStep alloc p q) as [[p' q']|] eqn:St; simplify_eq/=. eapply sp_producer; [done| |exact St].
    destruct alloc as [b|]; [|done]. cbn in M |- *. destruct (qHeap q !! b); [done|]. split; [done|]. by apply Z.ltb_lt.
  - destruct p; simplify_eq. constructor.
  - destruct c; simplify_eq; try (by destruct p); destruct p; simplify_eq; constructor.
  - destruct (consumerRuns c) eqn:Ru; [|by destruct p, c]. destruct (consumerStep c q) as [[c' q']|] eqn:St; destruct p; simplify_eq;
      by eapply sp_consumer.
  - destruct c as [| | | | | | | | | |r]; try (by destruct p). destruct (observe q r) as [o|] eqn:Ob; destruct p; simplify_eq; by constructor.
Qed.

Lemma moves_run ms s tr s' : moves ms s = Some (tr, s') -> run spscStep s tr s'.
Proof.
  revert s tr. induction ms as [|m ms IH]; cbn; intros s tr E; [simplify_eq; constructor|].
  destruct (move m s) as [[lb s1]|] eqn:Em; [|done]. apply move_step in Em.
  destruct (moves ms s1) as [[tr' s2]|] eqn:Es; [|done]. injection E as <- <-. apply IH in Es.
  destruct lb; [by eapply run_tau|by eapply run_event..].
Qed.

(** The elements of the enqueue calls that have returned true, in order; [pend] is the
    element of a call that is running at the start. *)
Fixpoint puts (pend : option T) (tr : list Label) : list T :=
  match tr with
  | [] => []
  | CallEnqueue _ x :: tr' => puts (Some x) tr'
  | ReturnEnqueue r :: tr' => (if r then option_list pend else []) ++ puts None tr'
  | _ :: tr' => puts pend tr'
  end.
Definition enqueued (tr : list Label) : list T := puts None tr.

Definition observedItem (o : Observed) : list T :=
  match o with ODequeue (Some x) => [x] | _ => [] end.

(** The elements try_dequeue has returned, in order; with [skip], without the first
    return. *)
Fixpoint gots (skip : bool) (tr : list Label) : list T :=
  match tr with
  | [] => []
  | ReturnConsume o :: tr' => (if skip then [] else observedItem o) ++ gots false tr'
  | _ :: tr' => gots skip tr'
  end.
Definition dequeued (tr : list Label) : list T := gots false tr.

End queue.

Arguments Block : clear implicits.
Arguments Queue : clear implicits.
Arguments ProducerPc : clear implicits.
Arguments ConsumerPc : clear implicits.
Arguments ConsumerResult : clear implicits.
Arguments Observed : clear implicits.
Arguments Label : clear implicits.
Arguments Spsc : clear implicits.
Arguments Fifo : clear implicits.
Arguments FifoProducer : clear implicits.
Arguments FifoConsumer : clear implicits.
Arguments Move : clear implicits.
