(* ===== verification/SpscProps.v ===== *)
(** The queue between two threads refines a list: the invariant of [SpscQueue] and the
    simulation of its two threads by [fifoStep].

    The invariant describes the blocks by ghost values: each block counts its elements
    from its first one on, so that front and tail are the counters modulo the size of
    the block, and the shadow copies are older values of them.  The ring of blocks is
    cut into the active ones, from the front block to the tail block, and the idle
    ones behind. *)

From S2P Require Import Prelude SpscQueue.
From stdpp Require Import gmap list strings.

#[local] Open Scope Z_scope.

(** * Powers of two and indices *)

(** The [n] bits below and at the top bit of [x] are set. *)
Definition topBits (x n : Z) : Prop :=
  forall i, 0 <= i -> Z.log2 x - n < i <= Z.log2 x -> Z.testbit x i = true.

Lemma log2_orShift x n : 0 < x -> 0 <= n -> Z.log2 (orShift x n) = Z.log2 x.
Proof.
  intros Hx Hn. unfold orShift. rewrite Z.log2_lor by (try apply Z.shiftr_nonneg; lia).
  apply Z.max_l, Z.log2_le_mono. rewrite Z.shiftr_div_pow2 by done.
  apply Z.div_le_upper_bound; [by apply Z.pow_pos_nonneg|].
  assert (0 < 2 ^ n) by (by apply Z.pow_pos_nonneg). nia.
Qed.

Lemma orShift_pos x n : 0 < x -> 0 <= n -> 0 < orShift x n.
Proof.
  intros. unfold orShift. assert (0 <= Z.lor x (Z.shiftr x n)).
  { apply Z.lor_nonneg. split; [lia|]. apply Z.shiftr_nonneg. lia. }
  assert (Z.lor x (Z.shiftr x n) <> 0); [|lia]. rewrite Z.lor_eq_0_iff. lia.
Qed.

Lemma topBits_double x n : 0 < x -> 0 <= n -> topBits x n -> topBits (orShift x n) (2 * n).
Proof.
  intros Hx Hn B i Hi. rewrite log2_orShift by done. intros R. unfold orShift.
  rewrite Z.lor_spec. destruct (Z_lt_le_dec (Z.log2 x - n) i).
  - rewrite B by lia. done.
  - rewrite Z.shiftr_spec, (B (i + n)) by lia. by destruct (Z.testbit x i).
Qed.

Lemma topBits_all x n : 0 < x -> Z.log2 x < n -> topBits x n -> x = 2 ^ (Z.log2 x + 1) - 1.
Proof.
  intros Hx Hn B. pose proof (Z.log2_nonneg x).
  replace (2 ^ (Z.log2 x + 1) - 1) with (Z.ones (Z.log2 x + 1)) by (rewrite Z.ones_equiv; lia).
  apply Z.bits_inj'. intros i Hi. rewrite Z.testbit_ones_nonneg by lia.
  destruct (Z.ltb_spec i (Z.log2 x + 1)).
  - apply B; lia.
  - apply Z.bits_above_log2; lia.
Qed.

(** ceilToPow2 rounds up to the next power of two, as long as that fits 64 bits. *)
Theorem ceilToPow2_spec x : 1 <= x <= 2 ^ 63 -> ceilToPow2 x = 2 ^ Z.log2_up x.
Proof.
  intros Hx. unfold ceilToPow2, to_u64. rewrite (Z.mod_small (x - 1)) by lia.
  destruct (decide (x = 1)) as [->|]; [done|].
  cbn [foldl]. change (Z.shiftl 1 3) with 8. change (Z.shiftl 2 3) with 16. change (Z.shiftl 4 3) with 32.
  set (y := x - 1). assert (0 < y) by (subst y; lia).
  assert (topBits y 1) as B1.
  { intros i Hi R. replace i with (Z.log2 y) by lia. by apply Z.bit_log2. }
  set (z := orShift (orShift (orShift (orShift (orShift (orShift y 1) 2) 4) 8) 16) 32).
  assert (0 < z /\ Z.log2 z = Z.log2 y /\ topBits z 64) as (Pz & Lz & Bz).
  { subst z. split; [repeat (apply orShift_pos; [|done]); done|]. split.
    - by rewrite !log2_orShift by (repeat (apply orShift_pos; [|done]); done).
    - do 6 (refine (topBits_double _ _ _ _ _); [repeat (apply orShift_pos; [|done]); done|done|]). done. }
  assert (Z.log2 y < 63) as Ly by (apply Z.log2_lt_pow2; subst y; lia).
  rewrite (topBits_all z 64), Lz by (try done; lia).
  rewrite Z.log2_up_eqn by lia. fold y. replace (Z.pred x) with y by (subst y; lia).
  replace (2 ^ (Z.log2 y + 1) - 1 + 1) with (2 ^ Z.succ (Z.log2 y)) by (unfold Z.succ; lia).
  apply Z.mod_small. split; [apply Z.pow_nonneg; lia|]. apply Z.pow_lt_mono_r; lia.
Qed.

(** The sizes of blocks the queue makes when it is not made for 0 elements. *)
Definition isSize (s : Z) : Prop := exists j, 1 <= j <= 10 /\ s = 2 ^ j.

Lemma isSize_range s : isSize s -> 2 <= s <= 1024.
Proof.
  intros (j & R & ->). split.
  - apply (Z.pow_le_mono_r 2 1); lia.
  - apply (Z.pow_le_mono_r 2 j 10); lia.
Qed.

Lemma mod_u64 s x : isSize s -> to_u64 x mod s = x mod s.
Proof.
  intros (j & R & ->). unfold to_u64. symmetry.
  apply Znumtheory.Zmod_div_mod; [by apply Z.pow_pos_nonneg; lia|lia|].
  exists (2 ^ (64 - j)). rewrite <- Z.pow_add_r by lia. f_equal. lia.
Qed.

Lemma land_sizeMask s x : isSize s -> Z.land (to_u64 x) (s - 1) = x mod s.
Proof.
  intros Hs. rewrite <- (mod_u64 s x Hs). destruct Hs as (j & R & ->).
  replace (2 ^ j - 1) with (Z.ones j) by (rewrite Z.ones_equiv; lia). apply Z.land_ones. lia.
Qed.

Lemma mod_eq_near s a b : 0 < s -> a mod s = b mod s -> -s < a - b < s -> a = b.
Proof.
  intros Hs E R. pose proof (Z.div_mod a s ltac:(lia)). pose proof (Z.div_mod b s ltac:(lia)).
  assert (a / s = b / s) by nia. nia.
Qed.

Lemma mod_succ s a : 0 < s -> (a mod s + 1) mod s = (a + 1) mod s.
Proof. intros Hs. by rewrite Z.add_mod_idemp_l by lia. Qed.

Section slots.
Context {T : Type}.
Implicit Types (d cells : list (option T)) (s F : Z).

(** The slot of [d] that is [j] behind the front [F] holds the [j]-th cell, raw memory
    if there is no such cell. *)
Definition slots d s F cells : Prop :=
  forall j, 0 <= j < s -> d !! Z.to_nat ((F + j) mod s) = Some (mjoin (cells !! Z.to_nat j)).

Lemma slots_at d s F cells j :
  slots d s F cells -> 0 <= j < s -> d !! Z.to_nat ((F + j) mod s) = Some (mjoin (cells !! Z.to_nat j)).
Proof. intros S. apply S. Qed.

Lemma slots_front d s F o cells : 0 < s -> slots d s F (o :: cells) -> d !! Z.to_nat (F mod s) = Some o.
Proof. intros Hs S. specialize (S 0 ltac:(lia)). rewrite Z.add_0_r in S. rewrite S. by destruct o. Qed.

(** Writing the slot [k] behind the front leaves the others. *)
Lemma slots_write d s F cells k v j :
  slots d s F cells -> 0 <= k < s -> 0 <= j < s ->
  <[Z.to_nat ((F + k) mod s) := v]> d !! Z.to_nat ((F + j) mod s)
  = Some (if decide (j = k) then v else mjoin (cells !! Z.to_nat j)).
Proof.
  intros S Hk Hj. destruct (decide (j = k)) as [->|N].
  - apply list_lookup_insert_eq, lookup_lt_is_Some. rewrite (S k Hk). eauto.
  - rewrite list_lookup_insert_ne; [by apply S|]. intros E. apply N, eq_sym.
    assert ((F + k) mod s = (F + j) mod s) as E'
      by (pose proof (Z.mod_pos_bound (F + k) s); pose proof (Z.mod_pos_bound (F + j) s); lia).
    apply mod_eq_near in E'; lia.
Qed.

Lemma slots_push d s F cells x :
  Z.of_nat (length cells) < s -> slots d s F cells ->
  slots (<[Z.to_nat ((F + Z.of_nat (length cells)) mod s) := Some x]> d) s F (cells ++ [Some x]).
Proof.
  intros L S j Hj. rewrite (slots_write d s F cells _ _ j S) by lia. f_equal.
  destruct (decide (j = Z.of_nat (length cells))) as [->|N].
  - rewrite Nat2Z.id, lookup_app_r, Nat.sub_diag by done. done.
  - destruct (decide (j < Z.of_nat (length cells))).
    + rewrite lookup_app_l; [done|lia].
    + rewrite !lookup_ge_None_2; [done|rewrite length_app; simpl; lia|lia].
Qed.

Lemma slots_take d s F o cells :
  0 < s -> slots d s F (o :: cells) -> slots (<[Z.to_nat (F mod s) := None]> d) s F (None :: cells).
Proof.
  intros Hs S j Hj. pose proof (slots_write d s F _ 0 None j S ltac:(lia) Hj) as W.
  rewrite Z.add_0_r in W. rewrite W. f_equal.
  destruct (decide (j = 0)) as [->|N]; [done|].
  by replace (Z.to_nat j) with (Datatypes.S (Z.to_nat (j - 1))) by lia.
Qed.

Lemma slots_advance d s F cells :
  Z.of_nat (length cells) < s -> slots d s F (None :: cells) -> slots d s (F + 1) cells.
Proof.
  intros L S j Hj. destruct (decide (j = s - 1)) as [->|N].
  - rewrite (lookup_ge_None_2 cells) by lia.
    replace (F + 1 + (s - 1)) with (F + 0 + 1 * s) by lia. rewrite Z.mod_add by lia. apply (S 0). lia.
  - replace (F + 1 + j) with (F + (j + 1)) by lia. rewrite (S (j + 1)) by lia.
    by replace (Z.to_nat (j + 1)) with (Datatypes.S (Z.to_nat j)) by lia.
Qed.

End slots.

(** * The invariant *)

Section relation.
Context {T : Type}.
Implicit Types (q : Queue T) (p : ProducerPc T) (c : ConsumerPc T) (l : list T) (heap : gmap nat (Block T)).

(** A block as the proof sees it: [gF] elements have been taken from it and [gT] put
    into it since it was made, [gLT] and [gLF] are the counts behind the shadow
    copies, and [gItems] is what it holds. *)
Record GBlock := mkG {
  gPtr : nat;
  gNext : nat;
  gSize : Z;
  gF : Z;
  gT : Z;
  gLT : Z;
  gLF : Z;
  gItems : list T
}.
Implicit Types (g h n : GBlock) (act idle fresh : list GBlock).

(** [lead]: the consumer has taken the front element and not yet moved the front;
    [pend]: the producer has constructed an element and not yet moved the tail. *)
Definition cellsOf (lead : bool) (items : list T) (pend : option T) : list (option T) :=
  (if lead then [None] else []) ++ (Some <$> items) ++ (match pend with Some x => [Some x] | None => [] end).

Record blockOk (lead : bool) (pend : option T) (blk : Block T) (g : GBlock) : Prop := {
  bo_size : isSize (gSize g);
  bo_mask : blkSizeMask blk = gSize g - 1;
  bo_length : Z.of_nat (length (blkData blk)) = gSize g;
  bo_next : blkNext blk = Some (gNext g);
  bo_front : blkFront blk = gF g mod gSize g;
  bo_tail : blkTail blk = gT g mod gSize g;
  bo_localTail : blkLocalTail blk = gLT g mod gSize g;
  bo_localFront : blkLocalFront blk = gLF g mod gSize g;
  bo_count : gT g = gF g + Z.b2z lead + Z.of_nat (length (gItems g));
  bo_seen_tail : gF g + Z.b2z lead <= gLT g <= gT g;
  bo_seen_front : gLF g <= gF g;
  bo_room : gT g + (match pend with Some _ => 1 | None => 0 end) - gLF g <= gSize g - 1;
  bo_slots : slots (blkData blk) (gSize g) (gF g) (cellsOf lead (gItems g) pend)
}.

Definition leadOf c : nat -> bool :=
  match c with
  | CStoreFront fb _ _ => fun b => bool_decide (b = fb)
  | _ => fun _ => false
  end.

Definition pendOf p : nat -> option T :=
  match p with
  | PStoreTail x tb _ => fun b => if bool_decide (b = tb) then Some x else None
  | PStoreTailNext x nb _ => fun b => if bool_decide (b = nb) then Some x else None
  | _ => fun _ => None
  end.

Definition okAt heap (lead : nat -> bool) (pend : nat -> option T) (g : GBlock) : Prop :=
  Z.of_nat (gPtr g) < maxBlocks
  /\ exists blk, heap !! gPtr g = Some blk /\ blockOk (lead (gPtr g)) (pend (gPtr g)) blk g.

(** Each block of the list is followed by the next one, the last by [stop]. *)
Fixpoint chained (gs : list GBlock) (stop : nat) : Prop :=
  match gs with
  | [] => True
  | g :: gs' => gNext g = hd stop (gPtr <$> gs') /\ chained gs' stop
  end.

Definition emptyBlock (g : GBlock) : Prop := gItems g = [].

(** What the producer knows at each point: [g] is the tail block. *)
Definition producerOk p (fp : FifoProducer T) (g : GBlock) (idle fresh : list GBlock) : Prop :=
  match p with
  | PIdle => fp = FPIdle /\ fresh = [] /\ Forall emptyBlock idle
  | PDone r => fp = FPDone r /\ fresh = [] /\ Forall emptyBlock idle
  | PStart mode x => fp = FPCalled mode x /\ fresh = [] /\ Forall emptyBlock idle
  | PLoadFront mode x tb bt =>
      fp = FPCalled mode x /\ fresh = [] /\ Forall emptyBlock idle /\ tb = gPtr g /\ bt = gT g mod gSize g
  | PConstruct x tb bt =>
      (exists mode, fp = FPCalled mode x) /\ fresh = [] /\ Forall emptyBlock idle
      /\ tb = gPtr g /\ bt = gT g mod gSize g /\ gT g + 1 - gLF g <= gSize g - 1
  | PStoreTail x tb nt =>
      (exists mode, fp = FPCalled mode x) /\ fresh = [] /\ Forall emptyBlock idle
      /\ tb = gPtr g /\ nt = (gT g + 1) mod gSize g
  | PLoadFrontBlock mode x tb => fp = FPCalled mode x /\ fresh = [] /\ Forall emptyBlock idle /\ tb = gPtr g
  | PNextFront x tb =>
      (exists mode, fp = FPCalled mode x) /\ fresh = [] /\ Forall emptyBlock idle /\ tb = gPtr g /\ idle <> []
  | PConstructNext x nb nt =>
      (exists mode, fp = FPCalled mode x) /\ fresh = [] /\ Forall emptyBlock idle
      /\ exists n idle', idle = n :: idle' /\ nb = gPtr n /\ nt = gT n mod gSize n /\ gT n + 1 - gLF n <= gSize n - 1
  | PStoreTailNext x nb nt =>
      (exists mode, fp = FPCalled mode x) /\ fresh = [] /\ Forall emptyBlock idle
      /\ exists n idle', idle = n :: idle' /\ nb = gPtr n /\ nt = (gT n + 1) mod gSize n
  | PAlloc x tb => (exists mode, fp = FPCalled mode x) /\ fresh = [] /\ Forall emptyBlock idle /\ tb = gPtr g
  | PLink x tb nb =>
      (exists mode, fp = FPCalled mode x) /\ Forall emptyBlock idle /\ tb = gPtr g
      /\ exists n, fresh = [n] /\ nb = gPtr n /\ gItems n = [x] /\ gNext n = gNext g
  | PStoreTailBlock x nb =>
      (exists mode, fp = FPCalled mode x) /\ fresh = []
      /\ exists n idle', idle = n :: idle' /\ nb = gPtr n /\ gItems n = [x] /\ Forall emptyBlock idle'
  end.

(** [i] is the index of the front element [x] in [g]. *)
Definition frontIs (g : GBlock) (b : nat) (i : Z) (x : T) : Prop :=
  b = gPtr g /\ i = gF g mod gSize g /\ head (gItems g) = Some x.

Definition plainResult (r : ConsumerResult T) (o : Observed T) : Prop :=
  match r with
  | RDequeue v => o = ODequeue v
  | RPop b => o = OPop b
  | RPeek None => o = OPeek None
  | RPeek (Some _) => False
  end.

(** What the consumer knows: [h] is the front block and [t] the active ones behind. *)
Definition consumerOk c (fc : FifoConsumer T) (h : GBlock) (t : list GBlock) : Prop :=
  match c with
  | CIdle => fc = FCIdle
  | CStart op => exists b, fc = FCCalled op b
  | CLoadTail op fb bf => (exists b, fc = FCCalled op b) /\ fb = gPtr h /\ bf = gF h mod gSize h
  | CTake op fb bf =>
      (exists b, fc = FCCalled op b) /\ op <> OpPeek /\ fb = gPtr h /\ bf = gF h mod gSize h /\ gF h < gLT h
  | CLoadTailBlock op fb => fb = gPtr h /\ exists b, fc = FCCalled op b /\ (b = true \/ t <> [])
  | CReload op => (exists b, fc = FCCalled op b) /\ t <> []
  | CNext op fb => (exists b, fc = FCCalled op b) /\ fb = gPtr h /\ t <> [] /\ gItems h = []
  | CNextTail op nb nf =>
      (exists b, fc = FCCalled op b) /\ gItems h = []
      /\ exists n t', t = n :: t' /\ nb = gPtr n /\ nf = gF n mod gSize n
  | CStoreFrontBlock op nb nf =>
      (exists b, fc = FCCalled op b) /\ op <> OpPeek /\ gItems h = []
      /\ exists n t', t = n :: t' /\ nb = gPtr n /\ nf = gF n mod gSize n /\ gF n < gLT n
  | CStoreFront fb nf r =>
      (exists o, fc = FCDone o /\ plainResult r o) /\ fb = gPtr h /\ nf = (gF h + 1) mod gSize h
  | CDone (RPeek (Some (b, i))) =>
      exists x, fc = FCDone (OPeek (Some x))
        /\ (frontIs h b i x \/ (gItems h = [] /\ exists n t', t = n :: t' /\ frontIs n b i x))
  | CDone r => exists o, fc = FCDone o /\ plainResult r o
  end.

Definition producerInside p : bool := match p with PIdle | PStart _ _ => false | _ => true end.
Definition consumerInside c : bool := match c with CIdle | CStart _ => false | _ => true end.

(** Every block of the heap is in the list: none is lost. *)
Definition domOk heap (gs : list GBlock) : Prop := forall b, is_Some (heap !! b) -> b ∈ gPtr <$> gs.

(** The state of the queue and its threads is the one of the list [fItems f]: [act] are
    the blocks from the front block to the tail block, [idle] the empty ones behind,
    and [fresh] a block not yet linked. *)
Record holds q p c (f : Fifo T) (act idle fresh : list GBlock) : Prop := {
  ho_nodup : NoDup (gPtr <$> act ++ idle ++ fresh);
  ho_blocks : Forall (okAt (qHeap q) (leadOf c) (pendOf p)) (act ++ idle ++ fresh);
  ho_dom : domOk (qHeap q) (act ++ idle ++ fresh);
  ho_ring : chained (act ++ idle) (frontBlock q);
  ho_full : Forall (fun g => gItems g <> []) (tail act);
  ho_items : fItems f = concat (gItems <$> act);
  ho_largest : isSize (largestBlockSize q);
  ho_enqueuing : enqueuing q = producerInside p;
  ho_dequeuing : dequeuing q = consumerInside c;
  ho_producer : exists a g, act = a ++ [g] /\ tailBlock q = gPtr g /\ producerOk p (fProducer f) g idle fresh;
  ho_consumer : exists h t, act = h :: t /\ frontBlock q = gPtr h /\ consumerOk c (fConsumer f) h t
}.

Definition rel (s : Spsc T) (f : Fifo T) : Prop :=
  exists act idle fresh, holds (spQueue s) (spProducer s) (spConsumer s) f act idle fresh.

(** * Lemmas on rings of blocks *)

Lemma chained_app gs1 gs2 stop :
  chained (gs1 ++ gs2) stop <-> chained gs1 (hd stop (gPtr <$> gs2)) /\ chained gs2 stop.
Proof.
  induction gs1 as [|g gs1 IH]; csimpl; [tauto|]. rewrite IH.
  destruct gs1; csimpl; tauto.
Qed.

(** The block [g] of the ring becomes [g'], by a change of its memory or of what the
    threads are doing with it. *)
Lemma blocks_update heap lead pend lead' pend' (change : Block T -> Block T) gs1 g gs2 g' :
  NoDup (gPtr <$> gs1 ++ g :: gs2) -> gPtr g' = gPtr g ->
  (forall b, b <> gPtr g -> lead' b = lead b /\ pend' b = pend b) ->
  (forall blk, heap !! gPtr g = Some blk -> blockOk (lead (gPtr g)) (pend (gPtr g)) blk g ->
     blockOk (lead' (gPtr g)) (pend' (gPtr g)) (change blk) g') ->
  Forall (okAt heap lead pend) (gs1 ++ g :: gs2) ->
  Forall (okAt (alter change (gPtr g) heap) lead' pend') (gs1 ++ g' :: gs2).
Proof.
  intros N E Fr Ch F. rewrite fmap_app, fmap_cons in N. apply NoDup_app in N as (_ & N1 & N2).
  apply NoDup_cons in N2 as [N2 _]. apply Forall_app in F as [F1 F2]. apply Forall_cons in F2 as [(B & blk & L & K) F2].
  assert (forall gs, gPtr g ∉ gPtr <$> gs -> Forall (okAt heap lead pend) gs ->
            Forall (okAt (alter change (gPtr g) heap) lead' pend') gs) as Frame.
  { intros gs Ni. rewrite !Forall_forall. intros H x Hx. destruct (H x Hx) as (B' & blk' & L' & K').
    assert (gPtr x <> gPtr g) as Ne. { intros Ex. apply Ni. rewrite <- Ex. by apply list_elem_of_fmap_2. }
    split; [done|]. exists blk'. rewrite lookup_alter_ne by done. split; [done|]. by destruct (Fr _ Ne) as [-> ->]. }
  apply Forall_app. split; [|constructor].
  - apply Frame; [|done]. intros Hi. apply (N1 _ Hi). left.
  - split; rewrite E; [done|]. exists (change blk). rewrite lookup_alter_eq, L. split; [done|by apply Ch].
  - by apply Frame.
Qed.

Lemma domOk_alter heap gs gs' (change : Block T -> Block T) b :
  (gPtr <$> gs) ≡ₚ (gPtr <$> gs') -> domOk heap gs -> domOk (alter change b heap) gs'.
Proof. intros E D b' Hb. rewrite <- E. apply D. by rewrite lookup_alter_is_Some in Hb. Qed.

Lemma domOk_perm heap gs gs' : gs ≡ₚ gs' -> domOk heap gs -> domOk heap gs'.
Proof. intros E D b Hb. rewrite <- E. by apply D. Qed.

Lemma blocks_insert heap lead pend gs b blk :
  heap !! b = None -> Forall (okAt heap lead pend) gs -> Forall (okAt (<[b := blk]> heap) lead pend) gs.
Proof.
  intros N F. eapply Forall_impl; [exact F|]. intros g (B & blk' & L & K). split; [done|]. exists blk'.
  rewrite lookup_insert_ne by congruence. done.
Qed.

Lemma blocks_at heap lead pend gs g :
  Forall (okAt heap lead pend) gs -> g ∈ gs ->
  exists blk, heap !! gPtr g = Some blk /\ blockOk (lead (gPtr g)) (pend (gPtr g)) blk g.
Proof. rewrite Forall_forall. intros F Hg. by destruct (F g Hg) as [_ K]. Qed.

Lemma nextIndex_mod lead pend blk g i :
  blockOk lead pend blk g -> nextIndex blk (i mod gSize g) = (i + 1) mod gSize g.
Proof.
  intros K. unfold nextIndex. rewrite (bo_mask _ _ _ _ K), land_sizeMask by apply K.
  apply mod_succ. pose proof (isSize_range _ (bo_size _ _ _ _ K)). lia.
Qed.

(** * What one thread knows survives the steps of the other *)

(** How the producer changes the tail block. *)
Definition grows g g' : Prop :=
  gPtr g' = gPtr g /\ gSize g' = gSize g /\ gF g' = gF g /\ gLT g' = gLT g /\ exists l, gItems g' = gItems g ++ l.

Lemma grows_refl g : grows g g.
Proof. repeat split; try done. exists []. by rewrite app_nil_r. Qed.

Lemma frontIs_grows g g' b i x : grows g g' -> frontIs g b i x -> frontIs g' b i x.
Proof.
  intros (E1 & E2 & E3 & _ & l & E) (-> & -> & Hh). repeat split; [congruence..|].
  rewrite E. by destruct (gItems g).
Qed.

Lemma consumer_stable c fc h t a g g' more :
  h :: t = a ++ [g] -> grows g g' -> consumerOk c fc h t ->
  exists h' t', a ++ g' :: more = h' :: t' /\ gPtr h' = gPtr h /\ consumerOk c fc h' t'.
Proof.
  intros E G K. pose proof G as (E1 & E2 & E3 & E4 & k & E5).
  destruct a as [|x a]; injection E as -> ->.
  - exists g', more. split; [done|]. split; [done|].
    destruct c as [| | | |? ?|?|? ?|? ? ?|? ? ?|? ? ?|[|[] |[[]|]]]; simpl in K |- *; rewrite ?E1, ?E2, ?E3, ?E4 in *;
      naive_solver eauto using frontIs_grows.
  - exists x, (a ++ g' :: more). split; [done|]. split; [done|].
    assert (a ++ g' :: more <> []) by (by destruct a).
    assert (forall P : GBlock -> Prop, (forall x y, grows x y -> P x -> P y) ->
      (exists n t', a ++ [g] = n :: t' /\ P n) -> exists n t', a ++ g' :: more = n :: t' /\ P n) as Fst.
    { intros P HP (n & t' & Et & Pn). destruct a as [|y a]; simplify_list_eq; eauto. }
    destruct c as [| | | |? ?|?|? ?|? ? ?|? ? ?|? ? ?|[|[] |[[]|]]]; simpl in K |- *;
      try naive_solver.
    + destruct K as (? & ? & K). split; [done|]. split; [done|].
      apply (Fst (fun n => nb = gPtr n /\ nf = gF n mod gSize n)); [|done].
      intros ? ? (-> & -> & -> & _) [-> ->]. done.
    + destruct K as (? & ? & ? & K). split; [done|]. split; [done|]. split; [done|].
      apply (Fst (fun n => nb = gPtr n /\ nf = gF n mod gSize n /\ gF n < gLT n)); [|done].
      intros ? ? (-> & -> & -> & -> & _) (-> & -> & ?). done.
    + destruct K as (v & ? & K). exists v. split; [done|]. destruct K as [K|[? K]]; [by left|right].
      split; [done|]. apply (Fst (fun m => frontIs m n z v)); [|done]. intros ? ? ?. by apply frontIs_grows.
Qed.

(** How the consumer changes a block. *)
Definition shrinks g g' : Prop :=
  gPtr g' = gPtr g /\ gNext g' = gNext g /\ gSize g' = gSize g /\ gT g' = gT g /\ gLF g' = gLF g.

Lemma producer_stable p fp g g' idle fresh :
  shrinks g g' -> producerOk p fp g idle fresh -> producerOk p fp g' idle fresh.
Proof. intros (E1 & E2 & E3 & E4 & E5). destruct p; simpl; rewrite ?E1, ?E2, ?E3, ?E4, ?E5; done. Qed.

Lemma producer_more_idle p fp g idle fresh h :
  emptyBlock h -> producerOk p fp g idle fresh -> producerOk p fp g (idle ++ [h]) fresh.
Proof.
  intros E. assert (Forall emptyBlock idle -> Forall emptyBlock (idle ++ [h])) as F.
  { intros. apply Forall_app. split; [done|]. by constructor. }
  destruct p; simpl; try naive_solver.
  - intros (? & ? & ? & ? & ?). repeat split; auto. by destruct idle.
  - intros (? & ? & n & l & -> & ? & ? & ?). repeat split; auto. exists n, (l ++ [h]).
    repeat split; auto. apply Forall_app. split; [done|]. by constructor.
Qed.

(** * Steps of the producer *)

Lemma holds_producer q p c l fp fc a g idle fresh q' p' l' fp' g' more idle' fresh' :
  holds q p c (mkFifo l fp fc) (a ++ [g]) idle fresh ->
  grows g g' -> frontBlock q' = frontBlock q -> dequeuing q' = dequeuing q ->
  NoDup (gPtr <$> (a ++ g' :: more) ++ idle' ++ fresh') ->
  Forall (okAt (qHeap q') (leadOf c) (pendOf p')) ((a ++ g' :: more) ++ idle' ++ fresh') ->
  domOk (qHeap q') ((a ++ g' :: more) ++ idle' ++ fresh') ->
  chained ((a ++ g' :: more) ++ idle') (frontBlock q) ->
  Forall (fun g => gItems g <> []) more ->
  l' = concat (gItems <$> a ++ g' :: more) ->
  isSize (largestBlockSize q') -> enqueuing q' = producerInside p' ->
  (exists a2 g2, a ++ g' :: more = a2 ++ [g2] /\ tailBlock q' = gPtr g2 /\ producerOk p' fp' g2 idle' fresh') ->
  holds q' p' c (mkFifo l' fp' fc) (a ++ g' :: more) idle' fresh'.
Proof.
  intros [N B Do R Fu It La En De Pr Co] G Ef Ed N' B' Do' R' Fu' It' La' En' Pr'.
  destruct Co as (h & t & Ea & Eh & Co). cbn [fConsumer fProducer fItems] in *.
  destruct (consumer_stable c fc h t a g g' more (eq_sym Ea) G Co) as (h' & t' & Ea' & Eh' & Co').
  split; try done.
  - by rewrite Ef.
  - destruct a as [|x a]; simpl in *; [done|]. apply Forall_app in Fu as [Fu1 Fu2]. apply Forall_app. split; [done|].
    apply Forall_cons in Fu2 as [Fu2 _]. constructor; [|done]. destruct G as (_ & _ & _ & _ & k & ->).
    by destruct (gItems g).
  - congruence.
  - exists h', t'. cbn. rewrite Ef, Eh, Eh'. done.
Qed.

(** The consumer works on the front block only. *)
Lemma lead_other q p c f h t idle fresh g :
  holds q p c f (h :: t) idle fresh -> g ∈ t ++ idle ++ fresh -> leadOf c (gPtr g) = false.
Proof.
  intros [N _ _ _ _ _ _ _ _ _ Co] Hg. destruct Co as (h' & t' & [= <- <-] & _ & Co).
  destruct c; simpl in *; try done. apply bool_decide_eq_false. destruct Co as (_ & -> & _). intros E.
  apply NoDup_cons in N as [N _]. apply N. rewrite <- E. by apply list_elem_of_fmap_2.
Qed.

Ltac norm := rewrite <- ?app_assoc in *; cbn [app fmap list_fmap] in *.

(** The memory stays as it is. *)
Lemma producer_keeps q p c l fp fc a g idle fresh en p' fp' :
  holds q p c (mkFifo l fp fc) (a ++ [g]) idle fresh -> pendOf p' = pendOf p ->
  en = producerInside p' -> producerOk p' fp' g idle fresh ->
  holds (withEnqueuing en q) p' c (mkFifo l fp' fc) (a ++ [g]) idle fresh.
Proof.
  intros H Ep -> Pr. pose proof H as [N B Do R _ It La _ _ (a' & g' & E & Et & _) _].
  apply app_inj_tail in E as [<- <-].
  eapply (holds_producer q p c l fp fc); try done; [apply grows_refl|by rewrite Ep|by exists a, g].
Qed.

(** The tail block changes. *)
Lemma producer_tail_step q p c l fp fc a g idle fresh change p' l' fp' g' :
  holds q p c (mkFifo l fp fc) (a ++ [g]) idle fresh ->
  producerInside p = true -> producerInside p' = true ->
  (forall b, b <> gPtr g -> pendOf p' b = pendOf p b) ->
  (forall blk lead, qHeap q !! gPtr g = Some blk -> blockOk lead (pendOf p (gPtr g)) blk g ->
     blockOk lead (pendOf p' (gPtr g)) (change blk) g') ->
  grows g g' -> gNext g' = gNext g ->
  l' = concat (gItems <$> a ++ [g']) -> producerOk p' fp' g' idle fresh ->
  holds (changeBlock (gPtr g) change q) p' c (mkFifo l' fp' fc) (a ++ [g']) idle fresh.
Proof.
  intros H I I' Ep Ch G En El Pr. pose proof H as [N B Do R _ It La Eq _ (a' & g2 & E & Et & _) _].
  apply app_inj_tail in E as [<- <-]. pose proof (proj1 G) as Eg. norm.
  assert (gPtr <$> a ++ g' :: idle ++ fresh = gPtr <$> a ++ g :: idle ++ fresh) as Ens
    by (rewrite !fmap_app, !fmap_cons, Eg; done).
  eapply (holds_producer q p c l fp fc); try done; norm.
  - by rewrite Ens.
  - apply (blocks_update _ (leadOf c) (pendOf p)); [done..| |naive_solver|done]. intros b Hb. auto.
  - eapply domOk_alter; [|exact Do]. by rewrite Ens.
  - change (a ++ g' :: idle) with (a ++ [g'] ++ idle). change (a ++ g :: idle) with (a ++ [g] ++ idle) in R.
    rewrite !chained_app in *. cbn in *. by rewrite En, Eg.
  - simpl. congruence.
  - exists a, g'. simpl. by rewrite Et, Eg.
Qed.

(** The first idle block changes. *)
Lemma producer_idle_step q p c l fp fc a g n idle fresh change p' fp' n' :
  holds q p c (mkFifo l fp fc) (a ++ [g]) (n :: idle) fresh ->
  producerInside p = true -> producerInside p' = true ->
  (forall b, b <> gPtr n -> pendOf p' b = pendOf p b) ->
  (forall blk, qHeap q !! gPtr n = Some blk -> blockOk false (pendOf p (gPtr n)) blk n ->
     blockOk false (pendOf p' (gPtr n)) (change blk) n') ->
  gPtr n' = gPtr n -> gNext n' = gNext n ->
  producerOk p' fp' g (n' :: idle) fresh ->
  holds (changeBlock (gPtr n) change q) p' c (mkFifo l fp' fc) (a ++ [g]) (n' :: idle) fresh.
Proof.
  intros H I I' Ep Ch Eg En Pr.
  assert (leadOf c (gPtr n) = false) as Le.
  { pose proof H as [_ _ _ _ _ _ _ _ _ _ (h & t & Ea & _)]. rewrite Ea in H. apply (lead_other _ _ _ _ _ _ _ _ n H).
    set_solver. }
  pose proof H as [N B Do R _ It La Eq _ (a' & g2 & E & Et & _) _]. apply app_inj_tail in E as [<- <-].
  eapply (holds_producer q p c l fp fc _ g); try done; [apply grows_refl|..].
  - by rewrite !fmap_app, !fmap_cons, Eg in *.
  - apply (blocks_update _ (leadOf c) (pendOf p)); [done|done| |by rewrite Le|done]. intros b Hb. auto.
  - eapply domOk_alter; [|exact Do]. by rewrite !fmap_app, !fmap_cons, Eg.
  - rewrite chained_app in *. cbn in *. by rewrite En, Eg.
  - simpl. congruence.
  - by exists a, g.
Qed.

(** What the steps do to a block. *)

Definition setLF v g : GBlock := mkG (gPtr g) (gNext g) (gSize g) (gF g) (gT g) (gLT g) v (gItems g).
Definition setLT v g : GBlock := mkG (gPtr g) (gNext g) (gSize g) (gF g) (gT g) v (gLF g) (gItems g).
Definition setNext v g : GBlock := mkG (gPtr g) v (gSize g) (gF g) (gT g) (gLT g) (gLF g) (gItems g).
Definition putItem (x : T) g : GBlock :=
  mkG (gPtr g) (gNext g) (gSize g) (gF g) (gT g + 1) (gLT g) (gLF g) (gItems g ++ [x]).
Definition setItems v g : GBlock := mkG (gPtr g) (gNext g) (gSize g) (gF g) (gT g) (gLT g) (gLF g) v.
Definition nextF g : GBlock := mkG (gPtr g) (gNext g) (gSize g) (gF g + 1) (gT g) (gLT g) (gLF g) (gItems g).

Lemma cellsOf_length lead items pend :
  Z.of_nat (length (cellsOf lead items pend))
  = Z.b2z lead + Z.of_nat (length items) + match pend with Some _ => 1 | None => 0 end.
Proof. unfold cellsOf. rewrite !length_app, length_fmap. destruct lead, pend; simpl; lia. Qed.

Lemma block_room lead pend blk g : blockOk lead pend blk g -> 0 <= gT g - gF g <= gSize g - 1.
Proof. intros K. destruct K. destruct lead, pend; simpl in *; lia. Qed.

Lemma block_localFront lead blk g :
  blockOk lead None blk g -> blockOk lead None (withLocalFront (gF g mod gSize g) blk) (setLF (gF g) g).
Proof. intros K. pose proof (block_room _ _ _ _ K). destruct K. split; simpl; try done; lia. Qed.

Lemma block_localTail lead pend blk g :
  blockOk lead pend blk g -> blockOk lead pend (withLocalTail (gT g mod gSize g) blk) (setLT (gT g) g).
Proof. intros K. destruct K. split; simpl; try done. lia. Qed.

Lemma block_free_slot lead blk g :
  blockOk lead None blk g -> blkData blk !! Z.to_nat (gT g mod gSize g) = Some None.
Proof.
  intros K. pose proof (block_room _ _ _ _ K) as R. pose proof (isSize_range _ (bo_size _ _ _ _ K)).
  pose proof (slots_at _ _ _ _ (gT g - gF g) (bo_slots _ _ _ _ K) ltac:(lia)) as S.
  replace (gF g + (gT g - gF g)) with (gT g) in S by lia. rewrite S.
  pose proof (cellsOf_length lead (gItems g) None) as L. pose proof (bo_count _ _ _ _ K).
  rewrite lookup_ge_None_2 by lia. done.
Qed.

Lemma block_construct lead blk g x :
  blockOk lead None blk g -> gT g + 1 - gLF g <= gSize g - 1 ->
  blockOk lead (Some x) (withData (<[Z.to_nat (gT g mod gSize g) := Some x]> (blkData blk)) blk) g.
Proof.
  intros K Ro. pose proof (block_room _ _ _ _ K) as R. destruct K. split; simpl; try done.
  - by rewrite length_insert.
  - pose proof (cellsOf_length lead (gItems g) None) as L.
    replace (gT g) with (gF g + Z.of_nat (length (cellsOf lead (gItems g) None))) by lia.
    replace (cellsOf lead (gItems g) (Some x)) with (cellsOf lead (gItems g) None ++ [Some x])
      by (unfold cellsOf; by rewrite app_nil_r, <- app_assoc).
    apply slots_push; [|done]. pose proof (isSize_range _ bo_size0). lia.
Qed.

Lemma block_storeTail lead blk g x :
  blockOk lead (Some x) blk g -> blockOk lead None (withTail ((gT g + 1) mod gSize g) blk) (putItem x g).
Proof.
  intros K. destruct K. split; simpl; try done; rewrite ?length_app; simpl; try lia.
  unfold cellsOf in *. by rewrite fmap_app, app_nil_r.
Qed.

Lemma blockAt_ret q b blk : qHeap q !! b = Some blk -> blockAt q b = Ret blk.
Proof. unfold blockAt. by intros ->. Qed.

Lemma holds_at q p c f act idle fresh g :
  holds q p c f act idle fresh -> g ∈ act ++ idle ++ fresh ->
  exists blk, qHeap q !! gPtr g = Some blk /\ blockOk (leadOf c (gPtr g)) (pendOf p (gPtr g)) blk g.
Proof. intros H. apply blocks_at, H. Qed.

Lemma holds_tail q p c f a g idle fresh :
  holds q p c f (a ++ [g]) idle fresh ->
  (exists blk, qHeap q !! gPtr g = Some blk /\ blockOk (leadOf c (gPtr g)) (pendOf p (gPtr g)) blk g)
  /\ tailBlock q = gPtr g /\ producerOk p (fProducer f) g idle fresh.
Proof.
  intros H. split; [apply (holds_at _ _ _ _ _ _ _ _ H); set_solver|].
  destruct H as [_ _ _ _ _ _ _ _ _ (a' & g' & E & Et & Pr) _]. by apply app_inj_tail in E as [<- <-].
Qed.

Lemma withEnqueuing_id q : withEnqueuing (enqueuing q) q = q.
Proof. by destruct q. Qed.

Lemma holds_items q p c l fp fc a g idle fresh g' :
  holds q p c (mkFifo l fp fc) (a ++ [g]) idle fresh -> gItems g' = gItems g ->
  l = concat (gItems <$> a ++ [g']).
Proof. intros H E. rewrite (ho_items _ _ _ _ _ _ _ H : l = _), !fmap_app. cbn. by rewrite E. Qed.

Definition producerSim (alloc : option nat) q p c f : Prop :=
  exists p' q' f', producerStep alloc p q = Ret (p', q')
    /\ (f' = f \/ fifoStep f Tau f') /\ rel (mkSpsc q' p' c) f'.

(** The index after the tail differs from [i] modulo the size: there is room. *)
Lemma room_left s i j : 0 < s -> i - j <= s - 1 -> (i + 1) mod s <> j mod s -> i + 1 - j <= s - 1.
Proof.
  intros Hs R N. destruct (decide (i + 1 - j = s)) as [E|]; [|lia]. exfalso. apply N.
  replace (i + 1) with (j + 1 * s) by lia. apply Z.mod_add. lia.
Qed.

Lemma sim_start alloc q mode x c l fp fc a g idle fresh :
  holds q (PStart mode x) c (mkFifo l fp fc) (a ++ [g]) idle fresh ->
  producerSim alloc q (PStart mode x) c (mkFifo l fp fc).
Proof.
  intros H. destruct (holds_tail _ _ _ _ _ _ _ _ H) as ((blk & L & K) & Et & Ep & Ef & Em). cbn in Ep.
  unfold producerSim. cbn [producerStep]. rewrite (ho_enqueuing _ _ _ _ _ _ _ H). cbn.
  rewrite Et. unfold blockAt. cbn. rewrite L. cbn.
  rewrite (bo_tail _ _ _ _ K), (nextIndex_mod _ _ _ _ _ K), (bo_localFront _ _ _ _ K).
  pose proof (isSize_range _ (bo_size _ _ _ _ K)). pose proof (bo_room _ _ _ _ K) as Ro. cbn in Ro.
  destruct (Z.eqb_spec ((gT g + 1) mod gSize g) (gLF g mod gSize g)) as [E|N]; eexists _, _, _;
    (split; [done|]; split; [by left|]; exists (a ++ [g]), idle, fresh);
    refine (producer_keeps _ _ _ _ _ _ _ _ _ _ _ _ _ H _ _ _); try done; cbn; subst; repeat split; try done; eauto.
  apply room_left; [lia|lia|done].
Qed.

Lemma sim_loadFront alloc q mode x tb bt c l fp fc a g idle fresh :
  holds q (PLoadFront mode x tb bt) c (mkFifo l fp fc) (a ++ [g]) idle fresh ->
  producerSim alloc q (PLoadFront mode x tb bt) c (mkFifo l fp fc).
Proof.
  intros H. destruct (holds_tail _ _ _ _ _ _ _ _ H) as ((blk & L & K) & Et & Ep & Ef & Em & -> & ->). cbn in Ep.
  unfold producerSim. cbn [producerStep]. rewrite (blockAt_ret _ _ _ L). cbn.
  rewrite (nextIndex_mod _ _ _ _ _ K), (bo_front _ _ _ _ K).
  pose proof (isSize_range _ (bo_size _ _ _ _ K)). pose proof (block_room _ _ _ _ K) as Ro. cbn in Ro.
  destruct (Z.eqb_spec ((gT g + 1) mod gSize g) (gF g mod gSize g)) as [E|N]; eexists _, _, _;
    (split; [done|]; split; [by left|]; exists (a ++ [setLF (gF g) g]), idle, fresh);
    refine (producer_tail_step _ _ _ _ _ _ _ _ _ _ _ _ _ _ _ H _ _ _ _ _ _ _ _); try done;
    try (intros ? ? _; apply block_localFront); try (repeat split; exists []; by rewrite app_nil_r);
    try (by apply (holds_items _ _ _ _ _ _ _ _ _ _ _ H));
    cbn; subst; repeat split; eauto.
  apply room_left; [lia|lia|done].
Qed.

Lemma sim_construct alloc q x tb bt c l fp fc a g idle fresh :
  holds q (PConstruct x tb bt) c (mkFifo l fp fc) (a ++ [g]) idle fresh ->
  producerSim alloc q (PConstruct x tb bt) c (mkFifo l fp fc).
Proof.
  intros H. destruct (holds_tail _ _ _ _ _ _ _ _ H) as ((blk & L & K) & Et & Ep & Ef & Em & -> & -> & Ro). cbn in Ep, K.
  unfold producerSim. cbn [producerStep]. unfold construct. rewrite (blockAt_ret _ _ _ L). cbn.
  rewrite (block_free_slot _ _ _ K), (nextIndex_mod _ _ _ _ _ K). cbn. eexists _, _, _.
  split; [done|]. split; [by left|]. exists (a ++ [g]), idle, fresh.
  refine (producer_tail_step _ _ _ _ _ _ _ _ _ _ _ _ _ _ _ H _ _ _ _ _ _ _ _); try done; try apply grows_refl; cbn.
  - intros b Hb. by rewrite bool_decide_false.
  - intros blk' lead L' K'. rewrite bool_decide_true by done. simplify_eq. by apply block_construct.
  - by apply (holds_items _ _ _ _ _ _ _ _ _ _ _ H).
Qed.

(** The elements fit the address space, and so do one more. *)
Lemma pointers_bound (N : Z) (ps : list nat) :
  NoDup ps -> Forall (fun b => Z.of_nat b < N) ps -> Z.of_nat (length ps) <= Z.max 0 N.
Proof.
  intros D F. rewrite Forall_forall in F. assert (ps ⊆+ seq 0 (Z.to_nat N)) as S.
  { apply NoDup_submseteq; [done|]. intros b Hb. specialize (F b Hb). apply elem_of_seq. lia. }
  apply submseteq_length in S. rewrite length_seq in S. lia.
Qed.

Lemma items_bound heap lead pend gs :
  Forall (okAt heap lead pend) gs -> Z.of_nat (length (concat (gItems <$> gs))) <= 1023 * Z.of_nat (length gs).
Proof.
  induction 1 as [|g gs (_ & blk & _ & K) _ IH]; [done|]. cbn. rewrite length_app.
  pose proof (isSize_range _ (bo_size _ _ _ _ K)). pose proof (block_room _ _ _ _ K). pose proof (bo_count _ _ _ _ K).
  destruct (lead (gPtr g)); simpl in *; lia.
Qed.

Lemma holds_bound q p c f act idle fresh :
  holds q p c f act idle fresh -> Z.of_nat (length (fItems f)) < maxItems.
Proof.
  intros [D B _ _ _ -> _ _ _ _ _]. rewrite fmap_app in D. apply NoDup_app in D as (D & _).
  apply Forall_app in B as [B _]. pose proof (items_bound _ _ _ _ B).
  pose proof (pointers_bound maxBlocks (gPtr <$> act) D) as Le. rewrite length_fmap in Le.
  assert (Forall (fun b => Z.of_nat b < maxBlocks) (gPtr <$> act)) as F.
  { apply Forall_fmap. eapply Forall_impl; [exact B|]. by intros g [? _]. }
  specialize (Le F). unfold maxBlocks, maxItems in *. lia.
Qed.

Lemma sim_storeTail alloc q x tb nt c l fp fc a g idle fresh :
  holds q (PStoreTail x tb nt) c (mkFifo l fp fc) (a ++ [g]) idle fresh ->
  producerSim alloc q (PStoreTail x tb nt) c (mkFifo l fp fc).
Proof.
  intros H. destruct (holds_tail _ _ _ _ _ _ _ _ H) as ((blk & L & K) & Et & (mode & Ep) & Ef & Em & -> & ->).
  cbn in Ep, K. unfold producerSim. cbn [producerStep]. eexists _, _, _. split; [done|]. split.
  { right. subst fp. apply ff_append. exact (holds_bound _ _ _ _ _ _ _ H). }
  exists (a ++ [putItem x g]), idle, fresh.
  refine (producer_tail_step _ _ _ _ _ _ _ _ _ _ _ _ _ _ _ H _ _ _ _ _ _ _ _); try done; cbn.
  - intros b Hb. by rewrite bool_decide_false.
  - intros blk' lead _. rewrite bool_decide_true by done. apply block_storeTail.
  - repeat split. by exists [x].
  - rewrite (ho_items _ _ _ _ _ _ _ H : l = _), !fmap_app, !concat_app. cbn. by rewrite !app_nil_r, app_assoc.
Qed.

Lemma sim_loadFrontBlock alloc q mode x tb c l fp fc a g idle fresh :
  holds q (PLoadFrontBlock mode x tb) c (mkFifo l fp fc) (a ++ [g]) idle fresh ->
  producerSim alloc q (PLoadFrontBlock mode x tb) c (mkFifo l fp fc).
Proof.
  intros H. destruct (holds_tail _ _ _ _ _ _ _ _ H) as ((blk & L & K) & Et & Ep & Ef & Em & ->). cbn in Ep, K.
  unfold producerSim. cbn [producerStep]. rewrite (blockAt_ret _ _ _ L). cbn. unfold nextOf.
  rewrite (bo_next _ _ _ _ K). cbn.
  assert (gNext g <> frontBlock q -> idle <> []) as Ni.
  { pose proof (ho_ring _ _ _ _ _ _ _ H) as R. norm. rewrite chained_app in R. intros N ->. by destruct R as (_ & R & _). }
  assert (forall p' fp', pendOf p' = (fun _ => None) -> producerInside p' = true -> producerOk p' fp' g idle fresh ->
            rel (mkSpsc q p' c) (mkFifo l fp' fc)) as Keep.
  { intros p' fp' E1 E2 Pr. exists (a ++ [g]), idle, fresh. rewrite <- (withEnqueuing_id q).
    refine (producer_keeps _ _ _ _ _ _ _ _ _ _ _ _ _ H _ _ _); try done. by rewrite (ho_enqueuing _ _ _ _ _ _ _ H). }
  case_bool_decide as E; [destruct mode|]; eexists _, _, _.
  - split; [done|]. split; [by left|]. apply Keep; [done..|]. cbn. eauto.
  - split; [done|]. split; [right; subst fp; apply ff_refuse|]. by apply Keep.
  - split; [done|]. split; [by left|]. apply Keep; [done..|]. cbn. eauto 10.
Qed.

Lemma holds_idle q p c f a g n idle fresh :
  holds q p c f (a ++ [g]) (n :: idle) fresh ->
  gNext g = gPtr n
  /\ exists blk, qHeap q !! gPtr n = Some blk /\ blockOk false (pendOf p (gPtr n)) blk n.
Proof.
  intros H. split.
  - pose proof (ho_ring _ _ _ _ _ _ _ H) as R. norm. rewrite chained_app in R. by destruct R as (_ & R & _).
  - destruct (holds_at _ _ _ _ _ _ _ n H ltac:(set_solver)) as (blk & L & K). exists blk. split; [done|].
    pose proof H as [_ _ _ _ _ _ _ _ _ _ (h & t & Ea & _)]. rewrite Ea in H.
    by rewrite (lead_other _ _ _ _ _ _ _ _ n H ltac:(set_solver)) in K.
Qed.

Lemma sim_nextFront alloc q x tb c l fp fc a g idle fresh :
  holds q (PNextFront x tb) c (mkFifo l fp fc) (a ++ [g]) idle fresh ->
  producerSim alloc q (PNextFront x tb) c (mkFifo l fp fc).
Proof.
  intros H. destruct (holds_tail _ _ _ _ _ _ _ _ H) as ((blk & L & K) & Et & Ep & Ef & Em & -> & Ni).
  destruct idle as [|n idle]; [done|]. destruct (holds_idle _ _ _ _ _ _ _ _ _ H) as (En & nblk & Ln & Kn).
  apply Forall_cons in Em as [Em Em']. cbn in Kn.
  unfold producerSim. cbn [producerStep]. rewrite (blockAt_ret _ _ _ L). cbn. unfold nextOf.
  rewrite (bo_next _ _ _ _ K), En. cbn. rewrite (blockAt_ret _ _ _ Ln). cbn.
  rewrite (bo_front _ _ _ _ Kn), (bo_tail _ _ _ _ Kn).
  assert (gT n = gF n) as E by (rewrite (bo_count _ _ _ _ Kn), Em; simpl; lia).
  rewrite E, Z.eqb_refl. eexists _, _, _. split; [done|]. split; [by left|].
  exists (a ++ [g]), (setLF (gF n) n :: idle), fresh.
  refine (producer_idle_step _ _ _ _ _ _ _ _ _ _ _ _ _ _ _ H _ _ _ _ _ _ _); try done.
  - intros blk' _. apply block_localFront.
  - repeat split; [done..|by constructor|]. exists (setLF (gF n) n), idle. repeat split; cbn; [by rewrite E|].
    pose proof (isSize_range _ (bo_size _ _ _ _ Kn)). lia.
Qed.

Lemma sim_constructNext alloc q x nb nt c l fp fc a g idle fresh :
  holds q (PConstructNext x nb nt) c (mkFifo l fp fc) (a ++ [g]) idle fresh ->
  producerSim alloc q (PConstructNext x nb nt) c (mkFifo l fp fc).
Proof.
  intros H. destruct (holds_tail _ _ _ _ _ _ _ _ H) as (_ & Et & Ep & Ef & Em & n & idle' & -> & -> & -> & Ro).
  destruct (holds_idle _ _ _ _ _ _ _ _ _ H) as (En & nblk & Ln & Kn). cbn in Kn.
  unfold producerSim. cbn [producerStep]. unfold construct. rewrite (blockAt_ret _ _ _ Ln). cbn.
  rewrite (block_free_slot _ _ _ Kn), (nextIndex_mod _ _ _ _ _ Kn). cbn. eexists _, _, _. split; [done|]. split; [by left|].
  exists (a ++ [g]), (n :: idle'), fresh.
  refine (producer_idle_step _ _ _ _ _ _ _ _ _ _ _ _ _ _ _ H _ _ _ _ _ _ _); try done; cbn.
  - intros b Hb. by rewrite bool_decide_false.
  - intros blk' L' K'. rewrite bool_decide_true by done. simplify_eq. by apply block_construct.
  - repeat split; try done. by exists n, idle'.
Qed.

Lemma sim_storeTailNext alloc q x nb nt c l fp fc a g idle fresh :
  holds q (PStoreTailNext x nb nt) c (mkFifo l fp fc) (a ++ [g]) idle fresh ->
  producerSim alloc q (PStoreTailNext x nb nt) c (mkFifo l fp fc).
Proof.
  intros H. destruct (holds_tail _ _ _ _ _ _ _ _ H) as (_ & Et & Ep & Ef & Em & n & idle' & -> & -> & ->).
  unfold producerSim. cbn [producerStep]. eexists _, _, _. split; [done|]. split; [by left|].
  apply Forall_cons in Em as [Em Em']. exists (a ++ [g]), (putItem x n :: idle'), fresh.
  refine (producer_idle_step _ _ _ _ _ _ _ _ _ _ _ _ _ _ _ H _ _ _ _ _ _ _); try done; cbn.
  - intros b Hb. by rewrite bool_decide_false.
  - intros blk' _. rewrite bool_decide_true by done. apply block_storeTail.
  - repeat split; try done. exists (putItem x n), idle'. repeat split; [|done]. cbn. by rewrite Em.
Qed.

Lemma sim_storeTailBlock alloc q x nb c l fp fc a g idle fresh :
  holds q (PStoreTailBlock x nb) c (mkFifo l fp fc) (a ++ [g]) idle fresh ->
  producerSim alloc q (PStoreTailBlock x nb) c (mkFifo l fp fc).
Proof.
  intros H. destruct (holds_tail _ _ _ _ _ _ _ _ H) as (_ & Et & (mode & Ep) & Ef & n & idle' & -> & -> & En & Em).
  cbn in Ep. unfold producerSim. cbn [producerStep]. eexists _, _, _. split; [done|]. split.
  { right. subst fp. apply ff_append. exact (holds_bound _ _ _ _ _ _ _ H). }
  exists (a ++ g :: [n]), idle', fresh. pose proof H as [N B Do R Fu It La Eq De Pr Co]. norm.
  eapply (holds_producer q _ c l fp fc); [exact H|apply grows_refl|..]; try done; norm; try done.
  - constructor; [by rewrite En|done].
  - cbn in It. rewrite It, !fmap_app, !concat_app. cbn. by rewrite En, !app_nil_r, app_assoc.
  - exists (a ++ [g]), n. split; [by rewrite <- app_assoc|]. done.
Qed.

Lemma sim_link alloc q x tb nb c l fp fc a g idle fresh :
  holds q (PLink x tb nb) c (mkFifo l fp fc) (a ++ [g]) idle fresh ->
  producerSim alloc q (PLink x tb nb) c (mkFifo l fp fc).
Proof.
  intros H. destruct (holds_tail _ _ _ _ _ _ _ _ H) as (_ & Et & Ep & Em & -> & n & -> & -> & En & Ex).
  unfold producerSim. cbn [producerStep]. eexists _, _, _. split; [done|]. split; [by left|].
  exists (a ++ [setNext (gPtr n) g]), (n :: idle), []. pose proof H as [N B Do R Fu It La Eq De Pr Co].
  assert ((a ++ g :: n :: idle) ≡ₚ (a ++ [g]) ++ idle ++ [n]) as Pm.
  { rewrite <- app_assoc. cbn. rewrite (Permutation_app_comm idle [n]). done. }
  assert (gPtr <$> a ++ setNext (gPtr n) g :: n :: idle = gPtr <$> a ++ g :: n :: idle) as Ens
    by (by rewrite !fmap_app).
  eapply (holds_producer q _ c l fp fc); [exact H|repeat split; exists []; by rewrite app_nil_r|..]; try done; norm;
    rewrite ?app_nil_r.
  - rewrite Ens. by rewrite Pm.
  - apply (blocks_update _ (leadOf c) (fun _ => None)); [by rewrite Pm|done..| |by rewrite Pm].
    intros blk' _ K. destruct K. by split.
  - eapply domOk_alter; [|exact Do]. by rewrite Ens, Pm.
  - change (a ++ setNext (gPtr n) g :: n :: idle) with (a ++ [setNext (gPtr n) g] ++ [n] ++ idle).
    change (a ++ g :: idle) with (a ++ [g] ++ idle) in R. rewrite !chained_app in *. cbn in *.
    destruct R as (R1 & (R2 & _) & R3). repeat split; [done| |done]. by rewrite Ex.
  - by apply (holds_items _ _ _ _ _ _ _ _ _ _ _ H).
  - exists a, (setNext (gPtr n) g). repeat split; try done. by exists n, idle.
Qed.

Definition newBlockSize (largest : Z) : Z :=
  if MAX_BLOCK_SIZE <=? largest then largest else to_u64 (largest * 2).

Lemma newBlockSize_ok largest : isSize largest -> isSize (newBlockSize largest).
Proof.
  intros H. unfold newBlockSize. destruct (Z.leb_spec MAX_BLOCK_SIZE largest) as [|Lt]; [done|].
  pose proof (isSize_range _ H). destruct H as (j & R & ->). unfold to_u64.
  rewrite Z.mod_small by lia. rewrite Z.mul_comm, <- Z.pow_succ_r by lia. exists (Z.succ j). split; [|done].
  unfold MAX_BLOCK_SIZE in Lt. assert (j < 9); [|lia]. apply (Z.pow_lt_mono_r_iff 2); lia.
Qed.

(** A block made for the element [x]. *)
Definition madeBlock (size : Z) (nxt : option nat) (x : T) : Block T :=
  withNext nxt (withTail 1 (withLocalTail 1 (withData (<[0%nat := Some x]> (replicate (Z.to_nat size) None)) (make_block size)))).

Lemma replicate_slots size F : 0 < size -> slots (T := T) (replicate (Z.to_nat size) None) size F [].
Proof.
  intros Hs j Hj. rewrite lookup_nil. apply lookup_replicate_2.
  pose proof (Z.mod_pos_bound (F + j) size Hs). lia.
Qed.

Lemma madeBlock_ok b nxt size x :
  isSize size -> blockOk false None (madeBlock size (Some nxt) x) (mkG b nxt size 0 1 1 0 [x]).
Proof.
  intros Hs. pose proof (isSize_range _ Hs). split; cbn; try done; try lia; rewrite ?Zmod_0_l; try done.
  - rewrite length_insert, length_replicate. lia.
  - by rewrite Z.mod_small by lia.
  - by rewrite Z.mod_small by lia.
  - apply (slots_push _ _ 0 [] x); [cbn; lia|]. apply replicate_slots. lia.
Qed.

Lemma alloc_step nb x tb q blk :
  qHeap q !! nb = None -> isSize (largestBlockSize q) -> qHeap q !! tb = Some blk -> tb <> nb ->
  let size := newBlockSize (largestBlockSize q) in
  producerStep (Some nb) (PAlloc x tb) q
  = Ret (PLink x tb nb, withLargest size (withHeap (<[nb := madeBlock size (blkNext blk) x]> (qHeap q)) q)).
Proof.
  intros Nb La L Ne size. pose proof (isSize_range _ (newBlockSize_ok _ La)) as R. fold size in R.
  cbn [producerStep]. fold (newBlockSize (largestBlockSize q)). fold size. unfold construct, blockAt. cbn.
  rewrite lookup_insert_eq. cbn. destruct (Z.to_nat size) as [|k] eqn:E; [lia|]. change (Z.to_nat 0) with 0%nat. cbn.
  rewrite lookup_alter_eq, lookup_insert_eq. cbn. rewrite lookup_alter_ne, lookup_insert_ne, L by done. cbn.
  unfold changeBlock, withHeap. cbn. unfold madeBlock. rewrite E. cbn.
  by rewrite !alter_insert_eq.
Qed.

Lemma sim_alloc alloc q x tb c l fp fc a g idle fresh :
  mallocOk q alloc -> holds q (PAlloc x tb) c (mkFifo l fp fc) (a ++ [g]) idle fresh ->
  producerSim alloc q (PAlloc x tb) c (mkFifo l fp fc).
Proof.
  intros M H. destruct (holds_tail _ _ _ _ _ _ _ _ H) as ((blk & L & K) & Et & (mode & Ep) & Ef & Em & ->). cbn in Ep, K.
  unfold producerSim. destruct alloc as [nb|].
  - destruct M as [Nb Bd]. assert (gPtr g <> nb) as Ne by congruence. pose proof (ho_largest _ _ _ _ _ _ _ H) as La.
    rewrite (alloc_step nb x _ q blk Nb La L Ne), (bo_next _ _ _ _ K). eexists _, _, _.
    split; [done|]. split; [by left|]. set (size := newBlockSize (largestBlockSize q)).
    set (n := mkG nb (gNext g) size 0 1 1 0 [x]). subst fresh.
    exists (a ++ g :: []), idle, [n]. pose proof H as [N B Do R Fu It _ Eq De Pr Co]. rewrite app_nil_r in N, B.
    assert (nb ∉ gPtr <$> (a ++ [g]) ++ idle) as Ni.
    { intros (z & -> & Hz)%list_elem_of_fmap. destruct (blocks_at _ _ _ _ _ B Hz) as (? & ? & _). congruence. }
    eapply (holds_producer q _ c l fp fc); [exact H|apply grows_refl|..]; try done.
    + rewrite app_assoc, fmap_app. apply NoDup_app. split; [done|]. split; [|apply NoDup_singleton].
      intros b Hb. cbn. by intros ->%list_elem_of_singleton.
    + rewrite app_assoc. apply Forall_app. split; [by apply blocks_insert|]. constructor; [|done]. split; [done|].
      exists (madeBlock size (Some (gNext g)) x). cbn. rewrite lookup_insert_eq. split; [done|].
      replace (leadOf c nb) with false; [by apply madeBlock_ok, newBlockSize_ok|].
      destruct Co as (h & t & Ea & _ & Co). destruct c; simpl in *; try done. symmetry.
      apply bool_decide_eq_false. destruct Co as (_ & -> & _). intros ->. apply Ni. rewrite Ea. left.
    + intros b Hb. rewrite app_assoc, fmap_app, elem_of_app. cbn in Hb. destruct (decide (b = nb)) as [->|Nn]; [right; left|].
      left. rewrite app_nil_r in Do. apply Do. by rewrite lookup_insert_ne in Hb.
    + by apply newBlockSize_ok.
    + exists a, g. split; [done|]. split; [done|]. cbn. repeat split; try done; eauto.
  - cbn [producerStep]. eexists _, _, _. split; [done|]. split; [right; subst fp; apply ff_refuse|].
    exists (a ++ [g]), idle, fresh. rewrite <- (withEnqueuing_id q).
    refine (producer_keeps _ _ _ _ _ _ _ _ _ _ _ _ _ H _ _ _); try done. by rewrite (ho_enqueuing _ _ _ _ _ _ _ H).
Qed.

(** Each step of the producer is defined and is one of the list, or none. *)
Lemma producer_sim alloc q p c f :
  rel (mkSpsc q p c) f -> producerRuns p = true -> mallocOk q alloc -> producerSim alloc q p c f.
Proof.
  intros (act & idle & fresh & H) Ru M. cbn in H. pose proof (ho_producer _ _ _ _ _ _ _ H) as (a & g & -> & _ & _).
  destruct f as [l fp fc].
  destruct p; try done; eauto using sim_start, sim_loadFront, sim_construct, sim_storeTail, sim_loadFrontBlock,
    sim_nextFront, sim_constructNext, sim_storeTailNext, sim_storeTailBlock, sim_link, sim_alloc.
Qed.

(** * Steps of the consumer *)

(** The producer still finds its tail block when one of the active blocks shrinks. *)
Lemma producer_finds p fp a g gs1 h h' gs2 idle fresh (tb : nat) :
  gs1 ++ h :: gs2 = a ++ [g] -> shrinks h h' -> tb = gPtr g -> producerOk p fp g idle fresh ->
  exists a2 g2, gs1 ++ h' :: gs2 = a2 ++ [g2] /\ tb = gPtr g2 /\ producerOk p fp g2 idle fresh.
Proof.
  intros E S -> K. destruct gs2 as [|z gs2 _] using rev_ind.
  - apply app_inj_tail in E as [-> ->]. exists a, h'. split; [done|]. split; [symmetry; apply S|by eapply producer_stable].
  - change (gs1 ++ h :: gs2 ++ [z]) with (gs1 ++ (h :: gs2) ++ [z]) in E. rewrite app_assoc in E.
    apply app_inj_tail in E as [_ ->]. exists (gs1 ++ h' :: gs2), g. split; [|done]. by rewrite <- app_assoc.
Qed.

Lemma holds_front q p c f h t idle fresh :
  holds q p c f (h :: t) idle fresh ->
  (exists blk, qHeap q !! gPtr h = Some blk /\ blockOk (leadOf c (gPtr h)) (pendOf p (gPtr h)) blk h)
  /\ frontBlock q = gPtr h /\ consumerOk c (fConsumer f) h t.
Proof.
  intros H. split; [apply (holds_at _ _ _ _ _ _ _ _ H); set_solver|].
  by destruct H as [_ _ _ _ _ _ _ _ _ _ (h' & t' & [= <- <-] & Et & Pr)].
Qed.

(** A block of the active ones changes: the front block or the one behind. *)
Lemma consumer_step q p c l fp fc gs1 g gs2 idle fresh change c' l' fc' g' :
  holds q p c (mkFifo l fp fc) (gs1 ++ g :: gs2) idle fresh ->
  consumerInside c = true -> consumerInside c' = true ->
  (forall b, b <> gPtr g -> leadOf c' b = leadOf c b) ->
  (forall blk pend, qHeap q !! gPtr g = Some blk -> blockOk (leadOf c (gPtr g)) pend blk g ->
     blockOk (leadOf c' (gPtr g)) pend (change blk) g') ->
  shrinks g g' -> (gs1 <> [] -> gItems g' = gItems g) ->
  l' = concat (gItems <$> gs1 ++ g' :: gs2) ->
  (exists h t, gs1 ++ g' :: gs2 = h :: t /\ consumerOk c' fc' h t) ->
  holds (changeBlock (gPtr g) change q) p c' (mkFifo l' fp fc') (gs1 ++ g' :: gs2) idle fresh.
Proof.
  intros H I I' El Ch Sh Ei Il (h & t & Eh & Co'). pose proof Sh as (Eg & En & _).
  pose proof H as [N B Do R Fu It La Eq De (a & gt & Ea & Et & Pr) (h0 & t0 & E0 & Ef & Co)].
  assert (gPtr <$> gs1 ++ g' :: gs2 = gPtr <$> gs1 ++ g :: gs2) as Ens by (rewrite !fmap_app, !fmap_cons, Eg; done).
  assert (gPtr h = gPtr h0) as Eh0.
  { rewrite Eh, E0 in Ens. by injection Ens as -> _. }
  split; cbn [changeBlock withHeap qHeap frontBlock tailBlock largestBlockSize enqueuing dequeuing fItems fProducer fConsumer]; try done.
  - by rewrite fmap_app, Ens, <- fmap_app.
  - norm. apply (blocks_update _ (leadOf c) (pendOf p)); [done..| |auto|done]. intros b Hb. auto.
  - eapply domOk_alter; [|exact Do]. by rewrite !(fmap_app _ (gs1 ++ _)), Ens.
  - norm. change (gs1 ++ g' :: gs2 ++ idle) with (gs1 ++ [g'] ++ (gs2 ++ idle)).
    change (gs1 ++ g :: gs2 ++ idle) with (gs1 ++ [g] ++ (gs2 ++ idle)) in R.
    rewrite !chained_app in *. cbn in *. by rewrite En, Eg.
  - destruct gs1 as [|y gs1]; [done|]. cbn in *. apply Forall_app in Fu as [F1 F2].
    apply Forall_cons in F2 as [F2 F3]. apply Forall_app. split; [done|]. constructor; [|done]. by rewrite Ei.
  - congruence.
  - by eapply producer_finds.
  - exists h, t. by rewrite Ef, Eh0.
Qed.

(** The memory stays as it is. *)
Lemma consumer_keeps q p c l fp fc h t idle fresh de c' fc' :
  holds q p c (mkFifo l fp fc) (h :: t) idle fresh -> leadOf c' = leadOf c ->
  de = consumerInside c' -> consumerOk c' fc' h t ->
  holds (withDequeuing de q) p c' (mkFifo l fp fc') (h :: t) idle fresh.
Proof.
  intros [N B Do R Fu It La Eq De Pr (h' & t' & [= <- <-] & Ef & Co)] El -> Co'. split; try done.
  - by rewrite El.
  - exists h, t. done.
Qed.

Lemma withDequeuing_id q : withDequeuing (dequeuing q) q = q.
Proof. by destruct q. Qed.

Definition consumerSim q p c f : Prop :=
  exists c' q' f', consumerStep c q = Ret (c', q')
    /\ (f' = f \/ fifoStep f Tau f') /\ rel (mkSpsc q' p c') f'.

Lemma block_takeElement pend blk g x k :
  blockOk false pend blk g -> gItems g = x :: k -> gF g < gLT g ->
  blockOk true pend (withData (<[Z.to_nat (gF g mod gSize g) := None]> (blkData blk)) blk) (setItems k g).
Proof.
  intros K E Lt. destruct K. rewrite E in *. split; simpl in *; try done; try lia.
  - by rewrite length_insert.
  - unfold cellsOf in *. simpl in *. eapply slots_take; [|exact bo_slots0]. pose proof (isSize_range _ bo_size0). lia.
Qed.

Lemma block_storeFront pend blk g :
  blockOk true pend blk g -> blockOk false pend (withFront ((gF g + 1) mod gSize g) blk) (nextF g).
Proof.
  intros K. pose proof (block_room _ _ _ _ K) as Ro. destruct K. split; simpl in *; try done; try lia.
  apply slots_advance; [|exact bo_slots0].
  pose proof (cellsOf_length false (gItems g) pend). destruct pend; simpl in *; lia.
Qed.

Lemma block_front_item pend blk g :
  blockOk false pend blk g -> gF g < gT g ->
  exists x k, gItems g = x :: k /\ blkData blk !! Z.to_nat (gF g mod gSize g) = Some (Some x).
Proof.
  intros K Lt. pose proof (bo_count _ _ _ _ K) as C. simpl in C. destruct (gItems g) as [|x k] eqn:E; simpl in C; [lia|].
  exists x, k. split; [done|]. pose proof (isSize_range _ (bo_size _ _ _ _ K)).
  eapply slots_front; [|pose proof (bo_slots _ _ _ _ K) as S; rewrite E in S; exact S]. lia.
Qed.

(** The label non_empty_front_block. *)
Lemma nonEmpty_ok op b l fp h t x k :
  gItems h = x :: k -> gF h < gLT h -> l = concat (gItems <$> h :: t) ->
  exists fc', (mkFifo l fp fc' = mkFifo l fp (FCCalled op b) \/ fifoStep (mkFifo l fp (FCCalled op b)) Tau (mkFifo l fp fc'))
    /\ consumerOk (nonEmpty op (gPtr h) (gF h mod gSize h)) fc' h t.
Proof.
  intros E Lt ->. destruct op; cbn; eexists.
  - split; [by left|]. eauto 10.
  - split; [by left|]. eauto 10.
  - split; [right; rewrite E; apply (ff_take _ _ _ OpPeek)|]. exists x. split; [done|]. left. unfold frontIs. by rewrite E.
Qed.

Lemma lead_nonEmpty op fb bf : leadOf (nonEmpty op fb bf) = fun _ => false.
Proof. by destruct op. Qed.

Lemma inside_nonEmpty op fb bf : consumerInside (nonEmpty op fb bf) = true.
Proof. by destruct op. Qed.

Lemma sim_cstart q p op l fp fc h t idle fresh :
  holds q p (CStart op) (mkFifo l fp fc) (h :: t) idle fresh ->
  consumerSim q p (CStart op) (mkFifo l fp fc).
Proof.
  intros H. destruct (holds_front _ _ _ _ _ _ _ _ H) as ((blk & L & K) & Ef & b & Ec). cbn in Ec, K. subst fc.
  unfold consumerSim. cbn [consumerStep]. rewrite (ho_dequeuing _ _ _ _ _ _ _ H). cbn.
  rewrite Ef. unfold blockAt. cbn. rewrite L. cbn. rewrite (bo_front _ _ _ _ K), (bo_localTail _ _ _ _ K).
  pose proof (bo_seen_tail _ _ _ _ K) as Ro. cbn in Ro.
  destruct (Z.eqb_spec (gF h mod gSize h) (gLT h mod gSize h)) as [E|N].
  - eexists _, _, _. split; [done|]. split; [by left|]. exists (h :: t), idle, fresh.
    refine (consumer_keeps _ _ _ _ _ _ _ _ _ _ _ _ _ H _ _ _); try done. cbn. eauto.
  - assert (gF h <> gLT h) by congruence.
    destruct (block_front_item _ _ _ K ltac:(lia)) as (x & k & Ei & _).
    destruct (nonEmpty_ok op b l fp h t x k Ei ltac:(lia) (ho_items _ _ _ _ _ _ _ H)) as (fc' & S & Co).
    eexists _, _, _. split; [done|]. split; [exact S|]. exists (h :: t), idle, fresh.
    refine (consumer_keeps _ _ _ _ _ _ _ _ _ _ _ _ _ H _ _ _); [apply lead_nonEmpty|symmetry; apply inside_nonEmpty|done].
Qed.

(** The front block is looked at with a fresh value of its tail. *)
Lemma sim_tail_read q p c op b l fp h t idle fresh next :
  holds q p c (mkFifo l fp (FCCalled op b)) (h :: t) idle fresh -> leadOf c = (fun _ => false) -> consumerInside c = true ->
  (gItems h = [] ->
   leadOf next = (fun _ => false) /\ consumerInside next = true
   /\ exists fc', (mkFifo l fp fc' = mkFifo l fp (FCCalled op b) \/ fifoStep (mkFifo l fp (FCCalled op b)) Tau (mkFifo l fp fc'))
        /\ consumerOk next fc' (setLT (gT h) h) t) ->
  let c' := if gF h mod gSize h =? gT h mod gSize h then next else nonEmpty op (gPtr h) (gF h mod gSize h) in
  let q' := changeBlock (gPtr h) (withLocalTail (gT h mod gSize h)) q in
  exists f', (f' = mkFifo l fp (FCCalled op b) \/ fifoStep (mkFifo l fp (FCCalled op b)) Tau f') /\ rel (mkSpsc q' p c') f'.
Proof.
  intros H El I Nx. destruct (holds_front _ _ _ _ _ _ _ _ H) as ((blk & L & K) & _). rewrite El in K.
  pose proof (block_room _ _ _ _ K) as Ro. pose proof (bo_seen_tail _ _ _ _ K) as Se.
  pose proof (isSize_range _ (bo_size _ _ _ _ K)). cbn in Se.
  assert (forall c' fc', leadOf c' = (fun _ => false) -> consumerInside c' = true -> consumerOk c' fc' (setLT (gT h) h) t ->
    rel (mkSpsc (changeBlock (gPtr h) (withLocalTail (gT h mod gSize h)) q) p c') (mkFifo l fp fc')) as Goes.
  { intros c' fc' El' I' Co. exists (setLT (gT h) h :: t), idle, fresh.
    refine (consumer_step _ _ _ _ _ _ [] h t _ _ _ _ _ _ _ H _ _ _ _ _ _ _ _); try done; cbn [spConsumer].
    - by rewrite El, El'.
    - intros blk' pend _. rewrite El, El'. apply block_localTail.
    - exact (ho_items _ _ _ _ _ _ _ H).
    - eauto. }
  cbn zeta. destruct (Z.eqb_spec (gF h mod gSize h) (gT h mod gSize h)) as [E|N].
  - assert (gF h = gT h) as E' by (apply mod_eq_near in E; lia).
    destruct Nx as (El' & I' & fc' & S & Co).
    { pose proof (bo_count _ _ _ _ K). destruct (gItems h); simpl in *; [done|lia]. }
    exists (mkFifo l fp fc'). split; [done|]. by apply Goes.
  - assert (gF h <> gT h) by congruence. destruct (block_front_item _ _ _ K ltac:(lia)) as (x & k & Ei & _).
    destruct (nonEmpty_ok op b l fp (setLT (gT h) h) t x k Ei ltac:(cbn; lia) (ho_items _ _ _ _ _ _ _ H)) as (fc' & S & Co).
    exists (mkFifo l fp fc'). split; [done|]. apply Goes; [apply lead_nonEmpty|apply inside_nonEmpty|done].
Qed.

Lemma sim_cloadTail q p op fb bf l fp fc h t idle fresh :
  holds q p (CLoadTail op fb bf) (mkFifo l fp fc) (h :: t) idle fresh ->
  consumerSim q p (CLoadTail op fb bf) (mkFifo l fp fc).
Proof.
  intros H. destruct (holds_front _ _ _ _ _ _ _ _ H) as ((blk & L & K) & Ef & (b & Ec) & -> & ->). cbn in Ec, K. subst fc.
  unfold consumerSim. cbn [consumerStep]. rewrite (blockAt_ret _ _ _ L). cbn. rewrite (bo_tail _ _ _ _ K).
  destruct (sim_tail_read _ _ _ _ _ _ _ _ _ _ _ (CLoadTailBlock op (gPtr h)) H eq_refl eq_refl) as (f' & S & Re).
  - intros E. split; [done|]. split; [done|]. destruct t as [|n t].
    + exists (FCCalled op true). split; [|cbn; eauto]. right. pose proof (ho_items _ _ _ _ _ _ _ H) as It.
      cbn in It. rewrite E in It. rewrite It. apply ff_see_empty.
    + exists (FCCalled op b). split; [by left|]. cbn. eauto.
  - cbn zeta in Re. destruct (_ =? _); eauto 10.
Qed.

Lemma sim_creload q p op l fp fc h t idle fresh :
  holds q p (CReload op) (mkFifo l fp fc) (h :: t) idle fresh ->
  consumerSim q p (CReload op) (mkFifo l fp fc).
Proof.
  intros H. destruct (holds_front _ _ _ _ _ _ _ _ H) as ((blk & L & K) & Ef & (b & Ec) & Nt). cbn in Ec, K. subst fc.
  unfold consumerSim. cbn [consumerStep]. rewrite Ef, (blockAt_ret _ _ _ L). cbn.
  rewrite (bo_tail _ _ _ _ K), (bo_front _ _ _ _ K).
  destruct (sim_tail_read _ _ _ _ _ _ _ _ _ _ _ (CNext op (gPtr h)) H eq_refl eq_refl) as (f' & S & Re).
  - intros E. split; [done|]. split; [done|]. exists (FCCalled op b). split; [by left|]. cbn. eauto.
  - cbn zeta in Re. destruct (_ =? _); eauto 10.
Qed.

Lemma consumer_pc q p c l fp fc h t idle fresh c' fc' :
  holds q p c (mkFifo l fp fc) (h :: t) idle fresh -> consumerInside c = true -> consumerInside c' = true ->
  leadOf c' = leadOf c -> consumerOk c' fc' h t -> rel (mkSpsc q p c') (mkFifo l fp fc').
Proof.
  intros H I I' El Co. exists (h :: t), idle, fresh. cbn. rewrite <- (withDequeuing_id q).
  refine (consumer_keeps _ _ _ _ _ _ _ _ _ _ _ _ _ H _ _ _); try done.
  by rewrite (ho_dequeuing _ _ _ _ _ _ _ H), I, I'.
Qed.

Lemma sim_cloadTailBlock q p op fb l fp fc h t idle fresh :
  holds q p (CLoadTailBlock op fb) (mkFifo l fp fc) (h :: t) idle fresh ->
  consumerSim q p (CLoadTailBlock op fb) (mkFifo l fp fc).
Proof.
  intros H. destruct (holds_front _ _ _ _ _ _ _ _ H) as (_ & Ef & -> & b & Ec & Se). cbn in Ec. subst fc.
  unfold consumerSim. cbn [consumerStep].
  destruct (ho_producer _ _ _ _ _ _ _ H) as (a & g & Ea & Et & _). rewrite Et.
  pose proof (ho_nodup _ _ _ _ _ _ _ H) as N. rewrite fmap_app in N. apply NoDup_app in N as (N & _).
  assert (gPtr h = gPtr g <-> t = []) as Eq.
  { destruct a as [|y a]; injection Ea as -> ->; [done|]. split; [|by destruct a].
    intros E. exfalso. apply NoDup_cons in N as [N _]. apply N. rewrite E. apply list_elem_of_fmap_2. set_solver. }
  case_bool_decide as E; eexists _, _, _.
  - split; [done|]. destruct Se as [->|]; [|tauto]. split; [right; apply ff_empty|].
    eapply consumer_pc; [exact H|done..|]. destruct op; cbn; eauto.
  - split; [done|]. split; [by left|]. eapply consumer_pc; [exact H|done..|]. cbn. split; [eauto|tauto].
Qed.

(** The block behind the front block. *)
Lemma holds_second q p c f h n t idle fresh :
  holds q p c f (h :: n :: t) idle fresh ->
  gNext h = gPtr n /\ gItems n <> []
  /\ exists blk, qHeap q !! gPtr n = Some blk /\ blockOk false (pendOf p (gPtr n)) blk n.
Proof.
  intros H. split; [by destruct (ho_ring _ _ _ _ _ _ _ H)|].
  split; [by pose proof (ho_full _ _ _ _ _ _ _ H) as [? _]%Forall_cons|].
  destruct (holds_at _ _ _ _ _ _ _ n H ltac:(set_solver)) as (blk & L & K). exists blk. split; [done|].
  by rewrite (lead_other _ _ _ _ _ _ _ _ n H ltac:(set_solver)) in K.
Qed.

Lemma sim_cnext q p op fb l fp fc h t idle fresh :
  holds q p (CNext op fb) (mkFifo l fp fc) (h :: t) idle fresh ->
  consumerSim q p (CNext op fb) (mkFifo l fp fc).
Proof.
  intros H. destruct (holds_front _ _ _ _ _ _ _ _ H) as ((blk & L & K) & Ef & Ec & -> & Nt & E). cbn in Ec, K.
  destruct t as [|n t]; [done|]. destruct (holds_second _ _ _ _ _ _ _ _ _ H) as (En & Ni & nblk & Ln & Kn).
  unfold consumerSim. cbn [consumerStep]. rewrite (blockAt_ret _ _ _ L). cbn. unfold nextOf.
  rewrite (bo_next _ _ _ _ K), En. cbn. rewrite (blockAt_ret _ _ _ Ln). cbn. rewrite (bo_front _ _ _ _ Kn).
  eexists _, _, _. split; [done|]. split; [by left|]. eapply consumer_pc; [exact H|done..|].
  cbn. repeat split; try done. by exists n, t.
Qed.

Lemma sim_cnextTail q p op nb nf l fp fc h t idle fresh :
  holds q p (CNextTail op nb nf) (mkFifo l fp fc) (h :: t) idle fresh ->
  consumerSim q p (CNextTail op nb nf) (mkFifo l fp fc).
Proof.
  intros H. destruct (holds_front _ _ _ _ _ _ _ _ H) as (_ & Ef & (b & Ec) & E & n & t' & -> & -> & ->).
  cbn in Ec. subst fc. destruct (holds_second _ _ _ _ _ _ _ _ _ H) as (En & Ni & nblk & Ln & Kn).
  pose proof (block_room _ _ _ _ Kn) as Ro. pose proof (bo_count _ _ _ _ Kn) as Cn.
  pose proof (isSize_range _ (bo_size _ _ _ _ Kn)).
  assert (gF n < gT n) as Lt by (destruct (gItems n); [done|]; simpl in Cn; lia).
  unfold consumerSim. cbn [consumerStep]. rewrite (blockAt_ret _ _ _ Ln). cbn. rewrite (bo_tail _ _ _ _ Kn).
  destruct (Z.eqb_spec (gF n mod gSize n) (gT n mod gSize n)) as [Em|_]; [apply mod_eq_near in Em; lia|].
  assert (op = OpPeek \/ op <> OpPeek) as [->|No] by (destruct op; auto); [|].
  - destruct (block_front_item _ _ _ Kn Lt) as (x & k & Ei & _). eexists _, _, _. split; [done|]. split.
    + right. pose proof (ho_items _ _ _ _ _ _ _ H) as It. cbn in It. rewrite E, Ei in It. cbn in It. rewrite It.
      apply (ff_take _ _ _ OpPeek).
    + replace (itemsLeft OpPeek x (k ++ concat (gItems <$> t'))) with l
        by (rewrite (ho_items _ _ _ _ _ _ _ H : l = _); cbn; by rewrite E, Ei).
      eapply consumer_pc; [exact H|done..|]. cbn. exists x. split; [done|]. right. split; [done|].
      exists n, t'. split; [done|]. unfold frontIs. by rewrite Ei.
  - assert (forall A (u v : A), match op with OpPeek => u | _ => v end = v) as -> by (by destruct op).
    eexists _, _, _. split; [done|]. split; [by left|]. exists ([h] ++ setLT (gT n) n :: t'), idle, fresh.
    refine (consumer_step _ _ _ _ _ _ [h] n t' _ _ _ _ _ _ _ H _ _ _ _ _ _ _ _); try done; cbn [spConsumer].
    + intros blk' pend _. apply block_localTail.
    + exact (ho_items _ _ _ _ _ _ _ H).
    + exists h, (setLT (gT n) n :: t'). split; [done|]. cbn. repeat split; eauto. exists (setLT (gT n) n), t'. done.
Qed.

Lemma sim_cstoreFrontBlock q p op nb nf l fp fc h t idle fresh :
  holds q p (CStoreFrontBlock op nb nf) (mkFifo l fp fc) (h :: t) idle fresh ->
  consumerSim q p (CStoreFrontBlock op nb nf) (mkFifo l fp fc).
Proof.
  intros H. destruct (holds_front _ _ _ _ _ _ _ _ H) as (_ & Ef & Ec & No & E & n & t' & -> & -> & -> & Lt).
  unfold consumerSim. cbn [consumerStep]. eexists _, _, _. split; [done|]. split; [by left|].
  exists (n :: t'), (idle ++ [h]), fresh.
  pose proof H as [N B Do R Fu It La Eq De (a & g & Ea & Et & Pr) Co].
  assert ((n :: t') ++ (idle ++ [h]) ++ fresh ≡ₚ (h :: n :: t') ++ idle ++ fresh) as Pm.
  { rewrite (Permutation_app_comm idle [h]). symmetry. apply (Permutation_middle (n :: t')). }
  split; cbn [spQueue spProducer spConsumer withFrontBlock qHeap frontBlock tailBlock largestBlockSize enqueuing dequeuing fItems fProducer fConsumer]; try done.
  - by rewrite Pm.
  - by rewrite Pm.
  - by eapply domOk_perm.
  - destruct R as [R1 R2]. rewrite app_assoc, chained_app. cbn. rewrite Ef in R2. cbn in R1. done.
  - by apply Forall_cons in Fu as [_ Fu].
  - cbn in It. by rewrite E in It.
  - destruct a as [|y a]; [done|]. injection Ea as -> Ea. exists a, g. split; [done|]. split; [done|].
    by apply producer_more_idle.
  - exists n, t'. split; [done|]. split; [done|]. cbn. eauto 10.
Qed.

Lemma sim_ctake q p op fb bf l fp fc h t idle fresh :
  holds q p (CTake op fb bf) (mkFifo l fp fc) (h :: t) idle fresh ->
  consumerSim q p (CTake op fb bf) (mkFifo l fp fc).
Proof.
  intros H. destruct (holds_front _ _ _ _ _ _ _ _ H) as ((blk & L & K) & Ef & (b & Ec) & No & -> & -> & Lt).
  cbn in Ec, K. subst fc. pose proof (bo_seen_tail _ _ _ _ K) as Se.
  destruct (block_front_item _ _ _ K ltac:(lia)) as (x & k & Ei & Sl).
  unfold consumerSim. cbn [consumerStep]. unfold takeElement. rewrite (blockAt_ret _ _ _ L). cbn. rewrite Sl. cbn.
  rewrite (nextIndex_mod _ _ _ _ _ K). eexists _, _, _. split; [done|].
  pose proof (ho_items _ _ _ _ _ _ _ H) as It. cbn in It. rewrite Ei in It. cbn in It. split.
  { right. rewrite It. apply ff_take. }
  exists (setItems k h :: t), idle, fresh.
  refine (consumer_step _ _ _ _ _ _ [] h t _ _ _ _ _ _ _ H _ _ _ _ _ _ _ _); try done; cbn [spConsumer].
  - intros b' Hb. cbn. by rewrite bool_decide_false.
  - intros blk' pend L' K'. cbn in *. rewrite bool_decide_true by done. simplify_eq. by eapply block_takeElement.
  - cbn. by destruct op.
  - exists (setItems k h), t. split; [done|]. cbn. split; [|done]. eexists. split; [done|]. by destruct op.
Qed.

Lemma sim_cstoreFront q p fb nf r l fp fc h t idle fresh :
  holds q p (CStoreFront fb nf r) (mkFifo l fp fc) (h :: t) idle fresh ->
  consumerSim q p (CStoreFront fb nf r) (mkFifo l fp fc).
Proof.
  intros H. destruct (holds_front _ _ _ _ _ _ _ _ H) as ((blk & L & K) & Ef & (o & Ec & Pl) & -> & ->).
  cbn in Ec. subst fc. unfold consumerSim. cbn [consumerStep]. eexists _, _, _. split; [done|]. split; [by left|].
  exists (nextF h :: t), idle, fresh.
  refine (consumer_step _ _ _ _ _ _ [] h t _ _ _ _ _ _ _ H _ _ _ _ _ _ _ _); try done; cbn [spConsumer].
  - intros b' Hb. cbn. by rewrite bool_decide_false.
  - intros blk' pend L' K'. cbn in *. rewrite bool_decide_true in K' by done. by apply block_storeFront.
  - exact (ho_items _ _ _ _ _ _ _ H).
  - exists (nextF h), t. split; [done|]. cbn. destruct r as [| |[[]|]]; try done; by exists o.
Qed.

(** Each step of the consumer is defined and is one of the list, or none. *)
Lemma consumer_sim q p c f :
  rel (mkSpsc q p c) f -> consumerRuns c = true -> consumerSim q p c f.
Proof.
  intros (act & idle & fresh & H) Ru. cbn in H. pose proof (ho_consumer _ _ _ _ _ _ _ H) as (h & t & -> & _ & _).
  destruct f as [l fp fc].
  destruct c; try done; eauto using sim_cstart, sim_cloadTail, sim_ctake, sim_cloadTailBlock, sim_creload, sim_cnext,
    sim_cnextTail, sim_cstoreFrontBlock, sim_cstoreFront.
Qed.

(** * Refinement *)

Lemma call_enqueue_rel q c f mode x :
  rel (mkSpsc q PIdle c) f ->
  exists f', fifoStep f (CallEnqueue mode x) f' /\ rel (mkSpsc q (PStart mode x) c) f'.
Proof.
  intros (act & idle & fresh & H). destruct f as [l fp fc]. cbn in H.
  pose proof (ho_producer _ _ _ _ _ _ _ H) as (a & g & -> & _ & Ep & Pr). cbn in Ep. subst fp.
  eexists. split; [apply ff_call_enqueue|]. exists (a ++ [g]), idle, fresh. cbn. rewrite <- (withEnqueuing_id q).
  refine (producer_keeps _ _ _ _ _ _ _ _ _ _ _ _ _ H _ _ _); try done. by rewrite (ho_enqueuing _ _ _ _ _ _ _ H).
Qed.

Lemma return_enqueue_rel q c f r :
  rel (mkSpsc q (PDone r) c) f ->
  exists f', fifoStep f (ReturnEnqueue r) f' /\ rel (mkSpsc (withEnqueuing false q) PIdle c) f'.
Proof.
  intros (act & idle & fresh & H). destruct f as [l fp fc]. cbn in H.
  pose proof (ho_producer _ _ _ _ _ _ _ H) as (a & g & -> & _ & Ep & Pr). cbn in Ep. subst fp.
  eexists. split; [apply ff_return_enqueue|]. exists (a ++ [g]), idle, fresh.
  refine (producer_keeps _ _ _ _ _ _ _ _ _ _ _ _ _ H _ _ _); done.
Qed.

Lemma call_consume_rel q p f op :
  rel (mkSpsc q p CIdle) f ->
  exists f', fifoStep f (CallConsume op) f' /\ rel (mkSpsc q p (CStart op)) f'.
Proof.
  intros (act & idle & fresh & H). destruct f as [l fp fc]. cbn in H.
  pose proof (ho_consumer _ _ _ _ _ _ _ H) as (h & t & -> & _ & Ec). cbn in Ec. subst fc.
  eexists. split; [apply ff_call_consume|]. exists (h :: t), idle, fresh. cbn. rewrite <- (withDequeuing_id q).
  refine (consumer_keeps _ _ _ _ _ _ _ _ _ _ _ _ _ H _ _ _); try done; [|cbn; eauto].
  by rewrite (ho_dequeuing _ _ _ _ _ _ _ H).
Qed.

(** A result can be looked at, and is the one of the list. *)
Lemma done_observed q p r f :
  rel (mkSpsc q p (CDone r)) f -> exists o, observe q r = Ret o /\ fConsumer f = FCDone o.
Proof.
  intros (act & idle & fresh & H). cbn in H. pose proof (ho_consumer _ _ _ _ _ _ _ H) as (h & t & -> & _ & Co).
  assert (forall g b i x, g ∈ (h :: t) ++ idle ++ fresh -> frontIs g b i x -> observe q (RPeek (Some (b, i))) = Ret (OPeek (Some x))) as Fr.
  { intros g b i x Hg (-> & -> & Hh). destruct (holds_at _ _ _ _ _ _ _ g H Hg) as (blk & L & K). cbn in K.
    cbn [observe]. rewrite (blockAt_ret _ _ _ L). cbn.
    destruct (block_front_item _ _ _ K) as (y & k & Ei & ->); [|by rewrite Ei in Hh; injection Hh as ->].
    pose proof (bo_count _ _ _ _ K). destruct (gItems g); simpl in *; [done|lia]. }
  destruct r as [v|b|[[b i]|]]; cbn [consumerOk plainResult] in Co.
  - destruct Co as (o & Ec & ->). by exists (ODequeue v).
  - destruct Co as (o & Ec & ->). by exists (OPop b).
  - destruct Co as (x & Ec & K). exists (OPeek (Some x)). split; [|done].
    destruct K as [K|(_ & n & t' & -> & K)]; eapply Fr; try done; set_solver.
  - destruct Co as (o & Ec & ->). by exists (OPeek None).
Qed.

Lemma return_consume_rel q p r o f :
  rel (mkSpsc q p (CDone r)) f -> observe q r = Ret o ->
  exists f', fifoStep f (ReturnConsume o) f' /\ rel (mkSpsc (withDequeuing false q) p CIdle) f'.
Proof.
  intros R E. destruct (done_observed _ _ _ _ R) as (o' & E' & Ec). rewrite E in E'. injection E' as <-.
  destruct R as (act & idle & fresh & H), f as [l fp fc]. cbn in H, Ec. subst fc.
  pose proof (ho_consumer _ _ _ _ _ _ _ H) as (h & t & -> & _ & _).
  eexists. split; [apply ff_return_consume|]. exists (h :: t), idle, fresh.
  refine (consumer_keeps _ _ _ _ _ _ _ _ _ _ _ _ _ H _ _ _); done.
Qed.

(** What a step of the queue is for the list: for an internal step at most one step. *)
Definition fifoMove (f : Fifo T) (lb : Label T) (f' : Fifo T) : Prop :=
  fifoStep f lb f' \/ (lb = Tau /\ f' = f).

Lemma rel_step s lb s' f : rel s f -> spscStep s lb s' -> exists f', fifoMove f lb f' /\ rel s' f'.
Proof.
  unfold fifoMove. intros R St. destruct St as [q c mode x|alloc q p c p' q' Ru M E|q c r|q p op|q p c c' q' Ru E|q p r o E].
  - destruct (call_enqueue_rel _ _ _ mode x R) as (f' & ? & ?). eauto.
  - destruct (producer_sim alloc _ _ _ _ R Ru M) as (p2 & q2 & f' & E2 & S & R'). rewrite E in E2.
    injection E2 as <- <-. exists f'. naive_solver.
  - destruct (return_enqueue_rel _ _ _ _ R) as (f' & ? & ?). eauto.
  - destruct (call_consume_rel _ _ _ op R) as (f' & ? & ?). eauto.
  - destruct (consumer_sim _ _ _ _ R Ru) as (p2 & q2 & f' & E2 & S & R'). rewrite E in E2.
    injection E2 as <- <-. exists f'. naive_solver.
  - destruct (return_consume_rel _ _ _ _ _ R E) as (f' & ? & ?). eauto.
Qed.

Lemma rel_run s f tr s' : rel s f -> run spscStep s tr s' -> exists f', run fifoStep f tr f' /\ rel s' f'.
Proof.
  intros R H. revert f R. induction H as [s|s s1 tr s2 St _ IH|s lb s1 tr s2 Ne St _ IH]; intros f R.
  - exists f. split; [constructor|done].
  - destruct (rel_step _ _ _ _ R St) as (f1 & M & R1). destruct (IH f1 R1) as (f2 & Ru & R2). exists f2. split; [|done].
    destruct M as [M|[_ ->]]; [by eapply run_tau|done].
  - destruct (rel_step _ _ _ _ R St) as (f1 & M & R1). destruct (IH f1 R1) as (f2 & Ru & R2). exists f2. split; [|done].
    destruct M as [M|[-> _]]; [by eapply run_event|done].
Qed.

(** Whatever a related state does next is defined. *)
Lemma rel_safe s f : rel s f -> spscSafe s.
Proof.
  intros R. destruct s as [q p c]. split; [|split]; cbn.
  - intros alloc M. destruct (producerRuns p) eqn:E; [|by destruct p].
    by destruct (producer_sim alloc _ _ _ _ R E M) as (p2 & q2 & f' & -> & _).
  - destruct (consumerRuns c) eqn:E; [|by destruct c].
    by destruct (consumer_sim _ _ _ _ R E) as (p2 & q2 & f' & -> & _).
  - intros r ->. by destruct (done_observed _ _ _ _ R) as (o & -> & _).
Qed.

End relation.
Arguments GBlock : clear implicits.
