(* ===== verification/SpscLife.v ===== *)
(** The life of a queue between two threads: what its constructor makes, that it is a
    list from there on, that its operations end, and what its destructor frees. *)

From S2P Require Import Prelude SpscQueue SpscProps.
From stdpp Require Import gmap list strings.

#[local] Open Scope Z_scope.

(** * The memory of a block *)

Lemma align_for_spec a ptr : 0 < a -> ptr <= align_for a ptr < ptr + a /\ align_for a ptr mod a = 0.
Proof.
  intros Ha. unfold align_for. pose proof (Z.mod_pos_bound ptr a Ha). pose proof (Z.mod_pos_bound (a - ptr mod a) a Ha).
  split; [lia|]. rewrite Z.add_mod_idemp_r by lia. replace (ptr + (a - ptr mod a)) with (ptr - ptr mod a + 1 * a) by lia.
  rewrite Z.mod_add by lia. rewrite (Z.div_mod ptr a) at 1 by lia.
  replace (a * (ptr / a) + ptr mod a - ptr mod a) with (0 + (ptr / a) * a) by lia. rewrite Z.mod_add by lia. apply Zmod_0_l.
Qed.

(** The block and its elements are aligned, do not overlap, and lie in the memory that
    make_block has asked for. *)
Theorem block_fits l capacity raw :
  0 < sizeofBlock l -> 0 < alignofBlock l -> 0 < sizeofT l -> 0 < alignofT l -> 0 <= capacity ->
  newBlockAligned l raw mod alignofBlock l = 0 /\ newBlockData l raw mod alignofT l = 0
  /\ raw <= newBlockAligned l raw /\ newBlockAligned l raw + sizeofBlock l <= newBlockData l raw
  /\ newBlockData l raw + sizeofT l * capacity <= raw + blockBytes l capacity.
Proof.
  intros. unfold newBlockData, newBlockAligned, blockBytes.
  destruct (align_for_spec (alignofBlock l) raw ltac:(lia)) as [R1 ->].
  destruct (align_for_spec (alignofT l) (align_for (alignofBlock l) raw + sizeofBlock l) ltac:(lia)) as [R2 ->]. lia.
Qed.

Section life.
Context {T : Type}.
Implicit Types (q : Queue T) (heap : gmap nat (Block T)) (gs : list (GBlock T)).

(** * Construction *)

Definition emptyG (b nxt : nat) (size : Z) : GBlock T := mkG b nxt size 0 0 0 0 [].

Definition quiet heap gs : Prop := Forall (okAt heap (fun _ => false) (fun _ => None)) gs.

Lemma emptyG_ok b nxt size :
  isSize size -> blockOk false None (withNext (Some nxt) (make_block size)) (emptyG b nxt size).
Proof.
  intros Hs. pose proof (isSize_range _ Hs). split; cbn; rewrite ?Zmod_0_l; try done; try lia.
  - rewrite length_replicate. lia.
  - apply replicate_slots. lia.
Qed.

(** A ring of empty blocks of one size. *)
Definition ring (size : Z) heap gs (first : nat) : Prop :=
  NoDup (gPtr <$> gs) /\ quiet heap gs /\ domOk heap gs /\ chained gs first
  /\ Forall (fun g => gItems g = [] /\ gSize g = size) gs.

Lemma makeBlocks_ring n size allocs heap a l first heap' r :
  isSize size -> mallocsOk allocs -> (forall b, b ∈ omap id allocs -> heap !! b = None) ->
  ring size heap (a ++ [l]) first -> head (gPtr <$> a ++ [l]) = Some first ->
  makeBlocks n size allocs heap (Some first) (Some (gPtr l)) = Ret (heap', r) ->
  exists gs, ring size heap' gs first /\ head (gPtr <$> gs) = Some first /\ r = Some first
    /\ length gs = (length (a ++ [l]) + n)%nat.
Proof.
  intros Hs. revert allocs heap a l. induction n as [|n IH]; intros allocs heap a l [Nd Bd] Fr R Hd E; cbn in E.
  { injection E as <- <-. exists (a ++ [l]). split; [done|]. split; [done|]. split; [done|lia]. }
  destruct allocs as [|[b|] allocs]; try done. cbn in Nd, Bd, Fr.
  apply NoDup_cons in Nd as [Nb Nd]. apply Forall_cons in Bd as [Bb Bd].
  pose proof (Fr b ltac:(set_solver)) as Hb. destruct R as (N & Q & Do & Ch & Em).
  assert (gPtr l <> b) as Ne.
  { destruct (blocks_at _ _ _ _ l Q ltac:(set_solver)) as (? & ? & _). congruence. }
  set (l' := setNext b l). set (g := emptyG b first size).
  assert (b ∉ gPtr <$> a ++ [l]) as Nin.
  { intros (z & -> & Hz)%list_elem_of_fmap. destruct (blocks_at _ _ _ _ z Q Hz) as (? & ? & _). congruence. }
  rewrite alter_insert_ne, alter_insert_eq in E by done.
  destruct (IH allocs (<[b := withNext (Some first) (make_block size)]> (alter (withNext (Some b)) (gPtr l) heap))
              (a ++ [l']) g) as (gs & R' & Hd' & Er & Ln); try done.
  - intros b' Hb'. rewrite lookup_insert_ne by congruence. rewrite lookup_alter_None. apply Fr. set_solver.
  - split; [|split; [|split; [|split]]].
    + rewrite fmap_app. apply NoDup_app. replace (gPtr <$> a ++ [l']) with (gPtr <$> a ++ [l]) by (by rewrite !fmap_app).
      split; [done|]. split; [|apply NoDup_singleton]. intros b' Hb'. cbn. by intros ->%list_elem_of_singleton.
    + apply Forall_app. split.
      * apply blocks_insert; [by rewrite lookup_alter_None|].
        apply (blocks_update _ (fun _ => false) (fun _ => None)); try done. intros blk _ K. destruct K. by split.
      * constructor; [|done]. split; [done|]. eexists. rewrite lookup_insert_eq. split; [done|]. by apply emptyG_ok.
    + intros b' Hb'. rewrite fmap_app, elem_of_app. destruct (decide (b' = b)) as [->|Nn]; [right; left|]. left.
      rewrite lookup_insert_ne, lookup_alter_is_Some in Hb' by done. apply Do in Hb'. by rewrite fmap_app in *.
    + rewrite !chained_app in *. cbn in *. destruct Ch as (Ch & _). done.
    + apply Forall_app in Em as [Em Ea]. apply Forall_cons in Ea as [Ea _]. repeat (apply Forall_app; split); try done.
      * by constructor.
      * by constructor.
  - rewrite <- Hd, !fmap_app. by destruct a.
  - exists gs. split; [done|]. split; [done|]. split; [done|]. rewrite Ln, !length_app. cbn. lia.
Qed.

Lemma makeBlocks_first n size allocs heap' r :
  isSize size -> mallocsOk allocs -> makeBlocks (S n) size allocs (∅ : gmap nat (Block T)) None None = Ret (heap', r) ->
  exists gs first, ring size heap' gs first /\ head (gPtr <$> gs) = Some first /\ r = Some first /\ length gs = S n.
Proof.
  intros Hs [Nd Bd] E. cbn in E. destruct allocs as [|[b|] allocs]; try done.
  cbn in Nd, Bd. apply NoDup_cons in Nd as [Nb Nd]. apply Forall_cons in Bd as [Bb Bd].
  rewrite alter_insert_eq in E.
  destruct (makeBlocks_ring n size allocs (<[b := withNext (Some b) (make_block size)]> ∅) [] (emptyG b b size) b heap' r) as (gs & R & Hd & -> & Ln); try done.
  - intros b' Hb'. rewrite lookup_insert_ne by congruence. apply lookup_empty.
  - split; [apply NoDup_singleton|]. split; [|split; [|split; [done|by constructor]]].
    + constructor; [|done]. split; [done|]. eexists. rewrite lookup_insert_eq. split; [done|]. by apply emptyG_ok.
    + intros b' [blk Hb']. apply lookup_insert_Some in Hb' as [[<- _]|[_ Hb']]; [left|].
      by rewrite lookup_empty in Hb'.
  - by exists gs, b.
Qed.

Lemma first_size size :
  1 <= size < 2 ^ 63 -> ceilToPow2 (to_u64 (size + 1)) <= MAX_BLOCK_SIZE * 2 -> isSize (ceilToPow2 (to_u64 (size + 1))).
Proof.
  intros Hs. unfold to_u64. rewrite Z.mod_small, ceilToPow2_spec by lia. intros Le.
  exists (Z.log2_up (size + 1)). split; [|done]. split.
  - apply (Z.log2_up_le_mono 2); lia.
  - apply (Z.pow_le_mono_r_iff 2); [lia|lia|]. exact Le.
Qed.

Lemma blocks_rel n size allocs q :
  (0 < n)%nat -> isSize size -> mallocsOk allocs ->
  (let! (heap, firstBlock) := makeBlocks n size allocs ∅ None None in
   match firstBlock with
   | Some b => Ret (mkQueue heap b b size false false)
   | None => Fault NullDereferenced
   end) = Ret q ->
  rel (mkSpsc q PIdle CIdle) (mkFifo [] FPIdle FCIdle).
Proof.
  intros Hn Hz M E. destruct n as [|k]; [lia|].
  destruct (makeBlocks (S k) size allocs ∅ None None) as [[heap' r]|] eqn:Em; [|done].
  destruct (makeBlocks_first k size allocs heap' r Hz M Em) as (gs & first & (N & Q & Do & Ch & Ee) & Hd & -> & Ln).
  cbn in E. injection E as <-. destruct gs as [|g gs]; [done|]. injection Hd as <-.
  apply Forall_cons in Ee as [[Eg _] Ee]. exists [g], gs, [].
  split; cbn [spQueue spProducer spConsumer qHeap]; rewrite ?app_nil_r; try done.
  - cbn. by rewrite Eg.
  - exists [], g. repeat split. eapply Forall_impl; [exact Ee|]. by intros ? [? _].
  - by exists g, [].
Qed.

(** A new queue is the empty list. *)
Lemma newQueue_rel size allocs q :
  1 <= size < 2 ^ 63 -> mallocsOk allocs -> newQueue size allocs = Ret q ->
  rel (mkSpsc q PIdle CIdle) (mkFifo [] FPIdle FCIdle).
Proof.
  intros Hs M. unfold newQueue.
  destruct (Z.ltb_spec (MAX_BLOCK_SIZE * 2) (ceilToPow2 (to_u64 (size + 1)))) as [Lt|Le]; cbn zeta; apply blocks_rel; try done.
  - assert (1 <= to_u64 (size + MAX_BLOCK_SIZE * 2 - 3) / (MAX_BLOCK_SIZE - 1)); [|lia].
    unfold MAX_BLOCK_SIZE, to_u64. rewrite Z.mod_small by lia. apply Z.div_le_lower_bound; lia.
  - exists 9. done.
  - lia.
  - by apply first_size.
Qed.

(** * Order *)

Implicit Types (f : Fifo T) (tr : list (Label T)).

Definition pendingOf (fp : FifoProducer T) : option T :=
  match fp with FPCalled _ x => Some x | _ => None end.
Definition skipOf (fc : FifoConsumer T) : bool :=
  match fc with FCDone _ => true | _ => false end.
Definition keepsItems (fc : FifoConsumer T) : Prop :=
  match fc with FCCalled OpPop _ => False | _ => True end.
Definition notPop (lb : Label T) : Prop :=
  match lb with CallConsume OpPop => False | _ => True end.

#[export] Instance notPop_dec (lb : Label T) : Decision (notPop lb).
Proof. destruct lb as [| | |[]|]; apply _. Defined.

Lemma run_done_enqueue f tr f' r x :
  run fifoStep f tr f' -> fProducer f = FPDone r -> fProducer f' = FPIdle ->
  puts (Some x) tr = (if r then [x] else []) ++ puts None tr.
Proof.
  induction 1 as [f|f f1 tr f2 St _ IH|f lb f1 tr f2 Ne St _ IH]; intros E E'.
  - congruence.
  - apply IH; [|done]. inversion St; subst; simpl in *; congruence.
  - inversion St; subst; simpl in *; simplify_eq; try (by apply IH). by destruct r.
Qed.

Lemma run_done_consume f tr f' o :
  run fifoStep f tr f' -> fConsumer f = FCDone o -> fConsumer f' = FCIdle ->
  gots false tr = observedItem o ++ gots true tr.
Proof.
  induction 1 as [f|f f1 tr f2 St _ IH|f lb f1 tr f2 Ne St _ IH]; intros E E'.
  - congruence.
  - apply IH; [|done]. inversion St; subst; simpl in *; congruence.
  - inversion St; subst; simpl in *; simplify_eq; try (by apply IH). done.
Qed.

(** What has been put in is what has been taken out, followed by what is there. *)
Lemma fifo_order f tr f' :
  run fifoStep f tr f' -> fProducer f' = FPIdle -> fConsumer f' = FCIdle -> keepsItems (fConsumer f) -> Forall notPop tr ->
  fItems f ++ puts (pendingOf (fProducer f)) tr = gots (skipOf (fConsumer f)) tr ++ fItems f'.
Proof.
  induction 1 as [f|f f1 tr f2 St Ru IH|f lb f1 tr f2 Ne St Ru IH]; intros Ep Ec Ke Np.
  - rewrite Ep, Ec. cbn. apply app_nil_r.
  - inversion St; subst; cbn in *; first [rewrite <- IH by done
      |rewrite (run_done_consume _ _ _ _ Ru eq_refl Ec), <- app_assoc, <- IH by done].
    + by rewrite (run_done_enqueue _ _ _ _ x Ru eq_refl Ep), <- app_assoc.
    + by rewrite (run_done_enqueue _ _ _ _ x Ru eq_refl Ep).
    + done.
    + by destruct op.
    + by destruct op.
  - apply Forall_cons in Np as [Nl Np].
    inversion St; subst; try done; cbn in *; rewrite <- IH by (done || by destruct op); try done. by destruct r.
Qed.

(** * Every call ends *)

(** How many steps a call may still make. *)
Definition producerRank (p : ProducerPc T) : nat :=
  match p with
  | PIdle | PDone _ => 0
  | PStart _ _ => 7
  | PLoadFront _ _ _ _ => 6
  | PLoadFrontBlock _ _ _ => 5
  | PNextFront _ _ => 4
  | PConstructNext _ _ _ | PAlloc _ _ => 3
  | PStoreTailNext _ _ _ | PLink _ _ _ | PConstruct _ _ _ => 2
  | PStoreTailBlock _ _ | PStoreTail _ _ _ => 1
  end.

Definition consumerRank (c : ConsumerPc T) : nat :=
  match c with
  | CIdle | CDone _ => 0
  | CStart _ => 9
  | CLoadTail _ _ _ => 8
  | CLoadTailBlock _ _ => 7
  | CReload _ => 6
  | CNext _ _ => 5
  | CNextTail _ _ _ => 4
  | CStoreFrontBlock _ _ _ => 3
  | CTake _ _ _ => 2
  | CStoreFront _ _ _ => 1
  end.

Lemma producer_rank alloc p q p' q' :
  producerRuns p = true -> producerStep alloc p q = Ret (p', q') -> (producerRank p' < producerRank p)%nat.
Proof. intros Ru E. destruct p; try done; cbn in E; unfold construct, obind in E; repeat case_match; simplify_eq; cbn; lia. Qed.

Lemma consumer_rank c q c' q' :
  consumerRuns c = true -> consumerStep c q = Ret (c', q') -> (consumerRank c' < consumerRank c)%nat.
Proof.
  intros Ru E. destruct c; try done; cbn in E; unfold takeElement, obind in E; repeat case_match; simplify_eq;
    try (destruct op; cbn; lia); cbn; lia.
Qed.

(** * The blocks of a queue at rest *)

(** The queue holds [l] and nobody works on it. *)
Definition atRest q (l : list T) : Prop := rel (mkSpsc q PIdle CIdle) (mkFifo l FPIdle FCIdle).

Lemma atRest_ring q l :
  atRest q l ->
  exists gs, head (gPtr <$> gs) = Some (frontBlock q) /\ NoDup (gPtr <$> gs) /\ quiet (qHeap q) gs
    /\ domOk (qHeap q) gs /\ chained gs (frontBlock q) /\ l = concat (gItems <$> gs).
Proof.
  intros (act & idle & fresh & [N B Do R Fu It La En De Pr Co]). cbn in *.
  destruct Pr as (a & g & Ea & _ & _ & -> & Em). destruct Co as (h & t & -> & Ef & _).
  rewrite app_nil_r in *. exists ((h :: t) ++ idle). rewrite Ef in *.
  split; [done|]. split; [done|]. split; [done|]. split; [done|]. split; [done|].
  rewrite It, fmap_app, concat_app. clear -Em.
  assert (concat (gItems <$> idle) = []) as ->; [|by rewrite app_nil_r].
  induction Em as [|g idle E _ IH]; [done|]. cbn. by rewrite E.
Qed.

Lemma quiet_at heap gs g : quiet heap gs -> g ∈ gs -> exists blk, heap !! gPtr g = Some blk /\ blockOk false None blk g.
Proof. apply blocks_at. Qed.

(** Going round the ring ends. *)
Lemma ring_fuel heap gs : NoDup (gPtr <$> gs) -> quiet heap gs -> (length gs <= size heap)%nat.
Proof.
  intros N Q. rewrite <- (length_fmap gPtr). rewrite <- (size_list_to_set (C := gset nat) _ N).
  rewrite <- (size_dom (D := gset nat) heap). apply subseteq_size. intros b Hb.
  apply elem_of_list_to_set, list_elem_of_fmap in Hb as (g & -> & Hg). apply elem_of_dom.
  destruct (quiet_at _ _ _ Q Hg) as (blk & ? & _). eauto.
Qed.

Lemma sumBlocks_ring fuel (f : Block T -> Z) (val : GBlock T -> Z) q gs g first r :
  (forall blk g, blockOk false None blk g -> f blk = val g) ->
  quiet (qHeap q) (g :: gs) -> chained (g :: gs) first -> first ∉ gPtr <$> gs -> (length gs < fuel)%nat ->
  sumBlocks fuel f first (gPtr g) r q = Ret (to_u64 (r + foldr Z.add 0 (val <$> g :: gs))).
Proof.
  intros V. revert g gs r. induction fuel as [|fuel IH]; intros g gs r Q Ch Nf L; [lia|].
  destruct (quiet_at _ _ g Q ltac:(left)) as (blk & Lk & K). cbn [sumBlocks].
  rewrite (blockAt_ret _ _ _ Lk). cbn. unfold nextOf. rewrite (bo_next _ _ _ _ K). cbn.
  destruct Ch as [Hn Ch]. rewrite Hn, (V _ _ K). destruct gs as [|g2 gs]; cbn.
  - rewrite bool_decide_true by done. by rewrite Z.add_0_r.
  - rewrite bool_decide_false by set_solver. apply Forall_cons in Q as [_ Q]. rewrite (IH g2 gs); [|done|done|set_solver|cbn in L; lia].
    f_equal. unfold to_u64. rewrite Z.add_mod_idemp_l by lia. f_equal. cbn. lia.
Qed.

Lemma count_items gs heap :
  quiet heap gs -> foldr Z.add 0 ((fun g => gT g - gF g) <$> gs) = Z.of_nat (length (concat (gItems <$> gs))).
Proof.
  induction 1 as [|g gs (_ & blk & _ & K) _ IH]; [done|]. cbn. rewrite IH, length_app.
  pose proof (bo_count _ _ _ _ K). cbn in *. lia.
Qed.

(** size_approx counts the elements. *)
Theorem size_approx_exact q l fuel :
  atRest q l -> (size (qHeap q) <= fuel)%nat -> size_approx fuel q = Ret (Z.of_nat (length l)).
Proof.
  intros A Fu. assert (Z.of_nat (length l) < maxItems) as Bd.
  { destruct A as (act & idle & fresh & H). exact (holds_bound _ _ _ _ _ _ _ H). }
  destruct (atRest_ring q l A) as (gs & Hd & N & Q & Do & Ch & ->). pose proof (ring_fuel _ _ N Q) as Rf.
  destruct gs as [|g gs]; [done|]. injection Hd as Hd. unfold size_approx. rewrite <- Hd in *.
  rewrite (sumBlocks_ring fuel blockCount (fun g => gT g - gF g) q gs g); try done.
  - rewrite (count_items _ _ Q). unfold to_u64, maxItems in *. rewrite Z.mod_small; [done|]. lia.
  - intros blk g' K. unfold blockCount. rewrite (bo_mask _ _ _ _ K), land_sizeMask by apply K.
    rewrite (bo_tail _ _ _ _ K), (bo_front _ _ _ _ K), <- Zminus_mod. apply Z.mod_small.
    pose proof (block_room _ _ _ _ K). lia.
  - by apply NoDup_cons in N as [N _].
  - cbn in Rf. lia.
Qed.

(** * Destruction *)

Lemma destroyElements_ok fuel b q blk s F items :
  qHeap q !! b = Some blk -> isSize s -> blkSizeMask blk = s - 1 -> slots (blkData blk) s F (Some <$> items) ->
  Z.of_nat (length items) < s -> (length items <= fuel)%nat ->
  exists d, destroyElements fuel b (F mod s) ((F + Z.of_nat (length items)) mod s) q
            = Ret (withHeap (<[b := withData d blk]> (qHeap q)) q)
    /\ slots d s (F + Z.of_nat (length items)) [].
Proof.
  intros L Hs Em. pose proof (isSize_range _ Hs) as Rs. revert fuel q blk F L Em.
  induction items as [|x items IH]; intros fuel q blk F L Em Sl Ln Fu.
  - exists (blkData blk). cbn. rewrite Z.add_0_r. split; [|done].
    destruct fuel; cbn; rewrite Z.eqb_refl; f_equal; rewrite insert_id; try done; try (by destruct q); by destruct blk.
  - destruct fuel as [|fuel]; [cbn in Fu; lia|]. cbn [length] in *.
    destruct (IH fuel (changeBlock b (withData (<[Z.to_nat (F mod s) := None]> (blkData blk))) q)
                (withData (<[Z.to_nat (F mod s) := None]> (blkData blk)) blk) (F + 1)) as (d & E & Sd).
    + cbn. by rewrite lookup_alter_eq, L.
    + done.
    + cbn. apply slots_advance; [rewrite length_fmap; lia|]. eapply slots_take; [lia|exact Sl].
    + lia.
    + lia.
    + exists d. replace (F + Z.of_nat (S (length items))) with (F + 1 + Z.of_nat (length items)) by lia.
      split; [|done]. cbn [destroyElements].
      destruct (Z.eqb_spec (F mod s) ((F + 1 + Z.of_nat (length items)) mod s)) as [Eq|_].
      { apply mod_eq_near in Eq; lia. }
      unfold takeElement. rewrite (blockAt_ret _ _ _ L). cbn.
      rewrite (slots_front _ s F (Some x) (Some <$> items)) by (done || lia). cbn.
      unfold nextIndex. rewrite Em, land_sizeMask, mod_succ by (done || lia). rewrite E.
      f_equal. cbn. rewrite insert_alter_eq. done.
Qed.

(** Nothing of the ring is left, and nothing else is touched. *)
Lemma destroyBlocks_ok fuel q gs g first :
  NoDup (gPtr <$> g :: gs) -> quiet (qHeap q) (g :: gs) -> chained (g :: gs) first -> first ∉ gPtr <$> gs ->
  (length gs < fuel)%nat ->
  exists q', destroyBlocks fuel first (gPtr g) q = Ret q'
    /\ forall b, qHeap q' !! b = if decide (b ∈ gPtr <$> g :: gs) then None else qHeap q !! b.
Proof.
  revert q g gs. induction fuel as [|fuel IH]; intros q g gs N Q Ch Nf L; [lia|].
  destruct (quiet_at _ _ g Q ltac:(left)) as (blk & Lk & K). cbn [destroyBlocks].
  rewrite (blockAt_ret _ _ _ Lk). cbn. unfold nextOf. rewrite (bo_next _ _ _ _ K). cbn.
  pose proof (bo_count _ _ _ _ K) as Cn. cbn in Cn. pose proof (block_room _ _ _ _ K) as Ro.
  pose proof (bo_length _ _ _ _ K) as Le. rewrite (bo_front _ _ _ _ K), (bo_tail _ _ _ _ K).
  destruct (destroyElements_ok (length (blkData blk)) (gPtr g) q blk (gSize g) (gF g) (gItems g)) as (d & E & _);
    [done|apply K|apply K| |lia|lia|].
  { pose proof (bo_slots _ _ _ _ K) as S. unfold cellsOf in S. cbn in S. by rewrite app_nil_r in S. }
  replace (gT g) with (gF g + Z.of_nat (length (gItems g))) by lia. rewrite E. cbn.
  destruct Ch as [Hn Ch]. rewrite Hn. apply NoDup_cons in N as [Ng N]. apply Forall_cons in Q as [_ Q].
  destruct gs as [|g2 gs]; cbn.
  - rewrite bool_decide_true by done. eexists. split; [done|]. intros b. cbn. rewrite delete_insert_eq.
    destruct (decide (b ∈ [gPtr g])) as [->%list_elem_of_singleton|Ni]; [by rewrite lookup_delete_eq|].
    rewrite lookup_delete_ne; [done|]. intros <-. apply Ni. left.
  - rewrite bool_decide_false by set_solver. rewrite delete_insert_eq.
    destruct (IH (withHeap (delete (gPtr g) (qHeap q)) (withHeap (<[gPtr g := withData d blk]> (qHeap q)) q)) g2 gs)
      as (q' & E' & Hq); [done| |done|set_solver|cbn in L; lia|].
    + cbn. unfold quiet in *. rewrite Forall_forall in Q |- *. intros z Hz. destruct (Q z Hz) as (Bz & zb & Lz & Kz). split; [done|].
      exists zb. rewrite lookup_delete_ne; [done|]. intros Ez. apply Ng. rewrite Ez. by apply (list_elem_of_fmap_2 gPtr (g2 :: gs)).
    + exists q'. split; [exact E'|]. intros b. rewrite Hq. cbn.
      destruct (decide (b ∈ gPtr g2 :: (gPtr <$> gs))) as [Hb|Hb].
      * rewrite decide_True; [done|]. by right.
      * destruct (decide (b = gPtr g)) as [->|Nb].
        -- rewrite decide_True by left. by rewrite lookup_delete_eq.
        -- rewrite decide_False; [|by intros [?|?]%elem_of_cons]. by rewrite lookup_delete_ne.
Qed.

Lemma destroyQueue_frees q l fuel :
  atRest q l -> (size (qHeap q) <= fuel)%nat -> exists q', destroyQueue fuel q = Ret q' /\ qHeap q' = ∅.
Proof.
  intros A Fu. destruct (atRest_ring q l A) as (gs & Hd & N & Q & Do & Ch & ->). pose proof (ring_fuel _ _ N Q) as Rf.
  destruct gs as [|g gs]; [done|]. injection Hd as Hd. unfold destroyQueue. rewrite <- Hd in *.
  destruct (destroyBlocks_ok fuel q gs g (gPtr g)) as (q' & E & Hq); try done.
  - by apply NoDup_cons in N as [N _].
  - cbn in Rf. lia.
  - exists q'. split; [done|]. apply map_eq. intros b. rewrite Hq, lookup_empty.
    case_decide as Hb; [done|]. destruct (qHeap q !! b) eqn:Eb; [|done]. exfalso. apply Hb, Do. eauto.
Qed.

End life.

(** * What holds of a queue from its construction on *)

(** C4: the queue between two threads is a list: from its construction on, in every
    interleaving of the steps of a producer and a consumer and whatever malloc returns,
    their calls return what a list returns on which every enqueue and every dequeue
    takes effect at one moment of its call; and in every state the next step of either
    thread is defined: no assertion fails, no pointer dangles, no slot is read that
    holds no element, and none is constructed over an element. *)
Theorem spsc_refines_list {T} size allocs (q : Queue T) tr s :
  1 <= size < 2 ^ 63 -> mallocsOk allocs -> newQueue size allocs = Ret q ->
  run spscStep (mkSpsc q PIdle CIdle) tr s ->
  (exists f, run fifoStep (mkFifo [] FPIdle FCIdle) tr f) /\ spscSafe s.
Proof.
  intros Hs M E Ru. destruct (rel_run _ _ _ _ (newQueue_rel _ _ _ Hs M E) Ru) as (f & Rf & R).
  split; [by exists f|by eapply rel_safe].
Qed.

Lemma run_atRest {T} size allocs (q : Queue T) tr s :
  1 <= size < 2 ^ 63 -> mallocsOk allocs -> newQueue size allocs = Ret q ->
  run spscStep (mkSpsc q PIdle CIdle) tr s -> spProducer s = PIdle -> spConsumer s = CIdle ->
  exists l, run fifoStep (mkFifo [] FPIdle FCIdle) tr (mkFifo l FPIdle FCIdle) /\ atRest (spQueue s) l.
Proof.
  intros Hs M E Ru Ep Ec. destruct (rel_run _ _ _ _ (newQueue_rel _ _ _ Hs M E) Ru) as ([l fp fc] & Rf & R).
  pose proof R as (act & idle & fresh & H). rewrite Ep, Ec in H.
  destruct (ho_producer _ _ _ _ _ _ _ H) as (a & g & _ & _ & P & _). destruct (ho_consumer _ _ _ _ _ _ _ H) as (h & t & _ & _ & C).
  cbn in P, C. subst fp fc. exists l. split; [done|]. destruct s as [q' p c]. cbn in *. by subst.
Qed.

(** C23: nothing is lost, doubled or reordered: when both threads are outside, the
    elements of the enqueue calls that have returned true, in the order of the calls,
    are those try_dequeue has returned, followed by those that are still in the queue,
    as many as size_approx says. *)
Theorem spsc_order {T} size allocs (q : Queue T) tr s :
  1 <= size < 2 ^ 63 -> mallocsOk allocs -> newQueue size allocs = Ret q ->
  run spscStep (mkSpsc q PIdle CIdle) tr s -> spProducer s = PIdle -> spConsumer s = CIdle -> Forall notPop tr ->
  exists l, enqueued tr = (dequeued tr ++ l)%list
    /\ size_approx (base.size (qHeap (spQueue s))) (spQueue s) = Ret (Z.of_nat (length l)).
Proof.
  intros Hs M E Ru Ep Ec Np. destruct (run_atRest _ _ _ _ _ Hs M E Ru Ep Ec) as (l & Rf & A). exists l. split.
  - exact (fifo_order _ _ _ Rf eq_refl eq_refl I Np).
  - by apply size_approx_exact.
Qed.

(** C30: no call of the queue waits for the other thread: each step of a call leaves it
    fewer steps to make, whatever the other thread does in between, and no call makes
    more than [opSteps]. *)
Theorem spsc_wait_free {T} :
  (forall alloc (p : ProducerPc T) q p' q',
     producerRuns p = true -> producerStep alloc p q = Ret (p', q') -> (producerRank p' < producerRank p)%nat)
  /\ (forall (c : ConsumerPc T) q c' q',
     consumerRuns c = true -> consumerStep c q = Ret (c', q') -> (consumerRank c' < consumerRank c)%nat)
  /\ (forall mode (x : T), (producerRank (PStart mode x) <= opSteps)%nat)
  /\ (forall op, (consumerRank (T := T) (CStart op) <= opSteps)%nat).
Proof.
  split; [apply producer_rank|]. split; [apply consumer_rank|]. unfold opSteps. cbn. split; intros; lia.
Qed.

(** C35: the destructor of a queue that nobody uses any more ends, destroys only elements
    that are there, and gives back every block: none is leaked, none is freed twice. *)
Theorem queue_destroyed {T} size allocs (q : Queue T) tr s :
  1 <= size < 2 ^ 63 -> mallocsOk allocs -> newQueue size allocs = Ret q ->
  run spscStep (mkSpsc q PIdle CIdle) tr s -> spProducer s = PIdle -> spConsumer s = CIdle ->
  exists q', destroyQueue (base.size (qHeap (spQueue s))) (spQueue s) = Ret q' /\ qHeap q' = ∅.
Proof.
  intros Hs M E Ru Ep Ec. destruct (run_atRest _ _ _ _ _ Hs M E Ru Ep Ec) as (l & _ & A).
  by eapply destroyQueue_frees.
Qed.

(** * A run *)

(** A queue for one element: the second enqueue makes a new block while the consumer is
    about to look at the tail of the first one. *)
Definition demoQueue : Queue Z :=
  match newQueue 1 [Some 0%nat] with Ret q => q | Fault _ => mkQueue ∅ 0 0 0 false false end.

Definition demoMoves : list (Move Z) :=
  [MCallEnqueue CanAlloc 7; MProducer None; MProducer None; MCallConsume OpDequeue; MConsumer; MProducer None;
   MReturnEnqueue; MConsumer; MCallEnqueue CanAlloc 8] ++ replicate 4 (MProducer (Some 5%nat)) ++ [MConsumer] ++
  replicate 2 (MProducer None) ++ [MReturnEnqueue] ++ [MConsumer; MReturnConsume; MCallEnqueue CanAlloc 9] ++
  replicate 3 (MProducer None) ++ [MReturnEnqueue; MCallConsume OpDequeue] ++ replicate 9 MConsumer ++ [MReturnConsume].
Definition demoRun := moves demoMoves (mkSpsc demoQueue PIdle CIdle).
Definition demoTrace : list (Label Z) := match demoRun with Some (tr, _) => tr | None => [] end.
Definition demoEnd : Spsc Z := match demoRun with Some (_, s) => s | None => mkSpsc demoQueue PIdle CIdle end.

Lemma demo_allocs : mallocsOk [Some 0%nat].
Proof. split; [by apply NoDup_singleton|by constructor]. Qed.

Lemma demo_new : newQueue 1 [Some 0%nat] = Ret demoQueue.
Proof. vm_compute. reflexivity. Qed.

Lemma demo_run : run spscStep (mkSpsc demoQueue PIdle CIdle) demoTrace demoEnd.
Proof. apply (moves_run demoMoves). vm_compute. reflexivity. Qed.

Lemma spsc_refines_list_witness :
  (exists f, run fifoStep (mkFifo [] FPIdle FCIdle) demoTrace f) /\ spscSafe demoEnd.
Proof. apply (spsc_refines_list 1 [Some 0%nat] demoQueue); [lia|apply demo_allocs|apply demo_new|apply demo_run]. Defined.

Lemma spsc_order_witness :
  exists l, enqueued demoTrace = (dequeued demoTrace ++ l)%list
    /\ size_approx (base.size (qHeap (spQueue demoEnd))) (spQueue demoEnd) = Ret (Z.of_nat (length l)).
Proof.
  apply (spsc_order 1 [Some 0%nat] demoQueue); [lia|apply demo_allocs|apply demo_new|apply demo_run|..];
    [vm_compute; reflexivity..|]. apply (bool_decide_unpack _). vm_compute. exact I.
Defined.

Lemma queue_destroyed_witness :
  exists q', destroyQueue (base.size (qHeap (spQueue demoEnd))) (spQueue demoEnd) = Ret q' /\ qHeap q' = ∅.
Proof.
  apply (queue_destroyed 1 [Some 0%nat] demoQueue demoTrace); [lia|apply demo_allocs|apply demo_new|apply demo_run|..];
    vm_compute; reflexivity.
Defined.

(** The trace is the one the calls above make, and one element is left. *)
Example demo_trace : enqueued demoTrace = [7; 8; 9] /\ dequeued demoTrace = [7; 8].
Proof. vm_compute. done. Qed.

(** A queue made for 0 elements has a block of one slot, which can hold none: when the
    ring comes round to it, an element is constructed there, the tail returns to the
    front, and the element is not found again.  The assertion of try_dequeue fails. *)
Theorem zero_size_queue_fails :
  (let! q := newQueue 0 [Some 0%nat] in
   let! (_, q) := enqueue (Some 1%nat) 10 q in
   let! (_, q) := try_dequeue q in
   let! (_, q) := enqueue (Some 2%nat) 20 q in
   let! (_, q) := enqueue (Some 3%nat) 30 q in
   let! (_, q) := try_dequeue q in
   try_dequeue q) = Fault AssertionFailed.
Proof. vm_compute. reflexivity. Qed.
