(* ===== verification/BlockingQueue.v ===== *)
(** The queue with blocking operations: spsc_sema::LightweightSemaphore and the POSIX
    Semaphore of atomicops.h, and moodycamel::BlockingReaderWriterQueue of
    readerwriterqueue.h.

    As in [SpscQueue] an operation is a program counter, and a step makes one access to
    what both threads share: the counter, the semaphore of the kernel, or whatever a
    step of the inner queue accesses.  The blocking queue is defined over an interface
    of the inner queue, [SpscObject], which the blocks of [SpscQueue] and the list of
    its specification implement. *)

From S2P Require Import Prelude SpscQueue.
From stdpp Require Import gmap list strings.

#[local] Open Scope Z_scope.

(** * Semaphore (POSIX) *)

(** The time until which timed_wait waits, as seconds and nanoseconds, from the clock. *)
Definition usecs_in_1_sec : Z := 1000000.
Definition nsecs_in_1_sec : Z := 1000000000.

Definition deadline (now : Z * Z) (usecs : Z) : Z * Z :=
  let tv_sec := now.1 + usecs / usecs_in_1_sec in
  let tv_nsec := now.2 + usecs mod usecs_in_1_sec * 1000 in
  if nsecs_in_1_sec <=? tv_nsec then (tv_sec + 1, tv_nsec - nsecs_in_1_sec) else (tv_sec, tv_nsec).

(** What a call of sem_wait, sem_trywait or sem_timedwait returns. *)
Inductive SemResult : Set := SemTaken | SemInterrupted | SemFailed.

(** wait, try_wait and timed_wait call again while a signal interrupts the call. *)
Fixpoint untilDone (results : list SemResult) : option bool :=
  match results with
  | [] => None
  | SemTaken :: _ => Some true
  | SemInterrupted :: rest => untilDone rest
  | SemFailed :: _ => Some false
  end.

(** * LightweightSemaphore *)

Record Sema := mkSema {
  m_count : Z;   (** below 0 while the consumer waits *)
  m_sema : Z     (** the value of the semaphore of the kernel *)
}.

Definition newSema : Sema := mkSema 0 0.

(** fetch_add_acquire and fetch_add_release: the old value is returned. *)
Definition fetch_add (increment : Z) (s : Sema) : Z * Sema :=
  (m_count s, mkSema (to_i64 (m_count s + increment)) (m_sema s)).

(** A successful wait on the semaphore of the kernel, if it does not block. *)
Definition semTake (s : Sema) : option Sema :=
  if 0 <? m_sema s then Some (mkSema (m_count s) (m_sema s - 1)) else None.

Definition semPost (s : Sema) : Sema := mkSema (m_count s) (m_sema s + 1).

Definition availableApprox (s : Sema) : Z := if 0 <? m_count s then m_count s else 0.

(** wait(timeout_usecs) and tryWait() *)
Inductive WaitPc : Set :=
| WLoad (timeout : option Z)      (** tryWait: m_count.load(); without a timeout, tryWait alone *)
| WTryTake                        (** tryWait: fetch_add_acquire(-1) *)
| WFetch (timeout : Z)            (** waitWithPartialSpinning: fetch_add_acquire(-1) *)
| WBlock (timeout : Z)            (** m_sema.wait() or timed_wait() *)
| WRestore                        (** fetch_add_release(1) after a timeout *)
| WRetake                         (** fetch_add_acquire(-1) *)
| WTryPost                        (** m_sema.try_wait() *)
| WDone (acquired : bool).

(** [expired]: the time is over, if the step waits with a timeout; the kernel may report
    that although the semaphore has just been posted. *)
Definition waitStep (expired : bool) (w : WaitPc) (s : Sema) : option (WaitPc * Sema) :=
  match w with
  | WLoad timeout =>
      if 0 <? m_count s then Some (WTryTake, s)
      else Some (match timeout with Some t => WFetch t | None => WDone false end, s)
  | WTryTake => Some (WDone true, (fetch_add (-1) s).2)
  | WFetch timeout =>
      let (oldCount, s') := fetch_add (-1) s in
      if 0 <? oldCount then Some (WDone true, s')
      else if timeout =? 0 then Some (WRestore, s')
      else Some (WBlock timeout, s')
  | WBlock timeout =>
      if (0 <? timeout) && expired then Some (WRestore, s)
      else match semTake s with
           | Some s' => Some (WDone true, s')
           | None => None
           end
  | WRestore =>
      let (oldCount, s') := fetch_add 1 s in
      if oldCount <? 0 then Some (WDone false, s') else Some (WRetake, s')
  | WRetake =>
      let (oldCount, s') := fetch_add (-1) s in
      if 0 <? oldCount then Some (WTryPost, s') else Some (WRestore, s')
  | WTryPost =>
      match semTake s with
      | Some s' => Some (WDone true, s')
      | None => Some (WRestore, s)
      end
  | WDone _ => None
  end.

(** A wait that the other thread does not interfere with. *)
Fixpoint runWait (fuel : nat) (expired : bool) (w : WaitPc) (s : Sema) : option (bool * Sema) :=
  match w, fuel with
  | WDone acquired, _ => Some (acquired, s)
  | _, O => None
  | _, S fuel' =>
      match waitStep expired w s with
      | Some (w', s') => runWait fuel' expired w' s'
      | None => None
      end
  end.

(** * BlockingReaderWriterQueue *)

(** An inner queue: its states and what its threads do. *)
Class SpscObject (T : Type) := {
  ObjState : Type;
  objStep : ObjState -> Label T -> ObjState -> Prop
}.

#[export] Instance spscObject (T : Type) : SpscObject T :=
  {| ObjState := Spsc T; objStep := spscStep |}.
Definition fifoObject (T : Type) : SpscObject T :=
  {| ObjState := Fifo T; objStep := fifoStep |}.

Inductive BlockingProducer : Set :=
| BPIdle
| BPInner                  (** in inner.enqueue *)
| BPAdd                    (** signal: fetch_add_release(1) *)
| BPPost                   (** signal: m_sema.signal(1) *)
| BPDone (r : bool).

(** try_dequeue, pop, wait_dequeue, wait_dequeue_timed, peek *)
Inductive BlockingOp : Set :=
| BTryDequeue
| BPop
| BWait
| BWaitTimed (timeout_usecs : Z)
| BPeek.

#[export] Instance BlockingOp_eq_dec : EqDecision BlockingOp.
Proof. solve_decision. Defined.

Definition innerOp (op : BlockingOp) : ConsumerOp :=
  match op with BPop => OpPop | BPeek => OpPeek | _ => OpDequeue end.

(** Where the operations start. *)
Definition firstWait (op : BlockingOp) : WaitPc :=
  match op with
  | BWait => WLoad (Some (-1))
  | BWaitTimed t => WLoad (Some t)
  | _ => WLoad None
  end.

Inductive BlockingConsumer (T : Type) :=
| BCIdle
| BCWait (op : BlockingOp) (w : WaitPc)
| BCInner (op : BlockingOp)                      (** in inner.try_dequeue, pop or peek *)
| BCAssert (op : BlockingOp) (o : Observed T)    (** assert(success) *)
| BCDone (o : Observed T).
Arguments BCIdle {T}.
Arguments BCWait {T} op w.
Arguments BCInner {T} op.
Arguments BCAssert {T} op o.
Arguments BCDone {T} o.

Definition success {T} (o : Observed T) : bool :=
  match o with
  | ODequeue r | OPeek r => match r with Some _ => true | None => false end
  | OPop r => r
  end.

Section blocking.
Context {T : Type} {O : SpscObject T}.

Record Blocking := mkBlocking {
  bInner : ObjState;
  bSema : Sema;
  bProducer : BlockingProducer;
  bConsumer : BlockingConsumer T
}.

(** The calls and returns of the blocking queue. *)
Inductive BlockingLabel :=
| BTau
| BCallEnqueue (mode : AllocationMode) (x : T)
| BReturnEnqueue (r : bool)
| BCallConsume (op : BlockingOp)
| BReturnConsume (o : Observed T).

Inductive blockingStep : Blocking -> BlockingLabel -> Blocking -> Prop :=
| bs_inner i i' s p c : objStep i Tau i' -> blockingStep (mkBlocking i s p c) BTau (mkBlocking i' s p c)
| bs_call_enqueue i i' s c mode x :
    objStep i (CallEnqueue mode x) i' ->
    blockingStep (mkBlocking i s BPIdle c) (BCallEnqueue mode x) (mkBlocking i' s BPInner c)
| bs_inner_enqueued i i' s c r :
    objStep i (ReturnEnqueue r) i' ->
    blockingStep (mkBlocking i s BPInner c) BTau (mkBlocking i' s (if r then BPAdd else BPDone false) c)
| bs_signal i s c oldCount s' :
    fetch_add 1 s = (oldCount, s') -> -1 <= oldCount ->
    blockingStep (mkBlocking i s BPAdd c) BTau (mkBlocking i s' (if oldCount <? 0 then BPPost else BPDone true) c)
| bs_post i s c : blockingStep (mkBlocking i s BPPost c) BTau (mkBlocking i (semPost s) (BPDone true) c)
| bs_return_enqueue i s c r : blockingStep (mkBlocking i s (BPDone r) c) (BReturnEnqueue r) (mkBlocking i s BPIdle c)
| bs_call_consume i s p op :
    op <> BPeek -> blockingStep (mkBlocking i s p BCIdle) (BCallConsume op) (mkBlocking i s p (BCWait op (firstWait op)))
| bs_call_peek i i' s p :
    objStep i (CallConsume OpPeek) i' ->
    blockingStep (mkBlocking i s p BCIdle) (BCallConsume BPeek) (mkBlocking i' s p (BCInner BPeek))
| bs_wait i s p op w expired w' s' :
    waitStep expired w s = Some (w', s') ->
    blockingStep (mkBlocking i s p (BCWait op w)) BTau (mkBlocking i s' p (BCWait op w'))
| bs_acquired i i' s p op :
    objStep i (CallConsume (innerOp op)) i' ->
    blockingStep (mkBlocking i s p (BCWait op (WDone true))) BTau (mkBlocking i' s p (BCInner op))
| bs_wait_again i s p :
    (** while (!sema->wait()); *)
    blockingStep (mkBlocking i s p (BCWait BWait (WDone false))) BTau (mkBlocking i s p (BCWait BWait (firstWait BWait)))
| bs_not_acquired i s p op :
    op <> BWait ->
    blockingStep (mkBlocking i s p (BCWait op (WDone false))) BTau (mkBlocking i s p (BCDone (emptyObserved (innerOp op))))
| bs_inner_consumed i i' s p op o :
    objStep i (ReturnConsume o) i' ->
    blockingStep (mkBlocking i s p (BCInner op)) BTau
      (mkBlocking i' s p (match op with BPeek => BCDone o | _ => BCAssert op o end))
| bs_assert i s p op o :
    success o = true -> blockingStep (mkBlocking i s p (BCAssert op o)) BTau (mkBlocking i s p (BCDone o))
| bs_return_consume i s p o :
    blockingStep (mkBlocking i s p (BCDone o)) (BReturnConsume o) (mkBlocking i s p BCIdle).

(** The states a run goes through, whatever it returns. *)
Definition bstep (b b' : Blocking) : Prop := exists lb, blockingStep b lb b'.

(** The assertions of signal and of the dequeue operations. *)
Definition blockingAsserts (b : Blocking) : Prop :=
  (bProducer b = BPAdd -> -1 <= m_count (bSema b))
  /\ (forall op o, bConsumer b = BCAssert op o -> success o = true).

End blocking.
Arguments Blocking T {O}.
Arguments BlockingLabel : clear implicits.

(** BlockingReaderWriterQueue(size) *)
Definition newBlocking {T} (size : Z) (allocs : list (option nat)) : outcome (Blocking T) :=
  let! q := newQueue size allocs in
  Ret (mkBlocking (O := spscObject T) (mkSpsc q PIdle CIdle) newSema BPIdle BCIdle).

(** size_approx of the blocking queue *)
Definition blockingSize {T} {O : SpscObject T} (b : Blocking T) : Z := availableApprox (bSema b).

(** wait_dequeue_timed with a duration: duration_cast to microseconds, from nanoseconds *)
Definition timeoutUsecs (duration : Z) : Z := Z.quot duration 1000.

(** * Runs that can be computed *)

(** Which thread makes the next step, and what the scheduler, the kernel and the callers
    choose. *)
Inductive BMove (T : Type) :=
| BMProducer (alloc : option nat)
| BMConsumer (expired : bool)
| BMCallEnqueue (mode : AllocationMode) (x : T)
| BMCallConsume (op : BlockingOp)
| BMReturnEnqueue
| BMReturnConsume.
Arguments BMProducer {T} alloc.
Arguments BMConsumer {T} expired.
Arguments BMCallEnqueue {T} mode x.
Arguments BMCallConsume {T} op.
Arguments BMReturnEnqueue {T}.
Arguments BMReturnConsume {T}.

Section moves.
Context {T : Type}.
#[local] Existing Instance spscObject.
Implicit Types (i : Spsc T).

(** The step of the producer in the blocking queue. *)
Definition producerMove (alloc : option nat) (b : Blocking T) : option (Blocking T) :=
  let (i, s, p, c) := b in
  match p with
  | BPInner =>
      match spProducer i with
      | PDone r =>
          match move MReturnEnqueue i with
          | Some (_, i') => Some (mkBlocking i' s (if r then BPAdd else BPDone false) c)
          | None => None
          end
      | _ =>
          match move (MProducer alloc) i with
          | Some (_, i') => Some (mkBlocking i' s p c)
          | None => None
          end
      end
  | BPAdd =>
      let (oldCount, s') := fetch_add 1 s in
      if -1 <=? oldCount then Some (mkBlocking i s' (if oldCount <? 0 then BPPost else BPDone true) c) else None
  | BPPost => Some (mkBlocking i (semPost s) (BPDone true) c)
  | _ => None
  end.

(** The step of the consumer. *)
Definition consumerMove (expired : bool) (b : Blocking T) : option (Blocking T) :=
  let (i, s, p, c) := b in
  match c with
  | BCWait op (WDone true) =>
      match move (MCallConsume (innerOp op)) i with
      | Some (_, i') => Some (mkBlocking i' s p (BCInner op))
      | None => None
      end
  | BCWait BWait (WDone false) => Some (mkBlocking i s p (BCWait BWait (firstWait BWait)))
  | BCWait op (WDone false) => Some (mkBlocking i s p (BCDone (emptyObserved (innerOp op))))
  | BCWait op w =>
      match waitStep expired w s with
      | Some (w', s') => Some (mkBlocking i s' p (BCWait op w'))
      | None => None
      end
  | BCInner op =>
      match spConsumer i with
      | CDone r =>
          match move MReturnConsume i with
          | Some (ReturnConsume o, i') => Some (mkBlocking i' s p (match op with BPeek => BCDone o | _ => BCAssert op o end))
          | _ => None
          end
      | _ =>
          match move MConsumer i with
          | Some (_, i') => Some (mkBlocking i' s p c)
          | None => None
          end
      end
  | BCAssert op o => if success o then Some (mkBlocking i s p (BCDone o)) else None
  | _ => None
  end.

Definition bmove (m : BMove T) (b : Blocking T) : option (Blocking T) :=
  let (i, s, p, c) := b in
  match m with
  | BMProducer alloc => producerMove alloc b
  | BMConsumer expired => consumerMove expired b
  | BMCallEnqueue mode x =>
      match p, move (MCallEnqueue mode x) i with
      | BPIdle, Some (_, i') => Some (mkBlocking i' s BPInner c)
      | _, _ => None
      end
  | BMCallConsume op =>
      match c, op with
      | BCIdle, BPeek =>
          match move (MCallConsume OpPeek) i with
          | Some (_, i') => Some (mkBlocking i' s p (BCInner BPeek))
          | None => None
          end
      | BCIdle, _ => Some (mkBlocking i s p (BCWait op (firstWait op)))
      | _, _ => None
      end
  | BMReturnEnqueue => match p with BPDone r => Some (mkBlocking i s BPIdle c) | _ => None end
  | BMReturnConsume => match c with BCDone o => Some (mkBlocking i s p BCIdle) | _ => None end
  end.

Fixpoint bmoves (ms : list (BMove T)) (b : Blocking T) : option (Blocking T) :=
  match ms with
  | [] => Some b
  | m :: ms' => match bmove m b with Some b' => bmoves ms' b' | None => None end
  end.

(** Where a thread is inside the inner queue. *)
Lemma move_label m i lb i' :
  move m i = Some (lb, i') ->
  match m with
  | MCallEnqueue mode x => lb = CallEnqueue mode x
  | MProducer _ | MConsumer => lb = Tau
  | MReturnEnqueue => exists r, spProducer i = PDone r /\ lb = ReturnEnqueue r
  | MCallConsume op => lb = CallConsume op
  | MReturnConsume => exists o, lb = ReturnConsume o
  end.
Proof.
  destruct i as [q p c], m; cbn; intros E; repeat case_match; simplify_eq; eauto.
Qed.

Lemma producerMove_step alloc b b' : producerMove alloc b = Some b' -> bstep b b'.
Proof.
  destruct b as [i s p c]. unfold producerMove, bstep. intros E. destruct p; try done.
  - destruct (spProducer i) eqn:Ep;
      match type of E with context [move ?m i] => destruct (move m i) as [[lb i']|] eqn:Em; [|done] end;
      pose proof (move_label _ _ _ _ Em) as Lb; apply move_step in Em; simplify_eq; cbn in Lb;
      try (subst lb; eexists; by eapply bs_inner).
    destruct Lb as (r' & Er & ->). rewrite Ep in Er. injection Er as ->. eexists. by eapply bs_inner_enqueued.
  - cbn in E. destruct (Z.leb_spec (-1) (m_count s)); [|done]. injection E as <-. eexists. by eapply bs_signal.
  - injection E as <-. eexists. apply bs_post.
Qed.

Lemma consumerMove_step expired b b' : consumerMove expired b = Some b' -> bstep b b'.
Proof.
  destruct b as [i s p c]. unfold consumerMove, bstep. intros E. destruct c as [|op w|op|op o|o]; try done.
  - destruct w as [t| |t|t| | | |[]];
      try (destruct op;
           match type of E with context [waitStep ?e ?v ?u] => destruct (waitStep e v u) as [[w' s']|] eqn:Ew; [|done] end;
           injection E as <-; eexists; by eapply bs_wait).
    + destruct op; match type of E with context [move ?m i] => destruct (move m i) as [[lb i']|] eqn:Em; [|done] end;
        injection E as <-; pose proof (move_label _ _ _ _ Em) as Lb; apply move_step in Em; cbn in Lb; subst lb;
        eexists; by eapply bs_acquired.
    + destruct (decide (op = BWait)) as [->|Nw]; [injection E as <-; eexists; apply bs_wait_again|].
      exists BTau. replace b' with (mkBlocking i s p (BCDone (emptyObserved (innerOp op)))) by (destruct op; congruence).
      by apply bs_not_acquired.
  - destruct (spConsumer i) eqn:Ec;
      match type of E with context [move ?m i] => destruct (move m i) as [[lb i']|] eqn:Em; [|done] end;
      pose proof (move_label _ _ _ _ Em) as Lb; apply move_step in Em; cbn in Lb;
      try (subst lb; injection E as <-; eexists; by eapply bs_inner).
    destruct Lb as (o & ->). injection E as <-. eexists. by eapply bs_inner_consumed.
  - destruct (success o) eqn:Es; [|done]. injection E as <-. eexists. by apply bs_assert.
Qed.

Lemma bmove_step m b b' : bmove m b = Some b' -> bstep b b'.
Proof.
  destruct m as [alloc|expired|mode x|op| |]; intros E.
  - apply (producerMove_step alloc). by destruct b.
  - apply (consumerMove_step expired). by destruct b.
  - destruct b as [i s p c]. cbn in E. destruct p; try done. destruct (move (MCallEnqueue mode x) i) as [[lb i']|] eqn:Em; [|done].
    injection E as <-. pose proof (move_label _ _ _ _ Em) as Lb. apply move_step in Em. cbn in Lb. subst lb.
    eexists. by eapply bs_call_enqueue.
  - destruct b as [i s p c]. cbn in E. destruct c; try done. destruct op; try (injection E as <-; eexists; by apply bs_call_consume).
    destruct (move (MCallConsume OpPeek) i) as [[lb i']|] eqn:Em; [|done].
    injection E as <-. pose proof (move_label _ _ _ _ Em) as Lb. apply move_step in Em. cbn in Lb. subst lb.
    eexists. by eapply bs_call_peek.
  - destruct b as [i s p c]. cbn in E. destruct p; try done. injection E as <-. eexists. apply bs_return_enqueue.
  - destruct b as [i s p c]. cbn in E. destruct c; try done. injection E as <-. eexists. apply bs_return_consume.
Qed.

Lemma bmoves_run ms b b' : bmoves ms b = Some b' -> rtc bstep b b'.
Proof.
  revert b. induction ms as [|m ms IH]; cbn; intros b E; [injection E as <-; apply rtc_refl|].
  destruct (bmove m b) as [b1|] eqn:Em; [|done]. eapply rtc_l; [by eapply bmove_step|by apply IH].
Qed.

End moves.
