(* ===== verification/BlockingProps.v ===== *)
(** The blocking queue: its invariant, proved with the list in the place of the inner
    queue, and what it says about the queue of blocks, which refines the list. *)

From S2P Require Import Prelude SpscQueue SpscProps SpscLife BlockingQueue.
From stdpp Require Import gmap list strings.

#[local] Open Scope Z_scope.

(** The deadline of timed_wait is the time of the clock plus the timeout, and is one
    the kernel accepts. *)
Theorem deadline_exact sec nsec usecs :
  0 <= nsec < nsecs_in_1_sec -> 0 <= usecs ->
  let d := deadline (sec, nsec) usecs in
  0 <= d.2 < nsecs_in_1_sec /\ d.1 * nsecs_in_1_sec + d.2 = sec * nsecs_in_1_sec + nsec + usecs * 1000.
Proof.
  unfold deadline, nsecs_in_1_sec, usecs_in_1_sec. intros Hn Hu. cbn.
  pose proof (Z.div_mod usecs 1000000 ltac:(lia)). pose proof (Z.mod_pos_bound usecs 1000000 ltac:(lia)).
  destruct (Z.leb_spec 1000000000 (nsec + usecs mod 1000000 * 1000)); cbn; lia.
Qed.

Section invariant.
Context {T : Type}.
#[local] Existing Instance fifoObject.

Implicit Types (f : Fifo T) (s : Sema) (p : BlockingProducer) (c : BlockingConsumer T).

(** The elements the producer has put in and not yet counted. *)
Definition uncounted p (fp : FifoProducer T) : Z :=
  match p, fp with
  | BPInner, FPDone true => 1
  | BPAdd, _ => 1
  | _, _ => 0
  end.

(** The elements the consumer has claimed from the counter and not yet taken, and the
    claims it has made without knowing yet whether they can be met. *)
Definition claimed c (fc : FifoConsumer T) : Z :=
  match c, fc with
  | BCWait _ (WDone true), _ => 1
  | BCInner BPeek, _ => 0
  | BCInner _, FCCalled _ _ => 1
  | BCWait _ (WBlock _ | WRestore | WTryPost), _ => 1
  | _, _ => 0
  end.

(** What the consumer knows of the counter, and how many posts of the semaphore are
    there for it: [due] counts those made and the one the producer is about to make. *)
Definition waitOk c (count due : Z) : Prop :=
  match c with
  | BCWait _ WTryTake => 0 < count /\ due = 0
  | BCWait _ (WBlock _ | WRestore) => -1 <= count /\ due = if 0 <=? count then 1 else 0
  | BCWait _ WRetake => 0 < count /\ due = 1
  | BCWait _ WTryPost => 0 <= count /\ due = 1
  | _ => 0 <= count /\ due = 0
  end.

Definition producerMatches p (fp : FifoProducer T) : Prop :=
  match p with
  | BPInner => fp <> FPIdle
  | _ => fp = FPIdle
  end.

Definition consumerMatches c (fc : FifoConsumer T) : Prop :=
  match c with
  | BCInner BPeek => (exists b, fc = FCCalled OpPeek b) \/ exists o, fc = FCDone o
  | BCInner op =>
      fc = FCCalled (innerOp op) false \/ exists x, fc = FCDone (takenObserved (innerOp op) x)
  | BCAssert op o => fc = FCIdle /\ success o = true
  | BCWait op _ => fc = FCIdle /\ op <> BPeek
  | _ => fc = FCIdle
  end.

Definition posting p : Z := match p with BPPost => 1 | _ => 0 end.

Record blockingInv (b : Blocking T) : Prop := {
  bi_bound : Z.of_nat (length (fItems (bInner b))) <= maxItems;
  bi_count : m_count (bSema b) = Z.of_nat (length (fItems (bInner b)))
               - uncounted (bProducer b) (fProducer (bInner b)) - claimed (bConsumer b) (fConsumer (bInner b));
  bi_sema : 0 <= m_sema (bSema b);
  bi_wait : waitOk (bConsumer b) (m_count (bSema b)) (m_sema (bSema b) + posting (bProducer b));
  bi_producer : producerMatches (bProducer b) (fProducer (bInner b));
  bi_consumer : consumerMatches (bConsumer b) (fConsumer (bInner b))
}.

Lemma to_i64_small x : - 2 ^ 63 <= x < 2 ^ 63 -> to_i64 x = x.
Proof. intros. by apply to_signed_small. Qed.

Lemma uncounted_range p fp : 0 <= uncounted p fp <= 1.
Proof. destruct p, fp as [| |[]]; cbn; lia. Qed.

Lemma claimed_range c fc : 0 <= claimed c fc <= 1.
Proof. destruct c as [|? []|[]| |]; cbn; try lia; destruct fc; try lia; destruct acquired; cbn; lia. Qed.

Lemma inv_count_small b : blockingInv b -> - 2 <= m_count (bSema b) <= maxItems.
Proof.
  intros [B C _ _ _ _]. pose proof (uncounted_range (bProducer b) (fProducer (bInner b))).
  pose proof (claimed_range (bConsumer b) (fConsumer (bInner b))). lia.
Qed.

(** * The steps of the inner queue *)

Lemma inner_consumer c op b :
  consumerMatches c (FCCalled op b) ->
  (c = BCInner BPeek /\ op = OpPeek) \/ (exists bop, c = BCInner bop /\ bop <> BPeek /\ op = innerOp bop /\ b = false).
Proof.
  destruct c as [|bop w|bop|bop o|o]; cbn; try done; try (by intros [? _]).
  destruct bop; cbn; intros [Q|Q]; try (by destruct Q); try (right; injection Q as -> ->; by eexists).
  destruct Q as (? & [= -> ->]). by left.
Qed.

Lemma claimed_called bop op b : bop <> BPeek -> claimed (BCInner bop) (FCCalled (T := T) op b) = 1.
Proof. by destruct bop. Qed.

Lemma wait_inner bop count due : waitOk (BCInner (T := T) bop) count due <-> 0 <= count /\ due = 0.
Proof. done. Qed.

Lemma inv_inner (i i' : Fifo T) s p c :
  blockingInv (mkBlocking i s p c) -> fifoStep i Tau i' -> blockingInv (mkBlocking i' s p c).
Proof.
  intros [B C S W P Q] St. cbn in *.
  inversion St as [|l fc mode x Le|l fc mode x| | |fp op b|l fp op|x l fp op b|]; subst; cbn in *.
  - destruct p; try done. split; cbn; try done; rewrite ?length_app; cbn in *; lia.
  - destruct p; try done; split; cbn in *; try done; lia.
  - destruct (inner_consumer _ _ _ Q) as [[-> ->]|(bop & -> & Np & -> & ->)].
    + split; cbn; try done. eauto.
    + rewrite claimed_called in C by done. destruct W. pose proof (uncounted_range p fp). cbn in C. lia.
  - destruct (inner_consumer _ _ _ Q) as [[-> ->]|(bop & -> & Np & -> & ?)]; [|done]. split; cbn; try done. eauto.
  - destruct (inner_consumer _ _ _ Q) as [[-> ->]|(bop & -> & Np & -> & ->)].
    + split; cbn; try done. eauto.
    + rewrite claimed_called in C by done. destruct W.
      assert (itemsLeft (innerOp bop) x l = l) as -> by (by destruct bop).
      split; cbn; try done; try lia; destruct bop; cbn; try done; try lia; eauto.
Qed.

(** * The steps of a wait *)

Lemma inv_wait (i : Fifo T) s p op w expired w' s' :
  blockingInv (mkBlocking i s p (BCWait op w)) -> waitStep expired w s = Some (w', s') ->
  blockingInv (mkBlocking i s' p (BCWait op w')).
Proof.
  intros H E. pose proof (inv_count_small _ H) as R. destruct H as [B C S W P Q]. cbn in *.
  assert (forall k, -1 <= k <= 1 -> to_i64 (m_count s + k) = m_count s + k) as Sm.
  { intros k Hk. apply to_i64_small. unfold maxItems in *. lia. }
  assert (0 <= posting p) as Hp by (destruct p; cbn; lia).
  destruct w as [t| |t|t| | | |a]; cbn in *; unfold semTake in *; repeat case_match; simplify_eq;
    repeat match goal with H : (_ <? _) = true |- _ => apply Z.ltb_lt in H
                      | H : (_ <? _) = false |- _ => apply Z.ltb_ge in H
                      | H : (_ <=? _) = true |- _ => apply Z.leb_le in H
                      | H : (_ <=? _) = false |- _ => apply Z.leb_gt in H
                      | H : (_ =? _) = true |- _ => apply Z.eqb_eq in H end;
    split; cbn; try done; rewrite ?Sm by lia; try lia;
    try (destruct W; split; [lia|]; repeat case_match; lia).
Qed.

(** * All steps *)

Lemma blockingInv_step (b : Blocking T) lb b' : blockingInv b -> blockingStep b lb b' -> blockingInv b'.
Proof.
  intros H St. pose proof (inv_count_small _ H) as R.
  destruct St as [i i' s p c St|i i' s c mode x St|i i' s c r St|i s c oldCount s' E Ge|i s c|i s c r|i s p op Np
                 |i i' s p St|i s p op w expired w' s' E|i i' s p op St|i s p|i s p op Nw|i i' s p op o St|i s p op o Su|i s p o].
  - by eapply inv_inner.
  - destruct H as [B C S W P Q]. inversion St; subst. split; cbn in *; try done; lia.
  - destruct H as [B C S W P Q]. inversion St; subst. destruct r; split; cbn in *; try done; lia.
  - destruct H as [B C S W P Q]. cbn in *. unfold fetch_add in E. injection E as <- <-.
    rewrite (to_i64_small (m_count s + 1)) in * by (unfold maxItems in *; lia).
    destruct (Z.ltb_spec (m_count s) 0) as [Lt|Le]; split; cbn; try done; try lia;
      destruct c as [|? [| | | | | | |a]| | |]; cbn in *; try lia; repeat case_match; lia.
  - destruct H as [B C S W P Q]. cbn in *. split; cbn; try done; try lia.
    replace (m_sema s + 1 + 0) with (m_sema s + 1) by lia. done.
  - destruct H as [B C S W P Q]. cbn in *. split; cbn; try done.
  - destruct H as [B C S W P Q]. cbn in *. split; cbn; try done; by destruct op.
  - destruct H as [B C S W P Q]. inversion St; subst. split; cbn in *; try done. eauto.
  - by eapply inv_wait.
  - destruct H as [B C S W P Q]. inversion St; subst. cbn in *. split; cbn; try done; destruct op; cbn; try done; try (by destruct Q); eauto.
  - destruct H as [B C S W P Q]. cbn in *. split; cbn; try done.
  - destruct H as [B C S W P Q]. cbn in *. split; cbn; try done. by destruct Q.
  - destruct H as [B C S W P Q]. inversion St; subst. cbn in *. destruct op; cbn in *; split; cbn; try done;
      destruct Q as [Q|(x & Q)]; simplify_eq; done.
  - destruct H as [B C S W P Q]. cbn in *. split; cbn; try done. by destruct Q.
  - destruct H as [B C S W P Q]. cbn in *. split; cbn; try done.
Qed.

End invariant.

(** * The queue of blocks inside *)

Section concrete.
Context {T : Type}.
Implicit Types (b : Blocking T (O := spscObject T)) (a : Blocking T (O := fifoObject T)).

Definition brel b a : Prop :=
  rel (bInner b) (bInner a) /\ bSema b = bSema a /\ bProducer b = bProducer a /\ bConsumer b = bConsumer a.

Lemma brel_step b lb b' a :
  brel b a -> blockingStep b lb b' -> exists a', (blockingStep a lb a' \/ a' = a) /\ brel b' a'.
Proof.
  intros (R & Es & Ep & Ec) St. destruct a as [f s0 p0 c0]. cbn in *.
  destruct St; cbn in *; subst; try (eexists; split; [left; by econstructor|done]).
  1: { destruct (rel_step _ _ _ _ R H) as (f' & [M|[_ ->]] & R').
       - exists (mkBlocking (O := fifoObject T) f' s0 p0 c0). split; [left; by constructor|done].
       - exists (mkBlocking (O := fifoObject T) f s0 p0 c0). split; [by right|done]. }
  all: match goal with H : spscStep _ _ _ |- _ => destruct (rel_step _ _ _ _ R H) as (f' & [M|[Ne _]] & R'); [|done] end.
  all: eexists; split; [left; by econstructor|done].
Qed.

(** The empty list is in the invariant. *)
Lemma blockingInv_new : blockingInv (mkBlocking (O := fifoObject T) (mkFifo [] FPIdle FCIdle) newSema BPIdle BCIdle).
Proof. by split. Qed.

Lemma brel_steps b b' a : brel b a -> blockingInv a -> rtc bstep b b' -> exists a', brel b' a' /\ blockingInv a'.
Proof.
  intros R I Ru. revert a R I. induction Ru as [b|b b1 b2 [lb St] _ IH]; intros a R I; [by exists a|].
  destruct (brel_step _ _ _ _ R St) as (a' & [St'| ->] & R'); [|by eapply IH].
  eapply IH; [done|]. by eapply blockingInv_step.
Qed.

#[local] Opaque newQueue.

(** Every state of the blocking queue is one of the invariant. *)
Lemma blocking_reachable size allocs b0 b :
  1 <= size < 2 ^ 63 -> mallocsOk allocs -> newBlocking size allocs = Ret b0 -> rtc bstep b0 b ->
  exists a, brel b a /\ blockingInv a.
Proof.
  intros Hs M E Ru. unfold newBlocking in E. destruct (newQueue size allocs) as [q|] eqn:En; [|done].
  injection E as <-. eapply brel_steps; [|exact blockingInv_new|exact Ru].
  split; [|done]. exact (newQueue_rel size allocs q Hs M En).
Qed.

Lemma rel_producer_idle (s : Spsc T) f : rel s f -> fProducer f = FPIdle -> spProducer s = PIdle.
Proof.
  intros (act & idle & fresh & H) E. destruct (ho_producer _ _ _ _ _ _ _ H) as (x & g & _ & _ & P).
  rewrite E in P. destruct (spProducer s); cbn in P; naive_solver.
Qed.

Lemma rel_consumer_idle (s : Spsc T) f : rel s f -> fConsumer f = FCIdle -> spConsumer s = CIdle.
Proof.
  intros (act & idle & fresh & H) E. destruct (ho_consumer _ _ _ _ _ _ _ H) as (h & t & _ & _ & C).
  rewrite E in C. destruct (spConsumer s) as [| | | |? ?|?|? ?|? ? ?|? ? ?|? ? ?|[|[] |[[]|]]]; cbn in C; naive_solver.
Qed.

Lemma rel_atRest (s : Spsc T) f :
  rel s f -> fProducer f = FPIdle -> fConsumer f = FCIdle -> atRest (spQueue s) (fItems f).
Proof.
  intros R Ep Ec. pose proof (rel_producer_idle _ _ R Ep). pose proof (rel_consumer_idle _ _ R Ec).
  destruct s as [q p c], f as [l fp fc]. cbn in *. by subst.
Qed.

End concrete.

(** C16: the assertions of the blocking queue hold in every interleaving: the consumer
    that has got through the semaphore finds an element in the inner queue, the counter
    is never below -1 when the producer signals, and the inner queue stays safe. *)
Theorem blocking_safe {T} size allocs (b0 b : Blocking T) :
  1 <= size < 2 ^ 63 -> mallocsOk allocs -> newBlocking size allocs = Ret b0 -> rtc bstep b0 b ->
  blockingAsserts b /\ spscSafe (bInner b).
Proof.
  intros Hs M E Ru. destruct (blocking_reachable _ _ _ _ Hs M E Ru) as (a & (R & Es & Ep & Ec) & [B C S W P Q]).
  split; [split|by eapply rel_safe].
  - intros E'. rewrite Es. rewrite Ep in E'. destruct (bConsumer a) as [|? [| | | | | | |?]| | |]; cbn in W; lia.
  - intros op o E'. rewrite Ec in E'. rewrite E' in Q. by destruct Q.
Qed.

(** C20: the consumer sleeps only when there is nothing for it: while it waits for the
    semaphore of the kernel, nothing has been posted, and no enqueue is running, the
    queue is empty. *)
Theorem sleeping_consumer_missed_nothing {T} size allocs (b0 b : Blocking T) op timeout fuel :
  1 <= size < 2 ^ 63 -> mallocsOk allocs -> newBlocking size allocs = Ret b0 -> rtc bstep b0 b ->
  bConsumer b = BCWait op (WBlock timeout) -> m_sema (bSema b) = 0 ->
  (bProducer b = BPIdle \/ exists r, bProducer b = BPDone r) ->
  (base.size (qHeap (spQueue (bInner b))) <= fuel)%nat ->
  size_approx fuel (spQueue (bInner b)) = Ret 0.
Proof.
  intros Hs M E Ru Ew Es0 Ep0 Fu. destruct (blocking_reachable _ _ _ _ Hs M E Ru) as (a & (R & Es & Ep & Ec) & [B C S W P Q]).
  rewrite Ec in Ew. rewrite Es in Es0. rewrite Ep in Ep0. rewrite Ew in *. cbn in C, W, Q. destruct Q as [Q _].
  assert (fProducer (bInner a) = FPIdle /\ posting (bProducer a) = 0 /\ uncounted (bProducer a) (fProducer (bInner a)) = 0)
    as (P1 & P2 & P3) by (destruct Ep0 as [E'|[r E']]; rewrite E' in *; by cbn in P |- *).
  rewrite Es0, P2 in W. rewrite (size_approx_exact _ _ fuel (rel_atRest _ _ R P1 Q) Fu).
  destruct (Z.leb_spec 0 (m_count (bSema a))); [lia|]. f_equal. lia.
Qed.

(** C34: when both threads are outside, the counter is the number of elements and no post
    of the semaphore is left over, however many waits have timed out before and whatever
    was enqueued while they did: size_approx of the blocking queue is exact, and a
    try_dequeue gets through the semaphore exactly when there is an element. *)
Theorem idle_counter_exact {T} size allocs (b0 b : Blocking T) fuel :
  1 <= size < 2 ^ 63 -> mallocsOk allocs -> newBlocking size allocs = Ret b0 -> rtc bstep b0 b ->
  bProducer b = BPIdle -> bConsumer b = BCIdle -> (base.size (qHeap (spQueue (bInner b))) <= fuel)%nat ->
  m_sema (bSema b) = 0 /\ size_approx fuel (spQueue (bInner b)) = Ret (m_count (bSema b))
  /\ blockingSize b = m_count (bSema b)
  /\ exists s, runWait 2 false (firstWait BTryDequeue) (bSema b) = Some (0 <? m_count (bSema b), s).
Proof.
  intros Hs M E Ru Ep0 Ec0 Fu. destruct (blocking_reachable _ _ _ _ Hs M E Ru) as (a & (R & Es & Ep & Ec) & [B C S W P Q]).
  rewrite Ep in Ep0. rewrite Ec in Ec0. rewrite Ep0, Ec0 in *. cbn in C, W, P, Q.
  rewrite (size_approx_exact _ _ fuel (rel_atRest _ _ R P Q) Fu). unfold blockingSize, availableApprox. rewrite Es.
  split; [lia|]. split; [f_equal; lia|]. cbn. destruct (Z.ltb_spec 0 (m_count (bSema a))); cbn; split; eauto; lia.
Qed.

(** The loop that restores the counter after a timeout ends: once the producer is not
    between its two steps of signal, the consumer leaves it in at most three steps. *)
Theorem restore_ends {T} size allocs (b0 b : Blocking T) op w :
  1 <= size < 2 ^ 63 -> mallocsOk allocs -> newBlocking size allocs = Ret b0 -> rtc bstep b0 b ->
  bConsumer b = BCWait op w -> w = WRestore \/ w = WRetake \/ w = WTryPost -> bProducer b <> BPPost ->
  exists r s, runWait 3 false w (bSema b) = Some (r, s).
Proof.
  intros Hs M E Ru Ew Hw Np. destruct (blocking_reachable _ _ _ _ Hs M E Ru) as (a & (R & Es & Ep & Ec) & I).
  pose proof (inv_count_small _ I) as Sm. destruct I as [B C S W P Q]. rewrite Ec in Ew. rewrite Es. rewrite Ep in Np. rewrite Ew in *.
  set (s := bSema a) in *. assert (posting (bProducer a) = 0) as Hp by (by destruct (bProducer a)). rewrite Hp in W.
  assert (forall k, -1 <= k <= 1 -> to_i64 (m_count s + k) = m_count s + k) as I64.
  { intros k Hk. apply to_i64_small. unfold maxItems in *. lia. }
  assert (forall n, 0 <= n -> m_sema s = 1 -> exists r s', runWait 1 false WTryPost (mkSema n (m_sema s)) = Some (r, s')) as Last.
  { intros n Hn ->. cbn. eauto. }
  assert (forall n, 0 < n <= maxItems + 1 -> m_sema s = 1 -> exists r s', runWait 2 false WRetake (mkSema n (m_sema s)) = Some (r, s')) as Mid.
  { intros n Hn E1. cbn. rewrite (proj2 (Z.ltb_lt 0 n)) by lia. rewrite E1. cbn. eauto. }
  destruct Hw as [->|[->| ->]]; cbn in W.
  - cbn [runWait waitStep]. unfold fetch_add. rewrite I64 by lia. destruct (Z.ltb_spec (m_count s) 0); [cbn; eauto|].
    destruct (Z.leb_spec 0 (m_count s)); [|lia]. apply Mid; lia.
  - cbn. rewrite (proj2 (Z.ltb_lt 0 (m_count s))) by lia. destruct W as [_ W]. replace (m_sema s) with 1 by lia. cbn. eauto.
  - cbn. unfold semTake. rewrite (proj2 (Z.ltb_lt 0 (m_sema s))) by lia. eauto.
Qed.

(** * A run with a timeout that comes too late *)

Definition demoStart : Blocking Z :=
  match newBlocking 15 [Some 0%nat] with
  | Ret b => b
  | Fault _ => mkBlocking (O := spscObject Z) (mkSpsc (mkQueue ∅ 0 0 0 false false) PIdle CIdle) newSema BPIdle BCIdle
  end.

(** The consumer goes to sleep. *)
Definition sleepMoves : list (BMove Z) := [BMCallConsume (BWaitTimed 1000); BMConsumer false; BMConsumer false].

(** The producer enqueues and counts; before it posts the semaphore, the time of the
    consumer is over.  The consumer takes back its claim, finds that it has been met, and
    tries until the post has arrived. *)
Definition raceMoves : list (BMove Z) :=
  sleepMoves ++ [BMCallEnqueue CanAlloc 7] ++ replicate 5 (BMProducer None) ++ [BMConsumer true]
  ++ replicate 3 (BMConsumer false) ++ [BMProducer None] ++ replicate 9 (BMConsumer false).

Definition demoAfter (ms : list (BMove Z)) : Blocking Z := default demoStart (bmoves ms demoStart).

Lemma demo_newBlocking : newBlocking 15 [Some 0%nat] = Ret demoStart.
Proof. vm_compute. reflexivity. Qed.

Lemma demo_bmoves ms : bmoves ms demoStart = Some (demoAfter ms) -> rtc bstep demoStart (demoAfter ms).
Proof. apply bmoves_run. Qed.

(** The consumer is at its assertion, with the element. *)
Example demo_race : bConsumer (demoAfter raceMoves) = BCAssert (BWaitTimed 1000) (ODequeue (Some 7)).
Proof. vm_compute. reflexivity. Qed.

Lemma blocking_safe_witness : blockingAsserts (demoAfter raceMoves) /\ spscSafe (bInner (demoAfter raceMoves)).
Proof.
  apply (blocking_safe 15 [Some 0%nat] demoStart); [lia|apply demo_allocs|apply demo_newBlocking|].
  apply demo_bmoves. vm_compute. reflexivity.
Defined.

Lemma sleeping_consumer_missed_nothing_witness :
  size_approx 1 (spQueue (bInner (demoAfter sleepMoves))) = Ret 0.
Proof.
  apply (sleeping_consumer_missed_nothing 15 [Some 0%nat] demoStart (demoAfter sleepMoves) (BWaitTimed 1000) 1000);
    [lia|apply demo_allocs|apply demo_newBlocking|apply demo_bmoves|..]; try (vm_compute; reflexivity).
  left. vm_compute. reflexivity.
Defined.

Definition idleMoves : list (BMove Z) := raceMoves ++ [BMReturnEnqueue; BMConsumer false; BMReturnConsume].

Lemma idle_counter_exact_witness :
  m_sema (bSema (demoAfter idleMoves)) = 0
  /\ size_approx 1 (spQueue (bInner (demoAfter idleMoves))) = Ret (m_count (bSema (demoAfter idleMoves)))
  /\ blockingSize (demoAfter idleMoves) = m_count (bSema (demoAfter idleMoves))
  /\ exists s, runWait 2 false (firstWait BTryDequeue) (bSema (demoAfter idleMoves))
       = Some (0 <? m_count (bSema (demoAfter idleMoves)), s).
Proof.
  apply (idle_counter_exact 15 [Some 0%nat] demoStart (demoAfter idleMoves));
    [lia|apply demo_allocs|apply demo_newBlocking|apply demo_bmoves|..]; vm_compute; reflexivity.
Defined.
