(* ===== verification/QueueMoves.v ===== *)
(** Moving queues: the move constructor and move assignment of ReaderWriterQueue and
    BlockingReaderWriterQueue in readerwriterqueue.h.

    A queue that is moved is at rest: no thread is in one of its methods.  The heap of a
    queue holds the blocks the queue owns. *)

From S2P Require Import Prelude SpscQueue SpscProps SpscLife BlockingQueue.
From stdpp Require Import gmap list strings.

#[local] Open Scope Z_scope.

Section moves.
Context {T : Type}.
Implicit Types (q this other : Queue T).

(** ReaderWriterQueue::operator=: the blocks change hands, the debugging flags stay. *)
Definition moveAssign this other : Queue T * Queue T :=
  (mkQueue (qHeap other) (frontBlock other) (tailBlock other) (largestBlockSize other) (enqueuing this) (dequeuing this),
   mkQueue (qHeap this) (frontBlock this) (tailBlock this) (largestBlockSize this) (enqueuing other) (dequeuing other)).

(** std::swap: a move to a temporary queue, two assignments, and the end of the
    temporary, which owns the block that was allocated for it. *)
Definition swapQueues (alloc : option nat) this other : outcome (Queue T * Queue T) :=
  let! (tmp, this1) := moveQueue alloc this in
  let '(this2, other1) := moveAssign this1 other in
  let '(other2, tmp1) := moveAssign other1 tmp in
  let! _ := destroyQueue (size (qHeap tmp1)) tmp1 in
  Ret (this2, other2).

(** A blocking queue nobody uses; a queue that was moved from has no semaphore. *)
Record BlockingObject := mkBlockingObject {
  boInner : Queue T;
  boSema : option Sema
}.

(** BlockingReaderWriterQueue(BlockingReaderWriterQueue&&): the new queue and [other]. *)
Definition moveBlocking (alloc : option nat) (other : BlockingObject) : outcome (BlockingObject * BlockingObject) :=
  let! (q, q') := moveQueue alloc (boInner other) in
  Ret (mkBlockingObject q (boSema other), mkBlockingObject q' None).

(** BlockingReaderWriterQueue::operator=: the semaphores first, and then the queues. *)
Definition assignBlocking (alloc : option nat) (this other : BlockingObject)
  : (BlockingObject * BlockingObject) * outcome unit :=
  match swapQueues alloc (boInner this) (boInner other) with
  | Ret (q, q') => ((mkBlockingObject q (boSema other), mkBlockingObject q' (boSema this)), Ret tt)
  | Fault f => ((mkBlockingObject (boInner this) (boSema other), mkBlockingObject (boInner other) (boSema this)), Fault f)
  end.

(** * What moves do *)

Lemma atRest_flags q l : atRest q l -> enqueuing q = false /\ dequeuing q = false.
Proof.
  intros (act & idle & fresh & H). split; [apply (ho_enqueuing _ _ _ _ _ _ _ H)|apply (ho_dequeuing _ _ _ _ _ _ _ H)].
Qed.

(** A queue at rest is known by its blocks. *)
Lemma atRest_blocks q q' l :
  atRest q l -> enqueuing q' = false -> dequeuing q' = false ->
  qHeap q' = qHeap q -> frontBlock q' = frontBlock q -> tailBlock q' = tailBlock q ->
  largestBlockSize q' = largestBlockSize q -> atRest q' l.
Proof.
  intros A E D Eh Ef Et El. destruct (atRest_flags _ _ A) as [E' D']. destruct q, q'. cbn in *. by subst.
Qed.

(** The block of a queue that was moved from is the one of a new queue for 31 elements. *)
Lemma newQueue_31 b :
  newQueue (T := T) 31 [Some b] = Ret (mkQueue {[b := withNext (Some b) (make_block 32)]} b b 32 false false).
Proof.
  unfold newQueue. change (ceilToPow2 (to_u64 (31 + 1))) with 32.
  change (Z.to_nat _) with 1%nat. cbn [makeBlocks]. rewrite alter_insert_eq. cbn -[make_block]. by rewrite insert_empty.
Qed.

(** A moved queue has the elements, and the one it was moved from is empty. *)
Theorem moveQueue_contents b q l :
  Z.of_nat b < maxBlocks -> atRest q l ->
  exists q' o', moveQueue (Some b) q = Ret (q', o') /\ atRest q' l /\ atRest o' [].
Proof.
  intros B A. destruct (atRest_flags _ _ A) as [E D].
  eexists _, _. split; [done|]. split; [by apply (atRest_blocks q)|]. rewrite E, D.
  apply (newQueue_rel 31 [Some b]); [lia| |apply newQueue_31].
  split; cbn; [apply NoDup_singleton|by constructor].
Qed.

(** Assignment exchanges the elements. *)
Lemma moveAssign_contents this other this' other' l l' :
  moveAssign this other = (this', other') -> atRest this l -> atRest other l' -> atRest this' l' /\ atRest other' l.
Proof.
  intros [= <- <-] A B. destruct (atRest_flags _ _ A), (atRest_flags _ _ B).
  split; [by apply (atRest_blocks other)|by apply (atRest_blocks this)].
Qed.

(** Swapping exchanges the elements, and gives the block it allocates back. *)
Lemma swapQueues_contents b this other l l' :
  Z.of_nat b < maxBlocks -> atRest this l -> atRest other l' ->
  exists q q', swapQueues (Some b) this other = Ret (q, q') /\ atRest q l' /\ atRest q' l.
Proof.
  intros B A A'. destruct (moveQueue_contents b this l B A) as (tmp & this1 & Em & At & A1).
  unfold swapQueues. rewrite Em. cbn [obind]. destruct (moveAssign this1 other) as [this2 other1] eqn:E1.
  destruct (moveAssign_contents _ _ _ _ _ _ E1 A1 A') as [A2 O1].
  destruct (moveAssign other1 tmp) as [other2 tmp1] eqn:E2.
  destruct (moveAssign_contents _ _ _ _ _ _ E2 O1 At) as [O2 T1].
  destruct (destroyQueue_frees tmp1 [] _ T1 (le_n _)) as (q & -> & _). cbn. eauto.
Qed.

(** A blocking queue at rest counts its elements. *)
Definition countedRest (o : BlockingObject) (l : list T) : Prop :=
  atRest (boInner o) l /\ boSema o = Some (mkSema (Z.of_nat (length l)) 0).

(** Moves of blocking queues take the counter along with the elements. *)
Theorem blocking_moves b (this other : BlockingObject) l l' :
  Z.of_nat b < maxBlocks -> countedRest this l -> countedRest other l' ->
  (exists o o', moveBlocking (Some b) other = Ret (o, o') /\ countedRest o l' /\ atRest (boInner o') [])
  /\ (exists o o', assignBlocking (Some b) this other = ((o, o'), Ret tt) /\ countedRest o l' /\ countedRest o' l).
Proof.
  intros B [A S] [A' S']. split.
  - destruct (moveQueue_contents b (boInner other) l' B A') as (q & q' & E & Aq & Aq').
    unfold moveBlocking. rewrite E. cbn. eexists _, _. done.
  - destruct (swapQueues_contents b _ _ _ _ B A A') as (q & q' & E & Aq & Aq').
    unfold assignBlocking. rewrite E. by eexists _, _.
Qed.

(** When there is no memory for the temporary queue, assignment throws and has exchanged
    the counters but not the elements: a queue that is empty counts an element, which
    the next dequeue asserts to find. *)
Theorem assignment_without_memory (this other : BlockingObject) x :
  countedRest this [] -> countedRest other [x] ->
  let '((this', other'), r) := assignBlocking None this other in
  r = Fault (StdException "bad_alloc"%string)
  /\ atRest (boInner this') [] /\ availableApprox <$> boSema this' = Some 1
  /\ atRest (boInner other') [x] /\ availableApprox <$> boSema other' = Some 0.
Proof. intros [A S] [A' S']. cbn. rewrite S, S'. done. Qed.

End moves.
