(* ===== verification/ArghAccess.v ===== *)
(** The accessors of the command line parser, argh/argh.h, over what [Process] parses:
    flags, parameters with and without defaults, positional arguments, and the range of
    values of one parameter; is_number, which [Process] takes as a parameter; and parse
    for an array that ends with a null pointer.  A stream is its text, and a stream in
    the fail state is [None]. *)

From stdpp Require Import base sets list strings sorting.
From Stdlib Require Import ZArith Lia Ascii String SpecFloat.
From S2P Require Import Prelude ConvTools Ieee Logging Process.

#[local] Open Scope string_scope.

Section access.
Variable p : Argh.parser.

Definition string_stream : Type := option string.
Definition bad_stream : string_stream := None.

(** got_flag, and operator[] for a name and for a list of names *)
Definition got_flag (name : string) : bool := bool_decide (Argh.trim_leading_dashes name ∈ Argh.flags_ p).
Definition anyFlag (names : list string) : bool := existsb got_flag names.

(** operator[] and operator() for the index of a positional argument *)
Definition posArg (ind : nat) : string :=
  if Nat.ltb ind (List.length (Argh.pos_args_ p)) then default "" (Argh.pos_args_ p !! ind) else "".
Definition posStream (ind : nat) : string_stream :=
  if Nat.leb (List.length (Argh.pos_args_ p)) ind then bad_stream else Argh.pos_args_ p !! ind.
Definition posStreamOr (ind : nat) (def_val : string) : string_stream :=
  if Nat.leb (List.length (Argh.pos_args_ p)) ind then Some def_val else Argh.pos_args_ p !! ind.

(** params_.find: the first of the values of a name, as libstdc++ returns it *)
Fixpoint findParam (name : string) (l : list (string * string)) : option string :=
  match l with
  | [] => None
  | (k, v) :: l' => if bool_decide (k = name) then Some v else findParam name l'
  end.

(** operator() for a name and for a list of names, without and with a default *)
Definition paramStream (name : string) : string_stream :=
  match findParam (Argh.trim_leading_dashes name) (Argh.params_ p) with
  | Some v => Some v
  | None => bad_stream
  end.
Fixpoint paramStreams (names : list string) : string_stream :=
  match names with
  | [] => bad_stream
  | name :: names' =>
      match findParam (Argh.trim_leading_dashes name) (Argh.params_ p) with
      | Some v => Some v
      | None => paramStreams names'
      end
  end.
Definition paramStreamOr (name : string) (def_val : string) : string_stream :=
  match findParam (Argh.trim_leading_dashes name) (Argh.params_ p) with
  | Some v => Some v
  | None => Some def_val
  end.
Fixpoint paramStreamsOr (names : list string) (def_val : string) : string_stream :=
  match names with
  | [] => Some def_val
  | name :: names' =>
      match findParam (Argh.trim_leading_dashes name) (Argh.params_ p) with
      | Some v => Some v
      | None => paramStreamsOr names' def_val
      end
  end.

(** lower_bound and upper_bound of the multimap, as what is left from there on *)
Fixpoint lowerBound (name : string) (l : list (string * string)) : list (string * string) :=
  match l with
  | [] => []
  | (k, v) :: l' => if String.ltb k name then lowerBound name l' else l
  end.
Fixpoint upperBound (name : string) (l : list (string * string)) : list (string * string) :=
  match l with
  | [] => []
  | (k, v) :: l' => if String.ltb name k then l else upperBound name l'
  end.

(** params(name), a multimap_iteration_wrapper: its elements and its size *)
Definition paramsRange (name : string) : list (string * string) :=
  let lb := lowerBound (Argh.trim_leading_dashes name) (Argh.params_ p) in
  let ub := upperBound (Argh.trim_leading_dashes name) (Argh.params_ p) in
  take (List.length lb - List.length ub) lb.

End access.

(** add_param and add_params *)
Definition add_param (name : string) (registered : list string) : list string :=
  let n := Argh.trim_leading_dashes name in if bool_decide (n ∈ registered) then registered else (n :: registered)%list.
Definition add_params (names : list string) (registered : list string) : list string :=
  foldl (fun r name => add_param name r) registered names.

(** parse(argv, mode): the arguments up to the null pointer; an array without one is read
    beyond its end. *)
Fixpoint untilNull (argv : list (option string)) : option (list string) :=
  match argv with
  | [] => None
  | None :: _ => Some []
  | Some arg :: rest => cons arg <$> untilNull rest
  end.
Definition parseArgv (is_number : string -> bool) (mode : Argh.Mode) (registered : list string)
    (argv : list (option string)) : outcome Argh.parser :=
  match untilNull argv with
  | Some args => Argh.parse is_number mode registered args
  | None => Fault UndefinedBehaviour
  end.

(** * is_number *)

(** The exponent of a number, if there is a mark: its digits may not be missing. *)
Definition exponentPart (s : string) : option Z :=
  match s with
  | String c s1 =>
      if bool_decide (c = "e"%char \/ c = "E"%char) then
        let '(sign, s2) := Numbers.readSign s1 in
        match s2 with
        | String d _ => if Numbers.isDigit 10 d then Some (sign * (Numbers.readDigits 10 s2 0).1)%Z else None
        | EmptyString => None
        end
      else Some 0%Z
  | EmptyString => Some 0%Z
  end.

(** is_number: whether the stream of a text is good after a double has been read from
    it.  The stream takes a sign, digits with at most one point, and after a digit the
    mark of an exponent, a sign and digits; it fails when there is no digit, when
    nothing follows the mark, and when the number is too large for a double. *)
Definition is_number (arg : string) : bool :=
  let '(sign, s1) := Numbers.readSign (Numbers.skipSpaces arg) in
  let '(whole, s2) := Numbers.readDigits 10 s1 0 in
  let '(m, fractionDigits, s3) :=
    match s2 with
    | String "." s' =>
        let '(m, s3) := Numbers.readDigits 10 s' whole in (m, (String.length s' - String.length s3)%nat, s3)
    | _ => (whole, O, s2)
    end in
  if Nat.eqb (String.length s1 - String.length s2 + fractionDigits) 0 then false
  else match exponentPart s3 with
       | None => false
       | Some e =>
           match Ieee.ofDecimal (sign <? 0)%Z m (e - Z.of_nat fractionDigits) with
           | S754_infinity _ => false
           | _ => true
           end
       end.

(** * The multimap is sorted *)

Definition keysSorted (l : list (string * string)) : Prop :=
  StronglySorted (fun a b => String.ltb b.1 a.1 = false) l.

Lemma string_ltb_false_trans a b c : String.ltb b a = false -> String.ltb c b = false -> String.ltb c a = false.
Proof.
  intros A B. destruct (String.ltb c a) eqn:E; [|done]. exfalso.
  destruct (String.ltb b c) eqn:F.
  - rewrite string_ltb_lt in *. assert (String.compare b a = Lt) as H by (by eapply string_compare_trans).
    rewrite <- string_ltb_lt in H. congruence.
  - assert (b = c) as -> by (by apply string_total). congruence.
Qed.

Lemma string_ltb_asym a b : String.ltb a b = true -> String.ltb b a = false.
Proof.
  intros A. destruct (String.ltb b a) eqn:B; [|done]. rewrite string_ltb_lt in *.
  pose proof (string_compare_trans _ _ _ A B) as C. rewrite <- string_ltb_lt, string_ltb_irrefl in C. done.
Qed.

Lemma insertParam_elem k v l x : x ∈ Argh.insertParam k v l <-> x = (k, v) \/ x ∈ l.
Proof.
  induction l as [|[k' v'] l IH]; cbn; [set_solver|]. destruct (String.ltb k k'); [set_solver|].
  rewrite !elem_of_cons, IH. tauto.
Qed.

Lemma insertParam_sorted k v l : keysSorted l -> keysSorted (Argh.insertParam k v l).
Proof.
  unfold keysSorted. induction l as [|[k' v'] l IH]; cbn; intros S; [repeat constructor|].
  apply StronglySorted_inv in S as [S F]. destruct (String.ltb k k') eqn:E.
  - constructor; [by constructor|]. constructor; [by apply string_ltb_asym|].
    eapply Forall_impl; [exact F|]. cbn. intros x Hx. eapply string_ltb_false_trans; [|exact Hx]. by apply string_ltb_asym.
  - constructor; [by apply IH|]. apply Forall_forall. intros x [->|Hx]%insertParam_elem; [done|].
    rewrite Forall_forall in F. by apply F.
Qed.

(** What is inserted under a name is looked up under it, unless there was a value before;
    other names are not affected. *)
Theorem findParam_insert name k v l :
  keysSorted l ->
  findParam name (Argh.insertParam k v l)
  = if bool_decide (name = k) then Some (default v (findParam k l)) else findParam name l.
Proof.
  unfold keysSorted. induction l as [|[k' v'] l IH]; cbn; intros S.
  - repeat case_bool_decide; congruence.
  - apply StronglySorted_inv in S as [S F]. destruct (String.ltb k k') eqn:E; cbn.
    + destruct (decide (name = k)) as [->|N].
      * rewrite !bool_decide_true by done. rewrite bool_decide_false by (intros ->; by rewrite string_ltb_irrefl in E).
        assert (findParam k l = None) as ->; [|done]. rewrite Forall_forall in F.
        assert (forall v, (k, v) ∉ l) as Ni.
        { intros w Hw. specialize (F _ Hw). cbn in F. congruence. }
        clear -Ni. induction l as [|[k1 v1] l IH]; [done|]. cbn. rewrite bool_decide_false.
        -- apply IH. intros w Hw. apply (Ni w). by right.
        -- intros ->. apply (Ni v1). left.
      * rewrite (bool_decide_false (k = name)), (bool_decide_false (name = k)) by congruence. done.
    + rewrite IH by done. repeat case_bool_decide; simplify_eq/=; done.
Qed.

(** The elements from the lower to the upper bound are those of the name. *)
Lemma range_filter name l :
  keysSorted l ->
  take (List.length (lowerBound name l) - List.length (upperBound name l)) (lowerBound name l)
  = filter (fun kv => kv.1 = name) l.
Proof.
  unfold keysSorted. induction l as [|[k v] l IH]; intros S; [done|]. cbn [lowerBound upperBound].
  apply StronglySorted_inv in S as [S F]. specialize (IH S).
  assert (String.ltb name k = true -> filter (fun kv : string * string => kv.1 = name) l = []) as Above.
  { intros E. destruct (filter _ l) as [|x rest] eqn:Ef; [done|]. exfalso.
    assert (x ∈ filter (fun kv : string * string => kv.1 = name) l) as Hx by (rewrite Ef; left).
    apply list_elem_of_filter in Hx as [<- Hx]. rewrite Forall_forall in F. specialize (F _ Hx). cbn in F. congruence. }
  assert (forall l', (List.length (upperBound name l') <= List.length l')%nat) as Le.
  { induction l' as [|[k1 v1] l' IHl]; cbn; [done|]. destruct (String.ltb name k1); cbn; lia. }
  destruct (String.ltb k name) eqn:A, (String.ltb name k) eqn:B.
  - by rewrite (string_ltb_asym _ _ A) in B.
  - rewrite filter_cons_False by (cbn; intros ->; by rewrite string_ltb_irrefl in A). done.
  - rewrite Nat.sub_diag. cbn [take]. rewrite filter_cons_False by (cbn; intros ->; by rewrite string_ltb_irrefl in B). by rewrite Above.
  - assert (k = name) as -> by (by apply string_total). rewrite filter_cons_True by done.
    pose proof (Le l). replace (List.length ((name, v) :: l) - List.length (upperBound name l))%nat
      with (Datatypes.S (List.length l - List.length (upperBound name l))%nat) by (cbn; lia).
    cbn [take]. f_equal. rewrite <- IH. destruct l as [|[k1 v1] l]; [done|]. cbn [lowerBound].
    apply Forall_cons in F as [F _]. cbn in F. by rewrite F.
Qed.

(** * What a parsed command line returns *)

Lemma foldl_addFlag_params cs q :
  Argh.params_ (foldl (fun p c => Argh.addFlag (String c EmptyString) p) q cs) = Argh.params_ q.
Proof. revert q. induction cs as [|c cs IH]; intros q; [done|]. cbn. by rewrite IH. Qed.

Lemma multiFlags_params reg name q : Argh.params_ (Argh.multiFlags reg name q).2 = Argh.params_ q.
Proof.
  unfold Argh.multiFlags. destruct (Argh.lastChar name) as [[init c]|]; [destruct (Argh.is_param _ _)|];
    apply foldl_addFlag_params.
Qed.

(** The end of a step, with the name that is left and the state that is reached. *)
Lemma optionEnd_sorted is_number mode reg (name : option string) rest q q' taken :
  keysSorted (Argh.params_ q) ->
  match name with
  | None => Ret (q, false)
  | Some name =>
      match rest with
      | [] => Ret (Argh.addFlag name q, false)
      | next :: _ =>
          let! o := Argh.is_option is_number next in
          if o then Ret (Argh.addFlag name q, false)
          else if Argh.is_param reg name || Argh.preferParamForUnregOption mode then Ret (Argh.addParam name next q, true)
          else Ret (Argh.addFlag name q, false)
      end
  end = Ret (q', taken) -> keysSorted (Argh.params_ q').
Proof.
  intros S. destruct name as [name|]; [|by intros [= <- _]]. destruct rest as [|next rest]; [by intros [= <- _]|].
  destruct (Argh.is_option is_number next) as [o|]; [|done]. cbn. destruct o; [by intros [= <- _]|].
  destruct (_ || _); intros [= <- _]; [by apply insertParam_sorted|done].
Qed.

Lemma optionStep_sorted is_number mode reg arg rest q q' taken :
  keysSorted (Argh.params_ q) -> Argh.optionStep is_number mode reg arg rest q = Ret (q', taken) ->
  keysSorted (Argh.params_ q').
Proof.
  intros S. unfold Argh.optionStep.
  destruct (if Argh.noSplitOnEqualsign mode then None else Argh.splitEquals _) as [[k v]|].
  { intros [= <- _]. by apply insertParam_sorted. }
  destruct (_ && _); [|by apply (optionEnd_sorted is_number mode reg (Some (Argh.trim_leading_dashes arg)))].
  pose proof (multiFlags_params reg (Argh.trim_leading_dashes arg) q) as Eq.
  destruct (Argh.multiFlags _ _ _) as [name q1]. cbn in Eq. apply optionEnd_sorted. by rewrite Eq.
Qed.

Lemma parseArgs_sorted is_number mode reg args q q' :
  keysSorted (Argh.params_ q) -> Argh.parseArgs is_number mode reg args q = Ret q' -> keysSorted (Argh.params_ q').
Proof.
  remember (List.length args) as n eqn:Hn. assert (List.length args <= n)%nat as Le by lia. clear Hn. revert args q Le.
  induction n as [|n IH]; intros [|arg rest] q Le S; cbn [Argh.parseArgs List.length] in *; try (by intros [= <-]); [lia|].
  destruct (Argh.is_option is_number arg) as [o|]; [|done]. cbn [obind]. destruct o; cbn [negb].
  - destruct (Argh.optionStep _ _ _ arg rest q) as [[q1 taken]|] eqn:E; [|done]. cbn [obind].
    apply optionStep_sorted in E; [|done]. destruct taken; [|apply IH; [lia|done]].
    destruct rest as [|next rest]; [by intros [= <-]|]. apply IH; [cbn in Le; lia|done].
  - apply IH; [lia|done].
Qed.

(** params(name) of a parsed command line goes over exactly the values given for that
    name, in the order they were given in. *)
Theorem parsed_params_range is_number mode reg args q name :
  Argh.parse is_number mode reg args = Ret q ->
  paramsRange q name = filter (fun kv => kv.1 = Argh.trim_leading_dashes name) (Argh.params_ q).
Proof. intros E. apply range_filter. eapply parseArgs_sorted; [|exact E]. constructor. Qed.

(** The accessors with a list of names return the value of the first name that has one. *)
Theorem paramStreams_first q names :
  paramStreams q names = head (omap (fun n => paramStream q n) names).
Proof.
  induction names as [|n names IH]; [done|]. cbn [paramStreams]. cbn [omap list_omap]. unfold paramStream at 1.
  destruct (findParam _ _); [done|]. apply IH.
Qed.

Theorem paramStreamsOr_default q names d : paramStreamsOr q names d = Some (default d (paramStreams q names)).
Proof. induction names as [|n names IH]; [done|]. cbn [paramStreamsOr paramStreams]. by destruct (findParam _ _). Qed.

Lemma parsed_params_range_witness :
  paramsRange (Argh.mkParser [("x", "1"); ("x", "2")] ["prog"] []) "--x" = [("x", "1"); ("x", "2")].
Proof.
  rewrite (parsed_params_range (fun _ => false) (Argh.mkMode true false false) [] ["prog"; "-x"; "1"; "-x"; "2"]);
    vm_compute; reflexivity.
Defined.

(** * Options and numbers *)

(** What begins with a dash is an option unless a number follows the dash. *)
Theorem dash_is_option c s :
  Numbers.isDigit 10 c = false -> c <> "."%char ->
  Argh.is_option is_number (String "-" (String c s)) = Ret true.
Proof.
  intros Dg Pt. unfold Argh.is_option.
  assert (is_number (String "-" (String c s)) = false) as ->; [|done].
  unfold is_number. change (Numbers.readSign (Numbers.skipSpaces (String "-" (String c s)))) with ((-1)%Z, String c s).
  cbn [Numbers.readDigits]. rewrite Dg.
  assert (match String c s with
          | String "." s' => let '(m, s3) := Numbers.readDigits 10 s' 0 in (m, (String.length s' - String.length s3)%nat, s3)
          | _ => (0%Z, O, String c s)
          end = (0%Z, O, String c s)) as ->.
  { destruct c as [[] [] [] [] [] [] [] []]; done. }
  by rewrite Nat.sub_diag.
Qed.

(** Negative numbers are no options, whatever their notation; a mark without an exponent
    and a number beyond the doubles are. *)
Example numbers_read :
  map is_number ["-5"; "-.5"; "-5."; "+1e3"; "-1E-400"; "12abc"; "1e"; "-1e400"; "-"; "-."; "-e5"; ""]
  = [true; true; true; true; true; true; false; false; false; false; false; false].
Proof. vm_compute. reflexivity. Qed.

(** The documented command line, read with the numbers of the library. *)
Theorem documented_command_line prog path val s c l :
  isValue is_number prog -> isValue is_number path -> isValue is_number val -> Log.parse_severity val = Ret s ->
  c ∈ ["-c"; "--config"] -> l ∈ ["-l"; "--loglevel"] ->
  main is_number [prog; c; path; l; val] = Ret (RunServer (Log.severity_int s) path)
  /\ main is_number [prog; l; val; c; path] = Ret (RunServer (Log.severity_int s) path).
Proof. apply command_line. by vm_compute. Qed.
