(* ===== verification/MockedModbus.v ===== *)
(** The simulated Modbus network of the tests: unittests/mockedmodbuscontext.hpp and
    mockedmodbuscontext.cpp, an implementation of IModbusContext over tables of
    registers in memory, with injected errors.

    Time spent sleeping is left out; the clock is an argument.  The mutex makes an
    operation atomic.  A condition variable is the list of the wake-ups a waiting
    thread gets, with the state it finds at each of them. *)

From S2P Require Import Prelude ModbusTypes PollSpec Commands ModbusContext Config ConvTools.
From Stdlib Require Import ZArith Lia.
From stdpp Require Import base gmap list strings numbers.

#[local] Open Scope string_scope.
#[local] Open Scope Z_scope.

(** * Slaves *)

(** struct RegData *)
Record RegData : Type := mkRegData {
  rdValue : Z;
  rdError : bool;
  rdReadCount : Z;
  rdWriteCount : Z
}.
Definition newRegData : RegData := mkRegData 0 false 0 0.

Definition sDefaultSlaveReadTime : Z := 5 * MSEC.
Definition sDefaultSlaveWriteTime : Z := 10 * MSEC.

Abbreviation Table := (gmap Z RegData).

(** class Slave *)
Record Slave : Type := mkSlave {
  mInput : Table;
  mHolding : Table;
  mCoil : Table;
  mBit : Table;
  mReadTime : Z;
  mWriteTime : Z;
  mId : Z;
  mDisconnected : bool;
  mIssuedReadCalls : list RegisterPoll;
  mIssuedWriteCalls : list RegisterWrite
}.

Definition newSlave (id : Z) : Slave :=
  mkSlave ∅ ∅ ∅ ∅ sDefaultSlaveReadTime sDefaultSlaveWriteTime id false [] [].

(** The table the switch over the register type chooses. *)
Definition tableOf (ty : RegisterType) (s : Slave) : Table :=
  match ty with COIL => mCoil s | BIT => mBit s | HOLDING => mHolding s | INPUT => mInput s end.

Definition withTable (ty : RegisterType) (t : Table) (s : Slave) : Slave :=
  mkSlave
    (match ty with INPUT => t | _ => mInput s end)
    (match ty with HOLDING => t | _ => mHolding s end)
    (match ty with COIL => t | _ => mCoil s end)
    (match ty with BIT => t | _ => mBit s end)
    (mReadTime s) (mWriteTime s) (mId s) (mDisconnected s) (mIssuedReadCalls s) (mIssuedWriteCalls s).

Definition setDisconnected (flag : bool) (s : Slave) : Slave :=
  mkSlave (mInput s) (mHolding s) (mCoil s) (mBit s) (mReadTime s) (mWriteTime s) (mId s) flag
    (mIssuedReadCalls s) (mIssuedWriteCalls s).
Definition withIssuedRead (calls : list RegisterPoll) (s : Slave) : Slave :=
  mkSlave (mInput s) (mHolding s) (mCoil s) (mBit s) (mReadTime s) (mWriteTime s) (mId s) (mDisconnected s)
    calls (mIssuedWriteCalls s).
Definition withIssuedWrite (calls : list RegisterWrite) (s : Slave) : Slave :=
  mkSlave (mInput s) (mHolding s) (mCoil s) (mBit s) (mReadTime s) (mWriteTime s) (mId s) (mDisconnected s)
    (mIssuedReadCalls s) calls.
Definition withTimes (readTime writeTime : Z) (s : Slave) : Slave :=
  mkSlave (mInput s) (mHolding s) (mCoil s) (mBit s) readTime writeTime (mId s) (mDisconnected s)
    (mIssuedReadCalls s) (mIssuedWriteCalls s).

(** The registers [num] to [num + count - 1] of a table: has one of them an error? *)
Definition tableHasError (t : Table) (num count : Z) : bool :=
  existsb (fun i => match t !! i with Some r => rdError r | None => false end) (seqZ num count).

Definition hasError (regNum : Z) (regType : RegisterType) (regCount : Z) (s : Slave) : bool :=
  tableHasError (tableOf regType s) regNum regCount.

Definition setError (regNum : Z) (regType : RegisterType) (flag : bool) (s : Slave) : Slave :=
  let t := tableOf regType s in
  let r := default newRegData (t !! regNum) in
  withTable regType (<[regNum := mkRegData (rdValue r) flag (rdReadCount r) (rdWriteCount r)]> t) s.

(** The loop of write. *)
Definition storedValue (ty : RegisterType) (value : Z) : Z :=
  match ty with
  | COIL | BIT => if value =? 1 then 1 else 0
  | HOLDING | INPUT => value
  end.

Definition writeRegister (ty : RegisterType) (internalOperation : bool) (regNumber value : Z) (t : Table) : Table :=
  let r := default newRegData (t !! regNumber) in
  <[regNumber := mkRegData (storedValue ty value) (rdError r) (rdReadCount r)
                   (if internalOperation then rdWriteCount r else rdWriteCount r + 1)]> t.

Fixpoint writeRegisters (ty : RegisterType) (internalOperation : bool) (regNumber : Z) (values : list Z) (t : Table) : Table :=
  match values with
  | [] => t
  | value :: values' =>
      writeRegisters ty internalOperation (regNumber + 1) values' (writeRegister ty internalOperation regNumber value t)
  end.

(** Slave::write *)
Definition slaveWrite (msg : RegisterWrite) (internalOperation : bool) (s : Slave) : Slave * WriteResult :=
  let range := mRange (cmdBase (writeCmd msg)) in
  let ty := mRegisterType range in
  let s := if internalOperation then s else withIssuedWrite (mIssuedWriteCalls s ++ [msg]) s in
  if negb internalOperation
     && (mDisconnected s || hasError (mRegister range) ty (ModbusRegisters.getCount (mValues msg)) s)
  then (s, WriteException)
  else (withTable ty (writeRegisters ty internalOperation (mRegister range) (mValues msg) (tableOf ty s)) s, WriteOk).

(** readRegister: a register that is not there is made, unless a test looks at it. *)
Definition readRegister (num : Z) (internalOperation : bool) (t : Table) : Z * Table :=
  match t !! num with
  | None =>
      if internalOperation then (0, t)
      else (0, <[num := mkRegData 0 false 1 0]> t)
  | Some r =>
      (rdValue r,
       if internalOperation then t
       else <[num := mkRegData (rdValue r) (rdError r) (rdReadCount r + 1) (rdWriteCount r)]> t)
  end.

Fixpoint readRegisters (num : Z) (count : nat) (internalOperation : bool) (t : Table) : list Z * Table :=
  match count with
  | O => ([], t)
  | S count' =>
      let (v, t1) := readRegister num internalOperation t in
      let (vs, t2) := readRegisters (num + 1) count' internalOperation t1 in
      (v :: vs, t2)
  end.

(** Slave::read *)
Definition slaveRead (regData : RegisterPoll) (internalOperation : bool) (s : Slave) : Slave * ReadResult :=
  let range := mRange (cmdBase (pollCmd regData)) in
  let ty := mRegisterType range in
  let s := if internalOperation then s else withIssuedRead (mIssuedReadCalls s ++ [regData]) s in
  if negb internalOperation && (mDisconnected s || hasError (mRegister range) ty (pollGetCount regData) s)
  then (s, ReadException)
  else
    let (ret, t) := readRegisters (mRegister range) (Z.to_nat (pollGetCount regData)) internalOperation (tableOf ty s) in
    (withTable ty t s, ReadOk ret).

(** getIssuedReadCall and getIssuedWriteCall; [number] is compared as a size_t. *)
Definition issuedCall {A} (calls : list A) (number : Z) : outcome A :=
  match calls !! Z.to_nat (to_u64 number) with
  | Some c => Ret c
  | None => Fault AssertionFailed
  end.

(** * The context *)

(** class MockedModbusContext; [mFiles] are the names of the files that exist. *)
Record MockedModbusContext : Type := mkMock {
  mInternalOperation : bool;
  mNetworkName : string;
  mDeviceName : string;
  mDeviceOpen : bool;
  mFiles : gset string;
  mSlaves : gmap Z Slave;
  mLastPollTime : Z;
  mLastPolledSlave : Z;
  mLastPolledRegister : Z;
  mConnectionCount : Z
}.

(** A new context; the place of the last poll is not initialised in the code. *)
Definition newMock (name : string) : MockedModbusContext := mkMock false name "" false ∅ ∅ 0 0 0 0.

Definition withInternal b (c : MockedModbusContext) : MockedModbusContext :=
  mkMock b (mNetworkName c) (mDeviceName c) (mDeviceOpen c) (mFiles c) (mSlaves c) (mLastPollTime c)
    (mLastPolledSlave c) (mLastPolledRegister c) (mConnectionCount c).
Definition withDeviceOpen b (c : MockedModbusContext) : MockedModbusContext :=
  mkMock (mInternalOperation c) (mNetworkName c) (mDeviceName c) b (mFiles c) (mSlaves c) (mLastPollTime c)
    (mLastPolledSlave c) (mLastPolledRegister c) (mConnectionCount c).
Definition withFiles fs (c : MockedModbusContext) : MockedModbusContext :=
  mkMock (mInternalOperation c) (mNetworkName c) (mDeviceName c) (mDeviceOpen c) fs (mSlaves c) (mLastPollTime c)
    (mLastPolledSlave c) (mLastPolledRegister c) (mConnectionCount c).
Definition withSlaves ss (c : MockedModbusContext) : MockedModbusContext :=
  mkMock (mInternalOperation c) (mNetworkName c) (mDeviceName c) (mDeviceOpen c) (mFiles c) ss (mLastPollTime c)
    (mLastPolledSlave c) (mLastPolledRegister c) (mConnectionCount c).
Definition withLastPoll t s r (c : MockedModbusContext) : MockedModbusContext :=
  mkMock (mInternalOperation c) (mNetworkName c) (mDeviceName c) (mDeviceOpen c) (mFiles c) (mSlaves c) t s r
    (mConnectionCount c).
Definition withConnectionCount n (c : MockedModbusContext) : MockedModbusContext :=
  mkMock (mInternalOperation c) (mNetworkName c) (mDeviceName c) (mDeviceOpen c) (mFiles c) (mSlaves c) (mLastPollTime c)
    (mLastPolledSlave c) (mLastPolledRegister c) n.

(** findOrCreateSlave *)
Definition findOrCreateSlave (id : Z) (c : MockedModbusContext) : Slave :=
  default (newSlave id) (mSlaves c !! id).
Definition putSlave (id : Z) (s : Slave) (c : MockedModbusContext) : MockedModbusContext :=
  withSlaves (<[id := s]> (mSlaves c)) c.
(** getSlave, and what a test does with the reference it gets. *)
Definition changeSlave (id : Z) (f : Slave -> Slave) (c : MockedModbusContext) : MockedModbusContext :=
  putSlave id (f (findOrCreateSlave id c)) c.

(** The bits of a read, packed into words: the loop, and the push after it. *)
Definition packBit (st : Z * Z * list Z) (val : Z) : Z * Z * list Z :=
  let '(toSet, retval, ret) := st in
  let retval := if negb (val =? 0) then Z.lor retval (Z.shiftl 1 toSet) else retval in
  let toSet := toSet + 1 in
  if toSet =? 16 then (0, 0, ret ++ [retval])%list else (toSet, retval, ret).

Definition packBits (data : list Z) : list Z :=
  let '(toSet, retval, ret) := foldl packBit (0, 0, []) data in
  if negb (toSet =? 16) then (ret ++ [retval])%list else ret.

Definition readShape (ty : RegisterType) (data : list Z) : list Z :=
  match ty with
  | COIL | BIT => packBits data
  | HOLDING | INPUT => data
  end.

(** readModbusRegisters; [now] is the clock. *)
Definition mockRead (now : Z) (c : MockedModbusContext) (slaveId : Z) (regData : RegisterPoll) : MockedModbusContext * ReadResult :=
  let range := mRange (cmdBase (pollCmd regData)) in
  let (s, r) := slaveRead regData (mInternalOperation c) (findOrCreateSlave slaveId c) in
  let c := putSlave slaveId s c in
  match r with
  | ReadOk data =>
      (withLastPoll now slaveId (mRegister range) (withInternal false c), ReadOk (readShape (mRegisterType range) data))
  | _ => (c, r)
  end.

(** writeModbusRegisters *)
Definition mockWrite (c : MockedModbusContext) (slaveId : Z) (msg : RegisterWrite) : MockedModbusContext * WriteResult :=
  let (s, r) := slaveWrite msg (mInternalOperation c) (findOrCreateSlave slaveId c) in
  let c := putSlave slaveId s c in
  match r with
  | WriteOk => (withInternal false c, WriteOk)
  | _ => (c, r)
  end.

(** createFakeDevice, removeFakeDevice; [creatable]: the file can be made. *)
Definition createFakeDevice (creatable : bool) (c : MockedModbusContext) : MockedModbusContext :=
  if creatable then withFiles ({[mDeviceName c]} ∪ mFiles c) c else c.
Definition removeFakeDevice (c : MockedModbusContext) : MockedModbusContext :=
  withFiles (mFiles c ∖ {[mDeviceName c]}) c.

(** init *)
Definition mockInit (creatable : bool) (config : ModbusNetworkConfig) (c : MockedModbusContext) : MockedModbusContext :=
  let fname := match netType config with RTU => mDevice config | TCPIP => "_" +:+ netName config end in
  createFakeDevice creatable
    (mkMock (mInternalOperation c) (netName config) fname (mDeviceOpen c) (mFiles c) (mSlaves c) (mLastPollTime c)
       (mLastPolledSlave c) (mLastPolledRegister c) (mConnectionCount c)).

(** connect: a stream that is open stays open, another one opens a file that exists. *)
Definition mockConnect (c : MockedModbusContext) : MockedModbusContext :=
  withDeviceOpen (mDeviceOpen c || bool_decide (mDeviceName c ∈ mFiles c))
    (withConnectionCount (mConnectionCount c + 1) c).

Definition mockDisconnect (c : MockedModbusContext) : MockedModbusContext := withDeviceOpen false c.

(** ~MockedModbusContext *)
Definition destroyMock (c : MockedModbusContext) : MockedModbusContext := removeFakeDevice (mockDisconnect c).

(** The clock an instance of the interface reads depends on its state only. *)
Definition mockInterface (clock : MockedModbusContext -> Z) : IModbusContext MockedModbusContext := {|
  connect := mockConnect;
  isConnected := mDeviceOpen;
  disconnect := mockDisconnect;
  readModbusRegisters := fun c slaveId regData => mockRead (clock c) c slaveId regData;
  writeModbusRegisters := mockWrite
|}.

(** * What the tests look at *)

(** findSlave *)
Definition findSlave (slaveId : Z) (c : MockedModbusContext) : outcome Slave :=
  match mSlaves c !! slaveId with
  | Some s => Ret s
  | None => Fault AssertionFailed
  end.

Definition getIssuedReadCallsCount (slaveId : Z) (c : MockedModbusContext) : outcome Z :=
  let! s := findSlave slaveId c in Ret (Z.of_nat (length (mIssuedReadCalls s))).
Definition getIssuedWriteCallsCount (slaveId : Z) (c : MockedModbusContext) : outcome Z :=
  let! s := findSlave slaveId c in Ret (Z.of_nat (length (mIssuedWriteCalls s))).
Definition getIssuedReadCall (slaveId number : Z) (c : MockedModbusContext) : outcome RegisterPoll :=
  let! s := findSlave slaveId c in issuedCall (mIssuedReadCalls s) number.
Definition getIssuedWriteCall (slaveId number : Z) (c : MockedModbusContext) : outcome RegisterWrite :=
  let! s := findSlave slaveId c in issuedCall (mIssuedWriteCalls s) number.

Definition setReadTime (slaveId readTime : Z) : MockedModbusContext -> MockedModbusContext :=
  changeSlave slaveId (fun s => withTimes readTime (mWriteTime s) s).
Definition setWriteTime (slaveId writeTime : Z) : MockedModbusContext -> MockedModbusContext :=
  changeSlave slaveId (fun s => withTimes (mReadTime s) writeTime s).

Definition getLastReadRegisterAddress (c : MockedModbusContext) : Z * Z :=
  (mLastPolledSlave c, mLastPolledRegister c + 1).

(** getModbusRegisterValue; [now1] and [now2] are the clock readings of the poll. *)
Definition getModbusRegisterValue (now now1 now2 : Z) (slaveId regNum : Z) (regtype : RegisterType)
  (c : MockedModbusContext) : outcome Z * MockedModbusContext :=
  let poll := newRegisterPoll slaveId (regNum - 1) regtype 1 0 ON_CHANGE 0 now1 now2 in
  let (c, r) := mockRead now (withInternal true c) slaveId poll in
  (match r with
   | ReadOk (v :: _) => Ret v
   | _ => Fault EndDereferenced
   end, c).

(** getUnreadedRegisterCount *)
Definition unreadIn (t : Table) : Z :=
  Z.of_nat (length (filter (fun p => rdReadCount p.2 = 0) (map_to_list t))).
Definition unreadOf (s : Slave) : Z :=
  unreadIn (mBit s) + unreadIn (mCoil s) + unreadIn (mInput s) + unreadIn (mHolding s).
Definition getUnreadedRegisterCount (c : MockedModbusContext) : Z :=
  foldr (fun p n => unreadOf p.2 + n) 0 (map_to_list (mSlaves c)).

(** * Waiting with a condition variable *)

(** A wake-up: the time is over, or the thread was notified and finds a state, [dur]
    milliseconds after it has begun to wait. *)
Inductive Wake (S : Type) :=
| TimedOut
| Notified (s : S) (dur : Z).
Arguments TimedOut {S}.
Arguments Notified {S} s dur.

(** The loop the waiting functions share: [None] while the thread still waits. *)
Section wait.
Context {S A : Type} (look : S -> A) (good : A -> bool) (timeout : Z).

Fixpoint waitLoop (current : A) (wakes : list (Wake S)) : option A :=
  match wakes with
  | [] => None
  | TimedOut :: _ => Some current
  | Notified s dur :: wakes' =>
      if good (look s) then Some (look s)
      else if dur <? timeout then waitLoop (look s) wakes' else Some (look s)
  end.

Definition waitFor (s : S) (wakes : list (Wake S)) : option A :=
  if good (look s) then Some (look s) else waitLoop (look s) wakes.

End wait.

(** waitForModbusValue: the clock readings are those of each look. *)
Definition waitForModbusValue (timeout slaveId regNum : Z) (regType : RegisterType) (val : Z)
  : MockedModbusContext -> list (Wake MockedModbusContext) -> option (outcome Z) :=
  waitFor (fun c => (getModbusRegisterValue 0 0 0 slaveId regNum regType c).1)
    (fun r => match r with Ret v => v =? val | Fault _ => false end) timeout.

(** waitForInitialPoll, with its final REQUIRE *)
Definition waitForInitialPoll (timeout : Z) (c : MockedModbusContext) (wakes : list (Wake MockedModbusContext))
  : option (outcome unit) :=
  match waitFor getUnreadedRegisterCount (fun n => n =? 0) timeout c wakes with
  | Some n => Some (if n =? 0 then Ret tt else Fault AssertionFailed)
  | None => None
  end.

(** * The factory *)

(** class MockedModbusFactory: the contexts by the name of their network.  The threads
    of the gateway hold pointers to the same contexts. *)
Abbreviation MockedModbusFactory := (gmap string MockedModbusContext).

(** getOrCreateContext, which getContext returns. *)
Definition getOrCreateContext (network : string) (f : MockedModbusFactory) : MockedModbusContext :=
  default (newMock network) (f !! network).
Definition changeContext (network : string) (g : MockedModbusContext -> MockedModbusContext)
  (f : MockedModbusFactory) : MockedModbusFactory :=
  <[network := g (getOrCreateContext network f)]> f.

(** The first key of a std::map. *)
Definition firstKey {A} (m : gmap string A) : option string :=
  foldr (fun p acc => match acc with
                      | Some k => Some (if String.ltb p.1 k then p.1 else k)
                      | None => Some p.1
                      end) None (map_to_list m).

(** findOrReturnFirstContext; no name is nullptr. *)
Definition findOrReturnFirstContext (network : option string) (f : MockedModbusFactory) : outcome MockedModbusContext :=
  match from_option Some (firstKey f) network with
  | Some name => match f !! name with Some c => Ret c | None => Fault EndDereferenced end
  | None => Fault EndDereferenced
  end.

Definition factoryLastPollTime (network : option string) (f : MockedModbusFactory) : outcome Z :=
  let! c := findOrReturnFirstContext network f in Ret (mLastPollTime c).
Definition factoryLastReadAddress (network : option string) (f : MockedModbusFactory) : outcome (Z * Z) :=
  let! c := findOrReturnFirstContext network f in Ret (getLastReadRegisterAddress c).

(** setModbusRegisterValue; the register number of a test starts at 1. *)
Definition setModbusRegisterValue (now : Z) (network : string) (slaveId regNum : Z) (regtype : RegisterType) (val : Z)
  : MockedModbusFactory -> MockedModbusFactory :=
  let msg := mkWrite (newCommand slaveId (regNum - 1) regtype 1 0) [val] AUTO false now None in
  changeContext network (fun c => (mockWrite (withInternal true c) slaveId msg).1).

(** setModbusRegisterReadError and setModbusRegisterWriteError, which are the same. *)
Definition setModbusRegisterError (network : string) (slaveId regNum : Z) (regType : RegisterType) (flag : bool)
  : MockedModbusFactory -> MockedModbusFactory :=
  changeContext network (changeSlave slaveId (setError (regNum - 1) regType flag)).

Definition setModbusReadTime (network : string) (slaveId readTime : Z) : MockedModbusFactory -> MockedModbusFactory :=
  changeContext network (setReadTime slaveId readTime).
Definition setModbusWriteTime (network : string) (slaveId writeTime : Z) : MockedModbusFactory -> MockedModbusFactory :=
  changeContext network (setWriteTime slaveId writeTime).
Definition disconnectModbusSlave (network : string) (slaveId : Z) : MockedModbusFactory -> MockedModbusFactory :=
  changeContext network (changeSlave slaveId (setDisconnected true)).
Definition connectModbusSlave (network : string) (slaveId : Z) : MockedModbusFactory -> MockedModbusFactory :=
  changeContext network (changeSlave slaveId (setDisconnected false)).

(** * The memory behind a context *)

Definition tableAt (t : Table) (n : Z) : Z := from_option rdValue 0 (t !! n).

(** The value a register has, whatever has been read or counted. *)
Definition memoryAt (c : MockedModbusContext) (slaveId : Z) (ty : RegisterType) (n : Z) : Z :=
  tableAt (tableOf ty (findOrCreateSlave slaveId c)) n.

(** A transfer of [count] registers is refused: the slave is disconnected, or one of the
    registers has an error. *)
Definition refuses (c : MockedModbusContext) (slaveId : Z) (ty : RegisterType) (num count : Z) : bool :=
  let s := findOrCreateSlave slaveId c in mDisconnected s || hasError num ty count s.

Lemma tableOf_withTable ty ty' t s :
  tableOf ty (withTable ty' t s) = if decide (ty = ty') then t else tableOf ty s.
Proof. by destruct ty, ty'. Qed.

Lemma findOrCreate_put c id id' s :
  findOrCreateSlave id (putSlave id' s c) = if decide (id = id') then s else findOrCreateSlave id c.
Proof.
  unfold findOrCreateSlave, putSlave. cbn. destruct (decide (id = id')) as [->|N].
  - by rewrite lookup_insert_eq.
  - by rewrite lookup_insert_ne.
Qed.

Lemma tableOf_issued ty calls s : tableOf ty (withIssuedRead calls s) = tableOf ty s.
Proof. by destruct ty. Qed.
Lemma tableOf_issued_write ty calls s : tableOf ty (withIssuedWrite calls s) = tableOf ty s.
Proof. by destruct ty. Qed.

(** Reading changes the counters only. *)
Lemma readRegister_value num internal t :
  (readRegister num internal t).1 = tableAt t num
  /\ (forall n, tableAt (readRegister num internal t).2 n = tableAt t n).
Proof.
  unfold readRegister, tableAt. destruct (t !! num) as [r|] eqn:E, internal; cbn; (split; [done|]); intros n; try done.
  all: destruct (decide (n = num)) as [->|N]; [by rewrite lookup_insert_eq, E|by rewrite lookup_insert_ne by lia].
Qed.

Lemma readRegisters_value num count internal t :
  (readRegisters num count internal t).1 = tableAt t <$> seqZ num (Z.of_nat count)
  /\ (forall n, tableAt (readRegisters num count internal t).2 n = tableAt t n).
Proof.
  revert num t. induction count as [|count IH]; intros num t; [done|].
  cbn [readRegisters]. destruct (readRegister_value num internal t) as [V M].
  destruct (readRegister num internal t) as [v t1]. destruct (IH (num + 1) t1) as [Vs Ms].
  destruct (readRegisters (num + 1) count internal t1) as [vs t2]. cbn in *. subst v vs.
  rewrite (seqZ_cons num), fmap_cons by lia. split; [|intros n; by rewrite Ms, M].
  f_equal. replace (Z.pred (Z.of_nat (S count))) with (Z.of_nat count) by lia. replace (Z.succ num) with (num + 1) by lia.
  apply list_fmap_ext. intros i x _. apply M.
Qed.

(** The words of a write in memory. *)
Lemma writeRegisters_value ty internal num values t n :
  tableAt (writeRegisters ty internal num values t) n =
  match values !! Z.to_nat (n - num) with
  | Some v => if num <=? n then storedValue ty v else tableAt t n
  | None => tableAt t n
  end.
Proof.
  revert num t. induction values as [|v values IH]; intros num t; [done|]. cbn [writeRegisters]. rewrite IH.
  destruct (Z.leb_spec num n) as [L|L].
  - destruct (decide (n = num)) as [->|N].
    + rewrite Z.sub_diag. cbn [Z.to_nat lookup list_lookup].
      replace (num + 1 <=? num) with false by (symmetry; apply Z.leb_gt; lia).
      replace (tableAt (writeRegister ty internal num v t) num) with (storedValue ty v)
        by (unfold tableAt, writeRegister; by rewrite lookup_insert_eq).
      by destruct (values !! _).
    + replace (Z.to_nat (n - num)) with (S (Z.to_nat (n - (num + 1)))) by lia. cbn [lookup list_lookup].
      replace (num + 1 <=? n) with true by (symmetry; apply Z.leb_le; lia).
      replace (tableAt (writeRegister ty internal num v t) n) with (tableAt t n)
        by (unfold tableAt, writeRegister; by rewrite lookup_insert_ne by lia). done.
  - replace (Z.to_nat (n - num)) with 0%nat by lia. replace (Z.to_nat (n - (num + 1))) with 0%nat by lia.
    replace (num + 1 <=? n) with false by (symmetry; apply Z.leb_gt; lia).
    replace (tableAt (writeRegister ty internal num v t) n) with (tableAt t n)
      by (unfold tableAt, writeRegister; rewrite lookup_insert_ne by lia; done). cbn. by destruct (values !! 0%nat).
Qed.

(** * Packed bits *)

(** What the loop has done with [data]. *)
Definition packed (data : list Z) (st : Z * Z * list Z) : Prop :=
  let '(toSet, w, ret) := st in
  toSet = Z.of_nat (length data) mod 16
  /\ Z.of_nat (length ret) = Z.of_nat (length data) / 16
  /\ 0 <= w < 2 ^ toSet /\ Forall is_u16 ret
  /\ forall i v, data !! i = Some v ->
       Z.testbit (default 0 ((ret ++ [w])%list !! (i / 16)%nat)) (Z.of_nat i mod 16) = negb (v =? 0).

Lemma lor_bit_bound w k : 0 <= k -> 0 <= w < 2 ^ k -> 0 <= Z.lor w (Z.shiftl 1 k) < 2 ^ (k + 1).
Proof.
  intros Hk Hw. rewrite Z.shiftl_1_l, Z.lor_comm, <- (Z.mul_1_l (2 ^ k)), ConverterTools.lor_add, Z.pow_add_r by lia. lia.
Qed.

Lemma packBit_packed data v st : packed data st -> packed (data ++ [v]) (packBit st v).
Proof.
  destruct st as [[k w] ret]. intros (Hk & Hl & Hw & Hr & Hb).
  assert (0 <= k < 16) as K by (subst; apply Z.mod_pos_bound; lia).
  set (w' := if negb (v =? 0) then Z.lor w (Z.shiftl 1 k) else w).
  assert (0 <= w' < 2 ^ (k + 1)) as Hw'.
  { subst w'. destruct (negb (v =? 0)); [apply lor_bit_bound; lia|]. rewrite Z.pow_add_r by lia. lia. }
  assert (forall i x, (data ++ [v])%list !! i = Some x ->
    Z.testbit (default 0 ((ret ++ [w'])%list !! (i / 16)%nat)) (Z.of_nat i mod 16) = negb (x =? 0)) as Hb'.
  { intros i x Hi. apply lookup_snoc_Some in Hi as [[L Hi]|[-> <-]].
    - specialize (Hb _ _ Hi). rewrite <- Hb.
      assert (i / 16 <= length ret)%nat as Li by (apply Nat2Z.inj_le; rewrite Nat2Z.inj_div; rewrite Hl; apply Z.div_le_mono; lia).
      apply Nat.le_lteq in Li as [Li|Li]; [by rewrite !lookup_app_l|].
      rewrite Li, !list_lookup_middle by done. cbn. subst w'. destruct (negb (v =? 0)); [|done].
      rewrite Z.lor_spec, Z.shiftl_1_l, Z.pow2_bits_false, orb_false_r; [done|].
      apply (f_equal Z.of_nat) in Li. rewrite Nat2Z.inj_div, Hl in Li. zdivmod.
    - replace (length data / 16)%nat with (length ret) by (apply Nat2Z.inj; rewrite Nat2Z.inj_div; lia).
      rewrite list_lookup_middle, <- Hk by done. cbn. subst w'. destruct (Z.eqb_spec v 0) as [->|]; cbn.
      + destruct (decide (w = 0)) as [->|]; [apply Z.bits_0|]. apply Z.bits_above_log2; [lia|]. apply Z.log2_lt_pow2; lia.
      + by rewrite Z.lor_spec, Z.shiftl_1_l, Z.pow2_bits_true, orb_true_r by lia. }
  cbn [packBit]. fold w'. unfold packed. rewrite length_app, Nat2Z.inj_add. cbn [length].
  destruct (Z.eqb_spec (k + 1) 16) as [E|E].
  - rewrite length_app, Nat2Z.inj_add. cbn [length]. split; [zdivmod|]. split; [zdivmod|]. split; [lia|]. split.
    + apply Forall_app. split; [done|]. apply Forall_singleton. unfold is_u16. replace 16 with (k + 1). lia.
    + intros i x Hi. rewrite <- (Hb' i x Hi). rewrite lookup_app_l; [done|]. rewrite length_app. cbn [length].
      apply lookup_lt_Some in Hi. rewrite length_app in Hi. cbn in Hi. apply Nat2Z.inj_lt. rewrite Nat2Z.inj_div, Nat2Z.inj_add, Hl. zdivmod.
  - split; [zdivmod|]. split; [zdivmod|]. done.
Qed.

Lemma foldl_packed data : packed data (foldl packBit (0, 0, []) data).
Proof.
  induction data as [|v data IH] using rev_ind; [cbn; repeat split; try done; lia|].
  rewrite foldl_app. by apply packBit_packed.
Qed.

(** The result of a read of bits: a word for every 16 bits, and one more; bit [i] of the
    data is bit [i mod 16] of word [i / 16]. *)
Theorem packBits_spec data :
  Z.of_nat (length (packBits data)) = Z.of_nat (length data) / 16 + 1
  /\ Forall is_u16 (packBits data)
  /\ forall i v, data !! i = Some v ->
       Z.testbit (default 0 (packBits data !! (i / 16)%nat)) (Z.of_nat i mod 16) = negb (v =? 0).
Proof.
  unfold packBits. pose proof (foldl_packed data) as P. destruct (foldl packBit (0, 0, []) data) as [[k w] ret].
  destruct P as (Hk & Hl & Hw & Hr & Hb). assert (0 <= k < 16) as K by (subst; apply Z.mod_pos_bound; lia).
  destruct (Z.eqb_spec k 16); [lia|]. cbn [negb]. rewrite length_app, Nat2Z.inj_add, Hl. split; [done|]. split; [|done].
  apply Forall_app. split; [done|]. apply Forall_singleton. unfold is_u16.
  pose proof (Z.pow_le_mono_r 2 k 16). lia.
Qed.

(** * Reading and writing are a memory with errors *)

Definition pollRange (p : RegisterPoll) : ModbusAddressRange := mRange (cmdBase (pollCmd p)).
Definition writeRange (w : RegisterWrite) : ModbusAddressRange := mRange (cmdBase (writeCmd w)).

Lemma memoryAt_put c id s slaveId ty n :
  memoryAt (putSlave id s c) slaveId ty n = if decide (slaveId = id) then tableAt (tableOf ty s) n else memoryAt c slaveId ty n.
Proof. unfold memoryAt. rewrite findOrCreate_put. by destruct (decide _). Qed.

(** A read of a table leaves every value as it is. *)
Lemma tableAt_read ty ty' num count internal s n :
  tableAt (tableOf ty (withTable ty' (readRegisters num count internal (tableOf ty' s)).2 s)) n = tableAt (tableOf ty s) n.
Proof.
  rewrite tableOf_withTable. destruct (decide (ty = ty')) as [->|]; [|done]. apply readRegisters_value.
Qed.

Lemma memoryAt_same c1 c2 slaveId ty n : mSlaves c1 = mSlaves c2 -> memoryAt c1 slaveId ty n = memoryAt c2 slaveId ty n.
Proof. unfold memoryAt, findOrCreateSlave. by intros ->. Qed.

(** What readModbusRegisters of the gateway returns is the memory, unless the slave is
    disconnected or one of the registers has an error; and it changes no value. *)
Theorem mock_read_memory now c slaveId p :
  mInternalOperation c = false ->
  let ty := mRegisterType (pollRange p) in
  let n := mRegister (pollRange p) in
  (mockRead now c slaveId p).2 =
    (if refuses c slaveId ty n (pollGetCount p) then ReadException
     else ReadOk (readShape ty (memoryAt c slaveId ty <$> seqZ n (pollGetCount p))))
  /\ forall s ty' n', memoryAt (mockRead now c slaveId p).1 s ty' n' = memoryAt c s ty' n'.
Proof.
  intros I ty n. unfold mockRead, slaveRead, refuses. fold (pollRange p) ty n. rewrite I. cbn [negb andb].
  set (s0 := findOrCreateSlave slaveId c). set (s1 := withIssuedRead _ s0).
  assert (forall ty', tableOf ty' s1 = tableOf ty' s0) as Ht by (intros; apply tableOf_issued).
  replace (mDisconnected s1 || _) with (mDisconnected s0 || hasError n ty (pollGetCount p) s0)
    by (unfold hasError; by rewrite Ht).
  destruct (mDisconnected s0 || hasError n ty (pollGetCount p) s0).
  - cbn. split; [done|]. intros s ty' n'. rewrite memoryAt_put. destruct (decide _) as [->|]; [|done]. by rewrite Ht.
  - destruct (readRegisters_value n (Z.to_nat (pollGetCount p)) false (tableOf ty s1)) as [V M].
    destruct (readRegisters n (Z.to_nat (pollGetCount p)) false (tableOf ty s1)) as [vs t] eqn:E. cbn in V, M. cbn. split.
    + rewrite V, Ht. unfold pollGetCount. by rewrite Nat2Z.id.
    + intros s ty' n'. rewrite (memoryAt_same _ (putSlave slaveId (withTable ty t s1) c)) by done. rewrite memoryAt_put.
      destruct (decide _) as [->|]; [|done]. rewrite tableOf_withTable. destruct (decide (ty' = ty)) as [->|]; [by rewrite M, Ht|by rewrite Ht].
Qed.

Definition inWrite (w : RegisterWrite) (n : Z) : option Z :=
  if mRegister (writeRange w) <=? n then mValues w !! Z.to_nat (n - mRegister (writeRange w)) else None.

(** What a write leaves in memory. *)
Definition written (c : MockedModbusContext) (slaveId : Z) (w : RegisterWrite) (s : Z) (ty : RegisterType) (n : Z) : Z :=
  if bool_decide (s = slaveId /\ ty = mRegisterType (writeRange w))
  then match inWrite w n with Some v => storedValue ty v | None => memoryAt c s ty n end
  else memoryAt c s ty n.

(** writeModbusRegisters of the gateway changes the registers of its range and no other
    register of any type or slave, or nothing at all. *)
Theorem mock_write_memory c slaveId w :
  mInternalOperation c = false ->
  let refused := refuses c slaveId (mRegisterType (writeRange w)) (mRegister (writeRange w)) (ModbusRegisters.getCount (mValues w)) in
  (mockWrite c slaveId w).2 = (if refused then WriteException else WriteOk)
  /\ forall s ty n, memoryAt (mockWrite c slaveId w).1 s ty n = if refused then memoryAt c s ty n else written c slaveId w s ty n.
Proof.
  intros I refused. unfold mockWrite, slaveWrite. fold (writeRange w). rewrite I. cbn [negb andb].
  set (ty0 := mRegisterType (writeRange w)) in *. set (n0 := mRegister (writeRange w)) in *.
  set (s0 := findOrCreateSlave slaveId c) in *. set (s1 := withIssuedWrite _ s0).
  assert (forall ty', tableOf ty' s1 = tableOf ty' s0) as Ht by (intros; apply tableOf_issued_write).
  replace (mDisconnected s1 || _) with refused by (unfold refused, refuses, hasError; by rewrite Ht).
  destruct refused; cbn; (split; [done|]); intros s ty n.
  - rewrite memoryAt_put. destruct (decide _) as [->|]; [by rewrite Ht|done].
  - rewrite (memoryAt_same _ (putSlave slaveId (withTable ty0 (writeRegisters ty0 false n0 (mValues w) (tableOf ty0 s1)) s1) c)) by done.
    rewrite memoryAt_put. unfold written, inWrite. fold ty0 n0. destruct (decide (s = slaveId)) as [->|].
    + rewrite tableOf_withTable. destruct (decide (ty = ty0)) as [->|].
      * rewrite bool_decide_eq_true_2 by done. rewrite writeRegisters_value, Ht. fold (memoryAt c slaveId ty0 n).
        by destruct (mValues w !! _), (n0 <=? n).
      * rewrite bool_decide_eq_false_2 by naive_solver. by rewrite Ht.
    + by rewrite bool_decide_eq_false_2 by naive_solver.
Qed.

Lemma memoryAt_written c slaveId w i v :
  mValues w !! i = Some v ->
  written c slaveId w slaveId (mRegisterType (writeRange w)) (mRegister (writeRange w) + Z.of_nat i)
  = storedValue (mRegisterType (writeRange w)) v.
Proof.
  intros E. unfold written, inWrite. rewrite bool_decide_eq_true_2 by done.
  rewrite (proj2 (Z.leb_le _ _)) by lia. replace (_ + Z.of_nat i - _) with (Z.of_nat i) by lia. by rewrite Nat2Z.id, E.
Qed.

(** The device the tests simulate is one: a poll of the words that have just been written
    reads them back, if neither is refused. *)
Theorem mock_write_read now c slaveId w p :
  mInternalOperation c = false ->
  mRegisterType (writeRange w) = HOLDING \/ mRegisterType (writeRange w) = INPUT ->
  pollRange p = writeRange w -> pollGetCount p = ModbusRegisters.getCount (mValues w) ->
  (mockWrite c slaveId w).2 = WriteOk ->
  (mockRead now (mockWrite c slaveId w).1 slaveId p).2 <> ReadException ->
  (mockRead now (mockWrite c slaveId w).1 slaveId p).2 = ReadOk (mValues w).
Proof.
  intros I Ty Er Ec Ew Nr. destruct (mock_write_memory c slaveId w I) as [Rw Mw].
  set (c' := (mockWrite c slaveId w).1) in *.
  assert (mInternalOperation c' = false) as I'.
  { subst c'. revert Ew. unfold mockWrite. destruct (slaveWrite _ _ _) as [s [| |]]; done. }
  destruct (mock_read_memory now c' slaveId p I') as [-> _]. destruct (mock_read_memory now c' slaveId p I') as [Rr _].
  rewrite Rr in Nr. destruct (refuses c' _ _ _ _); [done|]. clear Rr Nr.
  rewrite Rw in Ew. destruct (refuses c _ _ _ _); [done|]. rewrite Er, Ec.
  assert (readShape (mRegisterType (writeRange w)) = id) as -> by (by destruct Ty as [-> | ->]). unfold id. f_equal.
  apply list_eq. intros i. rewrite list_lookup_fmap. destruct (mValues w !! i) as [v|] eqn:E.
  - pose proof (lookup_lt_Some _ _ _ E) as L. unfold ModbusRegisters.getCount.
    rewrite lookup_seqZ_lt by lia. cbn. rewrite Mw, (memoryAt_written _ _ _ _ v) by done. by destruct Ty as [-> | ->].
  - apply lookup_ge_None in E. unfold ModbusRegisters.getCount. by rewrite lookup_seqZ_ge by lia.
Qed.

(** * The interface, and where the simulated network departs from it *)

Section interface.
Variable clock : MockedModbusContext -> Z.
#[local] Instance mockI : IModbusContext MockedModbusContext := mockInterface clock.

Lemma mockRead_open now c slaveId p : mDeviceOpen (mockRead now c slaveId p).1 = mDeviceOpen c.
Proof. unfold mockRead. by destruct (slaveRead _ _ _) as [s [| |]]. Qed.
Lemma mockWrite_open c slaveId w : mDeviceOpen (mockWrite c slaveId w).1 = mDeviceOpen c.
Proof. unfold mockWrite. by destruct (slaveWrite _ _ _) as [s [| |]]. Qed.

Lemma mockRead_ok now c slaveId p values :
  (mockRead now c slaveId p).2 = ReadOk values ->
  values = readShape (mRegisterType (pollRange p))
             (memoryAt c slaveId (mRegisterType (pollRange p)) <$> seqZ (mRegister (pollRange p)) (pollGetCount p)).
Proof.
  unfold mockRead, slaveRead. fold (pollRange p). destruct (_ && _); [done|].
  destruct (readRegisters_value (mRegister (pollRange p)) (Z.to_nat (pollGetCount p)) (mInternalOperation c)
    (tableOf (mRegisterType (pollRange p)) (findOrCreateSlave slaveId c))) as [V _].
  replace (tableOf (mRegisterType (pollRange p)) (if mInternalOperation c then _ else _))
    with (tableOf (mRegisterType (pollRange p)) (findOrCreateSlave slaveId c))
    by (destruct (mInternalOperation c); [done|by rewrite tableOf_issued]).
  destruct (readRegisters _ _ _ _) as [vs t]. cbn in V |- *. intros [= <-]. rewrite V. unfold pollGetCount. by rewrite Nat2Z.id.
Qed.

(** All registers hold 16 bit words. *)
Definition memoryOk (c : MockedModbusContext) : Prop := forall s ty n, is_u16 (memoryAt c s ty n).

(** The laws of the interface that hold for every register type. *)
Theorem mock_connection_laws c :
  isConnected (disconnect c) = false
  /\ (forall s r, isConnected (readModbusRegisters c s r).1 = isConnected c)
  /\ (forall s w, isConnected (writeModbusRegisters c s w).1 = isConnected c)
  /\ forall s r, (readModbusRegisters c s r).2 <> ReadContextException.
Proof.
  split; [done|]. split; [intros; apply mockRead_open|]. split; [intros; apply mockWrite_open|].
  intros s r. cbn. unfold mockRead, slaveRead. destruct (_ && _); [done|]. by destruct (readRegisters _ _ _ _).
Qed.

(** A read of words returns as many 16 bit words as the interface promises. *)
Theorem mock_words_law c s r values :
  memoryOk c -> mRegisterType (pollRange r) = HOLDING \/ mRegisterType (pollRange r) = INPUT ->
  (readModbusRegisters c s r).2 = ReadOk values ->
  length values = length (mLastValues r) /\ Forall is_u16 values.
Proof.
  intros M Ty E. apply mockRead_ok in E. subst values.
  assert (readShape (mRegisterType (pollRange r)) = id) as -> by (by destruct Ty as [-> | ->]). unfold id.
  rewrite length_fmap, length_seqZ. unfold pollGetCount. rewrite Nat2Z.id. split; [done|].
  apply Forall_fmap, Forall_true. intros n. apply M.
Qed.

(** A read of coils or input bits returns packed words, where the context of the gateway
    returns a value for each bit ([ctxRead_values]): the numbers agree for single bits
    only. *)
Theorem mock_bits_departs c s r values :
  mRegisterType (pollRange r) = COIL \/ mRegisterType (pollRange r) = BIT ->
  (readModbusRegisters c s r).2 = ReadOk values ->
  length values = length (mLastValues r) <-> length (mLastValues r) = 1%nat.
Proof.
  intros Ty E. apply mockRead_ok in E. subst values.
  assert (readShape (mRegisterType (pollRange r)) = packBits) as -> by (by destruct Ty as [-> | ->]).
  match goal with |- context [packBits ?l] => destruct (packBits_spec l) as (L & _ & _); generalize dependent (length (packBits l)) end.
  intros k L. rewrite length_fmap, length_seqZ in L. unfold pollGetCount in *. rewrite Nat2Z.id in L.
  split; intros H; zdivmod.
Qed.

End interface.

(** * What the tests rely on *)

Lemma unreadIn_nonneg t : 0 <= unreadIn t.
Proof. unfold unreadIn. lia. Qed.

Lemma unreadIn_zero t : unreadIn t = 0 <-> forall n r, t !! n = Some r -> rdReadCount r <> 0.
Proof.
  unfold unreadIn. split.
  - intros E n r Hn Hr. assert ((n, r) ∈ filter (fun p : Z * RegData => rdReadCount p.2 = 0) (map_to_list t)) as I
      by (apply list_elem_of_filter; split; [done|by apply elem_of_map_to_list]).
    destruct (filter _ _); [by apply elem_of_nil in I|cbn in E; lia].
  - intros H. destruct (filter _ _) as [|[n r] l] eqn:E; [done|].
    assert ((n, r) ∈ filter (fun p : Z * RegData => rdReadCount p.2 = 0) (map_to_list t)) as I by (rewrite E; left).
    apply list_elem_of_filter in I as [I1 I2]. apply elem_of_map_to_list in I2. by destruct (H n r I2).
Qed.

Lemma unreadOf_zero s :
  unreadOf s = 0 <-> forall ty n r, tableOf ty s !! n = Some r -> rdReadCount r <> 0.
Proof.
  unfold unreadOf. pose proof (unreadIn_nonneg (mBit s)). pose proof (unreadIn_nonneg (mCoil s)).
  pose proof (unreadIn_nonneg (mInput s)). pose proof (unreadIn_nonneg (mHolding s)). split.
  - intros E ty. apply unreadIn_zero. destruct ty; cbn; lia.
  - intros H'. assert (forall ty, unreadIn (tableOf ty s) = 0) as Z0 by (intros ty; apply unreadIn_zero, H').
    pose proof (Z0 BIT). pose proof (Z0 COIL). pose proof (Z0 INPUT). pose proof (Z0 HOLDING). cbn in *. lia.
Qed.

Lemma unreadOf_nonneg s : 0 <= unreadOf s.
Proof.
  unfold unreadOf. pose proof (unreadIn_nonneg (mBit s)). pose proof (unreadIn_nonneg (mCoil s)).
  pose proof (unreadIn_nonneg (mInput s)). pose proof (unreadIn_nonneg (mHolding s)). lia.
Qed.

Lemma sum_zero (l : list (Z * Slave)) :
  foldr (fun p n => unreadOf p.2 + n) 0 l = 0 <-> Forall (fun p => unreadOf p.2 = 0) l.
Proof.
  assert (forall l : list (Z * Slave), 0 <= foldr (fun p n => unreadOf p.2 + n) 0 l) as Nn.
  { intros l'. induction l' as [|p l' IH]; cbn; [done|]. pose proof (unreadOf_nonneg p.2). lia. }
  induction l as [|p l IH]; cbn; [split; [constructor|done]|].
  pose proof (unreadOf_nonneg p.2). specialize (Nn l). split.
  - intros E. constructor; [lia|]. apply IH. lia.
  - intros F. apply Forall_cons_1 in F as [E F]. apply IH in F. lia.
Qed.

(** The test for the initial poll: every register that exists has been read. *)
Theorem unread_none_iff c :
  getUnreadedRegisterCount c = 0 <->
  forall id s ty n r, mSlaves c !! id = Some s -> tableOf ty s !! n = Some r -> rdReadCount r <> 0.
Proof.
  unfold getUnreadedRegisterCount. rewrite sum_zero, Forall_forall. split.
  - intros H id s ty n r Hs. apply unreadOf_zero. apply (H (id, s)). by apply list_elem_of_In, elem_of_map_to_list.
  - intros H [id s] Hp. apply list_elem_of_In, elem_of_map_to_list in Hp. apply unreadOf_zero. intros ty n r. by eapply H.
Qed.

Section waiting.
Context {S A : Type} (look : S -> A) (good : A -> bool) (timeout : Z).

(** A wake-up at which the loop gives up. *)
Definition givesUp (w : Wake S) : bool :=
  match w with TimedOut => true | Notified _ dur => timeout <=? dur end.

Lemma waitLoop_sound current wakes a :
  waitLoop look good timeout current wakes = Some a -> good a = true \/ exists w, w ∈ wakes /\ givesUp w = true.
Proof.
  revert current. induction wakes as [|w wakes IH]; intros current; cbn; [done|].
  destruct w as [|s dur]; [intros _; right; exists TimedOut; split; [left|done]|].
  destruct (good (look s)) eqn:G; [intros [= <-]; by left|].
  destruct (Z.ltb_spec dur timeout) as [L|L].
  - intros E. destruct (IH _ E) as [|(w & Hw & Hg)]; [by left|right; exists w; split; [by right|done]].
  - intros _. right. exists (Notified s dur). split; [left|by apply Z.leb_le].
Qed.

(** A waiting function returns what it waits for as soon as a notification finds it,
    whatever else woke it before, and something else only when the time is over. *)
Theorem waitFor_correct s wakes :
  (forall a, waitFor look good timeout s wakes = Some a -> good a = true \/ exists w, w ∈ wakes /\ givesUp w = true)
  /\ forall before s' dur after,
       wakes = (before ++ Notified s' dur :: after)%list -> good (look s') = true ->
       Forall (fun w => givesUp w = false) before ->
       exists a, waitFor look good timeout s wakes = Some a /\ good a = true.
Proof.
  unfold waitFor. split.
  - intros a. destruct (good (look s)) eqn:G; [intros [= <-]; by left|]. apply waitLoop_sound.
  - intros before s' dur after -> G F. destruct (good (look s)) eqn:G0; [by exists (look s)|].
    generalize (look s). induction F as [|w before Hw F IH]; intros current.
    + cbn. rewrite G. by exists (look s').
    + destruct w as [|s1 d1]; [done|]. cbn in Hw. apply Z.leb_gt in Hw. cbn [app waitLoop].
      destruct (good (look s1)) eqn:G1; [by exists (look s1)|]. rewrite (proj2 (Z.ltb_lt _ _)) by done. apply IH.
Qed.

End waiting.

(** A test looks at a register without disturbing values, errors and counters, but the
    place of the last poll becomes that of its look. *)
Theorem look_at_register now now1 now2 slaveId regNum ty c :
  let '(v, c') := getModbusRegisterValue now now1 now2 slaveId regNum ty c in
  let m := memoryAt c slaveId ty (regNum - 1) in
  v = Ret (match ty with COIL | BIT => if m =? 0 then 0 else 1 | _ => m end)
  /\ (forall id ty', tableOf ty' (findOrCreateSlave id c') = tableOf ty' (findOrCreateSlave id c))
  /\ getLastReadRegisterAddress c' = (slaveId, regNum).
Proof.
  unfold getModbusRegisterValue, mockRead, slaveRead, newRegisterPoll, pollGetCount, memoryAt, findOrCreateSlave.
  cbn [mInternalOperation withInternal mSlaves]. set (s := default (newSlave slaveId) (mSlaves c !! slaveId)).
  cbn [negb andb mRange cmdBase pollCmd newCommand mRegisterType mRegister mLastValues].
  change (Z.to_nat (Z.of_nat (length (replicate (Z.to_nat 1) 0)))) with 1%nat. cbn [readRegisters].
  unfold readRegister. set (t := tableOf ty s).
  assert (withTable ty t s = s) as Same by (subst t; by destruct s, ty).
  assert (forall id ty' (ss : gmap Z Slave), ss = <[slaveId := s]> (mSlaves c) ->
    tableOf ty' (default (newSlave id) (ss !! id)) = tableOf ty' (default (newSlave id) (mSlaves c !! id))) as Tab.
  { intros id ty' ss ->. destruct (decide (id = slaveId)) as [->|N]; [|by rewrite lookup_insert_ne].
    rewrite lookup_insert_eq. done. }
  unfold tableAt. destruct (t !! (regNum - 1)) as [r|] eqn:E; cbn; rewrite Same.
  all: split; [destruct ty; try done; unfold readShape, packBits; cbn [foldl packBit]; by destruct (rdValue r =? 0)|].
  all: split; [intros id ty'; by apply Tab|]; unfold getLastReadRegisterAddress; cbn; f_equal; lia.
Qed.

(** The mark of an operation of a test is set without the mutex: a read of the gateway
    that comes in between is taken for the operation of the test.  It is not recorded,
    it does not fail although it should, and it takes the mark away. *)
Theorem internal_mark_race now c slaveId p :
  exists values, (mockRead now (withInternal true c) slaveId p).2 = ReadOk values
  /\ mInternalOperation (mockRead now (withInternal true c) slaveId p).1 = false
  /\ mIssuedReadCalls (findOrCreateSlave slaveId (mockRead now (withInternal true c) slaveId p).1)
     = mIssuedReadCalls (findOrCreateSlave slaveId c).
Proof.
  unfold mockRead, slaveRead. cbn [mInternalOperation withInternal negb andb].
  destruct (readRegisters _ _ _ _) as [vs t]. eexists. cbn. split; [done|]. split; [done|].
  unfold findOrCreateSlave. cbn. by rewrite lookup_insert_eq.
Qed.

(** * A network *)

Definition demoNetwork : MockedModbusFactory :=
  setModbusRegisterValue 0 "tcptest" 1 2 HOLDING 7 (setModbusRegisterValue 0 "tcptest" 1 5 COIL 1 ∅).
Definition demoContext : MockedModbusContext := getOrCreateContext "tcptest" demoNetwork.
Definition demoPoll : RegisterPoll := newRegisterPoll 1 1 HOLDING 2 1000 ON_CHANGE 0 0 0.
Definition demoWrite : RegisterWrite := mkWrite (newCommand 1 1 HOLDING 2 0) [300; 400] AUTO false 0 None.

(** A value a test has set is what the gateway reads; 16 coils are read as two words. *)
Example demo_read :
  (mockRead 5 demoContext 1 demoPoll).2 = ReadOk [7; 0]
  /\ (mockRead 5 demoContext 1 (newRegisterPoll 1 4 COIL 16 1000 ON_CHANGE 0 0 0)).2 = ReadOk [1; 0]
  /\ (mockRead 5 (changeSlave 1 (setError 2 HOLDING true) demoContext) 1 demoPoll).2 = ReadException
  /\ getUnreadedRegisterCount demoContext = 2
  /\ getUnreadedRegisterCount (mockRead 5 demoContext 1 demoPoll).1 = 1.
Proof. vm_compute. done. Qed.

Lemma mock_write_read_witness :
  (mockRead 5 (mockWrite demoContext 1 demoWrite).1 1 demoPoll).2 = ReadOk [300; 400].
Proof.
  apply (mock_write_read 5 demoContext 1 demoWrite demoPoll); try (vm_compute; reflexivity); [by left|].
  vm_compute. discriminate.
Defined.
