(* ===== verification/UnitTestsModbus.v ===== *)
(** The repository's own tests of the poll specification, the request queues, the
    scheduler and the executor, run on the model.

    The tests of the executor are scripts over a bench: the executor, its world with the
    simulated network of [MockedModbus], the registers of the test and a clock that only
    sleeping moves, so that the commands themselves take no time.  A unit of
    the tests' timing is a millisecond. *)

From stdpp Require Import base gmap list strings.
From Stdlib Require Import ZArith Lia.
From S2P Require Import Prelude ModbusTypes PollSpec Commands RequestQueues Scheduler ModbusContext Executor MockedModbus.

#[local] Open Scope Z_scope.

(** * modbus_poll_specification_tests.cpp *)

Definition createPollMode (firstRegister lastRegister refresh : Z) (mode : PublishMode) : MsgRegisterPoll :=
  let p := PollSpec.newMsgRegisterPoll 1 firstRegister INPUT (lastRegister - firstRegister + 1) in
  mkMsgPoll (pollBase p) refresh mode.
Definition createPoll (firstRegister lastRegister : Z) : MsgRegisterPoll :=
  createPollMode firstRegister lastRegister 1 ON_CHANGE.

(** The sections require a number of ranges, and some of them to be given ranges. *)
Definition sameRanges (regs expected : list MsgRegisterPoll) : bool :=
  (length regs =? length expected)%nat
  && forallb (fun p => PollSpec.isSameAsPoll p.1 p.2) (zip regs expected).
Definition grouped (regs : list MsgRegisterPoll) : list MsgRegisterPoll :=
  PollSpec.mRegisters (PollSpec.group PollSpec.mergeSort (PollSpec.mkSpec "test" regs)).
Definition merged (regs : list MsgRegisterPoll) (poll : MsgRegisterPoll) : list MsgRegisterPoll :=
  PollSpec.mRegisters (PollSpec.merge (PollSpec.mkSpec "test" regs) poll).

Definition test_group : list bool :=
  let three := grouped [createPollMode 3 4 10 ON_CHANGE; createPollMode 1 2 20 ON_CHANGE; createPollMode 5 8 30 ON_CHANGE] in
  [(length (grouped [createPoll 1 3; createPoll 2 4]) =? 2)%nat;
   sameRanges (grouped [createPoll 1 2; createPoll 3 4]) [createPoll 1 4];
   (length (grouped [createPoll 1 2; createPoll 4 7]) =? 2)%nat;
   sameRanges three [createPoll 1 8]; bool_decide (mRefreshMsec <$> three = [10])].

Definition test_merge : list bool :=
  let mode kept added expected :=
    bool_decide (mPublishMode <$> merged [createPollMode 2 4 1 kept] (createPollMode 2 4 1 added) = [expected]) in
  [sameRanges (merged [createPoll 1 3] (createPoll 2 4)) [createPoll 1 4];
   sameRanges (merged [createPoll 1 8] (createPoll 2 4)) [createPoll 1 8];
   sameRanges (merged [createPoll 6 8] (createPoll 1 10)) [createPoll 1 10];
   sameRanges (merged [createPoll 1 3; createPoll 6 8] (createPoll 2 7)) [createPoll 1 8];
   (length (merged [createPoll 1 3] (createPoll 4 5)) =? 2)%nat;
   sameRanges (merged [createPoll 1 3; createPoll 6 8] (createPoll 4 7)) [createPoll 1 3; createPoll 4 8];
   bool_decide (mPublishMode <$> merged [createPoll 1 3] (createPollMode 2 4 1 ONCE) = [ON_CHANGE]);
   mode EVERY_POLL ONCE EVERY_POLL; mode ONCE EVERY_POLL EVERY_POLL; mode ONCE ON_CHANGE ON_CHANGE;
   mode EVERY_POLL ON_CHANGE EVERY_POLL; mode ON_CHANGE EVERY_POLL EVERY_POLL].

(** * The registers of a test: modbus_utils.hpp *)

(** ModbusExecutorTestRegisters, with the objects behind its pointers. *)
Record TestRegisters : Type := mkRegisters {
  trStore : Store;
  trMap : list (Z * list ptr)
}.
Definition noCommand : RegisterCommand := newCommand 0 0 BIT 0 0.
Definition newStore : Store :=
  mkStore (fun _ => newRegisterPoll 0 0 BIT 0 0 ON_CHANGE 0 0 0) (fun _ => mkWrite noCommand [] AUTO false 0 None) 1.

Definition addPollDelayed (now slave number delay first_delay refresh : Z) (t : TestRegisters) : TestRegisters :=
  let reg := newRegisterPoll slave (number - 1) HOLDING 1 refresh ON_CHANGE 0 now now in
  let reg := setPollCmd (setDelayBeforeCommand delay (setDelayBeforeFirstCommand first_delay (pollCmd reg))) reg in
  let (p, s) := allocPoll (trStore t) reg in
  mkRegisters s (smap_alter [] (fun l => l ++ [p]) slave (trMap t)).
Definition addTestPoll (now slave number refresh : Z) (t : TestRegisters) : TestRegisters :=
  let (p, s) := allocPoll (trStore t) (newRegisterPoll slave (number - 1) HOLDING 1 refresh ON_CHANGE 0 now now) in
  mkRegisters s (smap_alter [] (fun l => l ++ [p]) slave (trMap t)).

Definition createWrite (now slave number value delay first_delay : Z) (s : Store) : ptr * Store :=
  let c := setDelayBeforeCommand delay (setDelayBeforeFirstCommand first_delay (newCommand slave (number - 1) HOLDING 1 0)) in
  allocWrite s (mkWrite c [value] AUTO false now None).

(** * modbus_request_queues_tests.cpp *)

Definition slaveList (t : TestRegisters) (slave : Z) : list ptr := default [] (smap_find slave (trMap t)).

Definition test_request_queues : list bool :=
  let none := mkRegisters newStore [] in
  let one := addTestPoll 0 1 1 10 none in
  let others := addTestPoll 0 1 3 10 (addTestPoll 0 1 2 10 (mkRegisters (trStore one) [])) in
  let delayed := addTestPoll 0 1 3 10 (addPollDelayed 0 1 2 (100 * MSEC) 0 10 (addPollDelayed 0 1 1 (50 * MSEC) 0 10 none)) in
  let first := addTestPoll 0 1 3 10 (addPollDelayed 0 1 2 0 (100 * MSEC) 10 (addPollDelayed 0 1 1 (50 * MSEC) 0 10 none)) in
  let add t q := RequestQueues.addPollList q (slaveList t 1) in
  let find t ignore := RequestQueues.findForSilencePeriod (trStore t) (100 * MSEC) ignore in
  let '(dur1, q1) := find delayed true (add delayed RequestQueues.newQueues) in
  let '(dur3, q3) := find first true (add first RequestQueues.newQueues) in
  [(length (RequestQueues.mPollQueue (add one (add one RequestQueues.newQueues))) =? 1)%nat;
   (length (RequestQueues.mPollQueue (add others (add one RequestQueues.newQueues))) =? 3)%nat;
   dur1 =? 100 * MSEC;
   match RequestQueues.popFirstWithDelay (trStore delayed) (100 * MSEC) true q1 with
   | Ret (reg, q2) =>
       (mRegister (mRange (cmdBase (commandOf (trStore delayed) reg))) =? 1) && ((find delayed true q2).1 =? 50 * MSEC)
   | Fault _ => false
   end;
   dur3 =? 50 * MSEC; (find first false q3).1 =? 100 * MSEC].

(** * scheduler_tests.cpp *)

Definition test_scheduler : list bool :=
  let now := 1000 * SEC in
  let reg start := setReadTimes start 0 (newRegisterPoll 1 1 BIT 1 1000 ON_CHANGE 0 now now) in
  let run start :=
    let (p, s) := allocPoll newStore (reg start) in
    Scheduler.getRegistersToPoll s (Scheduler.setPollSpecification [(1, [p])]) now in
  let expect start duration size := ((run start).2 =? duration) && (length (run start).1 =? size)%nat in
  [bool_decide (Scheduler.getRegistersToPoll newStore [] 0 = ([], DURATION_MAX));
   expect (now - 1000 * MSEC) (1000 * MSEC) 1%nat; expect (now - 200 * MSEC) (800 * MSEC) 0%nat;
   expect now (1000 * MSEC) 0%nat].

(** * modbus_executor_tests.cpp *)

Record Bench : Type := mkBench {
  bExecutor : Executor;
  bWorld : World MockedModbusContext;
  bRegisters : list (Z * list ptr);
  bNow : Z;
  bWaitTime : Z;
  bPassed : bool
}.

(** The simulated network does not look at the clock but for the time of the last poll. *)
#[local] Instance benchNetwork : IModbusContext MockedModbusContext := mockInterface (fun _ => 0).

(** The head of the test case; nothing is connected. *)
Definition newBench (now : Z) : Bench :=
  mkBench (Executor.newExecutor now) (mkWorld newStore (newMock "test") []) [] now 0 true.

Definition withStore (s : Store) (b : Bench) : Bench :=
  mkBench (bExecutor b) (mkWorld s (wCtx (bWorld b)) (wOut (bWorld b))) (bRegisters b) (bNow b) (bWaitTime b) (bPassed b).
Definition withCtx (c : MockedModbusContext) (b : Bench) : Bench :=
  mkBench (bExecutor b) (mkWorld (wStore (bWorld b)) c (wOut (bWorld b))) (bRegisters b) (bNow b) (bWaitTime b) (bPassed b).
Definition withExecutor (e : Executor) (b : Bench) : Bench :=
  mkBench e (bWorld b) (bRegisters b) (bNow b) (bWaitTime b) (bPassed b).
Definition bStore (b : Bench) : Store := wStore (bWorld b).
Definition withRegisters (f : TestRegisters -> TestRegisters) (b : Bench) : Bench :=
  let t := f (mkRegisters (bStore b) (bRegisters b)) in
  mkBench (bExecutor b) (mkWorld (trStore t) (wCtx (bWorld b)) (wOut (bWorld b))) (trMap t) (bNow b) (bWaitTime b) (bPassed b).

(** The lines of a section. *)
Inductive Line : Type :=
| SetValue (slave number value : Z)
| SetWriteError (slave number : Z)
| AddPoll (slave number refresh : Z)
| AddPollDelayed (slave number delay : Z)
| ClearRegisters
| SetupInitialPoll
| AddPollList
| AddWrite (slave number value delay maxRead maxWrite : Z)
| ExecuteNext
| SleepFor (time : Z)
| Require (holds : Bench -> bool).

Definition runLine (b : Bench) (l : Line) : outcome Bench :=
  let now := bNow b in
  let e := bExecutor b in
  match l with
  | SetValue slave number value =>
      let msg := mkWrite (newCommand slave (number - 1) HOLDING 1 0) [value] AUTO false now None in
      Ret (withCtx (mockWrite (withInternal true (wCtx (bWorld b))) slave msg).1 b)
  | SetWriteError slave number => Ret (withCtx (changeSlave slave (setError (number - 1) HOLDING true) (wCtx (bWorld b))) b)
  | AddPoll slave number refresh => Ret (withRegisters (addTestPoll now slave number refresh) b)
  | AddPollDelayed slave number delay => Ret (withRegisters (addPollDelayed now slave number delay 0 10) b)
  | ClearRegisters => Ret (mkBench e (bWorld b) [] now (bWaitTime b) (bPassed b))
  | SetupInitialPoll =>
      let! e' := Executor.setupInitialPoll (bStore b) (bRegisters b) now now e in Ret (withExecutor e' b)
  | AddPollList =>
      let! e' := Executor.addPollList (bStore b) (bRegisters b) false now now e in Ret (withExecutor e' b)
  | AddWrite slave number value delay maxRead maxWrite =>
      let (p, s) := createWrite now slave number value delay 0 (bStore b) in
      let w := writes s p in
      let s := setWrite s p (setWriteCmd (setMaxRetryCounts maxRead maxWrite false (writeCmd w)) w) in
      let! e' := Executor.addWriteCommand s p e in Ret (withExecutor e' (withStore s b))
  | ExecuteNext =>
      let! (wait, e', w) := Executor.executeNext (mkEnv now now now now now now) e (bWorld b) in
      Ret (mkBench e' w (bRegisters b) now wait (bPassed b))
  | SleepFor time => Ret (mkBench e (bWorld b) (bRegisters b) (now + time) (bWaitTime b) (bPassed b))
  | Require holds => Ret (mkBench e (bWorld b) (bRegisters b) now (bWaitTime b) (bPassed b && holds b))
  end.

Definition runSection (lines : list Line) : outcome Bench := foldM runLine lines (newBench (1000 * SEC)).
Definition sectionPasses (lines : list Line) : bool :=
  match runSection lines with Ret b => bPassed b | Fault _ => false end.

(** What the sections require. *)
Definition done_ : Line := Require (fun b => Executor.allDone (bExecutor b)).
Definition notDone : Line := Require (fun b => negb (Executor.allDone (bExecutor b))).
Definition noWait : Line := Require (fun b => bWaitTime b =? 0).
Definition commandsLeft (n : Z) : Line := Require (fun b => mCommandsLeft (bExecutor b) =? n).
Definition messages (n : nat) : Line := Require (fun b => (length (wOut (bWorld b)) =? n)%nat).
(** The polls of a section are at the addresses 1, 2, ... in the order they were added. *)
Definition pollRead (p : ptr) (value : Z) : Line := Require (fun b => bool_decide (head (mLastValues (polls (bStore b) p)) = Some value)).
Definition registerIs (slave number value : Z) : Line :=
  Require (fun b => match (getModbusRegisterValue 0 0 0 slave number HOLDING (wCtx (bWorld b))).1 with
                    | Ret v => v =? value
                    | Fault _ => false
                    end).
Definition registerOf (b : Bench) (c : option CmdRef) : option Z :=
  (fun c => mRegister (mRange (cmdBase (commandOf (bStore b) c)))) <$> c.
Definition waiting (register : option Z) : Line := Require (fun b => bool_decide (registerOf b (mWaitingCommand (bExecutor b)) = register)).
Definition lastCommand (register : Z) : Line := Require (fun b => bool_decide (registerOf b (mLastCommand (bExecutor b)) = Some register)).

Definition MS (n : Z) : Z := n * MSEC.

Definition test_executor_polls : list (list Line) :=
  [[SetupInitialPoll; ExecuteNext; noWait; done_; AddPollList; ExecuteNext; noWait; done_];
   [SetValue 1 1 5; AddPoll 1 1 10; SetupInitialPoll; ExecuteNext; noWait; pollRead 1 5; done_];
   [SetValue 1 1 5; SetValue 1 2 6; AddPoll 1 1 10; AddPoll 1 2 10; SetupInitialPoll;
    ExecuteNext; noWait; pollRead 1 5; notDone; ExecuteNext; noWait; pollRead 2 6; done_];
   [SetValue 1 1 5; SetValue 2 20 60; AddPoll 1 1 10; AddPoll 2 20 10; SetupInitialPoll;
    ExecuteNext; noWait; pollRead 1 5; notDone; ExecuteNext; noWait; pollRead 2 60; done_];
   [SetValue 1 1 5; AddPoll 1 1 5; SetupInitialPoll; ExecuteNext; noWait; pollRead 1 5; done_]].

(** After the initial poll of one register, and of two. *)
Definition test_executor_silence : list (list Line) :=
  let single := [SetValue 1 1 5; AddPollDelayed 1 1 (MS 50); SetupInitialPoll; ExecuteNext; done_] in
  let two := [SetValue 1 1 1; SetValue 2 20 6; AddPoll 1 1 10; AddPollDelayed 2 20 (MS 50); SetupInitialPoll;
              ExecuteNext; pollRead 2 6; ExecuteNext; pollRead 1 1; done_; SetValue 1 1 10; SetValue 2 20 60] in
  [single ++
     [AddPollList; ExecuteNext; Require (fun b => MS 40 <? bWaitTime b); notDone;
      SleepFor (MS 20); ExecuteNext; notDone; Require (fun b => (0 <? bWaitTime b) && (bWaitTime b <? MS 50));
      SleepFor (MS 40); ExecuteNext; noWait; pollRead 1 5; done_];
   single ++ [SleepFor (MS 70); AddPollList; ExecuteNext; noWait; pollRead 1 5; done_];
   two ++ [SleepFor (MS 100); AddPollList; ExecuteNext; noWait; pollRead 2 60; notDone;
           ExecuteNext; noWait; pollRead 1 10; done_];
   [SetValue 1 1 1; SetValue 2 20 20; SetValue 2 21 21; AddPoll 1 1 10; AddPoll 2 20 10; AddPollDelayed 2 21 (MS 50);
    SetupInitialPoll; ExecuteNext; pollRead 3 21; ExecuteNext; pollRead 2 20; ExecuteNext; pollRead 1 1; done_]].

Definition test_executor_alternates : list Line :=
  let write number value := AddWrite 1 number value 0 0 0 in
  [SetValue 1 1 1; SetValue 1 20 10; SetValue 1 21 20; AddPoll 1 1 10; AddPoll 1 10 10; AddPoll 1 20 10;
   SetupInitialPoll; write 1 100; write 10 101; write 20 102; write 1 200; write 10 201; write 20 202;
   commandsLeft 6;
   ExecuteNext; registerIs 1 1 100; ExecuteNext; messages 1;
   ExecuteNext; registerIs 1 10 101; ExecuteNext; messages 2;
   ExecuteNext; registerIs 1 20 102; ExecuteNext; messages 3;
   ExecuteNext; registerIs 1 1 200; commandsLeft (Executor.WRITE_BATCH_SIZE - 1);
   ExecuteNext; registerIs 1 10 201;
   AddPollList; commandsLeft 8;
   ExecuteNext; messages 4; ExecuteNext; registerIs 1 20 202; ExecuteNext; messages 5; ExecuteNext; messages 6;
   commandsLeft 4; done_].

Definition test_executor_not_reelected : list Line :=
  [SetValue 1 1 1; SetValue 1 20 10; SetValue 1 21 20; AddPoll 1 1 10; AddPollDelayed 1 2 (MS 50); AddPoll 1 3 10;
   SetupInitialPoll; commandsLeft 6; ExecuteNext; ExecuteNext; ExecuteNext;
   SleepFor (MS 100); AddPollList; commandsLeft 6; waiting (Some 1); ExecuteNext;
   SleepFor (MS 100); AddPollList; commandsLeft 5; waiting None].

Definition test_executor_next_queue : list Line :=
  [AddPoll 1 1 10; AddPoll 2 2 10; AddPoll 3 3 10; SetupInitialPoll; ExecuteNext; ExecuteNext; ExecuteNext; done_;
   ClearRegisters; AddPoll 4 4 10; AddPollList; ExecuteNext; lastCommand 3].

(** The sections that add a write to a new executor: "should switch slaves after
    WRITE_BATCH_SIZE writes in write only mode", "should retry last write command
    mMaxWriteRetryCount times if failed" and "should delay retry of last write command", up
    to the line that adds the first write. *)
Definition test_executor_first_write : list (list Line) :=
  [[SetValue 1 1 1; SetValue 2 2 20; AddWrite 1 1 1 0 0 0];
   [SetWriteError 1 1; AddWrite 1 1 0x3 0 0 1];
   [SetWriteError 1 1; AddWrite 1 1 0x3 (MS 10) 0 1]].

(** The same sections with the queues of the slaves there before the first write, as they
    are once a poll has been added. *)
Definition slaveKnown (slave : Z) : list Line := [AddPoll slave 30 10; SetupInitialPoll; ExecuteNext; ClearRegisters].
Definition test_executor_writes : list (list Line) :=
  let batch := Z.to_nat Executor.WRITE_BATCH_SIZE in
  [slaveKnown 1 ++ [SetValue 1 1 1; SetValue 2 2 20]
     ++ ((fun i => AddWrite 1 1 (Z.of_nat i) 0 0 0) <$> seq 1 (S batch))
     ++ [AddWrite 2 2 200 0 0 0] ++ replicate batch ExecuteNext
     ++ [registerIs 1 1 Executor.WRITE_BATCH_SIZE; registerIs 2 2 20; commandsLeft 0; ExecuteNext;
         registerIs 1 1 Executor.WRITE_BATCH_SIZE; registerIs 2 2 200; commandsLeft (Executor.WRITE_BATCH_SIZE - 1)];
   slaveKnown 1 ++ [SetWriteError 1 1; AddWrite 1 1 0x3 0 0 1; ExecuteNext; notDone; waiting (Some 0);
                    ExecuteNext; done_; waiting None;
                    Require (fun b => bool_decide (executedOk (bStore b) <$> mLastCommand (bExecutor b) = Some false))];
   slaveKnown 1 ++ [SetWriteError 1 1; SleepFor (MS 20); AddWrite 1 1 0x3 (MS 10) 0 1; ExecuteNext; notDone; waiting (Some 0);
                    ExecuteNext; notDone; Require (fun b => MS 5 <? bWaitTime b); SleepFor (MS 10); ExecuteNext; done_; waiting None;
                    Require (fun b => bool_decide (executedOk (bStore b) <$> mLastCommand (bExecutor b) = Some false))]].

(** * The model passes them *)

Theorem request_tests_pass :
  Forall (fun case => forallb id case = true) [test_group; test_merge; test_request_queues; test_scheduler].
Proof. repeat (constructor; [vm_compute; reflexivity|]). constructor. Qed.

Theorem executor_tests_pass :
  Forall (fun lines => sectionPasses lines = true)
    (test_executor_polls ++ test_executor_silence
     ++ [test_executor_alternates; test_executor_not_reelected; test_executor_next_queue] ++ test_executor_writes).
Proof. repeat (constructor; [vm_compute; reflexivity|]). constructor. Qed.

(** As they are written, three sections make addWriteCommand read the queues of a slave that
    has none, through an iterator that is end(). *)
Theorem first_write_of_unknown_slave :
  Forall (fun lines => runSection lines = Fault EndDereferenced) test_executor_first_write.
Proof. repeat (constructor; [vm_compute; reflexivity|]). constructor. Qed.
