(* ===== verification/MockedMqtt.v ===== *)
(** The simulated broker of the tests and the thread that runs the server under test:
    unittests/mockedmqttimpl.hpp, mockedmqttimpl.cpp and mockedserver.hpp.

    The broker is an implementation of imqttimpl.hpp, which the client of [MqttClient]
    calls through its effects; what it calls back is a list of [OwnerCall]s.  The mutex
    makes an operation atomic; its thread makes one step per message of its queue. *)

From S2P Require Import Prelude ModbusTypes Commands Config ConvTools ConvArgs StdConv MqttClient MockedModbus.
From Stdlib Require Import ZArith Lia Ascii.
From stdpp Require Import base gmap list strings numbers sorting.

#[local] Open Scope string_scope.
#[local] Open Scope Z_scope.

(** class MqttValue: the bytes and how often the topic was published. *)
Record TopicValue : Type := mkTopic {
  tpVal : string;
  tpPublishCount : Z
}.

(** struct RpcResponse *)
Record RpcResponse : Type := mkRpcResponse {
  rrPayload : string;
  rrUserProperties : gmap string string
}.

(** The messages to the thread of the broker. *)
Inductive ThreadItem : Type :=
| MsgEndThread
| MsgPublishId (id : Z).

(** class MockedMqttImpl; [mbThread]: there is a thread object, and its loop still
    runs. *)
Record MockedMqttImpl : Type := mkBroker {
  mbNextMessageId : Z;
  mbConfig : MqttBrokerConfig;
  mbTopics : gmap string TopicValue;
  mbSubscriptions : gset string;
  mbRpcResponses : gmap Z RpcResponse;
  mbPublishedTopics : gmap string Z;
  mbThreadQueue : list ThreadItem;
  mbThread : option bool
}.

Definition newBroker : MockedMqttImpl := mkBroker 0 defaultBrokerConfig ∅ ∅ ∅ ∅ [] None.

(** What the broker calls of its owner. *)
Inductive OwnerCall : Type :=
| OnConnect
| OnDisconnect
| OnPublish (messageId : Z)
| OnMessage (topic payload : string) (responseTopic : option string) (correlation : string).

Definition withThreadQueue q (m : MockedMqttImpl) : MockedMqttImpl :=
  mkBroker (mbNextMessageId m) (mbConfig m) (mbTopics m) (mbSubscriptions m) (mbRpcResponses m) (mbPublishedTopics m) q (mbThread m).
Definition withThread t (m : MockedMqttImpl) : MockedMqttImpl :=
  mkBroker (mbNextMessageId m) (mbConfig m) (mbTopics m) (mbSubscriptions m) (mbRpcResponses m) (mbPublishedTopics m)
    (mbThreadQueue m) t.
Definition withConfig c (m : MockedMqttImpl) : MockedMqttImpl :=
  mkBroker (mbNextMessageId m) c (mbTopics m) (mbSubscriptions m) (mbRpcResponses m) (mbPublishedTopics m) (mbThreadQueue m) (mbThread m).
Definition withSubscriptions s (m : MockedMqttImpl) : MockedMqttImpl :=
  mkBroker (mbNextMessageId m) (mbConfig m) (mbTopics m) s (mbRpcResponses m) (mbPublishedTopics m) (mbThreadQueue m) (mbThread m).
Definition withTopics t (m : MockedMqttImpl) : MockedMqttImpl :=
  mkBroker (mbNextMessageId m) (mbConfig m) t (mbSubscriptions m) (mbRpcResponses m) (mbPublishedTopics m) (mbThreadQueue m) (mbThread m).
Definition withPublished p (m : MockedMqttImpl) : MockedMqttImpl :=
  mkBroker (mbNextMessageId m) (mbConfig m) (mbTopics m) (mbSubscriptions m) (mbRpcResponses m) p (mbThreadQueue m) (mbThread m).
Definition withResponses r (m : MockedMqttImpl) : MockedMqttImpl :=
  mkBroker (mbNextMessageId m) (mbConfig m) (mbTopics m) (mbSubscriptions m) r (mbPublishedTopics m) (mbThreadQueue m) (mbThread m).
Definition withNextMessageId n (m : MockedMqttImpl) : MockedMqttImpl :=
  mkBroker n (mbConfig m) (mbTopics m) (mbSubscriptions m) (mbRpcResponses m) (mbPublishedTopics m) (mbThreadQueue m) (mbThread m).

(** * The thread *)

(** threadLoop: what is called for the messages up to the one that ends the loop, the
    messages left, and whether the loop has ended. *)
Fixpoint threadLoop (queue : list ThreadItem) : list OwnerCall * list ThreadItem * bool :=
  match queue with
  | [] => ([], [], false)
  | MsgEndThread :: rest => ([], rest, true)
  | MsgPublishId id :: rest => let '(calls, rest', ended) := threadLoop rest in (OnPublish id :: calls, rest', ended)
  end.

(** One message. *)
Definition threadStep (m : MockedMqttImpl) : MockedMqttImpl * list OwnerCall :=
  match mbThread m, mbThreadQueue m with
  | Some true, MsgEndThread :: rest => (withThread (Some false) (withThreadQueue rest m), [])
  | Some true, MsgPublishId id :: rest => (withThreadQueue rest m, [OnPublish id])
  | _, _ => (m, [])
  end.

(** The loop ends, too, when nothing has come for the time of a test. *)
Definition threadTimesOut (m : MockedMqttImpl) : MockedMqttImpl :=
  match mbThread m, mbThreadQueue m with
  | Some true, [] => withThread (Some false) m
  | _, _ => m
  end.

(** stopThread: the message is queued, and join returns when the loop has ended.  A loop
    that has ended before does not take the message. *)
Definition stopThread (m : MockedMqttImpl) : MockedMqttImpl * list OwnerCall :=
  match mbThread m with
  | None => (m, [])
  | Some running =>
      let queue := (mbThreadQueue m ++ [MsgEndThread])%list in
      if running
      then let '(calls, rest, _) := threadLoop queue in (withThread None (withThreadQueue rest m), calls)
      else (withThread None (withThreadQueue queue m), [])
  end.

(** * The interface *)

Definition brokerConnect (config : MqttBrokerConfig) (m : MockedMqttImpl) : MockedMqttImpl * list OwnerCall :=
  let (m, calls) := stopThread (withConfig config m) in
  (withThread (Some true) m, calls ++ [OnConnect])%list.

(** reconnect, with the configuration of the last connect *)
Definition brokerReconnect (m : MockedMqttImpl) : MockedMqttImpl * list OwnerCall :=
  brokerConnect (mbConfig m) m.

Definition brokerDisconnect (m : MockedMqttImpl) : MockedMqttImpl * list OwnerCall :=
  let (m, calls) := stopThread m in (m, calls ++ [OnDisconnect])%list.

Definition brokerSubscribe (topic : string) (m : MockedMqttImpl) : MockedMqttImpl :=
  withSubscriptions ({[topic]} ∪ mbSubscriptions m) m.

(** std::map::insert does not replace. *)
Definition notePublished (topic : string) (m : MockedMqttImpl) : MockedMqttImpl :=
  match mbPublishedTopics m !! topic with
  | Some _ => m
  | None => withPublished (<[topic := Z.of_nat (size (mbPublishedTopics m)) + 1]> (mbPublishedTopics m)) m
  end.

Definition brokerPublish (topic : string) (data : option string) (m : MockedMqttImpl) : MockedMqttImpl * Z * list OwnerCall :=
  let publishCount := match mbTopics m !! topic with Some v => tpPublishCount v + 1 | None => 1 end in
  let bytes := default "" data in
  let m := withTopics (<[topic := mkTopic bytes publishCount]> (mbTopics m)) m in
  if bool_decide (topic ∈ mbSubscriptions m)
  then let m := notePublished topic m in (m, mbNextMessageId m, [OnMessage topic bytes None ""])
  else
    let id := mbNextMessageId m + 1 in
    let m := withThreadQueue (mbThreadQueue m ++ [MsgPublishId id])%list (withNextMessageId id m) in
    (notePublished topic m, id, []).

(** memcpy of an int from and to the bytes of the correlation data. *)
Definition corrBytes (littleEndian : bool) (id : Z) : string := bytesString (intBytes littleEndian 4 id).
Fixpoint wordOf (bytes : list Z) : Z :=
  match bytes with [] => 0 | b :: rest => b + 256 * wordOf rest end.
Definition corrIdOf (littleEndian : bool) (correlation : string) : Z :=
  if Nat.eqb (String.length correlation) 4
  then let bytes := codes correlation in
       to_i32 (wordOf (if littleEndian then bytes else rev bytes))
  else 0.

Definition brokerResponse (littleEndian : bool) (topic : string) (data : option string) (correlation : string)
  (properties : list (string * string)) (m : MockedMqttImpl) : MockedMqttImpl * Z :=
  let props := foldl (fun acc kv => <[kv.1 := kv.2]> acc) ∅ properties in
  let m := withResponses (<[corrIdOf littleEndian correlation := mkRpcResponse (default "" data) props]> (mbRpcResponses m)) m in
  let m := notePublished topic m in
  let id := mbNextMessageId m + 1 in
  (withNextMessageId id m, id).

(** The effects of the client on this implementation. *)
Definition brokerPerform (littleEndian : bool) (e : Effect) (m : MockedMqttImpl) : MockedMqttImpl * list OwnerCall :=
  match e with
  | EConnect config => brokerConnect config m
  | EReconnect => brokerReconnect m
  | EDisconnect => brokerDisconnect m
  | EStop => stopThread m
  | ESubscribe topic => (brokerSubscribe topic m, [])
  | EPublish topic payload _ => let '(m', _, calls) := brokerPublish topic payload m in (m', calls)
  | EResponse topic payload correlation properties =>
      ((brokerResponse littleEndian topic payload correlation properties m).1, [])
  | EInit _ | EToModbus _ _ | ENotifyQueues => (m, [])
  end.

(** * The tools of the tests *)

Definition brokerError {A} (what : string) : outcome A := Fault (StdException what).

Definition getPublishCount (topic : string) (m : MockedMqttImpl) : Z :=
  match mbTopics m !! topic with Some v => tpPublishCount v | None => 0 end.
Definition hasTopic (topic : string) (m : MockedMqttImpl) : bool := bool_decide (is_Some (mbTopics m !! topic)).
Definition mqttValue (topic : string) (m : MockedMqttImpl) : outcome string :=
  match mbTopics m !! topic with
  | Some v => Ret (tpVal v)
  | None => brokerError (topic +:+ " not found")
  end.
Definition mqttNullValue (topic : string) (m : MockedMqttImpl) : outcome bool :=
  let! v := mqttValue topic m in Ret (bool_decide (v = "")).

Definition rpcResponse (corrId : Z) (m : MockedMqttImpl) : outcome RpcResponse :=
  match mbRpcResponses m !! corrId with
  | Some r => Ret r
  | None => brokerError ("corrId " +:+ Numbers.to_string corrId +:+ " not found in RPC responses")
  end.
Definition rpcValue (corrId : Z) (m : MockedMqttImpl) : outcome string :=
  let! r := rpcResponse corrId m in Ret (rrPayload r).
Definition rpcUserProperty (corrId : Z) (key : string) (m : MockedMqttImpl) : outcome string :=
  let! r := rpcResponse corrId m in Ret (default "" (rrUserProperties r !! key)).

(** injectRpcRequest: the call of the owner *)
Definition injectRpcRequest (littleEndian : bool) (requestTopic payload : string) (responseTopic : option string)
  (corrId : Z) : OwnerCall :=
  OnMessage requestTopic payload responseTopic (if corrId =? 0 then "" else corrBytes littleEndian corrId).

(** The waiting functions return the state they end in. *)
Definition waitForSubscription (topic : string) (timeout : Z) (m : MockedMqttImpl) (wakes : list (Wake MockedMqttImpl))
  : option bool :=
  waitFor (fun m => bool_decide (topic ∈ mbSubscriptions m)) id timeout m wakes.
Definition waitForRpcResponse (corrId timeout : Z) (m : MockedMqttImpl) (wakes : list (Wake MockedMqttImpl)) : option bool :=
  waitFor (fun m => bool_decide (is_Some (mbRpcResponses m !! corrId))) id timeout m wakes.

Definition isPublished (topic : string) (m : MockedMqttImpl) : bool := bool_decide (is_Some (mbPublishedTopics m !! topic)).
Definition takePublished (topic : string) (m : MockedMqttImpl) : MockedMqttImpl :=
  withPublished (delete topic (mbPublishedTopics m)) m.

(** waitForPublish: the topic is taken off the list, published or not. *)
Definition waitForPublish (topic : string) (timeout : Z) (m : MockedMqttImpl) (wakes : list (Wake MockedMqttImpl))
  : option (bool * MockedMqttImpl) :=
  match waitFor id (isPublished topic) timeout m wakes with
  | Some m' => Some (isPublished topic m', takePublished topic m')
  | None => None
  end.

(** waitForFirstPublish: the topic at position 1 is returned and taken off the list. *)
Definition firstPublished (m : MockedMqttImpl) : outcome (string * MockedMqttImpl) :=
  match find (fun p => p.2 =? 1) (map_to_list (mbPublishedTopics m)) with
  | Some (topic, _) => Ret (topic, takePublished topic m)
  | None => brokerError "Cannot find first published topic"
  end.
Definition anyPublished (m : MockedMqttImpl) : bool := negb (Nat.eqb (size (mbPublishedTopics m)) 0).
Definition waitForFirstPublish (timeout : Z) (m : MockedMqttImpl) (wakes : list (Wake MockedMqttImpl))
  : option (outcome (string * MockedMqttImpl)) :=
  match waitFor id anyPublished timeout m wakes with
  | Some m' => Some (if anyPublished m' then firstPublished m' else Ret ("", m'))
  | None => None
  end.

(** waitForMqttValue: each round is what waitForPublish found, the state after it and
    the milliseconds since the start. *)
Fixpoint mqttValueRounds (topic expected : string) (timeout elapsed : Z) (rounds : list (bool * MockedMqttImpl * Z))
  : outcome (option string) :=
  match rounds with
  | [] => Ret None
  | (published, m, dur) :: rounds' =>
      if negb published then Ret (Some "")
      else
        let next := if elapsed + dur <? timeout then mqttValueRounds topic expected timeout (elapsed + dur) rounds'
                    else Ret (Some "") in
        if hasTopic topic m
        then let! v := mqttValue topic m in
             if bool_decide (v = expected) then Ret (Some v) else next
        else next
  end.
Definition waitForMqttValue (topic expected : string) (timeout : Z) := mqttValueRounds topic expected timeout 0.

(** resetBroker: the responses stay. *)
Definition resetBroker (m : MockedMqttImpl) : MockedMqttImpl * list OwnerCall :=
  brokerDisconnect (withTopics ∅ (withPublished ∅ (withSubscriptions ∅ m))).

(** * The server under test *)

(** How init or start of the server ends. *)
Inductive ServerEnd : Type :=
| EndOk
| EndConfiguration (what : string)
| EndException (what : string).

(** class ModMqttServerThread; the exception is a copy of the declared type. *)
Inductive KeptException : Type :=
| KeptConfiguration (what : string)
| KeptStd.

Record ServerThread : Type := mkServerThread {
  stRunning : bool;               (** mServerThread *)
  stException : option KeptException;
  stInitError : bool;
  stCheckInit : bool
}.

(** run_server *)
Definition run_server (r : ServerEnd) (t : ServerThread) : ServerThread :=
  match r with
  | EndOk => t
  | EndConfiguration what => mkServerThread (stRunning t) (Some (KeptConfiguration what)) true (stCheckInit t)
  | EndException _ => mkServerThread (stRunning t) (Some KeptStd) (stInitError t) (stCheckInit t)
  end.

Definition serverStart (t : ServerThread) : ServerThread := mkServerThread true None false (stCheckInit t).

(** RequireNoThrow *)
Definition RequireNoThrow (t : ServerThread) : outcome unit :=
  match stException t with None => Ret tt | Some _ => Fault AssertionFailed end.

(** stop: [r] is how the thread ends, once mServer.stop has been called if init was
    successful. *)
Definition serverStop (r : ServerEnd) (t : ServerThread) : ServerThread * outcome unit :=
  if stRunning t
  then
    let t := run_server r t in
    let t := mkServerThread false (stException t) (stInitError t) (stCheckInit t) in
    (t, if stCheckInit t then RequireNoThrow t else Ret tt)
  else (t, Ret tt).

Definition initOk (t : ServerThread) : bool := negb (stInitError t).

Definition exceptionWhat (e : KeptException) : string :=
  match e with KeptConfiguration what => what | KeptStd => "std::exception" end.

(** A text contains another one. *)
Fixpoint contains (part s : string) : bool :=
  String.prefix part s || match s with EmptyString => false | String _ s' => contains part s' end.

(** requireException<T>; [configuration]: T is ConfigurationException, otherwise
    std::exception. *)
Definition requireException (configuration : bool) (messagePart : string) (t : ServerThread) : outcome unit :=
  match stException t with
  | None => Fault NullDereferenced
  | Some e =>
      if bool_decide (match e with KeptConfiguration _ => true | KeptStd => false end = configuration)
         && contains messagePart (exceptionWhat e)
      then Ret tt else Fault AssertionFailed
  end.

(** The functions of MockedModMqttServerThread that wait and require. *)
Definition require (b : bool) : outcome unit := if b then Ret tt else Fault AssertionFailed.
Definition requireSubscription topic timeout m wakes : option (outcome unit) :=
  require <$> waitForSubscription topic timeout m wakes.
Definition requirePublish topic timeout m wakes : option (outcome MockedMqttImpl) :=
  (fun r : bool * MockedMqttImpl => let! _ := require r.1 in Ret r.2) <$> waitForPublish topic timeout m wakes.
Definition requireFirstPublish timeout m wakes : option (outcome (string * MockedMqttImpl)) :=
  (fun r => let! p := r in let! _ := require (negb (bool_decide (p.1 = ""))) in Ret p) <$> waitForFirstPublish timeout m wakes.
Definition requirePublishCount topic count m : outcome unit := require (getPublishCount topic m =? count).
Definition requireMqttValue topic expected timeout rounds : outcome (option unit) :=
  let! r := waitForMqttValue topic expected timeout rounds in
  match r with
  | Some v => let! _ := require (bool_decide (v = expected)) in Ret (Some tt)
  | None => Ret None
  end.
Definition requireTopicValue topic m : outcome string := let! _ := require (hasTopic topic m) in mqttValue topic m.
Definition requireTopicNull topic m : outcome bool := let! _ := require (hasTopic topic m) in mqttNullValue topic m.
Definition requireRpcResponse corrId timeout m wakes : option (outcome unit) :=
  require <$> waitForRpcResponse corrId timeout m wakes.
Definition requireModbusValue timeout slaveId regNum regType val c wakes : option (outcome unit) :=
  (fun r : outcome Z => let! v := r in require (v =? val)) <$> waitForModbusValue timeout slaveId regNum regType val c wakes.

(** * Correlation data *)

Lemma wordOf_lowBytes n v : wordOf (lowBytes n v) = v mod 256 ^ Z.of_nat n.
Proof.
  revert v. induction n as [|n IH]; intros v; cbn [lowBytes wordOf]; [by rewrite Z.mod_1_r|].
  rewrite IH, Nat2Z.inj_succ, Z.pow_succ_r by lia.
  assert (0 < 256 ^ Z.of_nat n) by (apply Z.pow_pos_nonneg; lia).
  rewrite Z.rem_mul_r by lia. lia.
Qed.

Lemma codes_bytes l : Forall (fun b => 0 <= b < 256) l -> codes (bytesString l) = l.
Proof.
  induction 1 as [|b l Hb _ IH]; [done|]. cbn [bytesString codes]. rewrite IH. f_equal.
  unfold byteChar, Numbers.code. rewrite N_ascii_embedding by lia. lia.
Qed.

Lemma lowBytes_bytes n v : Forall (fun b => 0 <= b < 256) (lowBytes n v).
Proof.
  revert v. induction n as [|n IH]; intros v; cbn; constructor; [apply Z.mod_pos_bound; lia|apply IH].
Qed.

(** The id a test sends with a request is the one its response is filed under. *)
Theorem correlation_roundtrip le id : is_i32 id -> corrIdOf le (corrBytes le id) = id.
Proof.
  intros R. unfold corrIdOf, corrBytes. rewrite bytesString_length, intBytes_length. cbn [Nat.eqb].
  assert (Forall (fun b => 0 <= b < 256) (intBytes le 4 id)) as F.
  { unfold intBytes. destruct le; [apply lowBytes_bytes|]. apply Forall_rev, lowBytes_bytes. }
  rewrite codes_bytes by done.
  assert ((if le then intBytes le 4 id else rev (intBytes le 4 id)) = lowBytes 4 id) as ->
    by (unfold intBytes; destruct le; [done|by rewrite rev_involutive]).
  rewrite wordOf_lowBytes. change (256 ^ Z.of_nat 4) with (2 ^ 32). unfold to_i32.
  rewrite to_signed_mod by lia. apply to_signed_small; [lia|]. unfold is_i32 in R. cbn. lia.
Qed.

(** * Histories *)

(** What can happen to a broker: calls of the client, steps of its thread, and what a
    test does. *)
Inductive BrokerOp : Type :=
| BoEffect (e : Effect)
| BoThread
| BoTimeout
| BoReset
| BoTake (topic : string).

Section history.
Variable le : bool.

Definition brokerOp (op : BrokerOp) (m : MockedMqttImpl) : MockedMqttImpl * list OwnerCall :=
  match op with
  | BoEffect e => brokerPerform le e m
  | BoThread => threadStep m
  | BoTimeout => (threadTimesOut m, [])
  | BoReset => resetBroker m
  | BoTake topic => (takePublished topic m, [])
  end.

Definition brokerStep (st : MockedMqttImpl * list OwnerCall) (op : BrokerOp) : MockedMqttImpl * list OwnerCall :=
  let (m, calls) := brokerOp op st.1 in (m, st.2 ++ calls)%list.
Definition brokerRun (ops : list BrokerOp) : MockedMqttImpl * list OwnerCall := foldl brokerStep (newBroker, []) ops.

(** An invariant of all histories. *)
Lemma brokerRun_inv (P : MockedMqttImpl -> list OwnerCall -> Prop) ops :
  P newBroker [] ->
  (forall m log op, P m log -> P (brokerOp op m).1 (log ++ (brokerOp op m).2)%list) ->
  P (brokerRun ops).1 (brokerRun ops).2.
Proof.
  intros H0 Hs. unfold brokerRun. induction ops as [|op ops IH] using rev_ind; [done|].
  rewrite foldl_app. cbn. unfold brokerStep at 1 3. specialize (Hs _ _ op IH).
  by destruct (brokerOp op _).
Qed.

(** How often a topic has been published since the broker was reset. *)
Definition countStep (topic : string) (n : Z) (op : BrokerOp) : Z :=
  match op with
  | BoEffect (EPublish t _ _) => if bool_decide (t = topic) then n + 1 else n
  | BoReset => 0
  | _ => n
  end.

Lemma stopThread_topics m : mbTopics (stopThread m).1 = mbTopics m.
Proof. unfold stopThread. destruct (mbThread m) as [[]|]; [by destruct (threadLoop _) as [[? ?] ?]|done..]. Qed.
Lemma notePublished_topics topic m : mbTopics (notePublished topic m) = mbTopics m.
Proof. unfold notePublished. by destruct (mbPublishedTopics m !! topic). Qed.
Lemma connect_topics config m : mbTopics (brokerConnect config m).1 = mbTopics m.
Proof.
  unfold brokerConnect. pose proof (stopThread_topics (withConfig config m)) as E. by destruct (stopThread _).
Qed.
Lemma disconnect_topics m : mbTopics (brokerDisconnect m).1 = mbTopics m.
Proof. unfold brokerDisconnect. pose proof (stopThread_topics m) as E. by destruct (stopThread _). Qed.

Lemma publish_topics topic data m :
  mbTopics (brokerPublish topic data m).1.1 =
  <[topic := mkTopic (default "" data) (getPublishCount topic m + 1)]> (mbTopics m).
Proof.
  unfold brokerPublish, getPublishCount. cbn. destruct (mbTopics m !! topic); destruct (bool_decide _); cbn;
    by rewrite notePublished_topics.
Qed.

Lemma brokerOp_count topic op m :
  getPublishCount topic (brokerOp op m).1 = countStep topic (getPublishCount topic m) op.
Proof.
  unfold getPublishCount. destruct op as [e| | | |t]; cbn; try done.
  - destruct e as [|config| | | |t|t payload retain|t payload corr props| |]; cbn; try done.
    + by rewrite connect_topics.
    + unfold brokerReconnect. by rewrite connect_topics.
    + by rewrite disconnect_topics.
    + by rewrite stopThread_topics.
    + pose proof (publish_topics t payload m) as E. destruct (brokerPublish t payload m) as [[m' id] calls]. cbn in E |- *.
      rewrite E. case_bool_decide as D; [subst t; by rewrite lookup_insert_eq|by rewrite lookup_insert_ne].
    + by rewrite notePublished_topics.
  - unfold threadStep. by destruct (mbThread m) as [[]|]; destruct (mbThreadQueue m) as [|[|id] rest].
  - unfold threadTimesOut. by destruct (mbThread m) as [[]|]; destruct (mbThreadQueue m).
  - unfold resetBroker. rewrite disconnect_topics. cbn. by rewrite lookup_empty.
Qed.

(** The publish count a test asks for is the number of messages the client has published
    on the topic since the broker was started or reset. *)
Theorem publish_count_exact topic ops :
  getPublishCount topic (brokerRun ops).1 = foldl (countStep topic) 0 ops.
Proof.
  unfold brokerRun. induction ops as [|op ops IH] using rev_ind; [done|].
  rewrite !foldl_app. cbn. rewrite <- IH, <- brokerOp_count. unfold brokerStep at 1.
  by destruct (brokerOp op _).
Qed.

(** * Confirmations *)

Definition confirmedId (c : OwnerCall) : option Z := match c with OnPublish id => Some id | _ => None end.
Definition queuedId (i : ThreadItem) : option Z := match i with MsgPublishId id => Some id | _ => None end.
Definition ids (m : MockedMqttImpl) (log : list OwnerCall) : list Z :=
  (omap confirmedId log ++ omap queuedId (mbThreadQueue m))%list.

(** Ids grow, and the last one given is [mbNextMessageId]. *)
Definition idsOk (m : MockedMqttImpl) (log : list OwnerCall) : Prop :=
  StronglySorted Z.lt (ids m log) /\ Forall (fun id => 1 <= id <= mbNextMessageId m) (ids m log) /\ 0 <= mbNextMessageId m.

Lemma sorted_snoc l x : StronglySorted Z.lt l -> Forall (fun y => y < x) l -> StronglySorted Z.lt (l ++ [x]).
Proof.
  induction 1 as [|y l Hl IH Hy]; cbn; intros F; [repeat constructor|].
  apply Forall_cons_1 in F as [Fy F]. constructor; [by apply IH|]. apply Forall_app. split; [done|by constructor].
Qed.

Lemma threadLoop_ids q :
  let '(calls, rest, _) := threadLoop q in (omap confirmedId calls ++ omap queuedId rest)%list = omap queuedId q.
Proof.
  induction q as [|[|id] q IH]; cbn; [done..|]. destruct (threadLoop q) as [[calls rest] e]. cbn. by rewrite IH.
Qed.

(** A step that moves ids from the queue to the owner, or gives none. *)
Lemma idsOk_same m log m' calls :
  mbNextMessageId m <= mbNextMessageId m' ->
  (omap confirmedId calls ++ omap queuedId (mbThreadQueue m'))%list = omap queuedId (mbThreadQueue m) ->
  idsOk m log -> idsOk m' (log ++ calls).
Proof.
  intros N E (S & F & Nn). unfold idsOk, ids in *. rewrite omap_app, <- app_assoc, E.
  split; [done|]. split; [|lia]. eapply Forall_impl; [exact F|]. cbn. lia.
Qed.

Lemma stopThread_ids m :
  mbNextMessageId (stopThread m).1 = mbNextMessageId m
  /\ (omap confirmedId (stopThread m).2 ++ omap queuedId (mbThreadQueue (stopThread m).1))%list = omap queuedId (mbThreadQueue m).
Proof.
  unfold stopThread. destruct (mbThread m) as [[]|]; [|cbn; by rewrite omap_app, app_nil_r|done].
  pose proof (threadLoop_ids (mbThreadQueue m ++ [MsgEndThread])) as E. destruct (threadLoop _) as [[calls rest] e]. cbn.
  split; [done|]. by rewrite E, omap_app, app_nil_r.
Qed.

Lemma notePublished_next topic m :
  mbNextMessageId (notePublished topic m) = mbNextMessageId m /\ mbThreadQueue (notePublished topic m) = mbThreadQueue m.
Proof. unfold notePublished. by destruct (mbPublishedTopics m !! topic). Qed.

(** A message that is not delivered to the client itself gets the next id. *)
Lemma publish_ids topic data m log :
  idsOk m log -> idsOk (brokerPublish topic data m).1.1 (log ++ (brokerPublish topic data m).2)%list.
Proof.
  intros I. unfold brokerPublish. cbn. destruct (bool_decide _); cbn.
  - match goal with |- context [notePublished topic ?x] => destruct (notePublished_next topic x) as [N Q] end.
    apply (idsOk_same m); cbn in *; [lia|by rewrite Q|done].
  - match goal with |- context [notePublished topic ?x] => destruct (notePublished_next topic x) as [N Q] end.
    cbn in N, Q. destruct I as (S & F & Nn). unfold idsOk, ids in *. rewrite N, Q, app_nil_r, omap_app. cbn. rewrite app_assoc.
    split; [apply sorted_snoc; [done|]|split; [apply Forall_app; split|lia]].
    + eapply Forall_impl; [exact F|]. cbn. lia.
    + eapply Forall_impl; [exact F|]. cbn. lia.
    + apply Forall_singleton. lia.
Qed.

Lemma stop_then_ids m log call :
  confirmedId call = None -> idsOk m log -> idsOk (stopThread m).1 (log ++ (stopThread m).2 ++ [call])%list.
Proof.
  intros C I. destruct (stopThread_ids m) as [N E]. apply (idsOk_same m); [lia| |done].
  rewrite omap_app. cbn. by rewrite C, app_nil_r.
Qed.

Lemma idsOk_ext m m' log :
  mbNextMessageId m' = mbNextMessageId m -> mbThreadQueue m' = mbThreadQueue m -> idsOk m log -> idsOk m' log.
Proof. unfold idsOk, ids. by intros -> ->. Qed.

Lemma connect_ids config m log :
  idsOk m log -> idsOk (brokerConnect config m).1 (log ++ (brokerConnect config m).2)%list.
Proof.
  intros I. pose proof (stop_then_ids (withConfig config m) log OnConnect eq_refl) as H.
  unfold brokerConnect. destruct (stopThread (withConfig config m)) as [m' calls]. cbn in *.
  exact (H I).
Qed.

Lemma disconnect_ids m log : idsOk m log -> idsOk (brokerDisconnect m).1 (log ++ (brokerDisconnect m).2)%list.
Proof.
  intros I. pose proof (stop_then_ids m log OnDisconnect eq_refl I) as H. unfold brokerDisconnect. by destruct (stopThread m).
Qed.

Lemma effect_ids e m log :
  idsOk m log -> idsOk (brokerPerform le e m).1 (log ++ (brokerPerform le e m).2)%list.
Proof.
  intros I. destruct e as [|config| | | |t|t payload retain|t payload corr props| |]; cbn; try (by rewrite app_nil_r).
  - by apply connect_ids.
  - by apply connect_ids.
  - by apply disconnect_ids.
  - destruct (stopThread_ids m) as [N E]. apply (idsOk_same m); [lia|done|done].
  - pose proof (publish_ids t payload m log I) as H. by destruct (brokerPublish t payload m) as [[m' id] calls].
  - apply (idsOk_same m); [|cbn|done];
      match goal with |- context [notePublished t ?x] => destruct (notePublished_next t x) as [N Q] end; cbn in *; [lia|by rewrite Q].
Qed.

Lemma brokerOp_ids op m log : idsOk m log -> idsOk (brokerOp op m).1 (log ++ (brokerOp op m).2)%list.
Proof.
  intros I. destruct op as [e| | | |t]; [by apply effect_ids|..]; cbn.
  - unfold threadStep. destruct (mbThread m) as [[]|] eqn:Et, (mbThreadQueue m) as [|[|id] rest] eqn:Eq;
      (apply (idsOk_same m); [done| |done]); cbn; by rewrite ?Eq.
  - rewrite app_nil_r. apply (idsOk_ext m); [..|done]; unfold threadTimesOut;
      destruct (mbThread m) as [[]|], (mbThreadQueue m) eqn:Eq; cbn; by rewrite ?Eq.
  - apply disconnect_ids. by apply (idsOk_ext m).
  - rewrite app_nil_r. by apply (idsOk_ext m).
Qed.

(** The client is told of the ids in the order they were given to it, each once at most:
    its onPublish finds them in order, whatever the broker, its thread and the tests do. *)
Theorem confirmations_in_order ops :
  StronglySorted Z.lt (omap confirmedId (brokerRun ops).2)
  /\ Forall (fun id => 1 <= id <= mbNextMessageId (brokerRun ops).1) (omap confirmedId (brokerRun ops).2).
Proof.
  destruct (brokerRun_inv idsOk ops) as (S & F & _).
  - repeat constructor. done.
  - intros m log op. apply brokerOp_ids.
  - unfold ids in *. apply Forall_app in F as [F _]. split; [|done].
    by apply StronglySorted_app in S as (_ & S & _).
Qed.

End history.

(** * What the waiting functions find *)

(** Topics that are published for the first time, in order, from an empty list. *)
Lemma notePublished_position topics m t t' :
  mbPublishedTopics m !! t = Some 1 -> (forall k, mbPublishedTopics m !! k = Some 1 -> k = t) -> (0 < size (mbPublishedTopics m))%nat ->
  mbPublishedTopics (foldl (flip notePublished) m topics) !! t' = Some 1 <-> t' = t.
Proof.
  revert m. induction topics as [|x topics IH]; intros m E U Sz; cbn.
  - split; [apply U|by intros ->].
  - replace (flip notePublished m x) with (notePublished x m) by done. unfold notePublished at 2. destruct (mbPublishedTopics m !! x) as [k|] eqn:Ex; [by apply IH|].
    assert (x <> t) by (intros ->; congruence). apply IH; cbn.
    + by rewrite lookup_insert_ne.
    + intros k. destruct (decide (k = x)) as [->|]; [rewrite lookup_insert_eq; intros [= H']; lia|].
      rewrite lookup_insert_ne by done. apply U.
    + rewrite map_size_insert_None by done. lia.
Qed.

(** The first call of waitForFirstPublish returns the topic that was published first. *)
Theorem first_publish_found m topics t :
  mbPublishedTopics m = ∅ ->
  exists m', firstPublished (foldl (flip notePublished) m (t :: topics)) = Ret (t, m').
Proof.
  intros E. cbn [foldl]. set (m1 := flip notePublished m t).
  assert (mbPublishedTopics m1 = {[t := 1]}) as E1.
  { subst m1. unfold flip, notePublished. rewrite E, lookup_empty. cbn. rewrite map_size_empty. done. }
  pose proof (fun k => notePublished_position topics m1 t k) as P. rewrite E1 in P.
  set (m2 := foldl (flip notePublished) m1 topics) in *.
  assert (forall k, mbPublishedTopics m2 !! k = Some 1 <-> k = t) as Q.
  { intros k. apply P; [by rewrite lookup_singleton_eq| |rewrite map_size_singleton; lia].
    intros k'. rewrite lookup_singleton_Some. naive_solver. }
  unfold firstPublished. destruct (find _ _) as [[k v]|] eqn:F.
  - apply find_some in F as [Hin Hv]. cbn in Hv. apply Z.eqb_eq in Hv. subst v.
    apply list_elem_of_In, elem_of_map_to_list, Q in Hin. subst k. eauto.
  - pose proof (find_none _ _ F (t, 1)) as N. cbn in N.
    assert (In (t, 1) (map_to_list (mbPublishedTopics m2))) as Hin by (by apply list_elem_of_In, elem_of_map_to_list, Q).
    by specialize (N Hin).
Qed.

(** The second call fails although another topic has been published: its position is 2,
    and nothing renumbers the list. *)
Theorem second_publish_not_found :
  let m := foldl (flip notePublished) newBroker ["a"; "b"] in
  (let! (_, m) := firstPublished m in firstPublished m) = Fault (StdException "Cannot find first published topic").
Proof. vm_compute. reflexivity. Qed.

(** waitForMqttValue returns the value it waits for or nothing; a comment in the header
    says that it returns the current value when the time is over. *)
Theorem waitForMqttValue_result topic expected timeout rounds :
  exists r, waitForMqttValue topic expected timeout rounds = Ret r
  /\ (r = None \/ r = Some expected \/ r = Some "").
Proof.
  unfold waitForMqttValue. generalize 0 as elapsed. induction rounds as [|[[published m] dur] rounds IH]; intros elapsed; cbn; [by eauto|].
  destruct published; cbn; [|by eauto 6].
  assert (exists r, (if elapsed + dur <? timeout then mqttValueRounds topic expected timeout (elapsed + dur) rounds else Ret (Some "")) = Ret r
    /\ (r = None \/ r = Some expected \/ r = Some "")) as Next by (destruct (_ <? _); [apply IH|by eauto 6]).
  unfold hasTopic, mqttValue. case_bool_decide as D; [|done]. destruct D as [v ->]. cbn.
  case_bool_decide as E; [subst; eauto 6|done].
Qed.

(** The time of each round since the start is added up, so that the waiting ends long
    before its time is over: after 40 and 80 milliseconds of a timeout of 100. *)
Example waitForMqttValue_early m :
  mbTopics m !! "t" = Some (mkTopic "1" 1) ->
  waitForMqttValue "t" "2" 100 [(true, m, 40); (true, m, 80); (true, m, 90)] = Ret (Some "").
Proof. intros E. unfold waitForMqttValue. cbn. unfold hasTopic, mqttValue. by rewrite E. Qed.

(** A loop that has ended because nothing came leaves the message that should end it in
    the queue, where it ends the loop of the next connection. *)
Theorem stale_end_message config m :
  mbThread m = Some true -> mbThreadQueue m = [] ->
  let m1 := (stopThread (threadTimesOut m)).1 in
  let m2 := (brokerConnect config m1).1 in
  mbThreadQueue m1 = [MsgEndThread] /\ mbThread m2 = Some true /\ mbThread (threadStep m2).1 = Some false.
Proof.
  intros Et Eq. unfold threadTimesOut. rewrite Et, Eq. unfold stopThread. cbn. rewrite Eq. cbn.
  unfold threadStep, brokerConnect, stopThread. by cbn.
Qed.

(** stop of a running loop confirms everything that is queued. *)
Theorem stop_confirms_all m :
  mbThread m = Some true -> MsgEndThread ∉ mbThreadQueue m ->
  mbThreadQueue (stopThread m).1 = [] /\ omap confirmedId (stopThread m).2 = omap queuedId (mbThreadQueue m).
Proof.
  intros Et N. unfold stopThread. rewrite Et.
  assert (forall q, MsgEndThread ∉ q -> let '(calls, rest, _) := threadLoop (q ++ [MsgEndThread]) in
    rest = [] /\ omap confirmedId calls = omap queuedId q) as H.
  { induction q as [|[|id] q IH]; intros Nq; [done|by destruct Nq; left|]. cbn.
    specialize (IH ltac:(set_solver)). destruct (threadLoop (q ++ [MsgEndThread])) as [[calls rest] e]. cbn. by destruct IH as [-> ->]. }
  specialize (H _ N). by destruct (threadLoop _) as [[calls rest] e].
Qed.

(** * The server thread *)

(** A configuration error keeps its type and its text; of any other exception nothing but
    the base class is copied. *)
Theorem kept_exceptions t what part :
  requireException true part (run_server (EndConfiguration what) t) = require (contains part what)
  /\ (requireException true part (run_server (EndException what) t) = Fault AssertionFailed)
  /\ requireException false part (run_server (EndException what) t) = require (contains part "std::exception").
Proof. unfold requireException, require. cbn. by destruct (contains part what). Qed.

(** A test that checks the start fails when the server ends with any exception. *)
Theorem stop_checks r t :
  stRunning t = true -> stCheckInit t = true -> stException t = None ->
  (serverStop r t).2 = match r with EndOk => Ret tt | _ => Fault AssertionFailed end
  /\ stRunning (serverStop r t).1 = false.
Proof. intros R C E. unfold serverStop. rewrite R. destruct r; cbn; rewrite C; unfold RequireNoThrow; cbn; by rewrite ?E. Qed.
