(* ===== verification/CommandPath.v ===== *)
(** The way of a command: from the message on its MQTT topic through the queue of the
    modbus thread and the executor to the write on the network, and back as the message
    that tells the main thread. *)

From stdpp Require Import base gmap list strings.
From Stdlib Require Import ZArith Lia String.
From S2P Require Import Prelude ModbusTypes PollSpec Commands ModbusContext Config Executor ExecutorProps ModbusThread.
From S2P Require Import ConvTools ConvArgs StdConv Converters MqttObject MqttPayload MqttClient MqttClientProps.

#[local] Open Scope string_scope.
#[local] Open Scope Z_scope.

Import MqttClient.

Section client.
Context {D : Type} `{CDouble D} `{Rapidjson D}.
Variable env : ClientEnv.
Variable plugins : list (ConverterPlugin D).

(** The registers a payload of a command stands for. *)
Definition commandRegs (command : MqttObjectCommand D) (payload : string) : outcome (list Z) :=
  let count := mCount (mRange (commandBase command)) in
  match commandConverter command with
  | Some conv => toModbus conv (createMqttValue payload) count
  | None => defaultToModbus (createMqttValue payload) count
  end.

(** The message to the thread of the network. *)
Definition commandMessage (command : MqttObjectCommand D) (regs : list Z) (now : Z) : MsgRegisterValues :=
  let b := commandBase command in
  newMsgRegisterValues (mSlaveId b) (mRegisterType (mRange b)) (mRegister (mRange b)) regs (mCommandId b)
    (commandWriteMode command) now.

Lemma onMessage_command topic payload resp corr c command regs :
  findCommand topic c = Some command -> commandNetwork command ∈ cNetworks c ->
  commandRegs command payload = Ret regs -> ModbusRegisters.getCount regs = mCount (mRange (commandBase command)) ->
  onMessage env plugins topic payload resp corr c =
  (withEffect (EToModbus (commandNetwork command) (WriteValues (commandMessage command regs (envNow env (cTick c))))) (withTick c),
   Ret tt).
Proof.
  intros F N R Cn. unfold onMessage, bind at 1, gets at 1. rewrite F. unfold tryCatch, executeCommand, bind, gets.
  rewrite bool_decide_true by done. cbn [negb]. unfold commandRegs in R. rewrite R. cbn.
  rewrite Cn, Z.eqb_refl. done.
Qed.

(** A payload that cannot be converted, converts to another number of registers, or is for
    a network there is no client for, sends nothing, and the handler returns. *)
Theorem command_refused topic payload resp corr c command :
  findCommand topic c = Some command ->
  commandNetwork command ∉ cNetworks c
  \/ (exists what, commandRegs command payload = Fault (ConvException what))
  \/ (exists regs, commandRegs command payload = Ret regs
        /\ ModbusRegisters.getCount regs <> mCount (mRange (commandBase command))) ->
  onMessage env plugins topic payload resp corr c = (c, Ret tt).
Proof.
  intros F R. unfold onMessage, bind at 1, gets at 1. rewrite F. unfold tryCatch, executeCommand, bind, gets.
  case_bool_decide as N; cbn [negb]; [|done]. unfold commandRegs in R. destruct R as [|[[what R]|(regs & R & Cn)]]; [done|..].
  - by rewrite R.
  - rewrite R. cbn. by rewrite (proj2 (Z.eqb_neq _ _)).
Qed.

End client.

(** * The thread *)

Section thread.
Context {C : Type} `{IModbusContext C}.
Variable factory : ModbusNetworkConfig -> outcome C.

(** Nothing waits, no write is queued, and the slave has no queue: the executor then
    dereferences end() (ModbusExecutor::addWriteCommand). *)
Definition unknownSlave (slave : Z) (e : Executor) : Prop :=
  mWriteCommandsQueued e = 0 /\ mWaitingCommand e = None /\ slave ∉ smap_keys (mSlaveQueues e).

(** The write the thread makes of a message. *)
Lemma processWrite_queued m t (w : World C) :
  Inv (mExecutor t) ->
  match ModbusThread.processWrite m t w with
  | Ret (t', w') =>
      Inv (mExecutor t') /\ pending (mExecutor t') ≡ₚ WriteRef (nextPtr (wStore w)) :: pending (mExecutor t)
      /\ let cmd := writes (wStore w') (nextPtr (wStore w)) in
         cmdBase (writeCmd cmd) = cmdBase (writeCmd (newRegisterWrite m)) /\ mValues cmd = msgRegisters m
         /\ mReturnMessage cmd = Some m
  | Fault f => f = EndDereferenced /\ unknownSlave (mSlaveId (msgBase m)) (mExecutor t)
  end.
Proof.
  intros I. unfold ModbusThread.processWrite. set (cmd1 := setWriteCmd _ _). set (cmd2 := match smap_find _ _ with Some _ => _ | None => _ end).
  assert (cmdBase (writeCmd cmd2) = cmdBase (writeCmd (newRegisterWrite m)) /\ mValues cmd2 = msgRegisters m /\ mReturnMessage cmd2 = Some m) as K.
  { assert (cmdBase (writeCmd cmd1) = cmdBase (writeCmd (newRegisterWrite m)) /\ mValues cmd1 = msgRegisters m /\ mReturnMessage cmd1 = Some m)
      as K1 by (split; [apply ModbusThread.applySlaveConfig_base|done]).
    subst cmd2. destruct (smap_find _ _) as [c|]; [|exact K1]. destruct (decide _); exact K1. }
  destruct (allocWrite (wStore w) cmd2) as [p s] eqn:Al. injection Al as <- <-.
  match goal with |- context [Executor.addWriteCommand ?s ?p ?e] => pose proof (addWriteCommand_spec s p e I) as S;
    destruct (Executor.addWriteCommand s p e) as [e'|f] end; cbn [obind].
  - destruct S as [I' S]. split; [exact I'|]. split; [exact S|]. cbn [wStore writes]. rewrite decide_True by done. exact K.
  - destruct S as (-> & S1 & S2 & S3). split; [done|]. split; [done|]. split; [done|].
    unfold cmdSlave, commandOf in S3. cbn [writes] in S3. rewrite decide_True in S3 by done.
    destruct K as [K _]. by rewrite K in S3.
Qed.

(** The executor hands the write to the context, and tells the main thread how it ended. *)
Lemma writeRegisters_calls eenv wp e (w : World C) m :
  mReturnMessage (writes (wStore w) wp) = Some m ->
  let cmd := writes (wStore w) wp in
  let '(ctx, res) := writeModbusRegisters (wCtx w) (mSlaveId (cmdBase (writeCmd cmd))) cmd in
  match res with
  | WriteOk => exists e' w', Executor.writeRegisters eenv wp e w = Ret (e', w') /\ wCtx w' = ctx
      /\ wOut w' = (wOut w ++ [RegisterValues (Executor.fillReturn (mValues cmd) m)])%list
  | WriteException => exists e' w', Executor.writeRegisters eenv wp e w = Ret (e', w') /\ wCtx w' = ctx
      /\ wOut w' = (wOut w ++ [RegisterWriteFailed (Executor.failedMessage (cmdBase (writeCmd cmd)) (ModbusRegisters.getCount (mValues cmd))
                                 (mCommandId (cmdBase (writeCmd cmd))))])%list
  | WriteContextException => Executor.writeRegisters eenv wp e w = Fault (StdException "ModbusContextException")
  end.
Proof.
  intros Er cmd. unfold Executor.writeRegisters. fold cmd.
  destruct (writeModbusRegisters (wCtx w) (mSlaveId (cmdBase (writeCmd cmd))) cmd) as [ctx [| |]]; cbn [obind].
  - change (mReturnMessage (setLastWriteOk true cmd)) with (mReturnMessage cmd). unfold cmd at 1. rewrite Er. eexists _, _. done.
  - eexists _, _. done.
  - done.
Qed.

End thread.

(** What a context is asked to write for a command. *)
Definition writesCommand {D} (command : MqttObjectCommand D) (regs : list Z) (cmd : RegisterWrite) : Prop :=
  cmdBase (writeCmd cmd) = commandBase command /\ mValues cmd = regs.

(** What the main thread is told about a write of the command. *)
Definition answers {D} (command : MqttObjectCommand D) (regs : list Z) (res : WriteResult) (answer : FromModbus) : Prop :=
  match res, answer with
  | WriteOk, RegisterValues m => msgBase m = commandBase command /\ msgRegisters m = regs
  | WriteException, RegisterWriteFailed b => b = commandBase command
  | _, _ => False
  end.

(** C24: a command arrives: a message on the topic of a command of a network that has
    a client, with a payload that stands for as many registers as the command has,
    makes the client send exactly one message, to the thread of that network.  The
    thread queues exactly one write for it, and keeps its invariant; it fails only
    when nothing waits, no write is queued and the slave of the command has no queue:
    then it dereferences an end iterator (a finding).  Whenever the executor executes
    that write, the network is asked to write these registers to the slave and the
    addresses of the command; when it answers with success or a write error, the main
    thread is sent one message, the values under the id of the command or the
    failure; when the context refuses the write (a register type that cannot be
    written), the exception leaves the executor and ends the thread. *)
Theorem command_reaches_network {D C} `{CDouble D} `{Rapidjson D} `{IModbusContext C} factory env plugins
    topic payload resp corr (c : Client D) command regs :
  findCommand topic c = Some command -> commandNetwork command ∈ cNetworks c ->
  commandRegs command payload = Ret regs -> ModbusRegisters.getCount regs = mCount (mRange (commandBase command)) ->
  exists msg,
    onMessage env plugins topic payload resp corr c
      = (withEffect (EToModbus (commandNetwork command) (WriteValues msg)) (withTick c), Ret tt)
    /\ forall menv t (w : World C), Inv (mExecutor t) ->
         match ModbusThread.dispatchMessage factory menv (WriteValues msg) t w with
         | Fault f => f = EndDereferenced /\ unknownSlave (mSlaveId (commandBase command)) (mExecutor t)
         | Ret (t', w') =>
             let wp := nextPtr (wStore w) in
             Inv (mExecutor t') /\ pending (mExecutor t') ≡ₚ WriteRef wp :: pending (mExecutor t)
             /\ forall eenv e (w2 : World C), writes (wStore w2) wp = writes (wStore w') wp ->
                  let cmd := writes (wStore w2) wp in
                  writesCommand command regs cmd
                  /\ let '(ctx, res) := writeModbusRegisters (wCtx w2) (mSlaveId (commandBase command)) cmd in
                     match Executor.writeRegisters eenv wp e w2 with
                     | Ret (_, w3) => wCtx w3 = ctx /\ exists answer, wOut w3 = (wOut w2 ++ [answer])%list
                                                                     /\ answers command regs res answer
                     | Fault f => f = contextFault /\ res = WriteContextException
                     end
         end.
Proof.
  intros F N R Cn. eexists. split; [by apply onMessage_command|]. intros menv t w I.
  pose proof (processWrite_queued (commandMessage command regs (envNow env (cTick c))) t w I) as P.
  cbn [ModbusThread.dispatchMessage]. destruct (ModbusThread.processWrite _ t w) as [[t' w']|f]; [|exact P].
  destruct P as (I' & Pe & B & V & M). cbn zeta. split; [exact I'|]. split; [exact Pe|].
  set (wp := nextPtr (wStore w)) in *. intros eenv e w2 E. set (cmd := writes (wStore w2) wp).
  assert (cmd = writes (wStore w') wp) as Ecmd by exact E. rewrite <- Ecmd in B, V, M.
  assert (cmdBase (writeCmd cmd) = commandBase command) as Bc.
  { rewrite B. cbn. rewrite Cn. destruct (commandBase command) as [[a n ty] s i]. done. }
  split; [by split|]. pose proof (writeRegisters_calls eenv wp e w2 _ M) as W. fold cmd in W. cbn zeta in W.
  rewrite Bc in W. destruct (writeModbusRegisters (wCtx w2) (mSlaveId (commandBase command)) cmd) as [ctx [| |]].
  - destruct W as (e3 & w3 & -> & X & O). split; [done|]. eexists. split; [exact O|]. cbn.
    rewrite Cn, V. split; [|done]. by destruct (commandBase command) as [[a n ty] s i].
  - destruct W as (e3 & w3 & -> & X & O). split; [done|]. eexists. split; [exact O|].
    unfold Executor.failedMessage. rewrite V. cbn. unfold newMsgFailed. rewrite Cn. by destruct (commandBase command) as [[a n ty] s i].
  - by rewrite W.
Qed.

(** A command for register 1 of slave 1, written to an executor that has polls to do. *)
Module CommandScenario.

Definition command : MqttObjectCommand Z := mkObjectCommand (mkBase (mkRange 1 1 HOLDING) 1 1) "dev/set" "net" AUTO None.
Definition client : Client Z := withCommands [("dev/set", command)] ClientScenario.client.
Definition thread : ModbusThread.Thread := ModbusThread.withExecutor Scenario.busy ModbusThread.ThreadScenario.thread.
Definition world : World (ModbusContext Device.state) := ModbusThread.ThreadScenario.world.

(** The messages the client sent to the thread. *)
Definition sent : list ToModbus :=
  omap (fun e => match e with EToModbus _ m => Some m | _ => None end)
    (cOut (onMessage ClientScenario.env ClientScenario.plugins "dev/set" "5" None "" client).1).

End CommandScenario.

Lemma command_reaches_network_witness :
  commandRegs CommandScenario.command "5" = Ret [5]
  /\ match CommandScenario.sent with
     | [m] =>
         match ModbusThread.dispatchMessage ModbusThread.ThreadScenario.factory ModbusThread.ThreadScenario.msgEnv m
                 CommandScenario.thread CommandScenario.world with
         | Ret (t', w') => let wp := nextPtr (wStore CommandScenario.world) in
                           pending (mExecutor t') ≡ₚ WriteRef wp :: pending (mExecutor CommandScenario.thread)
                           /\ writesCommand CommandScenario.command [5] (writes (wStore w') wp)
         | Fault _ => False
         end
     | _ => False
     end.
Proof.
  split; [vm_compute; reflexivity|].
  destruct (command_reaches_network (C := ModbusContext Device.state) ModbusThread.ThreadScenario.factory ClientScenario.env
              ClientScenario.plugins "dev/set" "5" None "" CommandScenario.client CommandScenario.command [5])
    as (msg & O & P); [reflexivity|by apply list_elem_of_here|vm_compute; reflexivity|reflexivity|].
  unfold CommandScenario.sent. rewrite O. cbn [fst].
  match goal with |- match ?l with _ => _ end => change l with [WriteValues msg]; cbv iota beta end.
  specialize (P ModbusThread.ThreadScenario.msgEnv CommandScenario.thread CommandScenario.world Scenario.busy_inv).
  match goal with |- match ?d with _ => _ end => assert (is_ret d = true) as R; [|destruct d as [[t' w']|]; [|discriminate R]] end.
  { vm_compute in O. injection O as <-. vm_compute. reflexivity. }
  destruct P as (_ & Q & K). split; [exact Q|].
  exact (proj1 (K (Scenario.env 0) (mExecutor t') w' eq_refl)).
Defined.
