(* ===== verification/Lifetime.v ===== *)
(** Resources and their order: dll_import.hpp, the constructor and destructor of ModMqtt
    and what they own (modmqtt.hpp, modmqtt.cpp), and the small methods of ModMqtt.

    A converter is code of the library its plugin comes from.  The server holds plugins
    through pointers that close their library when they are destroyed, so the order in
    which converters and plugins go matters.  The calls into the dynamic linker, the
    libraries and libmosquitto are a log; [replay] says which logs are in order. *)

From stdpp Require Import base gmap list strings.
From Stdlib Require Import ZArith Lia Ascii String.
From S2P Require Import Prelude ConvTools ConvArgs Converters GatewayInit.

#[local] Open Scope string_scope.
#[local] Open Scope Z_scope.

(** * Methods of ModMqtt *)

Section methods.
Context {D : Type}.
Implicit Types (g : ModMqtt D).

(** ModMqtt::addConverterPath *)
Definition addConverterPath (path : string) g : ModMqtt D := withPaths (mConverterPaths g ++ [path])%list g.

(** ModMqtt::getModbusClient *)
Definition getModbusClient (networkName : string) g : outcome ModbusClient :=
  match find (fun c => bool_decide (mcNetworkName c = networkName)) (mModbusClients g) with
  | Some c => Ret c
  | None => Fault (StdException ("Modbus client for network" +:+ networkName +:+ " not found"))
  end.

(** It returns the client of the network when there is one. *)
Lemma getModbusClient_found networkName g :
  (exists c, getModbusClient networkName g = Ret c /\ c ∈ mModbusClients g /\ mcNetworkName c = networkName)
  <-> networkName ∈ mcNetworkName <$> mModbusClients g.
Proof.
  unfold getModbusClient. rewrite list_elem_of_fmap. split.
  - intros (c & _ & In' & E). eauto.
  - intros (c & -> & In'). destruct (find _ _) as [c'|] eqn:F.
    + apply find_some in F as [I E]. apply bool_decide_eq_true in E. exists c'. by rewrite list_elem_of_In.
    + apply (find_none _ _ F) in In' || (apply list_elem_of_In in In'; apply (find_none _ _ F) in In').
      by rewrite bool_decide_eq_true_2 in In'.
Qed.

End methods.

(** * The dynamic linker *)

(** What happens outside, in order. *)
Inductive Event (H : Type) : Type :=
| DlOpen (h : H)
| DlClose (h : H)
| PluginCall (h : H)         (** getName or getConverter of the plugin of a library *)
| ConverterNew (h : H)
| ConverterCall (h : H)
| ConverterDelete (h : H)
| LibInit                    (** mosquitto_lib_init *)
| LibCleanup                 (** mosquitto_lib_cleanup *)
| MosqNew                    (** mosquitto_new *)
| MosqDestroy                (** mosquitto_destroy *)
| ClientStop (name : string) (** ~ModbusClient, which stops a thread that runs *).
Arguments DlOpen {H} h.
Arguments DlClose {H} h.
Arguments PluginCall {H} h.
Arguments ConverterNew {H} h.
Arguments ConverterCall {H} h.
Arguments ConverterDelete {H} h.
Arguments LibInit {H}.
Arguments LibCleanup {H}.
Arguments MosqNew {H}.
Arguments MosqDestroy {H}.
Arguments ClientStop {H} name.

Section lifetime.
Context {H : Type} {handleEq : EqDecision H} {D : Type}.

(** What dlopen returns for a file, a handle or the text of dlerror, and dlsym for a
    symbol, a pointer that may be null or the text; the memory of that text belongs to
    the linker, and may hold another one after dlclose. *)
Record Linker : Type := mkLinker {
  dlopen : string -> H + string;
  dlsym : H -> string -> option (ConverterPlugin D) + string;
  textAfterClose : string -> string
}.

(** dll_import *)
Definition dll_import (l : Linker) (libname symbol_name : string)
  : list (Event H) * outcome (H * option (ConverterPlugin D)) :=
  match dlopen l libname with
  | inr e => ([], Fault (StdException ("Cannot open library: " +:+ e)))
  | inl handle =>
      match dlsym l handle symbol_name with
      | inr e => ([DlOpen handle; DlClose handle],
                  Fault (StdException ("Cannot load symbol '" +:+ symbol_name +:+ "': " +:+ textAfterClose l e)))
      | inl plugin_instance => ([DlOpen handle], Ret (handle, plugin_instance))
      end
  end.

(** What the process owns: the plugins of the server, the converters local variables
    and the objects and commands of the MQTT client point to, whether the client uses
    libmosquitto, and the clients of the networks whose threads run. *)
Record Life : Type := mkLife {
  lLog : list (Event H);
  lPlugins : list (H * ConverterPlugin D);
  lLocal : list H;
  lOwned : list H;
  lMosq : bool;
  lClients : list string
}.

Definition emit (es : list (Event H)) (s : Life) : Life :=
  mkLife (lLog s ++ es)%list (lPlugins s) (lLocal s) (lOwned s) (lMosq s) (lClients s).
Definition setPlugins v (s : Life) : Life := mkLife (lLog s) v (lLocal s) (lOwned s) (lMosq s) (lClients s).
Definition setLocal v (s : Life) : Life := mkLife (lLog s) (lPlugins s) v (lOwned s) (lMosq s) (lClients s).
Definition setOwned v (s : Life) : Life := mkLife (lLog s) (lPlugins s) (lLocal s) v (lMosq s) (lClients s).
Definition setMosq v (s : Life) : Life := mkLife (lLog s) (lPlugins s) (lLocal s) (lOwned s) v (lClients s).
Definition setClients v (s : Life) : Life := mkLife (lLog s) (lPlugins s) (lLocal s) (lOwned s) (lMosq s) v.

(** ModMqtt::ModMqtt, with the constructor of MqttClient. *)
Definition newServer : Life := mkLife [LibInit; MosqNew] [] [] [] true [].

(** The names std::find_if asks for, up to the one it finds. *)
Fixpoint namesAsked (name : string) (plugins : list (H * ConverterPlugin D)) : list (Event H) :=
  match plugins with
  | [] => []
  | (h, p) :: rest =>
      PluginCall h :: if bool_decide (pluginName p = name) then [] else namesAsked name rest
  end.
Definition pluginOf (name : string) (plugins : list (H * ConverterPlugin D)) : option (H * ConverterPlugin D) :=
  find (fun hp => bool_decide (pluginName hp.2 = name)) plugins.

(** One element of converter_plugins in initServer, once its file has been found: the
    pointer that goes out of scope in the case of an error closes the library. *)
Definition loadPlugin (l : Linker) (path : string) (s : Life) : Life * outcome unit :=
  match dll_import l path "converter_plugin" with
  | (es, Fault f) => (emit es s, Fault f)
  | (es, Ret (h, None)) => (emit es s, Fault NullDereferenced)
  | (es, Ret (h, Some p)) =>
      let s1 := emit (es ++ [PluginCall h] ++ namesAsked (pluginName p) (lPlugins s))%list s in
      match pluginOf (pluginName p) (lPlugins s) with
      | Some _ => (emit [PluginCall h; DlClose h] s1,
                   Fault (StdException ("Converter plugin " +:+ pluginName p +:+ " already loaded")))
      | None => (emit [PluginCall h] (setPlugins (lPlugins s ++ [(h, p)])%list s1), Ret tt)
      end
  end.

(** createConverterFromString: a converter that refuses its arguments is deleted. *)
Definition createConverter (pSpec : string) (s : Life) : Life * outcome unit :=
  match parseSpec pSpec with
  | Fault f => (s, Fault f)
  | Ret parsed =>
      let s1 := emit (namesAsked (spPlugin parsed) (lPlugins s)) s in
      let notFound := ArgParser.parserError ("Converter " +:+ spPlugin parsed +:+ "." +:+ spConverter parsed
                                            +:+ " not found") in
      match pluginOf (spPlugin parsed) (lPlugins s) with
      | None => (s1, notFound)
      | Some (h, p) =>
          let s2 := emit [PluginCall h] s1 in
          match pluginConverter p (spConverter parsed) with
          | None => (s2, notFound)
          | Some conv =>
              let s3 := setLocal (h :: lLocal s) (emit [ConverterNew h] s2) in
              if bool_decide (spArguments parsed = "()") then (s3, Ret tt)
              else
                let s4 := emit [ConverterCall h] s3 in
                match ArgParser.parseArgs (getArgs conv) (spArguments parsed) with
                | Fault f => (emit [ConverterDelete h] (setLocal (lLocal s) s4), Fault f)
                | Ret values =>
                    let s5 := emit [ConverterCall h] s4 in
                    match setArgValues conv values with
                    | Ret _ => (s5, Ret tt)
                    | Fault f => (emit [ConverterDelete h] (setLocal (lLocal s) s5), Fault f)
                    end
                end
          end
      end
  end.

(** What happens to the server between its construction and its end. *)
Inductive LifeOp : Type :=
| OpLoadPlugin (l : Linker) (path : string)
| OpCreateConverter (pSpec : string)
| OpStore                               (** objects and commands go to the MQTT client *)
| OpConvert (i : nat)                   (** a converter of the client is used *)
| OpSetMqttImplementation               (** setMqttImplementation, of the tests *)
| OpStartClient (name : string)
| OpStopClients
| OpThrow (f : fault).

Definition lifeOp (o : LifeOp) (s : Life) : Life * outcome unit :=
  match o with
  | OpLoadPlugin l path => loadPlugin l path s
  | OpCreateConverter pSpec => createConverter pSpec s
  | OpStore => (setLocal [] (setOwned (lLocal s ++ lOwned s)%list s), Ret tt)
  | OpConvert i => (match lOwned s !! i with Some h => emit [ConverterCall h] s | None => s end, Ret tt)
  | OpSetMqttImplementation => ((if lMosq s then emit [MosqDestroy] (setMosq false s) else s), Ret tt)
  | OpStartClient name => (setClients (lClients s ++ [name])%list s, Ret tt)
  | OpStopClients => (emit (ClientStop <$> lClients s) (setClients [] s), Ret tt)
  | OpThrow f => (s, Fault f)
  end.

(** An exception destroys the local variables and ends the run. *)
Fixpoint lifeRun (ops : list LifeOp) (s : Life) : Life :=
  match ops with
  | [] => s
  | o :: rest =>
      match lifeOp o s with
      | (s', Ret _) => lifeRun rest s'
      | (s', Fault _) => emit (ConverterDelete <$> lLocal s') (setLocal [] s')
      end
  end.

(** ~ModMqtt: its body, which releases the MQTT client, and then the members, the last
    one first. *)
Definition destroyServer (s : Life) : Life :=
  let s1 := emit [LibCleanup] s in
  let s2 := emit ((ConverterDelete <$> lOwned s1) ++ (if lMosq s1 then [MosqDestroy] else []))%list
              (setOwned [] (setMosq false s1)) in
  let s3 := emit (DlClose <$> (lPlugins s2).*1) (setPlugins [] s2) in
  emit (ClientStop <$> lClients s3) (setClients [] s3).

(** All of a server's life; local variables end with their function. *)
Definition lifetime (ops : list LifeOp) : Life :=
  let s := lifeRun ops newServer in
  destroyServer (emit (ConverterDelete <$> lLocal s) (setLocal [] s)).

(** * Logs that are in order *)

Fixpoint removeOne (h : H) (l : list H) : option (list H) :=
  match l with
  | [] => None
  | x :: l' => if bool_decide (x = h) then Some l' else (fun r => x :: r) <$> removeOne h l'
  end.

(** The libraries that are open, as often as they have been opened, and the libraries of
    the converters that exist.  Code of a library is called while it is open, a library
    that is closed for the last time has no converters, and only what exists is deleted
    or closed. *)
Definition replayStep (e : Event H) (st : list H * list H) : option (list H * list H) :=
  let '(opened, live) := st in
  let guarded (h : H) (k : option (list H * list H)) := if bool_decide (h ∈ opened) then k else None in
  match e with
  | DlOpen h => Some (h :: opened, live)
  | DlClose h =>
      match removeOne h opened with
      | Some opened' => if bool_decide (h ∈ opened') || negb (bool_decide (h ∈ live)) then Some (opened', live) else None
      | None => None
      end
  | PluginCall h => guarded h (Some st)
  | ConverterNew h => guarded h (Some (opened, h :: live))
  | ConverterCall h => guarded h (if bool_decide (h ∈ live) then Some st else None)
  | ConverterDelete h => guarded h ((fun live' => (opened, live')) <$> removeOne h live)
  | _ => Some st
  end.

Fixpoint replay (log : list (Event H)) (st : list H * list H) : option (list H * list H) :=
  match log with
  | [] => Some st
  | e :: rest => match replayStep e st with Some st' => replay rest st' | None => None end
  end.

Lemma removeOne_perm h l l1 : l ≡ₚ h :: l1 -> exists l2, removeOne h l = Some l2 /\ l2 ≡ₚ l1.
Proof.
  revert l1. induction l as [|x l IH]; intros l1 P; [by apply Permutation_nil_cons in P|]. cbn.
  case_bool_decide as E; [subst x; exists l; split; [done|by apply Permutation_cons_inv in P]|].
  assert (h ∈ l) as M.
  { assert (h ∈ x :: l) as M by (rewrite P; set_solver). set_solver. }
  apply elem_of_Permutation in M as (k & Pk). destruct (IH k Pk) as (l2 & -> & P2). exists (x :: l2). split; [done|].
  rewrite P2. apply (Permutation_cons_inv (a := h)). rewrite <- P, Pk. apply perm_swap.
Qed.

(** From what is open and what lives, [es] is in order and leaves what is said. *)
Definition inOrder (o l : list H) (es : list (Event H)) (o' l' : list H) : Prop :=
  forall o1 l1, o1 ≡ₚ o -> l1 ≡ₚ l -> exists o2 l2, replay es (o1, l1) = Some (o2, l2) /\ o2 ≡ₚ o' /\ l2 ≡ₚ l'.

#[local] Instance inOrder_proper : Proper (Permutation ==> Permutation ==> eq ==> Permutation ==> Permutation ==> iff) inOrder.
Proof.
  intros o o' Po l l' Pl es ? <- p p' Pp m m' Pm. unfold inOrder.
  split; intros G o1 l1; [rewrite <- Po, <- Pl|rewrite Po, Pl]; intros A B;
    destruct (G o1 l1 A B) as (o2 & l2 & R & A' & B'); exists o2, l2; [rewrite <- Pp, <- Pm|rewrite Pp, Pm]; done.
Qed.

Lemma inOrder_nil o l : inOrder o l [] o l.
Proof. intros o1 l1 ? ?. by exists o1, l1. Qed.

Lemma inOrder_cons o l e o1 l1 es o2 l2 :
  inOrder o l [e] o1 l1 -> inOrder o1 l1 es o2 l2 -> inOrder o l (e :: es) o2 l2.
Proof.
  intros A B p m P M. destruct (A p m P M) as (p1 & m1 & R & P1 & M1). cbn [replay] in *.
  destruct (replayStep e (p, m)); [|done]. injection R as ->. by apply B.
Qed.

Lemma inOrder_app o l es o1 l1 es' o2 l2 :
  inOrder o l es o1 l1 -> inOrder o1 l1 es' o2 l2 -> inOrder o l (es ++ es') o2 l2.
Proof.
  intros A B p m P M. destruct (A p m P M) as (p1 & m1 & R & P1 & M1).
  assert (replay (es ++ es') (p, m) = replay es' (p1, m1)) as ->; [|by apply B].
  clear -R. revert p m R. induction es as [|e es IH]; intros p m R; cbn [replay app] in *; [by injection R as -> ->|].
  destruct (replayStep e (p, m)) as [[]|]; [by apply IH|done].
Qed.

Lemma inOrder_open o l h : inOrder o l [DlOpen h] (h :: o) l.
Proof. intros p m P M. exists (h :: p), m. split_and!; [done|by apply Permutation_skip|done]. Qed.

Lemma inOrder_close o l h : h ∈ o \/ h ∉ l -> inOrder (h :: o) l [DlClose h] o l.
Proof.
  intros C p m P M. destruct (removeOne_perm _ _ _ P) as (p' & R & P'). exists p', m. split; [|done].
  cbn. rewrite R. destruct C as [C|C].
  - by rewrite bool_decide_eq_true_2 by (by rewrite P').
  - rewrite (bool_decide_eq_false_2 (h ∈ m)) by (by rewrite M). by rewrite orb_true_r.
Qed.

Lemma inOrder_plugin o l h : h ∈ o -> inOrder o l [PluginCall h] o l.
Proof. intros I p m P M. exists p, m. cbn. by rewrite bool_decide_eq_true_2 by (by rewrite P). Qed.

Lemma inOrder_new o l h : h ∈ o -> inOrder o l [ConverterNew h] o (h :: l).
Proof.
  intros I p m P M. exists p, (h :: m). cbn. rewrite bool_decide_eq_true_2 by (by rewrite P).
  split_and!; [done|done|by apply Permutation_skip].
Qed.

Lemma inOrder_call o l h : h ∈ o -> h ∈ l -> inOrder o l [ConverterCall h] o l.
Proof.
  intros I J p m P M. exists p, m. cbn. by rewrite !bool_decide_eq_true_2 by (by rewrite ?P, ?M).
Qed.

Lemma inOrder_deletes o l hs : Forall (fun h => h ∈ o) hs -> inOrder o (hs ++ l) (ConverterDelete <$> hs) o l.
Proof.
  intros F. induction F as [|h hs I F IH]; cbn; [apply inOrder_nil|]. apply inOrder_cons with o (hs ++ l)%list; [|done].
  intros p m P M. destruct (removeOne_perm _ _ _ M) as (m' & R & M'). exists p, m'. cbn.
  rewrite bool_decide_eq_true_2 by (by rewrite P). by rewrite R.
Qed.

Lemma inOrder_closes hs : inOrder hs [] (DlClose <$> hs) [] [].
Proof. induction hs as [|h hs IH]; cbn; [apply inOrder_nil|]. eapply inOrder_cons; [apply inOrder_close; set_solver|done]. Qed.

Lemma inOrder_stops o l names : inOrder o l (ClientStop <$> names) o l.
Proof. induction names as [|n names IH]; cbn; [apply inOrder_nil|]. eapply inOrder_cons; [apply inOrder_nil|done]. Qed.

Lemma inOrder_names o l name plugins : (forall h, h ∈ plugins.*1 -> h ∈ o) -> inOrder o l (namesAsked name plugins) o l.
Proof.
  induction plugins as [|[h p] plugins IH]; intros I; cbn; [apply inOrder_nil|].
  eapply inOrder_cons; [apply inOrder_plugin, I; set_solver|]. case_bool_decide; [apply inOrder_nil|].
  apply IH. intros h' M. apply I. set_solver.
Qed.

Lemma pluginOf_in name plugins h p : pluginOf name plugins = Some (h, p) -> h ∈ plugins.*1.
Proof. unfold pluginOf. intros F. apply find_some in F as [I _]. apply list_elem_of_In in I. by apply (list_elem_of_fmap_2 fst) in I. Qed.

(** * The invariant *)

(** The log is in order, the libraries that are open are those of the plugins, and the
    converters that live are the ones something points to; their plugins are loaded. *)
Record lifeInv (s : Life) : Prop := mkLifeInv {
  li_log : inOrder [] [] (lLog s) (lPlugins s).*1 (lLocal s ++ lOwned s);
  li_loaded : Forall (fun h => h ∈ (lPlugins s).*1) (lLocal s ++ lOwned s)
}.

Lemma lifeInv_new : lifeInv newServer.
Proof. split; [|by constructor]. apply inOrder_cons with [] []; [apply inOrder_nil|]. apply inOrder_cons with [] []; apply inOrder_nil. Qed.

(** The address of an object is not null. *)
Definition symbolsDefined (o : LifeOp) : Prop :=
  match o with OpLoadPlugin l _ => forall h name, dlsym l h name <> inl None | _ => True end.

Lemma lifeInv_load l path s : (forall h name, dlsym l h name <> inl None) -> lifeInv s -> lifeInv (loadPlugin l path s).1.
Proof.
  intros Sy [G F]. unfold loadPlugin, dll_import. destruct (dlopen l path) as [h|]; cbn [fst].
  2: { split; [|done]. eapply inOrder_app; [done|apply inOrder_nil]. }
  assert (forall es o' l', inOrder (h :: (lPlugins s).*1) (lLocal s ++ lOwned s) es o' l' ->
            inOrder [] [] (lLog s ++ DlOpen h :: es) o' l') as Go.
  { intros es o' l' G'. eapply inOrder_app; [done|]. eapply inOrder_cons; [apply inOrder_open|done]. }
  assert (inOrder (h :: (lPlugins s).*1) (lLocal s ++ lOwned s) [DlClose h] (lPlugins s).*1 (lLocal s ++ lOwned s)) as Cl.
  { apply inOrder_close. destruct (decide (h ∈ (lLocal s ++ lOwned s)%list)) as [I|N]; [left|by right].
    rewrite Forall_forall in F. by apply F. }
  destruct (dlsym l h "converter_plugin") as [[p|]|] eqn:Ds; cbn [fst]; [|by destruct (Sy _ _ Ds)|by split; [apply Go|]].
  assert (inOrder (h :: (lPlugins s).*1) (lLocal s ++ lOwned s) (PluginCall h :: namesAsked (pluginName p) (lPlugins s))
            (h :: (lPlugins s).*1) (lLocal s ++ lOwned s)) as Na.
  { eapply inOrder_cons; [apply inOrder_plugin; set_solver|]. apply inOrder_names. set_solver. }
  destruct (pluginOf (pluginName p) (lPlugins s)) eqn:Po; split; cbn -[inOrder]; try done.
  - rewrite <- app_assoc. cbn -[inOrder]. apply Go. rewrite app_comm_cons. eapply inOrder_app; [exact Na|].
    eapply inOrder_cons; [apply inOrder_plugin; set_solver|done].
  - rewrite fmap_app, <- app_assoc. cbn -[inOrder]. rewrite (Permutation_app_comm (lPlugins s).*1 [h]). apply Go.
    rewrite app_comm_cons. eapply inOrder_app; [exact Na|]. apply inOrder_plugin. set_solver.
  - rewrite fmap_app. eapply Forall_impl; [done|]. set_solver.
Qed.

Lemma lifeInv_create pSpec s : lifeInv s -> lifeInv (createConverter pSpec s).1.
Proof.
  intros [G F]. unfold createConverter. destruct (parseSpec pSpec) as [parsed|]; [|by split].
  assert (inOrder [] [] (lLog s ++ namesAsked (spPlugin parsed) (lPlugins s)) (lPlugins s).*1 (lLocal s ++ lOwned s)) as G1
    by (eapply inOrder_app; [done|by apply inOrder_names]).
  destruct (pluginOf (spPlugin parsed) (lPlugins s)) as [[h p]|] eqn:Po; [|by split].
  apply pluginOf_in in Po. set (o := (lPlugins s).*1) in *. set (l := (lLocal s ++ lOwned s)%list) in *.
  assert (inOrder [] [] ((lLog s ++ namesAsked (spPlugin parsed) (lPlugins s)) ++ [PluginCall h]) o l) as G2
    by (eapply inOrder_app; [done|by apply inOrder_plugin]).
  destruct (pluginConverter p (spConverter parsed)) as [conv|]; [|by split].
  assert (Forall (fun h' => h' ∈ o) (h :: l)) as F1 by (by constructor).
  assert (inOrder [] [] (((lLog s ++ namesAsked (spPlugin parsed) (lPlugins s)) ++ [PluginCall h]) ++ [ConverterNew h]) o (h :: l)) as G3
    by (eapply inOrder_app; [done|by apply inOrder_new]).
  case_bool_decide; [by split|].
  assert (inOrder o (h :: l) [ConverterCall h] o (h :: l)) as C by (apply inOrder_call; set_solver).
  assert (inOrder o (h :: l) [ConverterDelete h] o l) as De by (apply (inOrder_deletes o l [h]); by repeat constructor).
  destruct (ArgParser.parseArgs _ _) as [v|]; [destruct (setArgValues conv v)|]; split; cbn -[inOrder]; try done;
    repeat (eapply inOrder_app; [|solve [exact C | exact De]]); exact G3.
Qed.

Lemma lifeInv_op o s : symbolsDefined o -> lifeInv s -> lifeInv (lifeOp o s).1.
Proof.
  intros Sy I. destruct o as [l path|pSpec| |i| |name| |f]; cbn [lifeOp fst].
  - by apply lifeInv_load.
  - by apply lifeInv_create.
  - destruct I as [G F]. by split.
  - destruct (lOwned s !! i) as [h|] eqn:E; [|done]. destruct I as [G F]. apply list_elem_of_lookup_2 in E.
    split; [|done]. eapply inOrder_app; [done|]. rewrite Forall_forall in F. apply inOrder_call; [apply F|]; set_solver.
  - destruct (lMosq s); [|done]. destruct I as [G F]. split; [|done]. eapply inOrder_app; [done|apply inOrder_nil].
  - by destruct I.
  - destruct I as [G F]. split; [|done]. eapply inOrder_app; [done|apply inOrder_stops].
  - done.
Qed.

(** Local variables go. *)
Lemma lifeInv_locals s : lifeInv s -> lifeInv (emit (ConverterDelete <$> lLocal s) (setLocal [] s)).
Proof.
  intros [G F]. apply Forall_app in F as [F1 F2]. split; [|done].
  eapply inOrder_app; [done|by apply inOrder_deletes].
Qed.

Lemma lifeInv_run ops s : Forall symbolsDefined ops -> lifeInv s -> lifeInv (lifeRun ops s).
Proof.
  intros Sy. revert s. induction Sy as [|o ops S1 Sy IH]; intros s I; cbn [lifeRun]; [done|].
  pose proof (lifeInv_op o s S1 I) as I'. destruct (lifeOp o s) as [s' [|f]]; [by apply IH|by apply lifeInv_locals].
Qed.

Lemma destroyServer_order s : lifeInv s -> lLocal s = [] -> inOrder [] [] (lLog (destroyServer s)) [] [].
Proof.
  intros [G F] E. rewrite E in *. cbn [app] in *. unfold destroyServer. cbn -[inOrder].
  apply inOrder_app with [] []; [|apply inOrder_stops].
  apply inOrder_app with (lPlugins s).*1 []; [|apply inOrder_closes].
  apply inOrder_app with (lPlugins s).*1 (lOwned s); [eapply inOrder_app; [done|apply inOrder_nil]|].
  apply inOrder_app with (lPlugins s).*1 [].
  - rewrite <- (app_nil_r (lOwned s)) at 1. by apply inOrder_deletes.
  - destruct (lMosq s); apply inOrder_nil.
Qed.

(** Whatever is loaded, created, used and thrown in the life of a server, code of a
    library is called only while the library is open, no library is closed that still
    has converters, and in the end every library is closed as often as it was opened and
    every converter has been deleted. *)
Theorem libraries_outlive_converters ops :
  Forall symbolsDefined ops -> replay (lLog (lifetime ops)) ([], []) = Some ([], []).
Proof.
  intros Sy. pose proof (lifeInv_locals _ (lifeInv_run ops _ Sy lifeInv_new)) as I.
  destruct (destroyServer_order _ I eq_refl [] []) as (o & l & R & Po & Pl); [done..|].
  apply Permutation_nil_r in Po, Pl. subst. exact R.
Qed.

(** The destructor calls mosquitto_lib_cleanup before the client with its object of
    libmosquitto is destroyed. *)
Theorem cleanup_before_destroy s :
  lMosq s = true ->
  exists before after, lLog (destroyServer s) = (lLog s ++ [LibCleanup] ++ before ++ [MosqDestroy] ++ after)%list.
Proof.
  intros E. unfold destroyServer. cbn. rewrite E. eexists (ConverterDelete <$> lOwned s), _. by rewrite <- !app_assoc.
Qed.

(** A creation that is logged is the one of [Converters]. *)
Theorem createConverter_result pSpec s :
  (exists c, createConverterFromString (lPlugins s).*2 pSpec = Ret c) <-> (createConverter pSpec s).2 = Ret tt.
Proof.
  unfold createConverterFromString, createConverter. destruct (parseSpec pSpec) as [parsed|]; cbn; [|naive_solver].
  assert (forall name conv, createConverterInstance (lPlugins s).*2 name conv
            = match pluginOf name (lPlugins s) with Some (_, p) => pluginConverter p conv | None => None end) as ->.
  { intros name conv. unfold pluginOf. induction (lPlugins s) as [|[h p] l IH]; cbn; [done|]. by case_bool_decide. }
  destruct (pluginOf _ _) as [[h p]|]; [|naive_solver].
  destruct (pluginConverter p _) as [conv|]; [|naive_solver].
  case_bool_decide; cbn; [naive_solver|]. destruct (ArgParser.parseArgs _ _) as [v|]; cbn; [|naive_solver].
  destruct (setArgValues conv v); naive_solver.
Qed.

End lifetime.

(** * A server that fails to start *)

Module LifeScenario.

(** Two files with the standard converters, and one that is no library. *)
Definition linker : Linker (H := string) (D := Z) :=
  mkLinker (fun path => if bool_decide (path = "broken") then inr "invalid ELF header" else inl path)
           (fun _ _ => inl (Some (stdPlugin (D := Z) true))) id.

(** The second plugin has the name of the first one. *)
Definition ops : list (LifeOp (H := string) (D := Z)) :=
  [OpLoadPlugin linker "std"; OpCreateConverter "std.int16()"; OpStore; OpCreateConverter "std.int32()";
   OpLoadPlugin linker "copy"; OpConvert 0].

Definition log : list (Event string) :=
  [LibInit; MosqNew; DlOpen "std"; PluginCall "std"; PluginCall "std";
   PluginCall "std"; PluginCall "std"; ConverterNew "std"; ConverterCall "std"; ConverterCall "std";
   PluginCall "std"; PluginCall "std"; ConverterNew "std"; ConverterCall "std"; ConverterCall "std";
   DlOpen "copy"; PluginCall "copy"; PluginCall "std"; PluginCall "copy"; DlClose "copy"; ConverterDelete "std";
   LibCleanup; ConverterDelete "std"; MosqDestroy; DlClose "std"].

Example scenario_log : lLog (lifetime ops) = log.
Proof. vm_compute. reflexivity. Qed.

Lemma libraries_outlive_converters_witness : replay log ([], []) = Some ([], []).
Proof.
  rewrite <- scenario_log. apply (libraries_outlive_converters ops).
  repeat constructor; intros; discriminate.
Defined.

End LifeScenario.
